(* ===== verification/_CoqProject ===== *)
-Q . S2P
Prelude.v
CString.v
CLib.v
Common.v
Hash.v
Core.v
HashTable.v
Enclave.v
Config.v
Types.v
ToyPlatform.v
Rep.v
CoreProofs.v
RootProofs.v
HashTableProofs.v
StoreProofs.v
EnclaveProofs.v
AppendProofs.v
Service.v
EnclaveService.v
Isolation.v
Dispatch.v
DispatchProofs.v
HotCalls.v
HotCallsProofs.v
HotCallsClaims.v
Responder.v
ResponderProofs.v
Server.v
Results.v
ServerProofs.v
Client.v
ClientProofs.v
Session.v
Wire.v
ClientClaims.v
Demo.v
StoreClaims.v
ResponderClaims.v
SecurityProofs.v
SecurityClaims.v
AssertClaims.v
DispatchClaims.v
HashClaims.v
HostClaims.v
ServerClaims.v
Fleet.v
FleetJobs.v
FleetInv.v
FleetProofs.v
FleetRuns.v
FleetStart.v
FleetClaims.v
Switchless.v
SwitchlessClaims.v
PlainTable.v
PlainProofs.v
PlainTrace.v
PlainMain.v
PlainClaims.v
Eleos.v
EleosProofs.v
EleosTrace.v
EleosClaims.v
Region.v
