(* ===== verification/Prelude.v ===== *)
(** * ShieldStore: a verification development

    ShieldStore is a key-value store whose hash table lives in untrusted memory, encrypted
    entry by entry, while an SGX enclave keeps the key and the roots of a tree of MACs.
    This development models the programs of the repository in Rocq and proves what they do.

    ** The parts of the program and where they are modelled

    The main thread of the host ([src/App/App.cpp]: [Server]) builds the tables, starts the
    enclave and reads the messages of the clients ([src/client]: [Client]).  It posts each
    message in a shared record and waits ([src/Common/hot_calls.h], [src/App/spinlock.c]:
    [HotCalls]); a responder thread in the enclave runs [enclave_message_pass] on it
    ([src/Enclave/Enclave.cpp]: [Dispatch]; both together: [Responder]), which answers control
    messages and queues every other request for the worker that owns the bucket of its key.
    A worker runs [enclave_set], [enclave_get] or [enclave_append] ([Enclave]) on the hash
    table ([src/Enclave/ht.cpp]: [HashTable], [Hash]) with the encryption and the MACs of
    [src/Enclave/core.cpp] ([Core]) and sends the answer back.

    - [Prelude]: outcomes, the state monad, loops, machine integers, arrays with bounds.
    - [CString], [CLib]: the C library functions the sources call.
    - [Common]: the structures of [Common/common.h] and [Enclave/Enclave.h]; the globals of
      the enclave and untrusted memory are one record; [Platform] is the interface of the
      SGX SDK and of the untrusted allocator, [PlatformOk] its documented behaviour.
    - [Hash], [Core], [HashTable], [Enclave]: one definition per C function, same names.
    - [Dispatch]: the queues and the workers; a worker takes a job from the front of its queue,
      runs it and removes it in three steps ([worker_step]).  It says which queue has an initialised
      mutex, and where the table header is that the enclave uses: Enclave.edl passes it by
      [[in]], so it is a copy that is freed when the ecall of its thread returns.
    - [HotCalls], [Responder]: callers, responder and lock as program counters; a step is one
      access to the shared record.
    - [Server], [Client], [Session], [Wire]: the host, the two clients, a thread of a client with
      its answers and output, the format of requests.
    - [Results]: the clocks of the programs and the lines they append to [result.txt].
    - [Fleet]: the whole system, client threads, main thread and workers, as one machine whose
      turns come in any order.
    - [Switchless]: the variant of [Experiment/Motivation/Switchless].
    - [PlainTable], [PlainMain]: the stores without protection, [Unsecure_kvs] and [Baseline_kvs],
      their tables and loops, their [main] and traces.
    - [Eleos]: the store on the Eleos library, [Experiment/eleos_shieldstore].
    - [Region]: the micro benchmarks [Unsecure], [SGX_Unprotected] and [SGX_Enclave].

    ** How the code is read

    A C function is a function in [M S] for a state [S], or in [res] where it has none: it
    returns a value or ends in a [fault], an access outside of an object, a NULL or dangling
    pointer, a division by zero, a failed assertion, or [exit].  Objects in memory are
    entries of a [gmap] from locations, buffers are lists of bytes whose every access is
    checked, and integers are [Z] with the wrap-around of their type written out.  A buffer
    that a function changes in place is an argument and a result.

    Loops over linked data take fuel.  The searches of the tables are run with one more than the
    number of entries in memory, a bound for any chain without a cycle, so with the
    invariants below the theorems say that the result is reached, never [Out_of_fuel].  In
    [Eleos], whose memory is a parameter, the fuel is an argument and the theorems hold from
    the number of keys on.  A barrier at which a thread would wait for ever is
    [Out_of_fuel], too.

    ** What is proved

    - The store ([Rep], [CoreProofs] to [AppendProofs], [EnclaveService], [StoreClaims]): a
      state [holds] a map from keys to values when its chains, MAC buckets and roots are
      those of the map; every job keeps this, changes the map as the abstract store of
      [Service] does and gives its reply.  [KvService] is the interface: the dispatcher is
      verified against it and the enclave is an instance.
    - Protection ([SecurityProofs], [SecurityClaims]): the roots accept only their MACs, and
      where the code does not detect a change; what the capacities it does not check do.
      [AssertClaims]: what a build with assertions would do.  [Types], [HostClaims]: a host that
      writes anything to its memory between jobs breaks no type and chooses no root, but the
      number of buckets, which it passes when it starts a worker and nothing compares with the
      first one, leads accesses out of the table of roots.
    - Scheduling ([Isolation], [DispatchProofs], [DispatchClaims]): under every interleaving
      jobs run once and in order, a job sees and changes only its worker's part of the store,
      whatever the other workers are doing to theirs.  A message that is passed before the
      workers have started meets a mutex nobody has initialised or a header that is gone, and
      so does every message after an unknown command has ended the worker whose header it is.
    - Hot calls ([HotCallsProofs], [HotCallsClaims], [ResponderProofs], [ResponderClaims]):
      mutual exclusion, exactly-once calls, progress; a hot call of the main thread is one
      [enclave_message_pass], which justifies its use as one operation in [Server].
    - Host and clients ([ServerProofs], [ServerClaims], [ClientProofs], [ClientClaims]): the
      start leads to the empty store, connections are counted, how the loop ends and how it
      dies; every line of a trace is sent once, and what is sent is what is parsed.
    - The whole system ([FleetJobs] to [FleetClaims]): when the workers have started before the
      first message is read ([workers_first]; [main] does not see to it) and the answers can be
      written ([writes_ok]), all clients see one order of all requests under every schedule,
      every fair schedule ends with every request answered, and from the command lines of
      server and clients to the end of the last worker nothing goes wrong, unless fewer run
      clients come than there were load clients.
    - Variants ([SwitchlessClaims], [PlainProofs] to [PlainClaims], [EleosProofs] to
      [EleosClaims], [Region]): a failed ecall loses a message, the tables are maps, what
      whole programs print, write to their files of results and leave in memory, and which
      accesses leave their buffers.

    Theorems with hypotheses are applied at concrete states: [Demo] is a small store on the
    platform of [ToyPlatform], which satisfies [PlatformOk].

    ** Limits of the model

    - A job of a worker is one step.  Workers share no bucket, entry or root
      ([workers_do_not_interfere]) when the sizes divide evenly, so a job does not see how far
      the jobs of other workers have come; the untrusted allocator and the random numbers, which
      they share, are taken as atomic, and so are queue operations under their mutex.
    - The fields of the hot-call record are read and written in a sequentially consistent
      order; in the code only the spin lock is [volatile], the other fields are plain.
    - [assert] follows the parameter [NDEBUG] of [Platform], so the theorems are about builds with
      and without it.  The Makefile defines it for the enclave.  Without it an assertion in
      [enclave_rebuild_tree_root] would end the enclave at the second key of a bucket
      ([AssertClaims]), and the requests the theorems allow ([within]) add a key only to an
      empty bucket.
    - The copies of the table header that the ecalls take are told apart by the worker whose
      ecall it is ([header]); their contents are one field, assigned when a worker starts.
      The copy of the MAC buffer, assigned and freed together with it, is used after it.
    - A write to a socket either takes the whole message or fails ([sys_write]); then the ocall
      closes the socket, and the message is lost.  The signal of a write to a socket that its
      client has closed is not modelled.
    - One round of [select] is one step of the host.  In [Fleet] it reports one socket at a time,
      a message is written and read as a whole, the buffers of clients and server have the same
      size, and the clients of a program are connected before the first of them leaves.
      The invariant there needs no fuel: [work] bounds the steps that are left.
    - [strtok_r] inside the enclave leaves a NULL rest after the last token, the one of the host
      a pointer to the NUL; both are modelled where they are used.
    - Nothing is assumed about the secrecy of the encryption, and nothing proved.  Integrity is
      stated against the MAC function: a change is accepted only with equal MACs.

    ** Not modelled

    gperftools is a vendored allocator, of which the store uses [tc_malloc] and [tc_realloc]
    through ocalls: they are part of [Platform].  The SGX SDK and the Eleos library are not in
    the repository: they are parameters, [Platform] and [Suvm], and so are the stubs generated
    from the EDL files.  The clocks of the programs are arguments, not tied to the length of
    what they measure.  Allocations by [malloc] outside of the tables succeed.  The
    generators of the workloads are Python scripts around YCSB. *)

From Stdlib Require Import Strings.Byte Strings.String ZArith Lia.
From Stdlib Require Export Init.Byte.
From stdpp Require Export base numbers gmap strings option tactics list list_relations list_monad.

#[global] Open Scope Z_scope.
#[global] Set Default Goal Selector "!".

(** ** Outcomes of C code

    A C function either returns, or does something the language gives no
    meaning to (or that ends the process).  [fault] names those cases. *)
Inductive fault :=
  | Null_deref      (* a NULL pointer is read or written *)
  | Bad_ptr         (* a pointer that designates no live object *)
  | Uninit          (* an object before its initialisation or after its destruction *)
  | Out_of_bounds   (* an access outside its array *)
  | Div_by_zero
  | Assert_failed   (* [assert] in a build without NDEBUG *)
  | Exited          (* [exit] was called *)
  | Out_of_fuel.    (* the loop did not end within its bound *)

Inductive res (A : Type) :=
  | Ok (a : A)
  | Fault (f : fault).
Arguments Ok {A} a.
Arguments Fault {A} f.

#[global] Instance fault_eq_dec : EqDecision fault.
Proof. solve_decision. Defined.

#[global] Instance res_ret : MRet res := @Ok.
#[global] Instance res_bind : MBind res := λ A B k m,
  match m with Ok a => k a | Fault f => Fault f end.

(** Code that works on a state ['S]: explicit state passing, a fault keeps no
    state. *)
Definition M (S A : Type) : Type := S → res (A * S).

#[global] Instance M_ret {S} : MRet (M S) := λ A a s, Ok (a, s).
#[global] Instance M_fmap {S} : FMap (M S) := λ A B f m s,
  match m s with Ok (a, s') => Ok (f a, s') | Fault f => Fault f end.
#[global] Instance M_bind {S} : MBind (M S) := λ A B k m s,
  match m s with Ok (a, s') => k a s' | Fault f => Fault f end.

Definition raise {S A} (f : fault) : M S A := λ _, Fault f.
Definition lift {S A} (r : res A) : M S A := λ s, a ← r; Ok (a, s).
Definition gets {S A} (f : S → A) : M S A := λ s, Ok (f s, s).
Definition modify {S} (f : S → S) : M S unit := λ s, Ok (tt, f s).

(** [for(i in l) a = f(i, a);] *)
Fixpoint for_each {S A} (l : list Z) (f : Z → A → M S A) (a : A) : M S A :=
  match l with
  | [] => mret a
  | i :: l' => a' ← f i a; for_each l' f a'
  end.

Definition is_ok {A} (r : res A) : bool := match r with Ok _ => true | Fault _ => false end.

Lemma bind_ok {S A B} (m : M S A) (k : A → M S B) s a s' :
  m s = Ok (a, s') → (m ≫= k) s = k a s'.
Proof. unfold mbind, M_bind. by intros ->. Qed.

Lemma bind_fault {S A B} (m : M S A) (k : A → M S B) s f :
  m s = Fault f → (m ≫= k) s = Fault f.
Proof. unfold mbind, M_bind. by intros ->. Qed.

Lemma bind_inv {S A B} (m : M S A) (k : A → M S B) s b s'' :
  (m ≫= k) s = Ok (b, s'') → ∃ a s', m s = Ok (a, s') ∧ k a s' = Ok (b, s'').
Proof. unfold mbind, M_bind. destruct (m s) as [[a s']|f]; naive_solver. Qed.

Lemma bind_gets {S A B} (f : S → A) (k : A → M S B) s : (gets f ≫= k) s = k (f s) s.
Proof. done. Qed.

Lemma bind_modify {S B} (f : S → S) (k : unit → M S B) s : (modify f ≫= k) s = k tt (f s).
Proof. done. Qed.

Lemma bind_ret {S A B} (a : A) (k : A → M S B) s : ((mret a : M S A) ≫= k) s = k a s.
Proof. done. Qed.

Lemma bind_lift {S A B} (r : res A) (k : A → M S B) s a :
  r = Ok a → (lift r ≫= k) s = k a s.
Proof. by intros ->. Qed.

Lemma fmap_run {St A B} (f : A → B) (m : M St A) s a s' :
  m s = Ok (a, s') → (f <$> m) s = Ok (f a, s').
Proof. unfold fmap, M_fmap. by intros ->. Qed.

(** [mstep H] runs the first command of a [bind] whose result [H] gives. *)
Tactic Notation "mstep" uconstr(H) := erewrite bind_ok by (eapply H; eauto); cbv beta.
Ltac msimpl := rewrite ?bind_gets, ?bind_modify, ?bind_ret; cbv beta.

Lemma for_each_app {St A} (l k : list Z) (f : Z → A → M St A) a s a' s' :
  for_each l f a s = Ok (a', s') → for_each (l ++ k) f a s = for_each k f a' s'.
Proof.
  revert a s. induction l as [|i l IH]; intros a s; simpl; [by intros [= -> ->]|].
  intros (a1 & s1 & H1 & H2)%bind_inv. rewrite (bind_ok _ _ _ _ _ H1). by apply IH.
Qed.

Lemma lift_inv {S A} (r : res A) (s : S) a s' : lift r s = Ok (a, s') → r = Ok a ∧ s' = s.
Proof. unfold lift, mbind, res_bind. destruct r; naive_solver. Qed.

(** ** What a command preserves

    [preserves P m]: whenever [m] starts in a state with [P] and returns, [P] holds
    again.  [keeps f m]: the component [f] of the state is as before. *)
Definition preserves {S A} (P : S → Prop) (m : M S A) : Prop :=
  ∀ s a s', P s → m s = Ok (a, s') → P s'.
Definition keeps {S A C} (f : S → C) (m : M S A) : Prop := ∀ c, preserves (λ s, f s = c) m.

Section preserves.
Context {S : Type} (P : S → Prop).

Lemma preserves_ret {A} (a : A) : preserves P (mret a).
Proof. by intros s ? ? ? [= _ <-]. Qed.
Lemma preserves_raise {A} e : preserves P (raise e : M S A).
Proof. by intros s ? ?. Qed.
Lemma preserves_lift {A} (r : res A) : preserves P (lift r).
Proof. intros s ? ?. unfold lift, mbind, res_bind. destruct r; naive_solver. Qed.
Lemma preserves_gets {A} (g : S → A) : preserves P (gets g).
Proof. by intros s ? ? ? [= _ <-]. Qed.
Lemma preserves_modify g : (∀ s, P s → P (g s)) → preserves P (modify g).
Proof. intros Hg s ? ? ? [= _ <-]. auto. Qed.
Lemma preserves_bind {A B} (m : M S A) (k : A → M S B) :
  preserves P m → (∀ a, preserves P (k a)) → preserves P (m ≫= k).
Proof.
  intros Hm Hk s b s' HP (a & s1 & H1 & H2)%bind_inv. by eapply Hk, H2; eapply Hm.
Qed.
Lemma preserves_fmap {A B} (g : A → B) (m : M S A) : preserves P m → preserves P (g <$> m).
Proof.
  intros Hm s b s' HP. unfold fmap, M_fmap. destruct (m s) as [[a s1]|] eqn:E; [|done].
  intros [= _ <-]. by eapply Hm.
Qed.
Lemma preserves_for_each {A} l (g : Z → A → M S A) a :
  (∀ i a, preserves P (g i a)) → preserves P (for_each l g a).
Proof.
  intros Hg. revert a. induction l as [|i l IH]; intros a; simpl; [apply preserves_ret|].
  apply preserves_bind; auto.
Qed.
End preserves.

Section keeps.
Context {S C : Type} (f : S → C).

Lemma keeps_modify g : (∀ s, f (g s) = f s) → keeps f (modify g).
Proof. intros Hg c. apply preserves_modify. intros s <-. apply Hg. Qed.
Lemma keeps_run {A} (m : M S A) s a s' : keeps f m → m s = Ok (a, s') → f s' = f s.
Proof. intros Hk. by apply Hk. Qed.
Lemma run_keeps {A} (m : M S A) : (∀ s a s', m s = Ok (a, s') → f s' = f s) → keeps f m.
Proof. intros Hk c s a s' <-. apply Hk. Qed.
Lemma keeps_ret {A} (a : A) : keeps f (mret a).
Proof. intros c. apply preserves_ret. Qed.
Lemma keeps_raise {A} e : keeps f (raise e : M S A).
Proof. intros c. apply preserves_raise. Qed.
Lemma keeps_lift {A} (r : res A) : keeps f (lift r).
Proof. intros c. apply preserves_lift. Qed.
Lemma keeps_gets {A} (g : S → A) : keeps f (gets g).
Proof. intros c. apply preserves_gets. Qed.
Lemma keeps_bind {A B} (m : M S A) (k : A → M S B) :
  keeps f m → (∀ a, keeps f (k a)) → keeps f (m ≫= k).
Proof. intros Hm Hk c. apply preserves_bind; [apply Hm|]. intros a. apply Hk. Qed.
Lemma keeps_fmap {A B} (g : A → B) (m : M S A) : keeps f m → keeps f (g <$> m).
Proof. intros Hm c. by apply preserves_fmap. Qed.
Lemma keeps_for_each {A} l (g : Z → A → M S A) a :
  (∀ i a, keeps f (g i a)) → keeps f (for_each l g a).
Proof. intros Hg c. apply preserves_for_each. intros i b. apply Hg. Qed.
End keeps.

Create HintDb preserves discriminated.
#[export] Hint Resolve preserves_ret preserves_raise preserves_lift preserves_gets : preserves.
#[export] Hint Resolve keeps_ret keeps_raise keeps_lift keeps_gets : preserves.

(** Walks through a command built from binds, matches and loops. *)
Ltac solve_preserves :=
  repeat (intros; first
    [ solve [auto with preserves]
    | match goal with |- preserves _ (_ <$> _) => apply preserves_fmap end
    | match goal with |- keeps _ (_ <$> _) => apply keeps_fmap end
    | apply preserves_bind | apply preserves_for_each | apply keeps_bind | apply keeps_for_each
    | match goal with |- preserves _ (match ?x with _ => _ end) => destruct x end
    | match goal with |- keeps _ (match ?x with _ => _ end) => destruct x end ]).

(** ** Commands with a result

    [yields P Q m]: from a state with [P], [m] leads to a state with [P] and a result with
    [Q]. *)
Definition yields {S A} (P : S → Prop) (Q : A → Prop) (m : M S A) : Prop :=
  ∀ s a s', P s → m s = Ok (a, s') → P s' ∧ Q a.

Section yields.
Context {S : Type} {P : S → Prop}.

Lemma preserves_yields_bind {A B} (Q : A → Prop) (m : M S A) (k : A → M S B) :
  yields P Q m → (∀ a, Q a → preserves P (k a)) → preserves P (m ≫= k).
Proof.
  intros Hm Hk s b s' HP (a & s1 & H1 & H2)%bind_inv. destruct (Hm _ _ _ HP H1) as [HP1 HQ].
  by eapply Hk.
Qed.
Lemma yields_bind {A B} (Q : A → Prop) (R : B → Prop) (m : M S A) (k : A → M S B) :
  yields P Q m → (∀ a, Q a → yields P R (k a)) → yields P R (m ≫= k).
Proof.
  intros Hm Hk s b s' HP (a & s1 & H1 & H2)%bind_inv. destruct (Hm _ _ _ HP H1) as [HP1 HQ].
  by eapply Hk.
Qed.
Lemma yields_any {A} (m : M S A) : preserves P m → yields P (λ _, True) m.
Proof. intros Hm s a s' HP H. split; [by eapply Hm|done]. Qed.
Lemma yields_ret {A} (Q : A → Prop) a : Q a → yields P Q (mret a).
Proof. by intros HQ s ? ? ? [= <- <-]. Qed.
Lemma yields_raise {A} (Q : A → Prop) e : yields P Q (raise e : M S A).
Proof. by intros s ? ? ?. Qed.
Lemma yields_lift {A} (Q : A → Prop) (r : res A) : (∀ a, r = Ok a → Q a) → yields P Q (lift r).
Proof. intros HQ s ? ? ?. unfold lift, mbind, res_bind. destruct r; [|done]. intros [= <- <-]. auto. Qed.
Lemma yields_gets {A} (Q : A → Prop) (f : S → A) : (∀ s, P s → Q (f s)) → yields P Q (gets f).
Proof. intros HQ s ? ? ? [= <- <-]. auto. Qed.
Lemma yields_fmap {A B} (Q : B → Prop) (g : A → B) (m : M S A) : yields P (λ a, Q (g a)) m → yields P Q (g <$> m).
Proof.
  intros Hm s b s' HP. unfold fmap, M_fmap. destruct (m s) as [[a s1]|] eqn:E; [|done].
  intros [= <- <-]. by apply (Hm s).
Qed.
Lemma yields_preserves {A} (Q : A → Prop) (m : M S A) : yields P Q m → preserves P m.
Proof. intros Hm s a s' HP Hrun. by destruct (Hm s a s' HP Hrun). Qed.
End yields.

(** ** Machine integers *)
Definition u8 (z : Z) : Z := z mod 2 ^ 8.
Definition u16 (z : Z) : Z := z mod 2 ^ 16.
Definition u32 (z : Z) : Z := z mod 2 ^ 32.
Definition u64 (z : Z) : Z := z mod 2 ^ 64.
(** A value converted to [int]. *)
Definition s32 (z : Z) : Z := (z + 2 ^ 31) mod 2 ^ 32 - 2 ^ 31.
Definition ULONG_MAX : Z := 2 ^ 64 - 1.
Definition INT_MAX : Z := 2 ^ 31 - 1.

Lemma u32_small z : 0 ≤ z < 2 ^ 32 → u32 z = z.
Proof. apply Z.mod_small. Qed.
Lemma s32_small z : - 2 ^ 31 ≤ z < 2 ^ 31 → s32 z = z.
Proof. intros. unfold s32. rewrite Z.mod_small; lia. Qed.
Lemma u64_range z : 0 ≤ u64 z < 2 ^ 64.
Proof. by apply Z.mod_pos_bound. Qed.
Lemma u8_range z : 0 ≤ u8 z < 2 ^ 8.
Proof. by apply Z.mod_pos_bound. Qed.

(** ** Bytes *)
Abbreviation bytes := (list byte).

#[global] Instance byte_eq_dec : EqDecision byte := Byte.byte_eq_dec.

Definition byte_to_Z (b : byte) : Z := Z.of_N (Byte.to_N b).
Definition byte_of_Z (z : Z) : byte :=
  match Byte.of_N (Z.to_N (u8 z)) with Some b => b | None => x00 end.

(** The value of a [char]: signed on x86. *)
Definition schar (b : byte) : Z :=
  let z := byte_to_Z b in if z <? 128 then z else z - 256.

Definition str (s : string) : bytes := String.list_byte_of_string s.
Definition zeros (n : Z) : bytes := replicate (Z.to_nat n) x00.
Definition blen {A} (l : list A) : Z := Z.of_nat (length l).

Lemma byte_to_Z_range b : 0 ≤ byte_to_Z b < 256.
Proof.
  unfold byte_to_Z. pose proof (Byte.to_N_bounded b). lia.
Qed.

Lemma byte_of_to_Z b : byte_of_Z (byte_to_Z b) = b.
Proof. by destruct b. Qed.

Lemma byte_to_of_Z z : byte_to_Z (byte_of_Z z) = u8 z.
Proof.
  unfold byte_of_Z, byte_to_Z. pose proof (u8_range z) as Hr.
  destruct (Byte.of_N (Z.to_N (u8 z))) as [b|] eqn:E.
  - apply Byte.to_of_N in E. rewrite E. lia.
  - apply Byte.of_N_None_iff in E. lia.
Qed.

Lemma blen_nonneg {A} (l : list A) : 0 ≤ blen l.
Proof. unfold blen. lia. Qed.
Lemma blen_nil {A} : blen (@nil A) = 0.
Proof. done. Qed.
Lemma blen_pos {A} (l : list A) : l ≠ [] → 0 < blen l.
Proof. unfold blen. by destruct l; simpl; [|lia]. Qed.
Lemma blen_cons {A} (x : A) l : blen (x :: l) = 1 + blen l.
Proof. unfold blen. simpl. lia. Qed.
Lemma blen_app {A} (l k : list A) : blen (l ++ k) = blen l + blen k.
Proof. unfold blen. rewrite length_app. lia. Qed.
Lemma blen_zeros n : 0 ≤ n → blen (zeros n) = n.
Proof. intros. unfold blen, zeros. rewrite length_replicate. lia. Qed.
Lemma blen_insert {A} (l : list A) i x : blen (<[i:=x]> l) = blen l.
Proof. unfold blen. by rewrite length_insert. Qed.
Lemma blen_take {A} (l : list A) n : 0 ≤ n ≤ blen l → blen (take (Z.to_nat n) l) = n.
Proof. unfold blen. rewrite length_take. lia. Qed.
Lemma blen_drop {A} (l : list A) n : 0 ≤ n ≤ blen l → blen (drop (Z.to_nat n) l) = blen l - n.
Proof. unfold blen. rewrite length_drop. lia. Qed.

(** ** Checked array accesses

    Indices and lengths are C integers, so a negative one is out of bounds. *)
Definition zlookup {A} (l : list A) (i : Z) : res A :=
  if i <? 0 then Fault Out_of_bounds
  else match l !! Z.to_nat i with Some x => Ok x | None => Fault Out_of_bounds end.

Definition zupdate {A} (l : list A) (i : Z) (x : A) : res (list A) :=
  if (0 <=? i) && (i <? blen l) then Ok (<[Z.to_nat i := x]> l) else Fault Out_of_bounds.

(** [read_at b off n]: the [n] bytes at [b + off]. *)
Definition read_at {A} (b : list A) (off n : Z) : res (list A) :=
  if (0 <=? off) && (0 <=? n) && (off + n <=? blen b)
  then Ok (take (Z.to_nat n) (drop (Z.to_nat off) b)) else Fault Out_of_bounds.

(** [write_at b off src]: [b] after [memcpy(b + off, src, length src)]. *)
Definition write_at {A} (b : list A) (off : Z) (src : list A) : res (list A) :=
  if (0 <=? off) && (off + blen src <=? blen b)
  then Ok (take (Z.to_nat off) b ++ src ++ drop (Z.to_nat (off + blen src)) b)
  else Fault Out_of_bounds.

(** [memcpy(dst + doff, src + soff, n)], as the new contents of [dst]. *)
Definition memcpy {A} (dst : list A) (doff : Z) (src : list A) (soff n : Z) : res (list A) :=
  x ← read_at src soff n; write_at dst doff x.

(** [memcmp(a, b, n) == 0] *)
Definition memcmp_eq (a b : bytes) (n : Z) : res bool :=
  x ← read_at a 0 n; y ← read_at b 0 n; Ok (bool_decide (x = y)).

(** [malloc(n)] followed by [memset(p, 0, n)]; a negative [n] is a huge [size_t]. *)
Definition zalloc (n : Z) : res bytes := if n <? 0 then Fault Out_of_bounds else Ok (zeros n).

(** The bytes of an [uint32_t] in memory. *)
Definition le32 (z : Z) : bytes :=
  [byte_of_Z z; byte_of_Z (z / 2 ^ 8); byte_of_Z (z / 2 ^ 16); byte_of_Z (z / 2 ^ 24)].

Definition zdiv (a b : Z) : res Z := if b =? 0 then Fault Div_by_zero else Ok (Z.quot a b).
Definition zrem (a b : Z) : res Z := if b =? 0 then Fault Div_by_zero else Ok (Z.rem a b).

Lemma zlookup_ok {A} (l : list A) i x : 0 ≤ i → l !! Z.to_nat i = Some x → zlookup l i = Ok x.
Proof. intros Hi Hx. unfold zlookup. rewrite (proj2 (Z.ltb_ge i 0)) by lia. by rewrite Hx. Qed.

Lemma zlookup_inv {A} (l : list A) i x :
  zlookup l i = Ok x → 0 ≤ i < blen l ∧ l !! Z.to_nat i = Some x.
Proof.
  unfold zlookup, blen. destruct (Z.ltb_spec i 0); [done|].
  destruct (l !! Z.to_nat i) eqn:E; [|done]. intros [= ->].
  apply lookup_lt_Some in E as E'. split; [lia|done].
Qed.

Lemma zlookup_oob {A} (l : list A) i : ¬ (0 ≤ i < blen l) → zlookup l i = Fault Out_of_bounds.
Proof.
  unfold zlookup, blen. intros Hi. destruct (Z.ltb_spec i 0); [done|].
  rewrite lookup_ge_None_2; [done|lia].
Qed.

Lemma zupdate_ok {A} (l : list A) i x : 0 ≤ i < blen l → zupdate l i x = Ok (<[Z.to_nat i := x]> l).
Proof.
  intros Hi. unfold zupdate. rewrite (proj2 (Z.leb_le 0 i)) by lia.
  by rewrite (proj2 (Z.ltb_lt i (blen l))) by lia.
Qed.

Lemma zupdate_nat {A} (l : list A) i x :
  (i < length l)%nat → zupdate l (Z.of_nat i) x = Ok (<[i := x]> l).
Proof. intros Hi. rewrite zupdate_ok by (unfold blen; lia). by rewrite Nat2Z.id. Qed.

Lemma zlookup_nat {A} (l : list A) i x : l !! i = Some x → zlookup l (Z.of_nat i) = Ok x.
Proof. intros Hx. apply zlookup_ok; [lia|]. by rewrite Nat2Z.id. Qed.

Lemma read_at_ok {A} (b : list A) off n :
  0 ≤ off → 0 ≤ n → off + n ≤ blen b →
  read_at b off n = Ok (take (Z.to_nat n) (drop (Z.to_nat off) b)).
Proof.
  intros. unfold read_at.
  rewrite (proj2 (Z.leb_le 0 off)), (proj2 (Z.leb_le 0 n)),
    (proj2 (Z.leb_le (off + n) (blen b))) by lia. done.
Qed.

Lemma read_at_app {A} (l x r : list A) off n :
  off = blen l → n = blen x → read_at (l ++ x ++ r) off n = Ok x.
Proof.
  intros -> ->. rewrite read_at_ok; [|apply blen_nonneg..|].
  - unfold blen. rewrite !Nat2Z.id, drop_app_length, take_app_length. done.
  - rewrite !blen_app. pose proof (blen_nonneg r). lia.
Qed.

Lemma read_at_all {A} (x : list A) n : n = blen x → read_at x 0 n = Ok x.
Proof.
  intros Hn. rewrite <-(app_nil_l x), <-(app_nil_r x) at 1.
  rewrite read_at_app with (l := []) (x := x) (r := []); [done|done|done].
Qed.

Lemma read_at_prefix {A} (x r : list A) n : n = blen x → read_at (x ++ r) 0 n = Ok x.
Proof. intros Hn. by apply (read_at_app []). Qed.

Lemma write_at_app {A} (l x y r : list A) off :
  off = blen l → blen x = blen y → write_at (l ++ x ++ r) off y = Ok (l ++ y ++ r).
Proof.
  intros -> Hxy. unfold write_at.
  rewrite (proj2 (Z.leb_le 0 _)) by apply blen_nonneg.
  rewrite (proj2 (Z.leb_le _ _)).
  2:{ rewrite !blen_app. pose proof (blen_nonneg r). lia. }
  simpl. f_equal. unfold blen in *. rewrite Nat2Z.id, take_app_length. f_equal. f_equal.
  rewrite app_assoc. replace (Z.to_nat _) with (length (l ++ x)).
  - by rewrite drop_app_length.
  - rewrite length_app. lia.
Qed.

Lemma write_at_all {A} (x y : list A) : blen x = blen y → write_at x 0 y = Ok y.
Proof.
  intros H. pose proof (write_at_app [] x y [] 0 eq_refl H) as W.
  rewrite !app_nil_r in W. done.
Qed.

Lemma write_at_oob {A} (b : list A) off src :
  blen b < off + blen src → write_at b off src = Fault Out_of_bounds.
Proof.
  intros. unfold write_at. destruct (Z.leb_spec (off + blen src) (blen b)); [lia|].
  by rewrite andb_false_r.
Qed.

Lemma write_at_length {A} (b : list A) off src b' :
  write_at b off src = Ok b' → blen b' = blen b.
Proof.
  unfold write_at. destruct (Z.leb_spec 0 off), (Z.leb_spec (off + blen src) (blen b)); simpl; try done.
  intros [= <-]. rewrite !blen_app. pose proof (blen_nonneg src).
  rewrite blen_take, blen_drop by lia. lia.
Qed.

(** ** Lists of equally long blocks, laid out one after another *)
Section blocks.
Context {A : Type}.
Implicit Types (ls : list (list A)) (n : Z).

Definition blocks n ls : Prop := Forall (λ x, blen x = n) ls.

Lemma blocks_concat n ls : 0 ≤ n → blocks n ls → blen (concat ls) = n * blen ls.
Proof.
  intros Hn. induction 1 as [|x ls Hx _ IH]; simpl; [unfold blen; simpl; lia|].
  rewrite blen_app, blen_cons, IH, Hx. lia.
Qed.

Lemma blocks_app n ls ks : blocks n (ls ++ ks) ↔ blocks n ls ∧ blocks n ks.
Proof. apply Forall_app. Qed.

Lemma blocks_rev n ls : blocks n ls → blocks n (reverse ls).
Proof. unfold blocks. intros. by rewrite reverse_Permutation. Qed.
End blocks.

Create Rewrite HintDb blen.
#[export] Hint Rewrite @blen_nil @blen_cons @blen_app @blen_insert : blen.
Ltac blen := autorewrite with blen in *; try lia.

(** A decidable property of concrete data, by evaluation. *)
Ltac by_compute := apply (bool_decide_unpack _); vm_compute; exact I.
