(* ===== verification/CString.v ===== *)
(** * C strings

    The string functions of the C library the sources call, on buffers that are
    lists of bytes: [strlen], [strncmp], [strcmp], [strtok_r] with the delimiter
    of the protocol, and the copies the handlers make of a token.  A buffer with
    no NUL in it makes these functions read past its end, which is a fault. *)

From S2P Require Import Prelude.

Definition NUL : byte := x00.
Definition SPACE : byte := x20.

(** The bytes before the first NUL; [None] when there is no NUL in the buffer. *)
Fixpoint cstr_opt (b : bytes) : option bytes :=
  match b with
  | [] => None
  | c :: b' => if bool_decide (c = NUL) then Some [] else (c ::.) <$> cstr_opt b'
  end.

Definition cstr (b : bytes) : res bytes :=
  match cstr_opt b with Some s => Ok s | None => Fault Out_of_bounds end.

Definition strlen (b : bytes) : res Z := s ← cstr b; Ok (blen s).

(** The string that starts at offset [off] of the buffer. *)
Definition cstr_at (b : bytes) (off : Z) : res bytes :=
  if (0 <=? off) && (off <=? blen b) then cstr (drop (Z.to_nat off) b) else Fault Out_of_bounds.

(** [strncmp(a, lit, n) == 0] for a literal [lit]: characters are compared until
    [n] of them agree, or both strings end, or they differ. *)
Fixpoint strncmp_eq (a lit : bytes) (n : nat) {struct n} : res bool :=
  match n with
  | O => Ok true
  | S n' =>
      match a with
      | [] => Fault Out_of_bounds
      | c :: a' =>
          match lit with
          | [] => Ok (bool_decide (c = NUL))
          | d :: lit' =>
              if bool_decide (c = d)
              then (if bool_decide (c = NUL) then Ok true else strncmp_eq a' lit' n')
              else Ok false
          end
      end
  end.

(** [strcmp(a, b) == 0] *)
Definition strcmp_eq (a b : bytes) : res bool :=
  x ← cstr a; y ← cstr b; Ok (bool_decide (x = y)).

(** ** [strtok_r(s, " ", &save)]

    [skip_spaces] is the scan over leading delimiters and [token_len] the scan
    to the end of the token.  The result carries the offset of the token, the
    token, where the rest starts ([None]: the token ended at the NUL, and the
    library of the enclave leaves a NULL save pointer) and the buffer with the
    delimiter after the token overwritten by NUL. *)
Record token := Token {
  tok_off : Z;
  tok : bytes;
  tok_rest : option Z;
  tok_buf : bytes;
}.

Fixpoint skip_spaces (b : bytes) (i : Z) : res Z :=
  match b with
  | [] => Fault Out_of_bounds
  | c :: b' => if bool_decide (c = SPACE) then skip_spaces b' (i + 1) else Ok i
  end.

Fixpoint token_len (b : bytes) (n : Z) : res (Z * bool) :=
  match b with
  | [] => Fault Out_of_bounds
  | c :: b' =>
      if bool_decide (c = NUL) then Ok (n, false)
      else if bool_decide (c = SPACE) then Ok (n, true)
      else token_len b' (n + 1)
  end.

Definition strtok_r (buf : bytes) (off : Z) : res (option token) :=
  s ← read_at buf off (blen buf - off);
  i ← skip_spaces s off;
  s' ← read_at buf i (blen buf - i);
  '(n, delim) ← token_len s' 0;
  if n =? 0 then Ok None
  else
    t ← read_at buf i n;
    if (delim : bool)
    then buf' ← write_at buf (i + n) [NUL]; Ok (Some (Token i t (Some (i + n + 1)) buf'))
    else Ok (Some (Token i t None buf)).

(** The copy of a string made with [malloc(n)], [memset(p, 0, n)] and
    [memcpy(p, s, n - 1)], [n = strlen(s) + 1]. *)
Definition dup_str (s : bytes) : bytes := s ++ [NUL].

(** A C string value: no NUL inside. *)
Definition nonul (s : bytes) : Prop := NUL ∉ s.
Definition nospace (s : bytes) : Prop := SPACE ∉ s.

#[global] Instance nonul_dec s : Decision (nonul s) := decide (¬ (NUL ∈ s)).
#[global] Instance nospace_dec s : Decision (nospace s) := decide (¬ (SPACE ∈ s)).

Lemma cstr_opt_app s r : nonul s → cstr_opt (s ++ NUL :: r) = Some s.
Proof.
  unfold nonul. induction s as [|c s IH]; simpl; [done|].
  intros Hs. rewrite bool_decide_false by set_solver. rewrite IH; [done|set_solver].
Qed.

Lemma cstr_app s r : nonul s → cstr (s ++ NUL :: r) = Ok s.
Proof. intros. unfold cstr. by rewrite cstr_opt_app. Qed.

Lemma cstr_dup s : nonul s → cstr (dup_str s) = Ok s.
Proof. apply cstr_app. Qed.

Lemma cstr_opt_inv b s : cstr_opt b = Some s → nonul s ∧ ∃ r, b = s ++ NUL :: r.
Proof.
  unfold nonul. revert s. induction b as [|c b IH]; simpl; [done|]. intros s.
  case_bool_decide as Hc; [intros [= <-]; split; [set_solver|]; exists b; by rewrite Hc|].
  destruct (cstr_opt b) as [s'|]; simpl; [|done]. intros [= <-].
  destruct (IH s' eq_refl) as [Hn [r Hr]]. rewrite Hr. clear IH Hr.
  split; [set_solver|by exists r].
Qed.

Lemma cstr_inv b s : cstr b = Ok s → nonul s ∧ ∃ r, b = s ++ NUL :: r.
Proof. unfold cstr. destruct (cstr_opt b) eqn:E; [|done]. intros [= ->]. by apply cstr_opt_inv. Qed.

Lemma cstr_at_app l s r off :
  off = blen l → nonul s → cstr_at (l ++ s ++ NUL :: r) off = Ok s.
Proof.
  intros -> Hs. unfold cstr_at.
  rewrite (proj2 (Z.leb_le 0 _)) by apply blen_nonneg.
  rewrite (proj2 (Z.leb_le _ _)).
  2:{ rewrite blen_app. pose proof (blen_nonneg (s ++ NUL :: r)). lia. }
  simpl. unfold blen. rewrite Nat2Z.id, drop_app_length. by apply cstr_app.
Qed.

(** ** Behaviour of [strtok_r] *)
Lemma skip_spaces_app sp c s i :
  Forall (.= SPACE) sp → c ≠ SPACE → skip_spaces (sp ++ c :: s) i = Ok (i + blen sp).
Proof.
  intros H. revert i. induction H as [|x sp Hx _ IH]; intros i Hc; [|subst x]; simpl.
  - rewrite bool_decide_false by done. rewrite blen_nil. f_equal. lia.
  - rewrite IH, blen_cons by done. f_equal. lia.
Qed.

Lemma token_len_space t s n :
  nonul t → nospace t → token_len (t ++ SPACE :: s) n = Ok (n + blen t, true).
Proof.
  unfold nonul, nospace. revert n. induction t as [|c t IH]; intros n Hn Hs; simpl.
  - rewrite blen_nil. by rewrite Z.add_0_r.
  - rewrite !bool_decide_false by set_solver.
    rewrite IH, blen_cons by set_solver. do 2 f_equal. lia.
Qed.

Lemma token_len_nul t s n :
  nonul t → nospace t → token_len (t ++ NUL :: s) n = Ok (n + blen t, false).
Proof.
  unfold nonul, nospace. revert n. induction t as [|c t IH]; intros n Hn Hs; simpl.
  - rewrite blen_nil. by rewrite Z.add_0_r.
  - rewrite !bool_decide_false by set_solver.
    rewrite IH, blen_cons by set_solver. do 2 f_equal. lia.
Qed.

Lemma read_at_tail {A} (l r : list A) off :
  off = blen l → read_at (l ++ r) off (blen (l ++ r) - off) = Ok r.
Proof.
  intros ->. rewrite <-(app_nil_r r) at 1. apply read_at_app; [done|]. rewrite blen_app. lia.
Qed.

(** A token with a character in it, after spaces, up to a space. *)
Lemma strtok_r_space pre sp t rest off :
  off = blen pre → Forall (.= SPACE) sp → t ≠ [] → nonul t → nospace t →
  strtok_r (pre ++ sp ++ t ++ SPACE :: rest) off =
  Ok (Some (Token (off + blen sp) t (Some (off + blen sp + blen t + 1))
              (pre ++ sp ++ t ++ NUL :: rest))).
Proof.
  intros -> Hsp Ht Hn Hs. unfold strtok_r, mbind, res_bind.
  rewrite read_at_tail by done.
  destruct t as [|c t]; [done|].
  rewrite <-app_comm_cons, skip_spaces_app; [|done|unfold nospace in Hs; set_solver].
  rewrite (app_assoc pre sp).
  rewrite read_at_tail by (rewrite blen_app; lia).
  rewrite app_comm_cons, token_len_space, Z.add_0_l by done.
  rewrite (proj2 (Z.eqb_neq _ 0)) by (rewrite blen_cons; pose proof (blen_nonneg t); lia).
  rewrite read_at_app by (rewrite ?blen_app; lia).
  rewrite (app_assoc (pre ++ sp)).
  change (SPACE :: rest) with ([SPACE] ++ rest).
  rewrite write_at_app with (y := [NUL]) by (rewrite ?blen_app; try lia; done).
  by rewrite <-!app_assoc.
Qed.

(** A token that runs to the end of the string. *)
Lemma strtok_r_end pre sp t rest off :
  off = blen pre → Forall (.= SPACE) sp → t ≠ [] → nonul t → nospace t →
  strtok_r (pre ++ sp ++ t ++ NUL :: rest) off =
  Ok (Some (Token (off + blen sp) t None (pre ++ sp ++ t ++ NUL :: rest))).
Proof.
  intros -> Hsp Ht Hn Hs. unfold strtok_r, mbind, res_bind.
  rewrite read_at_tail by done.
  destruct t as [|c t]; [done|].
  rewrite <-app_comm_cons, skip_spaces_app; [|done|unfold nospace in Hs; set_solver].
  rewrite (app_assoc pre sp).
  rewrite read_at_tail by (rewrite blen_app; lia).
  rewrite app_comm_cons, token_len_nul, Z.add_0_l by done.
  rewrite (proj2 (Z.eqb_neq _ 0)) by (rewrite blen_cons; pose proof (blen_nonneg t); lia).
  rewrite read_at_app by (rewrite ?blen_app; lia).
  done.
Qed.

(** No token at all: [strtok_r] returns NULL. *)
Lemma strtok_r_none pre sp rest off :
  off = blen pre → Forall (.= SPACE) sp → strtok_r (pre ++ sp ++ NUL :: rest) off = Ok None.
Proof.
  intros -> Hsp. unfold strtok_r, mbind, res_bind.
  rewrite read_at_tail by done. rewrite skip_spaces_app by done.
  rewrite (app_assoc pre sp). rewrite read_at_tail by (rewrite blen_app; lia).
  by simpl.
Qed.

Lemma strncmp_eq_same a lit r : nonul lit → a = lit ++ r → strncmp_eq a lit (length lit) = Ok true.
Proof.
  unfold nonul. intros Hl ->. induction lit as [|c lit IH]; simpl; [done|].
  rewrite bool_decide_true by done. rewrite bool_decide_false by set_solver.
  apply IH. set_solver.
Qed.

Lemma strncmp_eq_diff c d a lit n : c ≠ d → strncmp_eq (c :: a) (d :: lit) (S n) = Ok false.
Proof. intros Hcd. simpl. by rewrite (bool_decide_false (c = d) Hcd). Qed.
