(* ===== verification/CLib.v ===== *)
(** * Command lines and numbers

    [atoi], [getopt] and [fopen] of the C library, as the programs of the repository use them. *)

From S2P Require Import Prelude CString.

Definition isspace (b : byte) : bool :=
  let z := byte_to_Z b in (z =? 32) || ((9 <=? z) && (z <=? 13)).
Definition isdigit (b : byte) : bool :=
  let z := byte_to_Z b in (48 <=? z) && (z <=? 57).

Fixpoint digits (acc : Z) (s : bytes) : Z :=
  match s with
  | c :: s' => if isdigit c then digits (acc * 10 + (byte_to_Z c - 48)) s' else acc
  | [] => acc
  end.

Fixpoint skip_blank (s : bytes) : bytes :=
  match s with
  | c :: s' => if isspace c then skip_blank s' else s
  | [] => []
  end.

(** [strtol(s, NULL, 10)]: saturates at the bounds of [long]. *)
Definition strtol (s : bytes) : Z :=
  let v := match skip_blank s with
           | x2b :: s' => digits 0 s'
           | x2d :: s' => - digits 0 s'
           | s' => digits 0 s'
           end in
  Z.max (- 2 ^ 63) (Z.min v (2 ^ 63 - 1)).

Definition atoi (s : bytes) : Z := s32 (strtol s).

(** ** [getopt]

    [spec] lists the option characters and whether they take an argument.  The options of
    a command line in the order [getopt] returns them; an unknown option or a missing
    argument is ['?'].  Arguments that are no options are passed over. *)
Section getopt.
Context (spec : list (byte * bool)).

Definition QUESTION : byte := x3f.
Definition DASH : byte := x2d.

Definition opt_kind (c : byte) : option bool :=
  fold_right (λ x r, if bool_decide (x.1 = c) then Some x.2 else r) None spec.

(** The characters of one word [-abc] and the words after it. *)
Fixpoint getopt_word (cs : bytes) (rest : list bytes) : list (byte * bytes) * list bytes :=
  match cs with
  | [] => ([], rest)
  | c :: cs' =>
      match opt_kind c with
      | None => let '(os, r) := getopt_word cs' rest in ((QUESTION, []) :: os, r)
      | Some false => let '(os, r) := getopt_word cs' rest in ((c, []) :: os, r)
      | Some true =>
          match cs', rest with
          | _ :: _, _ => ([(c, cs')], rest)
          | [], a :: rest' => ([(c, a)], rest')
          | [], [] => ([(QUESTION, [])], [])
          end
      end
  end.

Fixpoint getopt_loop (fuel : nat) (argv : list bytes) : list (byte * bytes) :=
  match fuel, argv with
  | S fuel', w :: rest =>
      match w with
      | x2d :: x2d :: [] => []
      | x2d :: c :: cs => let '(os, r) := getopt_word (c :: cs) rest in os ++ getopt_loop fuel' r
      | _ => getopt_loop fuel' rest
      end
  | _, _ => []
  end.

(** Every word is looked at once, so their number bounds the loop. *)
Definition getopt (argv : list bytes) : list (byte * bytes) := getopt_loop (length argv) argv.
End getopt.

(** [fopen]; reading from a file that is not there fails. *)
Definition fopen (file : option bytes) : res bytes := match file with Some f => Ok f | None => Fault Null_deref end.
