(* ===== verification/Common.v ===== *)
(** * Data structures and the platform

    The structures of [Common/common.h] and [Enclave/Enclave.h], the state the
    enclave code works on, and the interface of the code ShieldStore calls but
    does not contain: the SGX SDK's crypto and random numbers, and the
    allocator of untrusted memory. *)

From S2P Require Import Prelude.

(** ** Constants *)
Definition MAC_SIZE : Z := 16.
Definition NAC_SIZE : Z := 16.
(** Capacity of a MAC bucket, [mac[MAC_SIZE*30]]. *)
Definition MAC_SLOTS : Z := 30.

(** The status codes of the SDK that the sources name. *)
Inductive sgx_status :=
  | SGX_SUCCESS
  | SGX_ERROR_UNEXPECTED
  | SGX_ERROR_INVALID_PARAMETER
  | SGX_ERROR_OUT_OF_MEMORY
  | SGX_ERROR_ENCLAVE_LOST
  | SGX_ERROR_INVALID_ENCLAVE
  | SGX_ERROR_INVALID_ENCLAVE_ID
  | SGX_ERROR_INVALID_SIGNATURE
  | SGX_ERROR_OUT_OF_EPC
  | SGX_ERROR_NO_DEVICE
  | SGX_ERROR_MEMORY_MAP_CONFLICT
  | SGX_ERROR_INVALID_METADATA
  | SGX_ERROR_DEVICE_BUSY
  | SGX_ERROR_INVALID_VERSION
  | SGX_ERROR_ENCLAVE_FILE_ACCESS
  | SGX_ERROR_INVALID_FUNCTION
  | SGX_ERROR_OUT_OF_TCS
  | SGX_ERROR_ENCLAVE_CRASHED
  | SGX_ERROR_MAC_MISMATCH
  | SGX_ERROR_INVALID_ATTRIBUTE
  | SGX_ERROR_INVALID_CPUSVN
  | SGX_ERROR_INVALID_ISVSVN
  | SGX_ERROR_INVALID_KEYNAME
  | SGX_ERROR_SERVICE_UNAVAILABLE
  | SGX_ERROR_SERVICE_TIMEOUT
  | SGX_ERROR_SERVICE_INVALID_PRIVILEGE.

#[global] Instance sgx_status_eq_dec : EqDecision sgx_status.
Proof. solve_decision. Defined.

(** ** Records *)

(** Addresses of [entry] objects in untrusted memory; a NULL pointer is [None]. *)
Abbreviation loc := positive.
Abbreviation ptr := (option positive).

(** [struct mac_entry] *)
Record MACentry := mkMACentry {
  me_size : Z;
  me_mac : bytes;
}.

(** [struct hashtable] *)
Record hashtable := mkHashtable {
  ht_size : Z;
  ht_table : list ptr;
}.

(** [struct entry].  The buffer [key_val] points to belongs to this entry alone,
    so it is kept in the entry; a NULL [key_val] is [None]. *)
Record entry := mkEntry {
  key_size : Z;
  val_size : Z;
  key_hash : Z;
  key_val : option bytes;
  nac : bytes;
  mac : bytes;
  next : ptr;
}.

(** [struct job] *)
Record job := mkJob {
  job_client_sock : Z;
  job_buf : bytes;
}.

(** [EcallParams] *)
Record EcallParams := mkEcallParams {
  ep_buf : bytes;
  ep_client_sock : Z;
  ep_num_clients : Z;
}.

(** [struct argument] *)
Record Arg := mkArg {
  port_num : Z;
  num_threads : Z;
  max_buf_size : Z;
  bucket_size : Z;
  tree_root_size : Z;
  key_opt : bool;
  mac_opt : bool;
}.

#[global] Instance entry_eq_dec : EqDecision entry.
Proof. solve_decision. Defined.
#[global] Instance MACentry_eq_dec : EqDecision MACentry.
Proof. solve_decision. Defined.

Definition sizeof_entry : Z := 64.

Definition set_next (e : entry) (p : ptr) : entry :=
  mkEntry (key_size e) (val_size e) (key_hash e) (key_val e) (nac e) (mac e) p.

(** ** The state of the enclave code

    The table [ht_enclave] points to, [heap] and [MACbuf_enclave] are in untrusted memory,
    [MACTable] and the configuration in enclave memory.  The header with the [size] of the table
    is a copy in enclave memory: Enclave.edl passes it to the ecalls as [[in]], so it holds what
    the host passed when the ecall was entered ([Dispatch] says how long the copy lives).
    [rand_calls] counts the calls of [sgx_read_rand]; [out] is the text sent to the [print] ocall. *)
Record enclave := mkEnclave {
  ht_enclave : hashtable;
  heap : gmap loc entry;
  MACbuf_enclave : list MACentry;
  MACTable : list bytes;
  arg_enclave : Arg;
  ratio_root_per_buckets : Z;
  rand_calls : nat;
  out : list string;
}.

Abbreviation E := (M enclave).

Definition set_table (t : list ptr) (s : enclave) : enclave :=
  mkEnclave (mkHashtable (ht_size (ht_enclave s)) t) (heap s) (MACbuf_enclave s) (MACTable s)
    (arg_enclave s) (ratio_root_per_buckets s) (rand_calls s) (out s).
Definition set_tables (ht : hashtable) (m : list MACentry) (s : enclave) : enclave :=
  mkEnclave ht (heap s) m (MACTable s) (arg_enclave s) (ratio_root_per_buckets s) (rand_calls s) (out s).
Definition set_heap (h : gmap loc entry) (s : enclave) : enclave :=
  mkEnclave (ht_enclave s) h (MACbuf_enclave s) (MACTable s)
    (arg_enclave s) (ratio_root_per_buckets s) (rand_calls s) (out s).
Definition set_macbuf (m : list MACentry) (s : enclave) : enclave :=
  mkEnclave (ht_enclave s) (heap s) m (MACTable s)
    (arg_enclave s) (ratio_root_per_buckets s) (rand_calls s) (out s).
Definition set_MACTable (t : list bytes) (s : enclave) : enclave :=
  mkEnclave (ht_enclave s) (heap s) (MACbuf_enclave s) t
    (arg_enclave s) (ratio_root_per_buckets s) (rand_calls s) (out s).
Definition set_rand (n : nat) (s : enclave) : enclave :=
  mkEnclave (ht_enclave s) (heap s) (MACbuf_enclave s) (MACTable s)
    (arg_enclave s) (ratio_root_per_buckets s) n (out s).
Definition add_out (m : string) (s : enclave) : enclave :=
  mkEnclave (ht_enclave s) (heap s) (MACbuf_enclave s) (MACTable s)
    (arg_enclave s) (ratio_root_per_buckets s) (rand_calls s) (out s ++ [m]).

(** Memory accesses of the enclave code. *)
Definition deref (p : ptr) : E loc :=
  match p with Some l => mret l | None => raise Null_deref end.
Definition load (l : loc) : E entry := λ s,
  match heap s !! l with Some e => Ok (e, s) | None => Fault Bad_ptr end.
Definition store (l : loc) (e : entry) : E unit := λ s,
  match heap s !! l with
  | Some _ => Ok (tt, set_heap (<[l := e]> (heap s)) s)
  | None => Fault Bad_ptr
  end.
Definition table_get (i : Z) : E ptr :=
  t ← gets (ht_table ∘ ht_enclave); lift (zlookup t i).
Definition table_set (i : Z) (p : ptr) : E unit :=
  t ← gets (ht_table ∘ ht_enclave); t' ← lift (zupdate t i p); modify (set_table t').
Definition macbuf_get (i : Z) : E MACentry :=
  m ← gets MACbuf_enclave; lift (zlookup m i).
Definition macbuf_set (i : Z) (x : MACentry) : E unit :=
  m ← gets MACbuf_enclave; m' ← lift (zupdate m i x); modify (set_macbuf m').
Definition print (m : string) : E unit := modify (add_out m).

(** ** The platform

    What the sources call but do not define.  [ctr] is the counter block, which
    the AES-CTR functions advance; the third argument of the cipher is the
    number of counter bits that are incremented.  [sys_write n] is what the [n]-th [write] to
    a socket of the server returns. *)
Inductive address := AEntry (l : loc) | AKeyVal (l : loc).

Class Platform := {
  sgx_aes_ctr_encrypt : ∀ (key src ctr : bytes) (ctr_inc_bits : Z), sgx_status * bytes * bytes;
  sgx_aes_ctr_decrypt : ∀ (key src ctr : bytes) (ctr_inc_bits : Z), sgx_status * bytes * bytes;
  sgx_rijndael128_cmac_msg : ∀ (key src : bytes), sgx_status * bytes;
  sgx_read_rand : ∀ (call : nat) (n : Z), bytes;
  sgx_is_outside_enclave : address → Z → bool;
  ocall_tc_malloc : gmap loc entry → Z → ptr;
  ocall_tc_realloc : gmap loc entry → loc → Z → bool;
  NDEBUG : bool;
  sys_write : nat → Z;
}.

(** What is documented of it: the cipher succeeds on every length that fits an
    [int], keeps lengths, and decryption with the same counter block inverts
    encryption; CMAC of a non-empty message succeeds and has 16 bytes; random
    bytes come in the requested number; a new block is not a live one. *)
Class PlatformOk `{Platform} : Prop := {
  encrypt_ok key src ctr bits :
    blen ctr = NAC_SIZE → blen src ≤ INT_MAX →
    ∃ dst ctr', sgx_aes_ctr_encrypt key src ctr bits = (SGX_SUCCESS, dst, ctr') ∧
      blen dst = blen src ∧ blen ctr' = NAC_SIZE ∧
      ∃ ctr'', sgx_aes_ctr_decrypt key dst ctr bits = (SGX_SUCCESS, src, ctr'');
  decrypt_ok key src ctr bits :
    blen ctr = NAC_SIZE → blen src ≤ INT_MAX →
    ∃ dst ctr', sgx_aes_ctr_decrypt key src ctr bits = (SGX_SUCCESS, dst, ctr') ∧
      blen dst = blen src ∧ blen ctr' = NAC_SIZE;
  cmac_ok key src :
    0 < blen src ≤ INT_MAX →
    ∃ m, sgx_rijndael128_cmac_msg key src = (SGX_SUCCESS, m) ∧ blen m = MAC_SIZE;
  rand_ok call n : 0 ≤ n → blen (sgx_read_rand call n) = n;
  malloc_ok h n l : ocall_tc_malloc h n = Some l → h !! l = None;
}.

(** [assert(b)]: nothing in a build with NDEBUG. *)
Definition assert_ `{Platform} (b : bool) : E unit :=
  if NDEBUG then mret tt else if b then mret tt else raise Assert_failed.

(** Memory is available: the allocator does not fail in this state. *)
Definition mem_avail `{Platform} (s : enclave) : Prop :=
  (∀ n, is_Some (ocall_tc_malloc (heap s) n)) ∧
  (∀ l n, ocall_tc_realloc (heap s) l n = true).
