(* ===== verification/Hash.v ===== *)
(** * The two hash functions of [Enclave/ht.cpp]

    [ht_hash] picks the bucket of a key and [key_hash_func] the one-byte hint
    stored in its entry.  Both run the same loop on an [unsigned long], which
    wraps modulo 2^64 and stops early if the value reaches [ULONG_MAX]. *)

From S2P Require Import Prelude CString Common.

(** [while(hashval < ULONG_MAX && i < strlen(key)) { hashval = hashval*m;
    hashval += key[i]; i++; }] over the characters of the string. *)
Fixpoint hash_loop (m hashval : Z) (s : bytes) : Z :=
  match s with
  | [] => hashval
  | c :: s' =>
      if hashval <? ULONG_MAX
      then hash_loop m (u64 (u64 (hashval * m) + schar c)) s'
      else hashval
  end.

Definition key_hash_func (key : bytes) : res Z :=
  s ← cstr key; Ok (hash_loop 11 7 s mod 256).

(** The bucket of a string in a table of [size] buckets. *)
Definition bucket_of (size : Z) (s : bytes) : Z := s32 (hash_loop 61 7 s mod u64 size).

Definition ht_hash (key : bytes) : E Z :=
  s ← lift (cstr key);
  size ← gets (ht_size ∘ ht_enclave);
  if u64 size =? 0 then raise Div_by_zero else mret (bucket_of size s).

(** The hint of a string. *)
Definition hint_of (s : bytes) : Z := hash_loop 11 7 s mod 256.

(** ** Reference: a polynomial in the characters *)

(** [h * m^n + c_0 * m^(n-1) + ... + c_(n-1)] over the integers. *)
Fixpoint poly (m h : Z) (s : bytes) : Z :=
  match s with
  | [] => h
  | c :: s' => (h * m ^ blen s + schar c * m ^ blen s') + poly m 0 s'
  end.

Lemma poly_acc m h s : 0 ≤ m → poly m h s = h * m ^ blen s + poly m 0 s.
Proof.
  intros Hm. destruct s as [|c s]; simpl; [rewrite blen_nil; lia|]. lia.
Qed.

Lemma poly_snoc_step m h c s : 0 ≤ m → poly m h (c :: s) = poly m (h * m + schar c) s.
Proof.
  intros Hm. cbn [poly]. rewrite (poly_acc m (h * m + schar c)) by done.
  rewrite blen_cons, Z.pow_add_r by (pose proof (blen_nonneg s); lia). lia.
Qed.

Lemma u64_poly m h h' s : 0 ≤ m → u64 h = u64 h' → u64 (poly m h s) = u64 (poly m h' s).
Proof.
  intros Hm Hh. rewrite (poly_acc m h), (poly_acc m h') by done. unfold u64 in *.
  rewrite <-Z.add_mod_idemp_l, <-Z.mul_mod_idemp_l, Hh by done.
  by rewrite Z.mul_mod_idemp_l, Z.add_mod_idemp_l by done.
Qed.

Lemma u64_u64 z : u64 (u64 z) = u64 z.
Proof. unfold u64. by rewrite Z.mod_mod. Qed.

Lemma hash_loop_step h m c : u64 (u64 (u64 (h * m) + schar c)) = u64 (h * m + schar c).
Proof. rewrite u64_u64. unfold u64. by rewrite Z.add_mod_idemp_l. Qed.

Lemma hash_loop_range m h s : 0 ≤ h < 2 ^ 64 → 0 ≤ hash_loop m h s < 2 ^ 64.
Proof.
  revert h. induction s as [|c s IH]; intros h Hh; simpl; [done|].
  case_match; [|done]. apply IH, u64_range.
Qed.

(** Without the early stop the loop computes the polynomial modulo 2^64: it is
    enough that no proper prefix of the string evaluates to [ULONG_MAX]. *)
Lemma hash_loop_poly m h s :
  0 ≤ m → 0 ≤ h < 2 ^ 64 →
  (∀ p c r, s = p ++ c :: r → u64 (poly m h p) ≠ ULONG_MAX) →
  hash_loop m h s = u64 (poly m h s).
Proof.
  intros Hm. revert h. induction s as [|c s IH]; intros h Hh Hp.
  { simpl. unfold u64. by rewrite Z.mod_small. }
  assert (h ≠ ULONG_MAX) as Hne.
  { pose proof (Hp [] c s eq_refl) as H0. simpl in H0. unfold u64 in H0.
    by rewrite Z.mod_small in H0 by done. }
  cbn [hash_loop]. rewrite (proj2 (Z.ltb_lt _ _)) by (unfold ULONG_MAX in *; lia).
  rewrite IH.
  - rewrite poly_snoc_step by done. apply u64_poly; [done|]. apply hash_loop_step.
  - apply u64_range.
  - intros p d r ->. specialize (Hp (c :: p) d r eq_refl).
    rewrite poly_snoc_step in Hp by done.
    intros Heq. apply Hp. rewrite <-Heq. apply u64_poly; [done|]. symmetry. apply hash_loop_step.
Qed.

(** Once the value is [ULONG_MAX] the rest of the key is ignored. *)
Lemma hash_loop_stuck m s : hash_loop m ULONG_MAX s = ULONG_MAX.
Proof. by destruct s. Qed.

(** ** Ranges *)
Lemma hint_of_range s : 0 ≤ hint_of s < 256.
Proof. by apply Z.mod_pos_bound. Qed.

Lemma bucket_of_range size s : 0 < size ≤ INT_MAX → 0 ≤ bucket_of size s < size.
Proof.
  intros Hs. unfold bucket_of, INT_MAX in *.
  assert (u64 size = size) as -> by (unfold u64; apply Z.mod_small; lia).
  pose proof (Z.mod_pos_bound (hash_loop 61 7 s) size ltac:(lia)).
  rewrite s32_small; lia.
Qed.

Lemma bucket_of_mod size s :
  0 < size ≤ INT_MAX → bucket_of size s = hash_loop 61 7 s mod size.
Proof.
  intros Hs. unfold bucket_of, INT_MAX in *.
  assert (u64 size = size) as -> by (unfold u64; apply Z.mod_small; lia).
  pose proof (Z.mod_pos_bound (hash_loop 61 7 s) size ltac:(lia)).
  apply s32_small; lia.
Qed.

Lemma ht_hash_dup st k :
  nonul k → 0 < ht_size (ht_enclave st) ≤ INT_MAX →
  ht_hash (dup_str k) st = Ok (bucket_of (ht_size (ht_enclave st)) k, st).
Proof.
  intros Hk Hs. unfold ht_hash. rewrite (bind_lift _ _ _ k) by (by apply cstr_dup). msimpl.
  simpl. rewrite (proj2 (Z.eqb_neq _ 0)); [done|].
  unfold u64, INT_MAX in *. rewrite Z.mod_small; lia.
Qed.

Lemma key_hash_dup k : nonul k → key_hash_func (dup_str k) = Ok (hint_of k).
Proof. intros Hk. unfold key_hash_func. by rewrite cstr_dup. Qed.
