(* ===== verification/Core.v ===== *)
(** * Security core, [Enclave/core.cpp]

    Encryption and MAC of an entry, the MAC of all entries below one root, and
    the check and update of the root kept in enclave memory. *)

From S2P Require Import Prelude CString Common Hash.

(** Global symmetric key *)
Definition gsk : bytes :=
  [x72; x12; x8a; x7a; x17; x52; x6e; xbf; x85; xd0; x3a; x62; x37; x30; xae; xad].

Section core.
  Context `{Platform}.

(** [if(ret != SGX_SUCCESS) { assert(0); }] *)
Definition assert_success (ret : sgx_status) : E unit :=
  if bool_decide (ret = SGX_SUCCESS) then mret tt else assert_ false.

(** The result carries the decrypted buffer and the advanced counter block; the
    buffer is NULL when the key is another one. *)
Definition decrypt_key_val_and_compare (key cipher : bytes) (key_len val_len : Z) (nac : bytes)
  : E (option (bytes * bytes)) :=
  temp_nac ← lift (read_at nac 0 NAC_SIZE);
  src ← lift (read_at cipher 0 (u32 (key_len + val_len)));
  let '(ret, temp_plain, temp_nac') := sgx_aes_ctr_decrypt gsk src temp_nac NAC_SIZE in
  assert_success ret;;
  same ← lift (memcmp_eq temp_plain key key_len);
  if (same : bool) then mret (Some (temp_plain, temp_nac')) else mret None.

Definition decrypt_and_get_key (cipher : bytes) (key_len val_len : Z) (nac : bytes) : E bytes :=
  temp_nac ← lift (read_at nac 0 NAC_SIZE);
  src ← lift (read_at cipher 0 (u32 (key_len + val_len)));
  let '(ret, temp_plain, _) := sgx_aes_ctr_decrypt gsk src temp_nac NAC_SIZE in
  assert_success ret;;
  lift (read_at temp_plain 0 key_len).

(** The message the MAC of an entry is computed over: the buffer [temp_all] that
    three functions fill with the ciphertext, the counter block, the key hint and
    the two lengths. *)
Definition mac_message (cipher : bytes) (key_idx key_len val_len : Z) (nac : bytes) : res bytes :=
  let temp_all := zeros (u32 (key_len + val_len + NAC_SIZE + 1) + 4 * 2) in
  temp_all ← memcpy temp_all 0 cipher 0 (u32 (key_len + val_len));
  temp_all ← memcpy temp_all (key_len + val_len) nac 0 NAC_SIZE;
  temp_all ← memcpy temp_all (key_len + val_len + NAC_SIZE) [byte_of_Z key_idx] 0 1;
  temp_all ← memcpy temp_all (key_len + val_len + NAC_SIZE + 1) (le32 key_len) 0 4;
  temp_all ← memcpy temp_all (key_len + val_len + NAC_SIZE + 1 + 4) (le32 val_len) 0 4;
  read_at temp_all 0 (u32 (u32 (key_len + val_len + NAC_SIZE) + 1 + 4 * 2)).

(** Returns the contents of the buffer [cipher] and of [mac]. *)
Definition enclave_encrypt (key_val cipher : bytes) (key_idx key_len val_len : Z) (nac : bytes)
  : E (bytes * bytes) :=
  temp_nac ← lift (read_at nac 0 NAC_SIZE);
  src ← lift (read_at key_val 0 (u32 (key_len + val_len)));
  let '(ret, dst, _) := sgx_aes_ctr_encrypt gsk src temp_nac NAC_SIZE in
  assert_success ret;;
  temp_cipher ← lift (write_at cipher 0 dst);
  temp_all ← lift (mac_message temp_cipher key_idx key_len val_len nac);
  let '(_, temp_mac) := sgx_rijndael128_cmac_msg gsk temp_all in
  mac ← lift (read_at temp_mac 0 MAC_SIZE);
  mret (temp_cipher, mac).

Definition enclave_verification (cipher : bytes) (key_idx key_len val_len : Z) (nac mac : bytes)
  : E sgx_status :=
  temp_nac ← lift (read_at nac 0 NAC_SIZE);
  temp_all ← lift (mac_message cipher key_idx key_len val_len temp_nac);
  let '(ret, temp_mac) := sgx_rijndael128_cmac_msg gsk temp_all in
  same ← lift (memcmp_eq temp_mac mac MAC_SIZE);
  (if (same : bool) then mret tt else print "MAC matching failed");;
  mret ret.

(** Returns the contents of the buffer [plain]. *)
Definition enclave_decrypt (cipher plain : bytes) (key_idx key_len val_len : Z) (nac mac : bytes)
  : E bytes :=
  temp_nac ← lift (read_at nac 0 NAC_SIZE);
  temp_all ← lift (mac_message cipher key_idx key_len val_len temp_nac);
  let '(ret, temp_mac) := sgx_rijndael128_cmac_msg gsk temp_all in
  assert_success ret;;
  same ← lift (memcmp_eq temp_mac mac MAC_SIZE);
  if (same : bool) then
    src ← lift (read_at cipher 0 (u32 (key_len + val_len)));
    let '(_, dst, _) := sgx_aes_ctr_decrypt gsk src temp_nac NAC_SIZE in
    lift (write_at plain 0 dst)
  else print "MAC matching failed";; mret plain.

(** ** Walks over the chains of untrusted entries

    The loops follow [next] pointers; the bound is the number of live entries,
    which is enough for every chain without a cycle. *)
Definition chain_fuel : E nat := gets (λ s, S (size (heap s))).

(** [while(pair != NULL) { count++; pair = pair->next; }] *)
Fixpoint chain_count (fuel : nat) (pair : ptr) (count : Z) : E Z :=
  match pair with
  | None => mret count
  | Some l =>
      match fuel with
      | O => raise Out_of_fuel
      | S fuel' => e ← load l; chain_count fuel' (next e) (count + 1)
      end
  end.

(** [while(pair != NULL) { memcpy(aggregate_mac+(MAC_SIZE*i), pair->mac, MAC_SIZE);
    i++; pair = pair->next; }] *)
Fixpoint chain_copy (fuel : nat) (pair : ptr) (agg : bytes) (i : Z) : E (bytes * Z) :=
  match pair with
  | None => mret (agg, i)
  | Some l =>
      match fuel with
      | O => raise Out_of_fuel
      | S fuel' =>
          e ← load l;
          agg' ← lift (memcpy agg (MAC_SIZE * i) (mac e) 0 MAC_SIZE);
          chain_copy fuel' (next e) agg' (i + 1)
      end
  end.

(** The buckets below the root of [hash_val]:
    [start_index .. start_index + ratio_root_per_buckets - 1]. *)
Definition root_of (hash_val : Z) : E Z :=
  ratio ← gets ratio_root_per_buckets; lift (zdiv hash_val ratio).

Definition root_range (hash_val : Z) : E (list Z) :=
  ratio ← gets ratio_root_per_buckets;
  q ← root_of hash_val;
  mret (seqZ (q * ratio) ratio).

(** Copy of the MAC buckets of a range, one after another. *)
Definition macbuf_copy (range : list Z) (agg : bytes) : E (bytes * Z) :=
  for_each range (λ index '(agg, aggregate_mac_idx),
    b ← macbuf_get index;
    agg' ← lift (memcpy agg aggregate_mac_idx (me_mac b) 0 (MAC_SIZE * me_size b));
    mret (agg', aggregate_mac_idx + MAC_SIZE * me_size b)) (agg, 0).

(** Copy of the MACs of the entries of a range, one after another. *)
Definition table_copy (range : list Z) (agg : bytes) : E (bytes * Z) :=
  for_each range (λ index '(agg, i),
    pair ← table_get index;
    fuel ← chain_fuel;
    chain_copy fuel pair agg i) (agg, 0).

Definition get_chain_mac (hash_val : Z) : E bytes :=
  range ← root_range hash_val;
  arg ← gets arg_enclave;
  '(aggregate_mac, count) ←
    (if mac_opt arg then
       count ← for_each range (λ index count,
                 b ← macbuf_get index; mret (count + me_size b)) 0;
       agg ← lift (zalloc (MAC_SIZE * count));
       '(agg', _) ← macbuf_copy range agg;
       mret (agg', count)
     else
       count ← for_each range (λ index count,
                 pair ← table_get index; fuel ← chain_fuel; chain_count fuel pair count) 0;
       agg ← lift (zalloc (MAC_SIZE * count));
       '(agg', _) ← table_copy range agg;
       mret (agg', count));
  src ← lift (read_at aggregate_mac 0 (MAC_SIZE * count));
  let '(ret, temp_mac) := sgx_rijndael128_cmac_msg gsk src in
  assert_success ret;;
  lift (read_at temp_mac 0 MAC_SIZE).

(** First pass of [enclave_rebuild_tree_root] over the MAC buckets: the number of
    MACs below the root and the position of the changed one. *)
Definition rebuild_count_opt (hash_val kv_pos : Z) (is_insert : bool) (range : list Z)
  : E (Z * Z) :=
  '(total_mac_count, updated_idx) ←
    for_each range (λ index '(total_mac_count, updated_idx),
      b ← macbuf_get index;
      let updated_idx :=
        if index =? hash_val then
          let prev_mac_count := total_mac_count in
          if is_insert then prev_mac_count + kv_pos
          else prev_mac_count + (me_size b - kv_pos - 1)
        else updated_idx in
      mret (total_mac_count + me_size b, updated_idx)) (0, -1);
  mret (total_mac_count, updated_idx).

(** The same over the chains. *)
Definition rebuild_count_chain (hash_val kv_pos : Z) (is_insert : bool) (range : list Z)
  : E (Z * Z) :=
  '(total_mac_count, prev_mac_count, cur_mac_count) ←
    for_each range (λ index '(total_mac_count, prev_mac_count, cur_mac_count),
      pair ← table_get index;
      fuel ← chain_fuel;
      n ← chain_count fuel pair 0;
      if index =? hash_val
      then mret (total_mac_count + n, total_mac_count, cur_mac_count + n)
      else mret (total_mac_count + n, prev_mac_count, cur_mac_count)) (0, 0, 0);
  mret (total_mac_count,
        if is_insert then prev_mac_count + (cur_mac_count - kv_pos - 1)
        else prev_mac_count + kv_pos).

(** The MAC of the aggregate as it was before the change. *)
Definition rebuild_previous (kv_pos : Z) (is_insert : bool) (prev_mac aggregate_mac : bytes)
  (total_mac_count updated_idx : Z) : E (sgx_status * bytes) :=
  if is_insert then
    assert_ (kv_pos =? 0);;
    if 1 <? total_mac_count then
      p ← lift (zalloc (MAC_SIZE * (total_mac_count - 1)));
      p ← lift (memcpy p 0 aggregate_mac 0 (updated_idx * MAC_SIZE));
      p ← lift (memcpy p (updated_idx * MAC_SIZE) aggregate_mac ((updated_idx + 1) * MAC_SIZE)
                  ((total_mac_count - updated_idx - 1) * MAC_SIZE));
      mret (sgx_rijndael128_cmac_msg gsk p)
    else mret (SGX_SUCCESS, zeros MAC_SIZE)
  else
    p ← lift (zalloc (MAC_SIZE * total_mac_count));
    p ← lift (memcpy p 0 aggregate_mac 0 (MAC_SIZE * total_mac_count));
    p ← lift (memcpy p (updated_idx * MAC_SIZE) prev_mac 0 MAC_SIZE);
    mret (sgx_rijndael128_cmac_msg gsk p).

Definition enclave_rebuild_tree_root (hash_val kv_pos : Z) (is_insert : bool) (prev_mac : bytes)
  : E sgx_status :=
  range ← root_range hash_val;
  arg ← gets arg_enclave;
  '(total_mac_count, updated_idx) ←
    (if mac_opt arg then rebuild_count_opt hash_val kv_pos is_insert range
     else rebuild_count_chain hash_val kv_pos is_insert range);
  agg ← lift (zalloc (MAC_SIZE * total_mac_count));
  '(aggregate_mac, _) ← (if mac_opt arg then macbuf_copy range agg else table_copy range agg);
  '(ret, temp_mac) ←
    rebuild_previous kv_pos is_insert prev_mac aggregate_mac total_mac_count updated_idx;
  if negb (bool_decide (ret = SGX_SUCCESS)) then mret SGX_ERROR_UNEXPECTED
  else
    root ← root_of hash_val;
    same ←
      (if negb is_insert || (is_insert && (1 <? total_mac_count)) then
         t ← gets MACTable;
         stored ← lift (zlookup t root);
         lift (memcmp_eq temp_mac stored MAC_SIZE)
       else mret true);
    if negb same then print "Previous MAC compare failed";; mret SGX_ERROR_UNEXPECTED
    else
      src ← lift (read_at aggregate_mac 0 (MAC_SIZE * total_mac_count));
      let '(ret, temp_mac) := sgx_rijndael128_cmac_msg gsk src in
      m ← lift (read_at temp_mac 0 MAC_SIZE);
      t ← gets MACTable;
      t' ← lift (zupdate t root m);
      modify (set_MACTable t');;
      mret ret.

Definition enclave_verify_tree_root (hash_val : Z) : E sgx_status :=
  cur_mac ← get_chain_mac hash_val;
  root ← root_of hash_val;
  t ← gets MACTable;
  stored ← lift (zlookup t root);
  same ← lift (memcmp_eq cur_mac stored MAC_SIZE);
  if (same : bool) then mret SGX_SUCCESS else mret SGX_ERROR_UNEXPECTED.

End core.
