(* ===== verification/HashTable.v ===== *)
(** * The hash table in untrusted memory, [Enclave/ht.cpp]

    Chained buckets of encrypted entries; a MAC bucket beside each chain keeps
    the MACs of its entries in the reverse order when [mac_opt] is set. *)

From S2P Require Import Prelude CString Common Hash Core.

(** What [ht_get_o] hands back for a found key: the entry, the decrypted buffer
    and the advanced counter block. *)
Record found := Found {
  f_entry : loc;
  f_plain : bytes;
  f_nac : bytes;
}.

Section ht.
Context `{Platform}.

(** The loop of [ht_get_o] over one chain.  [hint] is the key hash that entries
    must have when the key optimisation is on. *)
Fixpoint ht_get_loop (fuel : nat) (key : bytes) (key_size_ : Z) (hint : option Z) (pair : ptr)
  (kv_pos : Z) : E (option found * Z) :=
  match pair with
  | None => mret (None, kv_pos)
  | Some l =>
      match fuel with
      | O => raise Out_of_fuel
      | S fuel' =>
          e ← load l;
          r ← match key_val e with
              | Some cipher =>
                  if (key_size e =? u32 key_size_) &&
                     (match hint with Some h => h =? key_hash e | None => true end)
                  then decrypt_key_val_and_compare key cipher (key_size e) (val_size e) (nac e)
                  else mret None
              | None => mret None
              end;
          match r with
          | Some (plain, updated_nac) =>
              assert_ (sgx_is_outside_enclave (AEntry l) sizeof_entry);;
              assert_ (sgx_is_outside_enclave (AKeyVal l) (u32 (key_size e + val_size e)));;
              mret (Some (Found l plain updated_nac), kv_pos)
          | None => ht_get_loop fuel' key key_size_ hint (next e) (kv_pos + 1)
          end
      end
  end.

Definition ht_get_o (key : bytes) (key_size_ : Z) : E (option found * Z) :=
  bin ← ht_hash key;
  arg ← gets arg_enclave;
  fuel ← chain_fuel;
  if key_opt arg then
    key_hash_ ← lift (key_hash_func key);
    pair ← table_get bin;
    ht_get_loop fuel key key_size_ (Some key_hash_) pair 0
  else
    pair ← table_get bin;
    ht_get_loop fuel key key_size_ None pair 0.

(** [None]: one of the two allocations failed. *)
Definition ht_newpair (key_size_ val_size_ key_hash_ : Z) (key_val_ nac_ mac_ : bytes) : E ptr :=
  h ← gets heap;
  match ocall_tc_malloc h sizeof_entry with
  | None => mret None
  | Some newpair =>
      match ocall_tc_malloc h (key_size_ + val_size_) with
      | None => mret None
      | Some _ =>
          kv ← lift (read_at key_val_ 0 (key_size_ + val_size_));
          n ← lift (read_at nac_ 0 NAC_SIZE);
          m ← lift (read_at mac_ 0 MAC_SIZE);
          modify (set_heap (<[newpair :=
            mkEntry (u32 key_size_) (u32 val_size_) key_hash_ (Some kv) n m None]> h));;
          mret (Some newpair)
      end
  end.

(** The contents of a block after [realloc(p, n)]: the old bytes up to the smaller
    size; the bytes beyond the old size are indeterminate, written as zeros. *)
Definition realloc_bytes (b : bytes) (n : Z) : bytes :=
  take (Z.to_nat n) b ++ zeros (n - blen b).

(** The update of an entry in place: [key_val] resized if [resize], then the
    buffer, the counter block, the MAC and the length of the value rewritten. *)
Definition entry_update (l : loc) (resize : bool) (key_val_ nac_ mac_ : bytes) (key_len val_len : Z)
  : E unit :=
  e ← load l;
  h ← gets heap;
  buf ← (if resize then
           if ocall_tc_realloc h l (u32 (key_len + val_len))
           then mret (realloc_bytes (default [] (key_val e)) (u32 (key_len + val_len)))
           else raise Null_deref
         else match key_val e with Some b => mret b | None => raise Null_deref end);
  buf' ← lift (memcpy buf 0 key_val_ 0 (u32 (key_len + val_len)));
  n ← lift (read_at nac_ 0 NAC_SIZE);
  m ← lift (read_at mac_ 0 MAC_SIZE);
  store l (mkEntry (key_size e) val_len (key_hash e) (Some buf') n m (next e)).

(** [memcpy(MACbuf_enclave->entry[bin].mac + (MAC_SIZE * pos), mac, MAC_SIZE)] *)
Definition macbuf_write (bin pos : Z) (mac_ : bytes) : E unit :=
  b ← macbuf_get bin;
  m ← lift (memcpy (me_mac b) (MAC_SIZE * pos) mac_ 0 MAC_SIZE);
  macbuf_set bin (mkMACentry (me_size b) m).

Definition ht_set_o (updated_entry : ptr) (key key_val_ nac_ mac_ : bytes) (key_len val_len kv_pos : Z)
  : E unit :=
  bin ← ht_hash key;
  key_hash_ ← lift (key_hash_func key);
  arg ← gets arg_enclave;
  match updated_entry with
  | Some l =>
      e ← load l;
      entry_update l (negb (val_size e =? val_len)) key_val_ nac_ mac_ key_len val_len;;
      if mac_opt arg then
        b ← macbuf_get bin;
        macbuf_write bin (me_size b - kv_pos - 1) mac_
      else mret tt
  | None =>
      newpair ← ht_newpair key_len val_len key_hash_ key_val_ nac_ mac_;
      (if bool_decide (newpair = None) then print "new pair problem" else mret tt);;
      head ← table_get bin;
      l ← deref newpair;
      e ← load l;
      (if bool_decide (head = None) then store l (set_next e None)
       else store l (set_next e head));;
      table_set bin newpair;;
      if mac_opt arg then
        b ← macbuf_get bin;
        macbuf_set bin (mkMACentry (me_size b + 1) (me_mac b));;
        macbuf_write bin kv_pos mac_
      else mret tt
  end.

Definition ht_append_o (updated_entry : ptr) (key key_val_ nac_ mac_ : bytes)
  (key_len val_len kv_pos : Z) : E unit :=
  bin ← ht_hash key;
  arg ← gets arg_enclave;
  match updated_entry with
  | None => print "There's no data in database"
  | Some l =>
      entry_update l true key_val_ nac_ mac_ key_len val_len;;
      if mac_opt arg then macbuf_write bin kv_pos mac_ else mret tt
  end.

End ht.
