(* ===== verification/Enclave.v ===== *)
(** * Request handlers, [Enclave/Enclave.cpp]

    [enclave_set], [enclave_get] and [enclave_append] work on the request buffer
    in place: each function here takes the buffer and returns its contents when
    the handler is done. *)

From S2P Require Import Prelude CString Common Hash Core HashTable.

Section enclave.
Context `{Platform}.

(** [enclave_init_values]: the state after initialisation.  The arguments are the
    table and the MAC buckets the host made, and the memory they are in.  The header in [ht_] is
    the ecall's copy, which is gone when it returns ([Dispatch.init_queues]); what stays is the
    memory it points to, and the [ratio]. *)
Definition enclave_init_values (ht_ : hashtable) (h : gmap loc entry) (MACbuf_ : list MACentry)
  (arg : Arg) : res enclave :=
  ratio ← zdiv (ht_size ht_) (tree_root_size arg);
  Ok (mkEnclave ht_ h MACbuf_
        (replicate (Z.to_nat (tree_root_size arg)) (zeros MAC_SIZE)) arg ratio 0 []).

(** [tok = strtok_r(cipher+4," ",&temp_)] and the copy of the token: the parsed
    token, the key (NUL-terminated) and its size. *)
Definition parse_key (cipher : bytes) : E (token * bytes * Z) :=
  t ← lift (strtok_r cipher 4);
  match t with
  | None => raise Null_deref
  | Some t => mret (t, dup_str (tok t), u32 (blen (tok t) + 1))
  end.

(** The copy of what follows the token: the value and its size. *)
Definition parse_val (t : token) : E (bytes * Z) :=
  match tok_rest t with
  | None => raise Null_deref
  | Some off =>
      v ← lift (cstr_at (tok_buf t) off);
      mret (dup_str v, u32 (blen v + 1))
  end.

(** [enclave_verification] of an entry, with the message its callers print. *)
Definition verify_entry (e : entry) : E unit :=
  cipher ← match key_val e with Some b => mret b | None => raise Null_deref end;
  ret ← enclave_verification cipher (key_hash e) (key_size e) (val_size e) (nac e) (mac e);
  if bool_decide (ret = SGX_SUCCESS) then mret tt else print "MAC verification failed".

(** [memset(cipher, 0, arg_enclave.max_buf_size); memcpy(cipher, src + off, n);] *)
Definition respond (cipher src : bytes) (off n : Z) : E bytes :=
  arg ← gets arg_enclave;
  z ← lift (zalloc (max_buf_size arg));
  cipher ← lift (write_at cipher 0 z);
  lift (memcpy cipher 0 src off n).

Definition check_tree (ret : sgx_status) : E unit :=
  if bool_decide (ret = SGX_SUCCESS) then mret tt else print "Tree verification failed".

(** The entry and its plain text are one result of [ht_get_o], so the assertion of the insert
    branch, that there is no plain text, holds by the form of the value. *)
Definition enclave_set (cipher : bytes) : E bytes :=
  '(t, key, key_size_) ← parse_key cipher;
  '(val, val_size_) ← parse_val t;
  '(ret_entry, kv_pos) ← ht_get_o key key_size_;
  hash_val ← ht_hash key;
  key_idx ← lift (key_hash_func key);
  '(nac_, prev_mac, is_insert) ←
    match ret_entry with
    | Some f =>
        e ← load (f_entry f);
        verify_entry e;;
        prev_mac ← lift (read_at (mac e) 0 MAC_SIZE);
        mret (f_nac f, prev_mac, false)
    | None =>
        n ← gets rand_calls;
        modify (set_rand (S n));;
        mret (sgx_read_rand n NAC_SIZE, zeros MAC_SIZE, true)
    end;
  let kv := key ++ val in
  '(kv', mac_) ← enclave_encrypt kv kv key_idx key_size_ val_size_ nac_;
  ht_set_o (f_entry <$> ret_entry) key kv' nac_ mac_ key_size_ val_size_ kv_pos;;
  ret ← enclave_rebuild_tree_root hash_val kv_pos is_insert prev_mac;
  check_tree ret;;
  respond (tok_buf t) key 0 key_size_.

Definition enclave_get (cipher : bytes) : E bytes :=
  '(t, key, key_size_) ← parse_key cipher;
  '(ret_entry, kv_pos) ← ht_get_o key key_size_;
  match ret_entry with
  | None => print "GET FAILED: No data in database";; mret (tok_buf t)
  | Some f =>
      hash_val ← ht_hash key;
      e ← load (f_entry f);
      verify_entry e;;
      ret ← enclave_verify_tree_root hash_val;
      check_tree ret;;
      respond (tok_buf t) (f_plain f) (key_size e) (val_size e)
  end.

Definition enclave_append (cipher : bytes) : E bytes :=
  '(t, key, key_size_) ← parse_key cipher;
  '(val, val_size_) ← parse_val t;
  '(ret_entry, kv_pos) ← ht_get_o key key_size_;
  hash_val ← ht_hash key;
  key_idx ← lift (key_hash_func key);
  match ret_entry with
  | None => print "There's no data in the database";; mret (tok_buf t)
  | Some f =>
      e ← load (f_entry f);
      verify_entry e;;
      prev_mac ← lift (read_at (mac e) 0 MAC_SIZE);
      kv ← lift (zalloc (u32 (key_size e + val_size e + val_size_ - 1)));
      kv ← lift (memcpy kv 0 (f_plain f) 0 (u32 (key_size e + val_size e)));
      kv ← lift (write_at kv (key_size e + val_size e - 1) val);
      let new_size := u32 (val_size e + val_size_ - 1) in
      '(kv', mac_) ← enclave_encrypt kv kv key_idx key_size_ new_size (f_nac f);
      ht_append_o (Some (f_entry f)) key kv' (f_nac f) mac_ key_size_ new_size kv_pos;;
      ret ← enclave_rebuild_tree_root hash_val kv_pos false prev_mac;
      check_tree ret;;
      respond (tok_buf t) key 0 key_size_
  end.

(** ** One job of [enclave_worker_thread] *)
Inductive verdict :=
  | Reply (buf : bytes)   (* the buffer is returned to the client *)
  | Quit                  (* the "quit" job: the worker ends *)
  | Untyped.              (* unknown command: the worker leaves its loop *)

Definition is_cmd (cipher : bytes) (upper lower : string) (n : nat) : E bool :=
  a ← lift (strncmp_eq cipher (str upper) n);
  if (a : bool) then mret true else lift (strncmp_eq cipher (str lower) n).

Definition worker_job (cipher : bytes) : E verdict :=
  get ← is_cmd cipher "GET" "get" 3;
  if (get : bool) then Reply <$> enclave_get cipher
  else
    set ← is_cmd cipher "SET" "set" 3;
    if (set : bool) then Reply <$> enclave_set cipher
    else
      app ← is_cmd cipher "APP" "app" 3;
      if (app : bool) then Reply <$> enclave_append cipher
      else
        quit ← lift (strncmp_eq cipher (str "quit") 4);
        if (quit : bool) then mret Quit
        else print "Untyped request";; mret Untyped.

End enclave.
