(* ===== verification/Config.v ===== *)
(** * The configuration is fixed

    No handler changes the parameters or the sizes of the tables, whatever the
    request and whatever untrusted memory holds. *)

From S2P Require Import Prelude CString Common Hash Core HashTable Enclave.

(** The parameters and the sizes of the arrays of a state. *)
Definition config (s : enclave) : Arg * Z * Z * Z * Z * Z :=
  (arg_enclave s, ratio_root_per_buckets s, ht_size (ht_enclave s),
   blen (ht_table (ht_enclave s)), blen (MACbuf_enclave s), blen (MACTable s)).

Section config.
Context `{Platform}.

Lemma keeps_config_upd {A} (get : enclave → list A) (set : list A → enclave → enclave) i x :
  (∀ l s, blen l = blen (get s) → config (set l s) = config s) →
  keeps config (t ← gets get; t' ← lift (zupdate t i x); modify (set t')).
Proof.
  intros Hset. apply run_keeps. intros s a s'. msimpl. unfold lift, mbind, M_bind, res_bind, zupdate.
  destruct (_ && _); [|done]. intros [= _ <-]. apply Hset. by rewrite blen_insert.
Qed.

Lemma keeps_load l : keeps config (load l).
Proof. apply run_keeps. intros s ? ?. unfold load. destruct (heap s !! l); naive_solver. Qed.
Lemma keeps_store l e : keeps config (store l e).
Proof. apply run_keeps. intros s ? ?. unfold store. destruct (heap s !! l); [|done]. by intros [= _ <-]. Qed.
Lemma keeps_deref p : keeps config (deref p).
Proof. unfold deref. solve_preserves. Qed.
Lemma keeps_print m : keeps config (print m).
Proof. by apply keeps_modify. Qed.
Lemma keeps_table_get i : keeps config (table_get i).
Proof. unfold table_get. solve_preserves. Qed.
Lemma keeps_macbuf_get i : keeps config (macbuf_get i).
Proof. unfold macbuf_get. solve_preserves. Qed.
Lemma keeps_table_set i p : keeps config (table_set i p).
Proof.
  apply (keeps_config_upd (ht_table ∘ ht_enclave)). intros l s Hl. unfold config. simpl in *.
  by rewrite Hl.
Qed.
Lemma keeps_macbuf_set i m : keeps config (macbuf_set i m).
Proof.
  apply (keeps_config_upd MACbuf_enclave). intros l s Hl. unfold config. simpl in *. by rewrite Hl.
Qed.
Lemma keeps_assert b : keeps config (assert_ b).
Proof. unfold assert_. solve_preserves. Qed.
Lemma keeps_set_heap h : keeps config (modify (set_heap h)).
Proof. by apply keeps_modify. Qed.
Lemma keeps_set_rand n : keeps config (modify (set_rand n)).
Proof. by apply keeps_modify. Qed.
Lemma keeps_root_set {A} i m (K : E A) :
  keeps config K →
  keeps config (t ← gets MACTable; t' ← lift (zupdate t i m); modify (set_MACTable t');; K).
Proof.
  intros HK. apply run_keeps. intros s a s'. pose proof (keeps_config_upd MACTable set_MACTable i m) as Hu.
  intros (t & s1 & [= <- <-] & (t' & s2 & H2 & (u & s3 & H3 & H4)%bind_inv)%bind_inv)%bind_inv.
  apply (keeps_run _ _ _ _ _ HK) in H4. rewrite H4.
  refine (keeps_run _ _ _ _ _ (Hu _) _); [intros l q Hl; unfold config; simpl; by rewrite Hl|].
  msimpl. by rewrite (bind_ok _ _ _ _ _ H2).
Qed.
End config.

#[export] Hint Resolve keeps_load keeps_store keeps_deref keeps_print keeps_table_get keeps_macbuf_get
  keeps_table_set keeps_macbuf_set keeps_assert keeps_set_heap keeps_set_rand keeps_root_set : preserves.

Section handlers.
Context `{Platform}.

Lemma keeps_assert_success r : keeps config (assert_success r).
Proof. unfold assert_success. solve_preserves. Qed.
Local Hint Resolve keeps_assert_success : preserves.

Lemma keeps_decrypt k c kl vl n : keeps config (decrypt_key_val_and_compare k c kl vl n).
Proof. unfold decrypt_key_val_and_compare. solve_preserves. Qed.
Lemma keeps_encrypt kv c i kl vl n : keeps config (enclave_encrypt kv c i kl vl n).
Proof. unfold enclave_encrypt. solve_preserves. Qed.
Lemma keeps_verification c i kl vl n m : keeps config (enclave_verification c i kl vl n m).
Proof. unfold enclave_verification. solve_preserves. Qed.
Local Hint Resolve keeps_decrypt keeps_encrypt keeps_verification : preserves.

Lemma keeps_chain_fuel : keeps config chain_fuel.
Proof. apply keeps_gets. Qed.
Local Hint Resolve keeps_chain_fuel : preserves.

Lemma keeps_chain_count fuel p n : keeps config (chain_count fuel p n).
Proof. revert p n. induction fuel as [|fuel IH]; intros [l|] n; simpl; solve_preserves. Qed.
Lemma keeps_chain_copy fuel p agg i : keeps config (chain_copy fuel p agg i).
Proof. revert p agg i. induction fuel as [|fuel IH]; intros [l|] agg i; simpl; solve_preserves. Qed.
Lemma keeps_get_loop fuel k ks h p n : keeps config (ht_get_loop fuel k ks h p n).
Proof. revert p n. induction fuel as [|fuel IH]; intros [l|] n; simpl; solve_preserves. Qed.
Local Hint Resolve keeps_chain_count keeps_chain_copy keeps_get_loop : preserves.

Lemma keeps_ht_hash k : keeps config (ht_hash k).
Proof. unfold ht_hash. solve_preserves. Qed.
Local Hint Resolve keeps_ht_hash : preserves.
Lemma keeps_root_of h : keeps config (root_of h).
Proof. unfold root_of. solve_preserves. Qed.
Local Hint Resolve keeps_root_of : preserves.
Lemma keeps_root_range h : keeps config (root_range h).
Proof. unfold root_range. solve_preserves. Qed.
Local Hint Resolve keeps_root_range : preserves.

Lemma keeps_chain_mac h : keeps config (get_chain_mac h).
Proof. unfold get_chain_mac, macbuf_copy, table_copy. solve_preserves. Qed.
Lemma keeps_rebuild h n b m : keeps config (enclave_rebuild_tree_root h n b m).
Proof.
  unfold enclave_rebuild_tree_root, rebuild_count_opt, rebuild_count_chain, rebuild_previous,
    macbuf_copy, table_copy.
  solve_preserves.
Qed.
Local Hint Resolve keeps_chain_mac keeps_rebuild : preserves.

Lemma keeps_verify_root h : keeps config (enclave_verify_tree_root h).
Proof. unfold enclave_verify_tree_root. solve_preserves. Qed.
Lemma keeps_get_o k n : keeps config (ht_get_o k n).
Proof. unfold ht_get_o. solve_preserves. Qed.
Lemma keeps_newpair a b c x y z : keeps config (ht_newpair a b c x y z).
Proof. unfold ht_newpair. solve_preserves. Qed.
Lemma keeps_entry_update l r x y z a b : keeps config (entry_update l r x y z a b).
Proof. unfold entry_update. solve_preserves. Qed.
Lemma keeps_macbuf_write i n m : keeps config (macbuf_write i n m).
Proof. unfold macbuf_write. solve_preserves. Qed.
Local Hint Resolve keeps_verify_root keeps_get_o keeps_newpair keeps_entry_update keeps_macbuf_write : preserves.

Lemma keeps_set_o l k kv n m a b i : keeps config (ht_set_o l k kv n m a b i).
Proof. unfold ht_set_o. solve_preserves. Qed.
Lemma keeps_append_o l k kv n m a b i : keeps config (ht_append_o l k kv n m a b i).
Proof. unfold ht_append_o. solve_preserves. Qed.
Lemma keeps_parse_key c : keeps config (parse_key c).
Proof. unfold parse_key. solve_preserves. Qed.
Lemma keeps_parse_val t : keeps config (parse_val t).
Proof. unfold parse_val. solve_preserves. Qed.
Lemma keeps_verify_entry e : keeps config (verify_entry e).
Proof. unfold verify_entry. solve_preserves. Qed.
Lemma keeps_respond c x o n : keeps config (respond c x o n).
Proof. unfold respond. solve_preserves. Qed.
Lemma keeps_check_tree r : keeps config (check_tree r).
Proof. unfold check_tree. solve_preserves. Qed.
Lemma keeps_is_cmd c u l n : keeps config (is_cmd c u l n).
Proof. unfold is_cmd. solve_preserves. Qed.
Local Hint Resolve keeps_set_o keeps_append_o keeps_parse_key keeps_parse_val keeps_verify_entry
  keeps_respond keeps_check_tree keeps_is_cmd : preserves.

Lemma keeps_enclave_set c : keeps config (enclave_set c).
Proof. unfold enclave_set. solve_preserves. Qed.
Lemma keeps_enclave_get c : keeps config (enclave_get c).
Proof. unfold enclave_get. solve_preserves. Qed.
Lemma keeps_enclave_append c : keeps config (enclave_append c).
Proof. unfold enclave_append. solve_preserves. Qed.
Local Hint Resolve keeps_enclave_set keeps_enclave_get keeps_enclave_append : preserves.

Lemma keeps_worker_job c : keeps config (worker_job c).
Proof. unfold worker_job. solve_preserves. Qed.
End handlers.
