(* ===== verification/Types.v ===== *)
(** * The sizes of the objects of the enclave

    Every object has the size and every field the range of its C type, and a root is zero or
    a MAC under the key of the enclave.  No handler breaks this, whatever the request and
    whatever the host has written to untrusted memory, and no handler changes the size of
    the request buffer, which is also the buffer of the answer. *)

From S2P Require Import Prelude CString Common Hash Core HashTable Enclave Config.

(** ** Types *)
Section types.
Context `{Platform}.

(** [uint32_t key_size, val_size; uint8_t key_hash; uint8_t nac[16], mac[16]] *)
Record entry_typed (e : entry) : Prop := {
  et_ksize : 0 ≤ key_size e < 2 ^ 32;
  et_vsize : 0 ≤ val_size e < 2 ^ 32;
  et_hash : 0 ≤ key_hash e < 2 ^ 8;
  et_nac : blen (nac e) = NAC_SIZE;
  et_mac : blen (mac e) = MAC_SIZE;
}.

(** [uint8_t mac[MAC_SIZE*30]] *)
Definition bucket_typed (b : MACentry) : Prop := blen (me_mac b) = MAC_SIZE * MAC_SLOTS.

(** The host may write any values of the C types there. *)
Record memory_typed (s : enclave) : Prop := {
  mt_heap : map_Forall (λ _, entry_typed) (heap s);
  mt_macbuf : Forall bucket_typed (MACbuf_enclave s);
}.

(** A root is as [enclave_init_values] made it or a MAC. *)
Definition root_typed (m : bytes) : Prop :=
  blen m = MAC_SIZE ∧ (m = zeros MAC_SIZE ∨ ∃ src, m = take (Z.to_nat MAC_SIZE) (snd (sgx_rijndael128_cmac_msg gsk src))).

Record typed (s : enclave) : Prop := {
  ty_memory : memory_typed s;
  ty_roots : Forall root_typed (MACTable s);
}.

(** ** Accesses *)
Lemma read_at_len {A} (b : list A) off n x : read_at b off n = Ok x → blen x = n.
Proof.
  unfold read_at. destruct (Z.leb_spec 0 off), (Z.leb_spec 0 n), (Z.leb_spec (off + n) (blen b)); simpl; try done.
  intros [= <-]. rewrite blen_take; [done|]. rewrite blen_drop; lia.
Qed.

Lemma memcpy_len {A} (dst : list A) doff src soff n b : memcpy dst doff src soff n = Ok b → blen b = blen dst.
Proof. unfold memcpy, mbind, res_bind. destruct (read_at src soff n); [|done]. apply write_at_length. Qed.

Lemma typed_load l : yields typed entry_typed (load l).
Proof.
  intros s e s' Hs. unfold load. destruct (heap s !! l) as [e0|] eqn:He; [|done]. intros [= <- <-].
  split; [done|]. by eapply (mt_heap _ (ty_memory _ Hs)).
Qed.
Lemma typed_store l e : entry_typed e → preserves typed (store l e).
Proof.
  intros He s [] s' [[Hh Hm] Hr]. unfold store. destruct (heap s !! l); [|done]. intros [= <-].
  split; [split|]; simpl; [by apply map_Forall_insert_2|done..].
Qed.
Lemma typed_set_heap h l e : map_Forall (λ _, entry_typed) h → entry_typed e → preserves typed (modify (set_heap (<[l := e]> h))).
Proof. intros Hh He. apply preserves_modify. intros s [[? ?] ?]. split; [split|]; simpl; [by apply map_Forall_insert_2|done..]. Qed.
Lemma typed_set_rand n : preserves typed (modify (set_rand n)).
Proof. apply preserves_modify. by intros s [[? ?] ?]. Qed.
Lemma typed_print m : preserves typed (print m).
Proof. apply preserves_modify. by intros s [[? ?] ?]. Qed.
Lemma typed_table_set i p : preserves typed (table_set i p).
Proof.
  unfold table_set. apply preserves_bind; [apply preserves_gets|]. intros t. apply preserves_bind; [apply preserves_lift|].
  intros t'. apply preserves_modify. by intros s [[? ?] ?].
Qed.
Lemma typed_deref p : preserves typed (deref p).
Proof. unfold deref. solve_preserves. Qed.
Lemma typed_table_get i : preserves typed (table_get i).
Proof. unfold table_get. solve_preserves. Qed.
Lemma typed_assert b : preserves typed (assert_ b).
Proof. unfold assert_. solve_preserves. Qed.

Lemma zlookup_Forall {A} (Q : A → Prop) (l : list A) i x : Forall Q l → zlookup l i = Ok x → Q x.
Proof. intros Hl Hx. apply zlookup_inv in Hx as [_ Hx]. by eapply Forall_lookup_1. Qed.
Lemma zupdate_Forall {A} (Q : A → Prop) (l l' : list A) i x : Forall Q l → Q x → zupdate l i x = Ok l' → Forall Q l'.
Proof. intros Hl Hx. unfold zupdate. destruct (_ && _); [|done]. intros [= <-]. by apply Forall_insert. Qed.

Lemma typed_macbuf_get i : yields typed bucket_typed (macbuf_get i).
Proof.
  unfold macbuf_get. apply yields_bind with (Q := Forall bucket_typed).
  - apply yields_gets. intros s Hs. apply (mt_macbuf _ (ty_memory _ Hs)).
  - intros m Hm. apply yields_lift. intros b. by apply zlookup_Forall.
Qed.
Lemma typed_macbuf_set i x : bucket_typed x → preserves typed (macbuf_set i x).
Proof.
  intros Hx. unfold macbuf_set. eapply preserves_yields_bind; [|intros m Hm].
  { apply yields_gets with (Q := Forall bucket_typed). intros s Hs. apply (mt_macbuf _ (ty_memory _ Hs)). }
  eapply preserves_yields_bind; [apply yields_lift; intros m'; by apply (zupdate_Forall bucket_typed)|].
  intros m' Hm'. apply preserves_modify. by intros s [[? ?] ?].
Qed.
Lemma typed_root_set {A} i m (K : E A) : root_typed m → preserves typed K →
  preserves typed (t ← gets MACTable; t' ← lift (zupdate t i m); modify (set_MACTable t');; K).
Proof.
  intros Hm HK. eapply preserves_yields_bind; [by apply yields_gets with (Q := Forall root_typed); intros s [_ ?]|].
  intros t Ht. eapply preserves_yields_bind; [apply yields_lift; intros t'; by apply (zupdate_Forall root_typed)|].
  intros t' Ht'. apply preserves_bind; [|done]. apply preserves_modify. by intros s [[? ?] ?].
Qed.
End types.

#[export] Hint Resolve typed_store typed_set_heap typed_set_rand typed_print typed_table_set typed_deref
  typed_table_get typed_assert typed_load typed_macbuf_get typed_macbuf_set : preserves.

(** ** Handlers *)
Section handlers.
Context `{Platform}.

Lemma typed_read l : preserves typed (load l).
Proof. eapply yields_preserves, typed_load. Qed.
Lemma typed_macbuf_read i : preserves typed (macbuf_get i).
Proof. eapply yields_preserves, typed_macbuf_get. Qed.
Local Hint Resolve typed_read typed_macbuf_read : preserves.

Lemma u32_typed z : 0 ≤ u32 z < 2 ^ 32.
Proof. by apply Z.mod_pos_bound. Qed.
Lemma key_hash_typed k h : key_hash_func k = Ok h → 0 ≤ h < 2 ^ 8.
Proof.
  unfold key_hash_func, mbind, res_bind. destruct (cstr k); [|done]. intros [= <-]. by apply Z.mod_pos_bound.
Qed.

Lemma typed_assert_success r : preserves typed (assert_success r).
Proof. unfold assert_success. solve_preserves. Qed.
Local Hint Resolve typed_assert_success : preserves.

Lemma typed_decrypt k c kl vl n : preserves typed (decrypt_key_val_and_compare k c kl vl n).
Proof. unfold decrypt_key_val_and_compare. solve_preserves. Qed.
Lemma typed_encrypt kv c i kl vl n : preserves typed (enclave_encrypt kv c i kl vl n).
Proof. unfold enclave_encrypt. solve_preserves. Qed.
Lemma typed_verification c i kl vl n m : preserves typed (enclave_verification c i kl vl n m).
Proof. unfold enclave_verification. solve_preserves. Qed.
Lemma typed_chain_fuel : preserves typed chain_fuel.
Proof. apply preserves_gets. Qed.
Local Hint Resolve typed_decrypt typed_encrypt typed_verification typed_chain_fuel : preserves.

Lemma typed_chain_count fuel p n : preserves typed (chain_count fuel p n).
Proof. revert p n. induction fuel as [|fuel IH]; intros [l|] n; simpl; solve_preserves. Qed.
Lemma typed_chain_copy fuel p agg i : preserves typed (chain_copy fuel p agg i).
Proof. revert p agg i. induction fuel as [|fuel IH]; intros [l|] agg i; simpl; solve_preserves. Qed.
Lemma typed_get_loop fuel k ks h p n : preserves typed (ht_get_loop fuel k ks h p n).
Proof. revert p n. induction fuel as [|fuel IH]; intros [l|] n; simpl; solve_preserves. Qed.
Lemma typed_ht_hash k : preserves typed (ht_hash k).
Proof. unfold ht_hash. solve_preserves. Qed.
Lemma typed_root_of h : preserves typed (root_of h).
Proof. unfold root_of. solve_preserves. Qed.
Local Hint Resolve typed_chain_count typed_chain_copy typed_get_loop typed_ht_hash typed_root_of : preserves.
Lemma typed_root_range h : preserves typed (root_range h).
Proof. unfold root_range. solve_preserves. Qed.
Local Hint Resolve typed_root_range : preserves.
Lemma typed_chain_mac h : preserves typed (get_chain_mac h).
Proof. unfold get_chain_mac, macbuf_copy, table_copy. solve_preserves. Qed.
Lemma typed_get_o k n : preserves typed (ht_get_o k n).
Proof. unfold ht_get_o. solve_preserves. Qed.
Local Hint Resolve typed_chain_mac typed_get_o : preserves.
Lemma typed_verify_root h : preserves typed (enclave_verify_tree_root h).
Proof. unfold enclave_verify_tree_root. solve_preserves. Qed.

(** What is written where. *)
Lemma typed_newpair kl vl h x y z : 0 ≤ h < 2 ^ 8 → preserves typed (ht_newpair kl vl h x y z).
Proof.
  intros Hh. unfold ht_newpair. eapply preserves_yields_bind.
  { apply yields_gets with (Q := map_Forall (λ _, entry_typed)). intros s Hs. apply (mt_heap _ (ty_memory _ Hs)). }
  intros h0 Hh0. destruct (ocall_tc_malloc _ _) as [l|]; [|apply preserves_ret].
  destruct (ocall_tc_malloc _ _); [|apply preserves_ret]. apply preserves_bind; [apply preserves_lift|]. intros kv.
  eapply preserves_yields_bind; [by apply yields_lift; intros n; apply read_at_len|]. intros n Hn.
  eapply preserves_yields_bind; [by apply yields_lift; intros m; apply read_at_len|]. intros m Hm.
  apply preserves_bind; [|intros; apply preserves_ret]. apply typed_set_heap; [done|].
  split; simpl; auto using u32_typed.
Qed.

Lemma typed_entry_update l r x y z a v : 0 ≤ v < 2 ^ 32 → preserves typed (entry_update l r x y z a v).
Proof.
  intros Hv. unfold entry_update. eapply preserves_yields_bind; [apply typed_load|]. intros e He.
  apply preserves_bind; [apply preserves_gets|]. intros h. apply preserves_bind; [solve_preserves|]. intros buf.
  apply preserves_bind; [apply preserves_lift|]. intros buf'.
  eapply preserves_yields_bind; [by apply yields_lift; intros n; apply read_at_len|]. intros n Hn.
  eapply preserves_yields_bind; [by apply yields_lift; intros m; apply read_at_len|]. intros m Hm.
  apply typed_store. split; simpl; try done; apply He.
Qed.

Lemma typed_macbuf_write i p x : preserves typed (macbuf_write i p x).
Proof.
  unfold macbuf_write. eapply preserves_yields_bind; [apply typed_macbuf_get|]. intros b Hb.
  eapply preserves_yields_bind; [by apply yields_lift; intros m; apply memcpy_len|]. intros m Hm.
  apply typed_macbuf_set. unfold bucket_typed in *. simpl. by rewrite Hm.
Qed.
Local Hint Resolve typed_newpair typed_entry_update typed_macbuf_write : preserves.

Lemma typed_set_o l k kv n m a v i : 0 ≤ v < 2 ^ 32 → preserves typed (ht_set_o l k kv n m a v i).
Proof.
  intros Hv. unfold ht_set_o. apply preserves_bind; [auto with preserves|]. intros bin.
  eapply preserves_yields_bind; [by apply yields_lift; intros h; apply key_hash_typed|]. intros h Hh.
  apply preserves_bind; [apply preserves_gets|]. intros arg. destruct l as [l|]; [solve_preserves|].
  apply preserves_bind; [auto with preserves|]. intros p. apply preserves_bind; [solve_preserves|]. intros _.
  apply preserves_bind; [auto with preserves|]. intros head. apply preserves_bind; [auto with preserves|]. intros l.
  eapply preserves_yields_bind; [apply typed_load|]. intros e He.
  assert (∀ q, entry_typed (set_next e q)) as Hnext by (by intros q; destruct He; split).
  apply preserves_bind; [case_bool_decide; auto with preserves|]. intros _.
  apply preserves_bind; [auto with preserves|]. intros _. destruct (mac_opt arg); [|apply preserves_ret].
  eapply preserves_yields_bind; [apply typed_macbuf_get|]. intros b Hb.
  apply preserves_bind; [by apply typed_macbuf_set|auto with preserves].
Qed.

Lemma typed_append_o l k kv n m a v i : 0 ≤ v < 2 ^ 32 → preserves typed (ht_append_o l k kv n m a v i).
Proof. intros Hv. unfold ht_append_o. solve_preserves. Qed.

(** The MAC is computed, and then the root is replaced by it. *)
Lemma typed_new_root i src :
  preserves typed (let '(ret, temp_mac) := sgx_rijndael128_cmac_msg gsk src in
    m ← lift (read_at temp_mac 0 MAC_SIZE);
    t ← gets MACTable; t' ← lift (zupdate t i m); modify (set_MACTable t');; mret ret).
Proof.
  destruct (sgx_rijndael128_cmac_msg gsk src) as [ret temp_mac] eqn:Hmac.
  apply preserves_yields_bind with (Q := root_typed).
  - apply yields_lift. intros m Hm. split; [by apply read_at_len in Hm|]. right. exists src. rewrite Hmac.
    unfold read_at in Hm. destruct (_ && _); [|done]. by injection Hm as <-.
  - intros m Hm. apply typed_root_set; [done|apply preserves_ret].
Qed.

Local Hint Resolve typed_new_root : preserves.

Lemma typed_rebuild h n b m : preserves typed (enclave_rebuild_tree_root h n b m).
Proof.
  unfold enclave_rebuild_tree_root, rebuild_count_opt, rebuild_count_chain, rebuild_previous, macbuf_copy, table_copy.
  solve_preserves.
Qed.
Local Hint Resolve typed_rebuild typed_verify_root : preserves.

Lemma typed_verify_entry e : preserves typed (verify_entry e).
Proof. unfold verify_entry. solve_preserves. Qed.
Lemma typed_check_tree r : preserves typed (check_tree r).
Proof. unfold check_tree. solve_preserves. Qed.
Lemma typed_is_cmd c u l n : preserves typed (is_cmd c u l n).
Proof. unfold is_cmd. solve_preserves. Qed.
Local Hint Resolve typed_verify_entry typed_check_tree typed_is_cmd : preserves.

(** ** The buffer of the request *)
Lemma strtok_len buf off t : strtok_r buf off = Ok (Some t) → blen (tok_buf t) = blen buf.
Proof.
  unfold strtok_r, mbind, res_bind. destruct (read_at buf off _) as [s|]; [|done].
  repeat case_match; try done; intros [= <-]; simpl; [|done]. by eapply write_at_length.
Qed.

Lemma parse_key_yields c : yields typed (λ x, blen (tok_buf x.1.1) = blen c) (parse_key c).
Proof.
  unfold parse_key. eapply yields_bind; [by apply yields_lift with (Q := λ t, strtok_r c 4 = Ok t)|].
  intros [t|] Ht; [|apply yields_raise]. apply yields_ret. by eapply strtok_len.
Qed.

Lemma parse_val_yields t : yields typed (λ x, 0 ≤ x.2 < 2 ^ 32) (parse_val t).
Proof.
  unfold parse_val. destruct (tok_rest t) as [off|]; [|apply yields_raise].
  eapply yields_bind; [apply yields_any; solve_preserves|]. intros v _. apply yields_ret, u32_typed.
Qed.

Lemma respond_yields c src off n : yields typed (λ b, blen b = blen c) (respond c src off n).
Proof.
  unfold respond. eapply yields_bind; [apply yields_any; solve_preserves|]. intros arg _.
  eapply yields_bind; [apply yields_any; solve_preserves|]. intros z _.
  eapply yields_bind; [apply yields_lift; intros c'; apply write_at_length|]. intros c' Hc.
  apply yields_lift. intros b ->%memcpy_len. exact Hc.
Qed.

(** Walks through a handler up to the part that yields its answer. *)
Ltac next_any := eapply yields_bind; [apply yields_any; solve_preserves|].

Lemma set_yields c : yields typed (λ b, blen b = blen c) (enclave_set c).
Proof.
  unfold enclave_set. eapply yields_bind; [apply parse_key_yields|]. intros [[t k] ks] Ht. simpl in Ht.
  eapply yields_bind; [apply parse_val_yields|]. intros [v vs] Hv. simpl in Hv.
  next_any. intros [f pos] _. next_any. intros h _. next_any. intros i _.
  next_any. intros [[nac_ prev] ins] _. next_any. intros [kv m] _.
  eapply yields_bind; [by apply yields_any, typed_set_o|]. intros _ _. next_any. intros ret _. next_any. intros _ _.
  rewrite <-Ht. apply respond_yields.
Qed.

Lemma get_yields c : yields typed (λ b, blen b = blen c) (enclave_get c).
Proof.
  unfold enclave_get. eapply yields_bind; [apply parse_key_yields|]. intros [[t k] ks] Ht. simpl in Ht.
  next_any. intros [[f|] pos] _.
  - next_any. intros h _. next_any. intros e _. next_any. intros _ _. next_any. intros ret _. next_any. intros _ _.
    rewrite <-Ht. apply respond_yields.
  - next_any. intros _ _. by apply yields_ret.
Qed.

Lemma append_yields c : yields typed (λ b, blen b = blen c) (enclave_append c).
Proof.
  unfold enclave_append. eapply yields_bind; [apply parse_key_yields|]. intros [[t k] ks] Ht. simpl in Ht.
  eapply yields_bind; [apply parse_val_yields|]. intros [v vs] Hv.
  next_any. intros [[f|] pos] _; next_any; intros h _; next_any; intros i _.
  - next_any. intros e _. next_any. intros _ _. next_any. intros prev _. next_any. intros kv1 _. next_any. intros kv2 _.
    next_any. intros kv3 _. next_any. intros [kv m] _.
    eapply yields_bind; [by apply yields_any, typed_append_o, u32_typed|]. intros _ _. next_any. intros ret _.
    next_any. intros _ _. rewrite <-Ht. apply respond_yields.
  - next_any. intros _ _. by apply yields_ret.
Qed.

(** Every job keeps the types, and its answer has the size of the request. *)
Lemma job_yields c : yields typed (λ v, ∀ b, v = Reply b → blen b = blen c) (worker_job c).
Proof.
  assert (∀ m : E bytes, yields typed (λ b, blen b = blen c) m →
    yields typed (λ v, ∀ b, v = Reply b → blen b = blen c) (Reply <$> m)) as Hr.
  { intros m Hm. apply yields_fmap. intros s b s' Hs Hrun. destruct (Hm s b s' Hs Hrun) as [? Hb].
    split; [done|]. by intros b' [= <-]. }
  unfold worker_job. next_any. intros [] _; [apply Hr, get_yields|]. next_any. intros [] _; [apply Hr, set_yields|].
  next_any. intros [] _; [apply Hr, append_yields|]. next_any. intros [] _; [by apply yields_ret|].
  next_any. intros _ _. by apply yields_ret.
Qed.
End handlers.
