(* ===== verification/ToyPlatform.v ===== *)
(** * A concrete platform

    A small instance of [Platform] that meets [PlatformOk], so that the handlers
    can be run on concrete requests and the theorems that assume [PlatformOk]
    can be applied.  It is not secure: the keystream is a function of the
    position, the key and the counter block, the MAC is a checksum. *)

From S2P Require Import Prelude Common.

Definition byte_xor (a b : byte) : byte := byte_of_Z (Z.lxor (byte_to_Z a) (byte_to_Z b)).

Lemma byte_xor_invol a b : byte_xor (byte_xor a b) b = a.
Proof.
  unfold byte_xor. rewrite byte_to_of_Z.
  assert (u8 (Z.lxor (byte_to_Z a) (byte_to_Z b)) = Z.lxor (byte_to_Z a) (byte_to_Z b)) as ->.
  { unfold u8. rewrite <-Z.land_ones by lia. apply Z.bits_inj'. intros n Hn.
    rewrite Z.land_spec, Z.lxor_spec. destruct (Z.ltb_spec n 8).
    - rewrite Z.ones_spec_low by lia. apply andb_true_r.
    - assert (∀ c, Z.testbit (byte_to_Z c) n = false) as Hz.
      { intros c. pose proof (byte_to_Z_range c).
        destruct (Z.eq_dec (byte_to_Z c) 0) as [->|]; [apply Z.bits_0|].
        apply Z.bits_above_log2; [lia|].
        assert (Z.log2 (byte_to_Z c) < 8) by (apply Z.log2_lt_pow2; lia). lia. }
      by rewrite !Hz. }
  rewrite Z.lxor_assoc, Z.lxor_nilpotent, Z.lxor_0_r. apply byte_of_to_Z.
Qed.

(** Keystream byte [i]. *)
Definition toy_stream (key ctr : bytes) (i : nat) : byte :=
  byte_of_Z (byte_to_Z (nth (i mod 16) key x00) + byte_to_Z (nth (i mod 16) ctr x00) + 7 * Z.of_nat i).

Definition toy_ctr (key src ctr : bytes) (bits : Z) : sgx_status * bytes * bytes :=
  (SGX_SUCCESS,
   imap (λ i b, byte_xor b (toy_stream key ctr i)) src,
   take 15 ctr ++ [byte_of_Z (byte_to_Z (nth 15 ctr x00) + (blen src + 15) / 16)]).

Definition toy_sum (src : bytes) : Z := fold_left (λ a b, (a * 31 + byte_to_Z b + 1) mod 65521) src 7.

Definition toy_cmac (key src : bytes) : sgx_status * bytes :=
  let sum := toy_sum src in
  (SGX_SUCCESS, (λ j, byte_of_Z (sum / 256 ^ (j mod 2) + j)) <$> seqZ 1 16).

#[global] Instance toy_platform : Platform := {
  sgx_aes_ctr_encrypt := toy_ctr;
  sgx_aes_ctr_decrypt := toy_ctr;
  sgx_rijndael128_cmac_msg := toy_cmac;
  sgx_read_rand := λ call n, replicate (Z.to_nat n) (byte_of_Z (Z.of_nat call + 1));
  sgx_is_outside_enclave := λ _ _, true;
  ocall_tc_malloc := λ h _, Some (fresh (dom h));
  ocall_tc_realloc := λ _ _ _, true;
  NDEBUG := true;
  sys_write := λ _, 1;
}.

Lemma toy_ctr_length key src ctr bits :
  blen ctr = NAC_SIZE →
  blen (snd (toy_ctr key src ctr bits)) = NAC_SIZE ∧
  blen (snd (fst (toy_ctr key src ctr bits))) = blen src.
Proof.
  unfold NAC_SIZE, toy_ctr, blen. intros. cbn [fst snd].
  rewrite length_app, length_take, length_imap. cbn [length]. lia.
Qed.

Lemma toy_ctr_invol key src ctr bits :
  snd (fst (toy_ctr key (snd (fst (toy_ctr key src ctr bits))) ctr bits)) = src.
Proof.
  simpl. apply list_eq. intros i. rewrite !list_lookup_imap.
  destruct (src !! i); simpl; [|done]. by rewrite byte_xor_invol.
Qed.

#[global] Instance toy_platform_ok : PlatformOk.
Proof.
  split.
  - intros key src ctr bits Hc Hs. eexists _, _. split; [reflexivity|].
    pose proof (toy_ctr_length key src ctr bits Hc) as [H1 H2].
    split; [apply H2|]. split; [apply H1|].
    eexists. simpl sgx_aes_ctr_decrypt. rewrite (surjective_pairing (toy_ctr _ _ _ _)).
    f_equal. rewrite (surjective_pairing (fst _)). f_equal. apply toy_ctr_invol.
  - intros key src ctr bits Hc Hs. eexists _, _. split; [reflexivity|].
    pose proof (toy_ctr_length key src ctr bits Hc) as [H1 H2]. by split.
  - intros key src Hs. eexists. split; [reflexivity|].
    unfold blen. rewrite length_fmap, length_seqZ. done.
  - intros call n Hn. simpl. unfold blen. rewrite length_replicate. lia.
  - intros h n l [= <-]. apply not_elem_of_dom, is_fresh.
Qed.

Lemma toy_mem_avail s : mem_avail s.
Proof. split; [intros; simpl; eauto|done]. Qed.


