(* ===== verification/Rep.v ===== *)
(** * Representation of the store

    What the untrusted memory and the roots hold in a state the handlers have
    built: chains of entries, each the encryption of a key and a value, MAC
    buckets in reverse chain order, and one MAC per root over all entries below
    it.  The abstract store is a finite map from keys to values. *)

From S2P Require Import Prelude CString Common Hash Core.

#[global] Instance byte_countable : Countable byte :=
  inj_countable' byte_to_Z byte_of_Z byte_of_to_Z.

(** One entry of a chain with the key and the value it encrypts. *)
Record cell := Cell {
  c_loc : loc;
  c_ent : entry;
  c_key : bytes;
  c_val : bytes;
}.
Abbreviation bucket := (list cell).

Definition c_mac (c : cell) : bytes := mac (c_ent c).

(** [p] points to the chain of the cells [b]. *)
Fixpoint chain (h : gmap loc entry) (p : ptr) (b : bucket) : Prop :=
  match b with
  | [] => p = None
  | c :: b' => p = Some (c_loc c) ∧ h !! c_loc c = Some (c_ent c) ∧ chain h (next (c_ent c)) b'
  end.

(** The store a list of buckets represents. *)
Definition abs (B : list bucket) : gmap bytes bytes :=
  list_to_map ((λ c, (c_key c, c_val c)) <$> concat B).

(** MACs of a bucket in the order they are aggregated. *)
Definition bucket_macs (opt : bool) (b : bucket) : list bytes :=
  if opt then reverse (c_mac <$> b) else c_mac <$> b.

(** MACs of the [n] buckets from [start]. *)
Definition range_macs (opt : bool) (B : list bucket) (start n : nat) : list bytes :=
  concat (bucket_macs opt <$> take n (drop start B)).

Section rep.
Context `{Platform}.

(** The entry holds the key [k] and the value [v]. *)
Record entry_ok (k v : bytes) (e : entry) : Prop := {
  eo_key : nonul k;
  eo_val : nonul v;
  eo_ksize : key_size e = blen k + 1;
  eo_vsize : val_size e = blen v + 1;
  eo_bound : blen k + blen v + 27 ≤ INT_MAX;
  eo_hint : key_hash e = hint_of k;
  eo_nac : blen (nac e) = NAC_SIZE;
  eo_maclen : blen (mac e) = MAC_SIZE;
  eo_cipher : ∃ cipher msg ctr',
    key_val e = Some cipher ∧ blen cipher = blen k + 1 + (blen v + 1) ∧
    sgx_aes_ctr_decrypt gsk cipher (nac e) NAC_SIZE = (SGX_SUCCESS, dup_str k ++ dup_str v, ctr') ∧
    blen ctr' = NAC_SIZE ∧
    mac_message cipher (key_hash e) (key_size e) (val_size e) (nac e) = Ok msg ∧
    sgx_rijndael128_cmac_msg gsk msg = (SGX_SUCCESS, mac e);
}.

(** The MAC bucket [m] holds the MACs of the chain [b]. *)
Definition macbuf_ok (m : MACentry) (b : bucket) : Prop :=
  me_size m = blen b ∧ blen (me_mac m) = MAC_SIZE * MAC_SLOTS ∧
  ∃ junk, me_mac m = concat (bucket_macs true b) ++ junk.

(** The number of roots that the buckets need. *)
Definition root_count (s : enclave) : Z := ht_size (ht_enclave s) / ratio_root_per_buckets s.

(** The parameters fit together: the buckets are shared out evenly to the roots. *)
Record cfg_ok (s : enclave) : Prop := {
  co_size : 0 < ht_size (ht_enclave s) ≤ INT_MAX;
  co_ratio : 0 < ratio_root_per_buckets s;
  co_div : ht_size (ht_enclave s) = root_count s * ratio_root_per_buckets s;
}.

(** The untrusted memory of [s] is laid out as the buckets [B]: disjoint chains
    without cycles, MACs of the right length, MAC buckets that follow the
    chains.  Nothing is said of what the entries hold. *)
Record layout (s : enclave) (B : list bucket) : Prop := {
  ly_cfg : cfg_ok s;
  ly_size : blen B = ht_size (ht_enclave s);
  ly_chains : Forall2 (chain (heap s)) (ht_table (ht_enclave s)) B;
  ly_locs : NoDup (c_loc <$> concat B);
  ly_maclen : Forall (λ c, blen (c_mac c) = MAC_SIZE) (concat B);
  ly_macbuf : mac_opt (arg_enclave s) = true → Forall2 macbuf_ok (MACbuf_enclave s) B;
  ly_count : MAC_SIZE * blen (concat B) ≤ INT_MAX;
}.

(** The cell [c] is in the bucket of its key and holds its key and value. *)
Definition cell_ok (s : enclave) (i : nat) (c : cell) : Prop :=
  entry_ok (c_key c) (c_val c) (c_ent c) ∧
  bucket_of (ht_size (ht_enclave s)) (c_key c) = Z.of_nat i.

(** The memory holds the keys and values of [B]. *)
Record shape (s : enclave) (B : list bucket) : Prop := {
  sh_layout : layout s B;
  sh_keys : NoDup (c_key <$> concat B);
  sh_cells i b : B !! i = Some b → Forall (cell_ok s i) b;
}.

(** The MACs below the root [r]. *)
Definition root_macs (s : enclave) (B : list bucket) (r : Z) : list bytes :=
  range_macs (mac_opt (arg_enclave s)) B
    (Z.to_nat (r * ratio_root_per_buckets s)) (Z.to_nat (ratio_root_per_buckets s)).

(** The root [r] is the MAC of the MACs below it, once there are any. *)
Definition root_ok (s : enclave) (B : list bucket) (r : Z) : Prop :=
  root_macs s B r ≠ [] →
  ∃ m, MACTable s !! Z.to_nat r = Some m ∧ blen m = MAC_SIZE ∧
       sgx_rijndael128_cmac_msg gsk (concat (root_macs s B r)) = (SGX_SUCCESS, m).

(** Invariant: the memory holds [B], the enclave has a root for every bucket, and every root
    vouches for its buckets. *)
Record inv (s : enclave) (B : list bucket) : Prop := {
  inv_shape : shape s B;
  inv_table : blen (MACTable s) = root_count s;
  inv_roots r : 0 ≤ r < root_count s → root_ok s B r;
}.

End rep.

(** ** Chains *)
Lemma chain_lookup h p b c : chain h p b → c ∈ b → h !! c_loc c = Some (c_ent c).
Proof.
  revert p. induction b as [|d b IH]; intros p; simpl; [set_solver|].
  intros (_ & Hd & Hc) [->|Hin]%elem_of_cons; [done|by eapply IH].
Qed.

(** The successor of a cell is in the chain. *)
Lemma chain_next h p b l l' e :
  chain h p b → l ∈ c_loc <$> b → h !! l = Some e → next e = Some l' → l' ∈ c_loc <$> b.
Proof.
  revert p. induction b as [|c b IH]; intros p; simpl; [set_solver|].
  intros (_ & Hc & Hb) [->|Hin]%elem_of_cons He Hn.
  - rewrite Hc in He. injection He as <-. destruct b as [|d b]; simpl in Hb; [congruence|].
    destruct Hb as [Hb _]. rewrite Hb in Hn. injection Hn as <-. set_solver.
  - right. by eapply IH.
Qed.

(** A chain does not see changes outside its cells. *)
Lemma chain_frame h h' p b :
  chain h p b → (∀ c, c ∈ b → h' !! c_loc c = h !! c_loc c) → chain h' p b.
Proof.
  revert p. induction b as [|c b IH]; intros p; simpl; [done|].
  intros (-> & Hc & Hb) Hh. split; [done|]. split.
  - rewrite Hh; [done|set_solver].
  - apply IH; [done|]. intros d Hd. apply Hh. set_solver.
Qed.

Lemma chain_insert_ne h p b l e :
  l ∉ c_loc <$> b → chain h p b → chain (<[l:=e]> h) p b.
Proof.
  intros Hl Hc. eapply chain_frame; [done|]. intros c Hin. apply lookup_insert_ne.
  intros ->. apply Hl. by apply list_elem_of_fmap_2.
Qed.

(** Replacing the entry of one cell, with the same successor. *)
Lemma chain_update h p b1 c c' b2 :
  NoDup (c_loc <$> b1 ++ c :: b2) → c_loc c' = c_loc c → next (c_ent c') = next (c_ent c) →
  chain h p (b1 ++ c :: b2) → chain (<[c_loc c := c_ent c']> h) p (b1 ++ c' :: b2).
Proof.
  intros Hnd Hl Hn. revert p. induction b1 as [|d b1 IH]; intros p; simpl.
  - intros (-> & _ & Hb). rewrite Hl, Hn. split; [done|]. split; [by simplify_map_eq|].
    apply chain_insert_ne; [|done].
    rewrite fmap_app, fmap_cons in Hnd. by apply NoDup_app in Hnd as (_ & _ & [? _]%NoDup_cons).
  - intros (-> & Hd & Hb). rewrite <-app_comm_cons, fmap_cons, NoDup_cons in Hnd.
    destruct Hnd as [Hnin Hnd]. split; [done|]. split; [|by apply IH].
    rewrite lookup_insert_ne; [done|]. intros Heq. apply Hnin. rewrite <-Heq.
    apply list_elem_of_fmap_2, elem_of_app. right. set_solver.
Qed.

Lemma chain_nodup_size h p b :
  NoDup (c_loc <$> b) → chain h p b → (length b ≤ size h)%nat.
Proof.
  intros Hnd Hc.
  assert (list_to_set (c_loc <$> b) ⊆ dom h) as Hsub.
  { intros l. rewrite elem_of_list_to_set, list_elem_of_fmap, elem_of_dom.
    intros (c & -> & Hin). eapply chain_lookup in Hc; [|done]. eauto. }
  apply subseteq_size in Hsub. rewrite size_dom, size_list_to_set, length_fmap in Hsub; done.
Qed.

(** ** Buckets of a table *)
Lemma concat_middle {A} (B : list (list A)) i b :
  B !! i = Some b → concat B = concat (take i B) ++ b ++ concat (drop (S i) B).
Proof.
  intros Hb. rewrite <-(take_drop_middle _ _ _ Hb) at 1. by rewrite concat_app.
Qed.

Lemma concat_insert {A} (B : list (list A)) i b b' :
  B !! i = Some b → concat (<[i:=b']> B) = concat (take i B) ++ b' ++ concat (drop (S i) B).
Proof.
  intros Hb. apply lookup_lt_Some in Hb as Hlt.
  rewrite (concat_middle _ i b') by (by apply list_lookup_insert_eq).
  by rewrite take_insert_ge, drop_insert_lt by lia.
Qed.

Lemma elem_of_bucket {A} (B : list (list A)) i b (c : A) : B !! i = Some b → c ∈ b → c ∈ concat B.
Proof. intros Hb Hc. rewrite (concat_middle _ _ _ Hb). set_solver. Qed.

Lemma elem_of_concat {A} (B : list (list A)) (c : A) :
  c ∈ concat B → ∃ b, (∃ i, B !! i = Some b) ∧ c ∈ b.
Proof.
  induction B as [|b B IH]; simpl; [set_solver|]. intros [Hc|Hc]%elem_of_app.
  - exists b. split; [by exists 0%nat|done].
  - destruct (IH Hc) as (b' & (i & Hi) & Hc'). exists b'. split; [by exists (S i)|done].
Qed.

Lemma nodup_bucket {A C} (f : A → C) (B : list (list A)) i b :
  B !! i = Some b → NoDup (f <$> concat B) → NoDup (f <$> b).
Proof.
  intros Hb. rewrite (concat_middle _ _ _ Hb), !fmap_app.
  intros (_ & _ & (? & _)%NoDup_app)%NoDup_app. done.
Qed.

(** No value in two buckets. *)
Lemma nodup_buckets {A C} (f : A → C) (B : list (list A)) i j b b' c :
  NoDup (f <$> concat B) → B !! i = Some b → B !! j = Some b' → i ≠ j → c ∈ b' → f c ∉ f <$> b.
Proof.
  intros Hnd Hb Hb' Hne Hc Hin. rewrite (concat_middle _ _ _ Hb), !fmap_app, app_assoc in Hnd.
  apply NoDup_app in Hnd as (Hnd & Hr & _). apply NoDup_app in Hnd as (_ & Hl & _).
  destruct (decide (j < i)%nat) as [Hlt|Hge].
  - apply (Hl (f c)); [|done]. apply list_elem_of_fmap_2. eapply elem_of_bucket; [|done]. by rewrite lookup_take_lt.
  - apply (Hr (f c)); [apply elem_of_app; by right|]. apply list_elem_of_fmap_2.
    apply (elem_of_bucket _ (j - S i) b'); [|done]. rewrite lookup_drop. by replace (S i + (j - S i))%nat with j by lia.
Qed.

Lemma bucket_macs_len opt b : blen (bucket_macs opt b) = blen b.
Proof. unfold blen, bucket_macs. destruct opt; rewrite ?length_reverse, length_fmap; done. Qed.

Lemma bucket_macs_blocks opt b :
  Forall (λ c, blen (c_mac c) = MAC_SIZE) b → blocks MAC_SIZE (bucket_macs opt b).
Proof.
  intros Hb. assert (blocks MAC_SIZE (c_mac <$> b)) by (by apply Forall_fmap).
  unfold bucket_macs. destruct opt; [by apply blocks_rev|done].
Qed.

Lemma concat_macs_len opt (l : list bucket) : blen (concat (bucket_macs opt <$> l)) = blen (concat l).
Proof.
  induction l as [|b l IH]; [done|]. rewrite fmap_cons. cbn [concat].
  by rewrite !blen_app, IH, bucket_macs_len.
Qed.

Lemma range_macs_le opt B start n : blen (range_macs opt B start n) ≤ blen (concat B).
Proof.
  unfold range_macs. rewrite concat_macs_len.
  rewrite <-(take_drop start B) at 2. rewrite <-(take_drop n (drop start B)) at 2.
  rewrite !concat_app, !blen_app.
  pose proof (blen_nonneg (concat (take start B))).
  pose proof (blen_nonneg (concat (drop n (drop start B)))). lia.
Qed.
