(* ===== verification/CoreProofs.v ===== *)
(** * The security core on well-formed states

    What the functions of [Core] compute when the entries are those the
    invariant describes: lemmas the handlers' theorems are proved with. *)

From S2P Require Import Prelude CString Common Hash Core Rep.

Lemma assert_passes `{Platform} b s : NDEBUG = true ∨ b = true → assert_ b s = Ok (tt, s).
Proof. unfold assert_. intros [->| ->]; [done|]. by destruct NDEBUG. Qed.

(** The assertions of the search: they are off, or the entries the allocator gives are outside
    of the enclave. *)
Definition outside_ok `{Platform} : Prop := NDEBUG = true ∨ ∀ a n, sgx_is_outside_enclave a n = true.

Lemma assert_outside `{Platform} a n s : outside_ok → assert_ (sgx_is_outside_enclave a n) s = Ok (tt, s).
Proof. intros [Hn|Ho]; apply assert_passes; auto. Qed.

Lemma assert_success_ok `{Platform} s : assert_success SGX_SUCCESS s = Ok (tt, s).
Proof. done. Qed.

Lemma dup_str_len s : blen (dup_str s) = blen s + 1.
Proof. unfold dup_str. by rewrite blen_app. Qed.

Lemma dup_str_inj s t : dup_str s = dup_str t → s = t.
Proof. unfold dup_str. intros H. by apply app_inj_tail in H as [-> _]. Qed.

Lemma memcmp_eq_prefix a b a' b' n :
  n = blen a → n = blen b → memcmp_eq (a ++ a') (b ++ b') n = Ok (bool_decide (a = b)).
Proof.
  intros Ha Hb. unfold memcmp_eq, mbind, res_bind. by rewrite !read_at_prefix by done.
Qed.

Lemma memcmp_eq_all a b n :
  n = blen a → n = blen b → memcmp_eq a b n = Ok (bool_decide (a = b)).
Proof.
  intros Ha Hb. unfold memcmp_eq, mbind, res_bind. by rewrite !read_at_all by done.
Qed.

Lemma memcpy_app {A} (l x y r src1 src2 : list A) doff soff n :
  doff = blen l → blen x = n → n = blen y → soff = blen src1 →
  memcpy (l ++ x ++ r) doff (src1 ++ y ++ src2) soff n = Ok (l ++ y ++ r).
Proof.
  intros Hd Hx Hy Hs. unfold memcpy. rewrite read_at_app by done.
  unfold mbind, res_bind. rewrite write_at_app; [done|done|lia].
Qed.

Lemma memcpy_all {A} (l x y r : list A) doff n :
  doff = blen l → blen x = n → n = blen y →
  memcpy (l ++ x ++ r) doff y 0 n = Ok (l ++ y ++ r).
Proof.
  intros. pose proof (memcpy_app l x y r [] [] doff 0 n) as P.
  rewrite app_nil_l, app_nil_r in P. by apply P.
Qed.

Lemma zeros_app a b : 0 ≤ a → 0 ≤ b → zeros (a + b) = zeros a ++ zeros b.
Proof. intros. unfold zeros. rewrite Z2Nat.inj_add by done. apply replicate_add. Qed.

Lemma zalloc_ok n : 0 ≤ n → zalloc n = Ok (zeros n).
Proof. intros. unfold zalloc. by rewrite (proj2 (Z.ltb_ge n 0)) by lia. Qed.

Lemma blen_le32 z : blen (le32 z) = 4.
Proof. done. Qed.
#[export] Hint Rewrite blen_le32 dup_str_len : blen.

(** The message of an entry is the concatenation of its fields. *)
Lemma mac_message_ok cipher key_idx key_len val_len nac_ :
  0 ≤ key_len → 0 ≤ val_len → key_len + val_len + 25 ≤ INT_MAX →
  blen cipher = key_len + val_len → blen nac_ = NAC_SIZE →
  mac_message cipher key_idx key_len val_len nac_ =
  Ok (cipher ++ nac_ ++ [byte_of_Z key_idx] ++ le32 key_len ++ le32 val_len).
Proof.
  unfold INT_MAX, NAC_SIZE. intros Hk Hv Hb Hc Hn. unfold mac_message, mbind, res_bind.
  change NAC_SIZE with 16. rewrite (u32_small (key_len + val_len + 16)) by lia.
  rewrite !u32_small by lia.
  replace (key_len + val_len + 16 + 1 + 4 * 2) with
    (key_len + val_len + (16 + (1 + (4 + 4)))) by lia.
  rewrite (zeros_app (key_len + val_len)), (zeros_app 16), (zeros_app 1), (zeros_app 4) by lia.
  set (z4 := zeros 4). set (z1 := zeros 1). set (z16 := zeros 16). set (zk := zeros (key_len + val_len)).
  assert (blen zk = key_len + val_len) as Hzk by (apply blen_zeros; lia).
  assert (blen z16 = 16 ∧ blen z1 = 1 ∧ blen z4 = 4) as (H16 & H1 & H4) by done.
  assert (∀ r, memcpy (zk ++ r) 0 cipher 0 (key_len + val_len) = Ok (cipher ++ r)) as ->.
  { intros r. apply (memcpy_all [] zk cipher r); [done|lia|lia]. }
  rewrite memcpy_all by (rewrite ?blen_app; lia).
  rewrite (app_assoc cipher), memcpy_all by (rewrite ?blen_app, ?blen_cons, ?blen_nil; lia).
  rewrite (app_assoc (cipher ++ _)), memcpy_all
    by (rewrite ?blen_app, ?blen_cons, ?blen_nil, ?blen_le32; lia).
  rewrite (app_assoc ((cipher ++ _) ++ _)), <-(app_nil_r z4), memcpy_all
    by (rewrite ?blen_app, ?blen_cons, ?blen_nil, ?blen_le32; lia).
  rewrite app_nil_r, read_at_all.
  - by rewrite <-!app_assoc.
  - rewrite !blen_app, blen_cons, blen_nil, !blen_le32. lia.
Qed.

Section core.
Context `{Platform} `{!PlatformOk}.
Implicit Types (s : enclave) (k v : bytes) (e : entry).

(** Encrypting a key and a value gives an entry that holds them. *)
Lemma enclave_encrypt_ok s k v key_idx nac_ :
  blen k + blen v + 27 ≤ INT_MAX → blen nac_ = NAC_SIZE →
  ∃ cipher msg mac_ ctr',
    enclave_encrypt (dup_str k ++ dup_str v) (dup_str k ++ dup_str v) key_idx
      (blen k + 1) (blen v + 1) nac_ s = Ok ((cipher, mac_), s) ∧
    blen cipher = blen k + 1 + (blen v + 1) ∧ blen mac_ = MAC_SIZE ∧
    sgx_aes_ctr_decrypt gsk cipher nac_ NAC_SIZE = (SGX_SUCCESS, dup_str k ++ dup_str v, ctr') ∧
    blen ctr' = NAC_SIZE ∧
    mac_message cipher key_idx (blen k + 1) (blen v + 1) nac_ = Ok msg ∧
    sgx_rijndael128_cmac_msg gsk msg = (SGX_SUCCESS, mac_).
Proof.
  intros Hb Hn. pose proof (blen_nonneg k). pose proof (blen_nonneg v).
  set (kv := dup_str k ++ dup_str v).
  assert (blen kv = blen k + 1 + (blen v + 1)) as Hkv by (unfold kv; rewrite blen_app, !dup_str_len; lia).
  destruct (encrypt_ok gsk kv nac_ NAC_SIZE Hn) as (dst & c1 & He & Hd & Hc1 & c2 & Hdec);
    [unfold INT_MAX in *; lia|].
  destruct (decrypt_ok gsk dst nac_ NAC_SIZE Hn) as (src' & c3 & Hdec' & _ & Hc3);
    [unfold INT_MAX in *; lia|].
  rewrite Hdec in Hdec'. injection Hdec' as <- <-.
  pose proof (mac_message_ok dst key_idx (blen k + 1) (blen v + 1) nac_
    ltac:(lia) ltac:(lia) ltac:(unfold INT_MAX in *; lia) ltac:(lia) Hn) as Hm.
  set (msg := dst ++ _) in Hm.
  destruct (cmac_ok gsk msg) as (m & Hcm & Hml).
  { unfold msg, NAC_SIZE, INT_MAX in *. autorewrite with blen. lia. }
  exists dst, msg, m, c2. split_and!; try done; [|lia].
  unfold enclave_encrypt.
  rewrite (bind_lift _ _ _ nac_) by (by apply read_at_all).
  rewrite u32_small by (unfold INT_MAX in *; lia).
  rewrite (bind_lift _ _ _ kv) by (by apply read_at_all).
  rewrite He. rewrite (bind_ok _ _ _ _ _ (assert_success_ok s)).
  rewrite (bind_lift _ _ _ dst) by (apply write_at_all; lia).
  rewrite (bind_lift _ _ _ _ Hm), Hcm.
  by rewrite (bind_lift _ _ _ m) by (by apply read_at_all).
Qed.

(** The MAC of an entry that holds a key and a value verifies, silently. *)
Lemma enclave_verification_ok s k v e cipher :
  entry_ok k v e → key_val e = Some cipher →
  enclave_verification cipher (key_hash e) (key_size e) (val_size e) (nac e) (mac e) s =
  Ok (SGX_SUCCESS, s).
Proof.
  intros He Hc. destruct (eo_cipher _ _ _ He) as (cipher' & msg & c & Hkv & _ & _ & _ & Hm & Hcm).
  rewrite Hc in Hkv. injection Hkv as <-. unfold enclave_verification.
  rewrite (bind_lift _ _ _ (nac e)) by (apply read_at_all; by rewrite (eo_nac _ _ _ He)).
  rewrite (bind_lift _ _ _ _ Hm), Hcm.
  rewrite (bind_lift _ _ _ true).
  { done. }
  rewrite memcmp_eq_all by (by rewrite (eo_maclen _ _ _ He)). by rewrite bool_decide_true.
Qed.

(** Decryption of an entry succeeds exactly for its own key. *)
Lemma decrypt_compare_ok s k v e k' cipher :
  entry_ok k v e → key_val e = Some cipher → blen k' = blen k →
  ∃ ctr', blen ctr' = NAC_SIZE ∧
  decrypt_key_val_and_compare (dup_str k') cipher (key_size e) (val_size e) (nac e) s =
  Ok (if bool_decide (k = k') then Some (dup_str k ++ dup_str v, ctr') else None, s).
Proof.
  intros He Hc Hl. destruct (eo_cipher _ _ _ He) as (c0 & msg & ctr' & Hkv & Hlen & Hdec & Hctr & _).
  rewrite Hc in Hkv. injection Hkv as <-. exists ctr'. split; [done|].
  pose proof (eo_bound _ _ _ He). pose proof (blen_nonneg k). pose proof (blen_nonneg v).
  unfold decrypt_key_val_and_compare. rewrite (eo_ksize _ _ _ He), (eo_vsize _ _ _ He).
  rewrite (bind_lift _ _ _ (nac e)) by (apply read_at_all; by rewrite (eo_nac _ _ _ He)).
  rewrite u32_small by (unfold INT_MAX in *; lia).
  rewrite (bind_lift _ _ _ cipher) by (by apply read_at_all).
  rewrite Hdec, (bind_ok _ _ _ _ _ (assert_success_ok s)).
  rewrite <-(app_nil_r (dup_str k')).
  rewrite (bind_lift _ _ _ (bool_decide (dup_str k = dup_str k'))).
  2:{ apply memcmp_eq_prefix; rewrite dup_str_len; lia. }
  destruct (decide (k = k')) as [->|Hne].
  - by rewrite !bool_decide_true by done.
  - rewrite !bool_decide_false; [done|done|]. intros ?%dup_str_inj. done.
Qed.

End core.

(** ** Loops over a range of buckets *)
(** The buckets [l] are those of [B] from [i] on. *)
Definition seg (B : list bucket) (i : nat) (l : list bucket) : Prop :=
  ∀ j b, l !! j = Some b → B !! (i + j)%nat = Some b.

Lemma seg_cons B i b l : seg B i (b :: l) → B !! i = Some b ∧ seg B (S i) l.
Proof.
  intros Hs. split.
  - rewrite <-(Nat.add_0_r i). by apply Hs.
  - intros j c Hj. replace (S i + j)%nat with (i + S j)%nat by lia. by apply Hs.
Qed.

Lemma seg_app B i l k : seg B i (l ++ k) → seg B i l ∧ seg B (i + length l) k.
Proof.
  intros Hs. split; intros j b Hj.
  - apply Hs. by apply lookup_app_l_Some.
  - rewrite <-Nat.add_assoc. apply Hs. rewrite lookup_app_r by lia.
    by rewrite Nat.add_comm, Nat.add_sub.
Qed.

Lemma seg_range B i n : seg B i (take n (drop i B)).
Proof.
  intros j b Hj. apply lookup_take_Some in Hj as [Hj _]. by rewrite lookup_drop in Hj.
Qed.

Lemma seqZ_step i (n : Z) : 0 ≤ n → seqZ (Z.of_nat i) (1 + n) = Z.of_nat i :: seqZ (Z.of_nat (S i)) n.
Proof.
  intros. rewrite seqZ_cons by lia. replace (Z.succ (Z.of_nat i)) with (Z.of_nat (S i)) by lia.
  by replace (Z.pred (1 + n)) with n by lia.
Qed.

(** A loop that adds up a number per bucket. *)
Lemma for_each_count {St} (B : list bucket) (f : Z → Z → M St Z) (w : bucket → Z) l i n s :
  seg B i l →
  (∀ j b c, B !! j = Some b → f (Z.of_nat j) c s = Ok (c + w b, s)) →
  for_each (seqZ (Z.of_nat i) (blen l)) f n s = Ok (n + fold_right (λ b a, w b + a) 0 l, s).
Proof.
  intros Hs Hf. revert i n Hs. induction l as [|b l IH]; intros i n Hs.
  - simpl. by rewrite Z.add_0_r.
  - apply seg_cons in Hs as [Hb Hs]. rewrite blen_cons, seqZ_step by apply blen_nonneg.
    cbn [for_each]. rewrite (bind_ok _ _ _ _ _ (Hf _ _ _ Hb)), IH by done.
    simpl. do 2 f_equal. lia.
Qed.

(** A loop that copies the MACs of one bucket after another; the position [x] is
    counted in units of [w] bytes. *)
Lemma for_each_copy {St} (B : list bucket) (opt : bool) (f : Z → bytes * Z → M St (bytes * Z)) (w u : Z) l i s :
  w * u = MAC_SIZE → seg B i l →
  (∀ j b dn md tl x, B !! j = Some b → blen dn = w * x →
     blen md = MAC_SIZE * blen (bucket_macs opt b) →
     f (Z.of_nat j) (dn ++ md ++ tl, x) s =
     Ok ((dn ++ concat (bucket_macs opt b) ++ tl, x + u * blen (bucket_macs opt b)), s)) →
  (∀ b, b ∈ l → blocks MAC_SIZE (bucket_macs opt b)) →
  ∀ dn md tl x, blen dn = w * x → blen md = MAC_SIZE * blen (concat (bucket_macs opt <$> l)) →
  for_each (seqZ (Z.of_nat i) (blen l)) f (dn ++ md ++ tl, x) s =
  Ok ((dn ++ concat (concat (bucket_macs opt <$> l)) ++ tl,
       x + u * blen (concat (bucket_macs opt <$> l))), s).
Proof.
  intros Hwu Hs Hf. revert i Hs. induction l as [|b l IH]; intros i Hs Hbl dn md tl x Hdn Hmd.
  - simpl in *. assert (md = []) as ->.
    { apply nil_length_inv. unfold blen in Hmd. simpl in Hmd. lia. }
    change (blen (@nil bytes)) with 0. by rewrite Z.mul_0_r, Z.add_0_r.
  - apply seg_cons in Hs as [Hb Hs]. rewrite blen_cons, seqZ_step by apply blen_nonneg.
    rewrite fmap_cons in *. cbn [concat] in *. rewrite blen_app in *.
    set (n1 := blen (bucket_macs opt b)) in *.
    assert (0 ≤ MAC_SIZE * n1 ≤ blen md) as Hn1.
    { pose proof (blen_nonneg (bucket_macs opt b)).
      pose proof (blen_nonneg (concat (bucket_macs opt <$> l))). unfold MAC_SIZE in *. lia. }
    rewrite <-(take_drop (Z.to_nat (MAC_SIZE * n1)) md) at 1.
    pose proof (blen_take md _ Hn1) as Ht. pose proof (blen_drop md _ Hn1) as Hd.
    set (md1 := take _ md) in *. set (md2 := drop _ md) in *.
    cbn [for_each]. rewrite <-app_assoc.
    rewrite (bind_ok _ _ _ _ _ (Hf _ _ _ _ _ _ Hb Hdn Ht)).
    rewrite (app_assoc dn).
    assert (blocks MAC_SIZE (bucket_macs opt b)) as Hblk by (apply Hbl; set_solver).
    rewrite IH; [|done|set_solver| |lia].
    + rewrite concat_app, <-!app_assoc. do 3 f_equal. lia.
    + rewrite blen_app, (blocks_concat MAC_SIZE) by done. fold n1. nia.
Qed.
