(* ===== verification/RootProofs.v ===== *)
(** * Aggregation, verification and update of a root

    The loops of [get_chain_mac] and [enclave_rebuild_tree_root] collect the MACs
    of the buckets below a root; on memory with a [layout] they end, and the
    result is the concatenation of the MACs. *)

From S2P Require Import Prelude CString Common Hash Core Rep CoreProofs.

Section chains.
Implicit Types (s : enclave) (b : bucket).

Lemma load_ok s l e : heap s !! l = Some e → load l s = Ok (e, s).
Proof. unfold load. by intros ->. Qed.

Lemma chain_count_ok s p b fuel n :
  chain (heap s) p b → (length b ≤ fuel)%nat → chain_count fuel p n s = Ok (n + blen b, s).
Proof.
  revert p fuel n. induction b as [|c b IH]; intros p fuel n.
  - intros -> _. destruct fuel; simpl; by rewrite blen_nil, Z.add_0_r.
  - intros (-> & Hc & Hb) Hf. destruct fuel as [|fuel]; [simpl in Hf; lia|].
    cbn [chain_count]. rewrite (bind_ok _ _ _ _ _ (load_ok _ _ _ Hc)), IH.
    + rewrite blen_cons. do 2 f_equal. lia.
    + done.
    + simpl in Hf. lia.
Qed.

Lemma chain_copy_ok s p b fuel dn md tl i :
  chain (heap s) p b → (length b ≤ fuel)%nat → Forall (λ c, blen (c_mac c) = MAC_SIZE) b →
  blen dn = MAC_SIZE * i → blen md = MAC_SIZE * blen b →
  chain_copy fuel p (dn ++ md ++ tl) i s = Ok ((dn ++ concat (c_mac <$> b) ++ tl, i + blen b), s).
Proof.
  revert p fuel dn md i. induction b as [|c b IH]; intros p fuel dn md i.
  - intros -> _ _ _ Hmd. assert (md = []) as ->.
    { apply nil_length_inv. unfold blen in Hmd. simpl in Hmd. lia. }
    destruct fuel; cbn; rewrite Z.add_0_r; done.
  - intros (-> & Hc & Hb) Hf [Hm Hms]%Forall_cons Hdn Hmd. rewrite blen_cons in Hmd.
    destruct fuel as [|fuel]; [simpl in Hf; lia|].
    pose proof (blen_nonneg b).
    assert (0 ≤ MAC_SIZE ≤ blen md) as Hle by (unfold MAC_SIZE in *; lia).
    rewrite <-(take_drop (Z.to_nat MAC_SIZE) md) at 1.
    pose proof (blen_take md _ Hle) as Ht. pose proof (blen_drop md _ Hle) as Hd.
    set (md1 := take _ md) in *. set (md2 := drop _ md) in *.
    cbn [chain_copy]. rewrite (bind_ok _ _ _ _ _ (load_ok _ _ _ Hc)), <-app_assoc.
    rewrite (bind_lift _ _ _ (dn ++ c_mac c ++ md2 ++ tl)).
    2:{ by apply memcpy_all. }
    rewrite (app_assoc dn), IH; [|done|simpl in Hf; lia|done| |lia].
    + rewrite fmap_cons, <-!app_assoc, blen_cons. cbn [concat].
      rewrite <-!app_assoc. do 3 f_equal. lia.
    + rewrite blen_app, Hdn, Hm. lia.
Qed.
End chains.

(** ** Buckets of a laid out table *)
Section layout.
Context `{Platform}.
Context (s : enclave) (B : list bucket) (HL : layout s B).

Lemma table_get_ok i b :
  B !! i = Some b → ∃ p, table_get (Z.of_nat i) s = Ok (p, s) ∧ chain (heap s) p b.
Proof.
  intros Hb. destruct (Forall2_lookup_r _ _ _ _ _ (ly_chains _ _ HL) Hb) as (p & Hp & Hc).
  exists p. split; [|done]. unfold table_get. msimpl. unfold lift, compose.
  rewrite (zlookup_ok _ _ p); [done|lia|]. by rewrite Nat2Z.id.
Qed.

Lemma macbuf_get_ok i b :
  mac_opt (arg_enclave s) = true → B !! i = Some b →
  ∃ m, macbuf_get (Z.of_nat i) s = Ok (m, s) ∧ MACbuf_enclave s !! i = Some m ∧ macbuf_ok m b.
Proof.
  intros Ho Hb. destruct (Forall2_lookup_r _ _ _ _ _ (ly_macbuf _ _ HL Ho) Hb) as (m & Hm & Hok).
  exists m. split; [|done]. unfold macbuf_get. msimpl. unfold lift.
  rewrite (zlookup_ok _ _ m); [done|lia|]. by rewrite Nat2Z.id.
Qed.

(** The bound of the loops is enough. *)
Lemma chain_fuel_enough i b p :
  B !! i = Some b → chain (heap s) p b → (length b ≤ S (size (heap s)))%nat.
Proof.
  intros Hb Hc. apply Nat.le_le_succ_r. eapply chain_nodup_size; [|done].
  eapply nodup_bucket; [done|apply (ly_locs _ _ HL)].
Qed.

Lemma bucket_maclen i b : B !! i = Some b → Forall (λ c, blen (c_mac c) = MAC_SIZE) b.
Proof.
  intros Hb. pose proof (ly_maclen _ _ HL) as Hm.
  rewrite (concat_middle _ _ _ Hb), !Forall_app in Hm. tauto.
Qed.

Lemma range_blocks opt start n b :
  b ∈ take n (drop start B) → blocks MAC_SIZE (bucket_macs opt b).
Proof.
  intros (j & Hj)%list_elem_of_lookup. apply seg_range in Hj.
  by eapply bucket_macs_blocks, bucket_maclen.
Qed.

Lemma range_macs_blocks opt start n : blocks MAC_SIZE (range_macs opt B start n).
Proof.
  unfold range_macs, blocks. apply Forall_concat, Forall_fmap, Forall_forall.
  intros b Hb. by eapply range_blocks.
Qed.

Lemma chain_count_bucket i b c :
  B !! i = Some b →
  (pair ← table_get (Z.of_nat i); fuel ← chain_fuel; chain_count fuel pair c) s = Ok (c + blen b, s).
Proof.
  intros Hb. destruct (table_get_ok i b Hb) as (p & Hp & Hc).
  rewrite (bind_ok _ _ _ _ _ Hp). unfold chain_fuel. msimpl.
  apply chain_count_ok; [done|]. by eapply chain_fuel_enough.
Qed.

(** The buckets of a range, as the loops see them. *)
Context (start n : nat) (Hrange : (start + n ≤ length B)%nat).

Lemma range_len : blen (take n (drop start B)) = Z.of_nat n.
Proof. unfold blen. rewrite length_take, length_drop. lia. Qed.

Lemma table_copy_ok agg :
  blen agg = MAC_SIZE * blen (range_macs false B start n) →
  table_copy (seqZ (Z.of_nat start) (Z.of_nat n)) agg s =
  Ok ((concat (range_macs false B start n), blen (range_macs false B start n)), s).
Proof.
  intros Hagg. unfold table_copy. rewrite <-range_len at 1.
  rewrite <-(app_nil_l agg), <-(app_nil_r agg).
  rewrite (for_each_copy B false _ MAC_SIZE 1); [|done|apply seg_range| | |done|done].
  - unfold range_macs. by rewrite app_nil_l, app_nil_r, Z.mul_1_l.
  - intros j b dn md tl x Hb Hdn Hmd. destruct (table_get_ok j b Hb) as (p & Hp & Hc).
    rewrite (bind_ok _ _ _ _ _ Hp). unfold chain_fuel. msimpl.
    rewrite bucket_macs_len in *. rewrite (chain_copy_ok _ _ b).
    + by rewrite Z.mul_1_l.
    + done.
    + by eapply chain_fuel_enough.
    + by eapply bucket_maclen.
    + done.
    + done.
  - intros b Hb. by eapply range_blocks.
Qed.

Lemma macbuf_copy_ok agg :
  mac_opt (arg_enclave s) = true →
  blen agg = MAC_SIZE * blen (range_macs true B start n) →
  macbuf_copy (seqZ (Z.of_nat start) (Z.of_nat n)) agg s =
  Ok ((concat (range_macs true B start n), MAC_SIZE * blen (range_macs true B start n)), s).
Proof.
  intros Ho Hagg. unfold macbuf_copy. rewrite <-range_len at 1.
  rewrite <-(app_nil_l agg), <-(app_nil_r agg).
  rewrite (for_each_copy B true _ 1 MAC_SIZE); [|done|apply seg_range| | |done|done].
  - unfold range_macs. by rewrite app_nil_l, app_nil_r.
  - intros j b dn md tl x Hb Hdn Hmd.
    destruct (macbuf_get_ok j b Ho Hb) as (m & Hm & _ & (Hsz & _ & junk & Hj)).
    rewrite (bind_ok _ _ _ _ _ Hm), Hsz, bucket_macs_len in *.
    rewrite (bind_lift _ _ _ (dn ++ concat (bucket_macs true b) ++ tl)); [done|].
    rewrite Hj. apply (memcpy_app _ _ _ _ [] junk); [lia|done| |done].
    rewrite (blocks_concat MAC_SIZE), bucket_macs_len; [done|done|].
    by eapply bucket_macs_blocks, bucket_maclen.
  - intros b Hb. by eapply range_blocks.
Qed.

Lemma fold_blen l : fold_right (λ (b : bucket) a, blen b + a) 0 l = blen (concat l).
Proof. induction l as [|b l IH]; [done|]. simpl. rewrite IH. by rewrite blen_app. Qed.
End layout.

(** ** Loops that treat one bucket specially *)
Lemma for_each_steps {St A} (B : list bucket) (f : Z → A → M St A) (step : bucket → A → A) h l i a s :
  seg B i l → (h < Z.of_nat i ∨ Z.of_nat i + blen l ≤ h) →
  (∀ j b a, B !! j = Some b → Z.of_nat j ≠ h → f (Z.of_nat j) a s = Ok (step b a, s)) →
  for_each (seqZ (Z.of_nat i) (blen l)) f a s = Ok (fold_left (flip step) l a, s).
Proof.
  intros Hs Hh Hf. revert i a Hs Hh. induction l as [|b l IH]; intros i a Hs Hh; [done|].
  apply seg_cons in Hs as [Hb Hs]. rewrite blen_cons in *.
  pose proof (blen_nonneg l). rewrite seqZ_step by done. cbn [for_each].
  rewrite (bind_ok _ _ _ _ _ (Hf i b a Hb ltac:(lia))). apply IH; [done|lia].
Qed.

Lemma for_each_hit {St A} (B : list bucket) (f : Z → A → M St A) (step hit : bucket → A → A) l1 b l2 i a s :
  seg B i (l1 ++ b :: l2) →
  (∀ j b a, B !! j = Some b → j ≠ (i + length l1)%nat → f (Z.of_nat j) a s = Ok (step b a, s)) →
  (∀ a, f (Z.of_nat (i + length l1)) a s = Ok (hit b a, s)) →
  for_each (seqZ (Z.of_nat i) (blen (l1 ++ b :: l2))) f a s =
  Ok (fold_left (flip step) l2 (hit b (fold_left (flip step) l1 a)), s).
Proof.
  intros Hs Hstep Hhit. apply seg_app in Hs as [Hs1 [Hb Hs2]%seg_cons].
  pose proof (blen_nonneg l1). pose proof (blen_nonneg l2).
  rewrite blen_app, blen_cons, seqZ_app by lia.
  replace (Z.of_nat i + blen l1) with (Z.of_nat (i + length l1)) by (unfold blen; lia).
  rewrite seqZ_step by done.
  rewrite (for_each_app _ _ _ _ _ (fold_left (flip step) l1 a) s).
  - cbn [for_each]. rewrite (bind_ok _ _ _ _ _ (Hhit _)).
    apply (for_each_steps B _ _ (Z.of_nat (i + length l1))); [done|left; lia|].
    intros j b' a' Hj Hne. apply Hstep; [done|lia].
  - apply (for_each_steps B _ _ (Z.of_nat (i + length l1))); [done|right; unfold blen; lia|].
    intros j b' a' Hj Hne. apply Hstep; [done|lia].
Qed.

Lemma fold_left_total {C} (l : list bucket) (t : Z) (u : C) :
  fold_left (flip (λ b '(t, u), (t + blen b, u))) l (t, u) = (t + blen (concat l), u).
Proof.
  revert t. induction l as [|b l IH]; intros t; simpl; [by rewrite blen_nil, Z.add_0_r|].
  rewrite IH, blen_app. f_equal. lia.
Qed.

(** The buckets of a range around one of them. *)
Lemma range_split {A} (B : list A) start n i b :
  B !! i = Some b → (start ≤ i < start + n)%nat →
  take n (drop start B) =
  take (i - start) (drop start B) ++ b :: take (start + n - i - 1) (drop (S i) B).
Proof.
  intros Hb Hi.
  replace n with ((i - start) + S (start + n - i - 1))%nat at 1 by lia.
  rewrite <-take_take_drop. f_equal. rewrite drop_drop. replace (start + (i - start))%nat with i by lia.
  by rewrite (drop_S _ _ _ Hb).
Qed.

Lemma range_split_insert {A} (B : list A) start n i b b' :
  B !! i = Some b → (start ≤ i < start + n)%nat →
  take n (drop start (<[i:=b']> B)) =
  take (i - start) (drop start B) ++ b' :: take (start + n - i - 1) (drop (S i) B).
Proof.
  intros Hb Hi. apply lookup_lt_Some in Hb.
  rewrite (range_split _ _ _ i b'); [|by apply list_lookup_insert_eq|done].
  rewrite (drop_insert_lt _ (S i)) by lia. rewrite drop_insert_ge, take_insert_ge by lia. done.
Qed.

Lemma range_outside {A} (B : list A) start n i b' :
  (i < start ∨ start + n ≤ i)%nat → take n (drop start (<[i:=b']> B)) = take n (drop start B).
Proof.
  intros [Hi|Hi]; [by rewrite drop_insert_lt by lia|].
  rewrite drop_insert_ge, take_insert_ge by lia. done.
Qed.

Section counts.
Context `{Platform}.
Context (s : enclave) (B : list bucket) (HL : layout s B).
Context (start n i : nat) (b : bucket).
Context (Hrange : (start + n ≤ length B)%nat) (Hi : (start ≤ i < start + n)%nat).
Context (Hb : B !! i = Some b).

(** The buckets of the range before bucket [i], and after it. *)
Definition before := take (i - start) (drop start B).
Definition after := take (start + n - i - 1) (drop (S i) B).

Lemma before_len : (start + length before = i)%nat.
Proof. unfold before. rewrite length_take, length_drop. apply lookup_lt_Some in Hb. lia. Qed.

Lemma range_macs_split opt :
  range_macs opt B start n =
  concat (bucket_macs opt <$> before) ++ bucket_macs opt b ++ concat (bucket_macs opt <$> after).
Proof.
  unfold range_macs. rewrite (range_split B start n i b) by done.
  by rewrite fmap_app, fmap_cons, concat_app.
Qed.

Lemma seg_split : seg B start (before ++ b :: after).
Proof. unfold before, after. rewrite <-range_split by done. apply seg_range. Qed.

Lemma split_len : blen (before ++ b :: after) = Z.of_nat n.
Proof. unfold before, after. rewrite <-range_split by done. by apply range_len. Qed.

Lemma rebuild_count_chain_ok kv_pos is_insert :
  rebuild_count_chain (Z.of_nat i) kv_pos is_insert (seqZ (Z.of_nat start) (Z.of_nat n)) s =
  Ok ((blen (range_macs false B start n),
       blen (concat before) + (if is_insert then blen b - kv_pos - 1 else kv_pos)), s).
Proof.
  unfold rebuild_count_chain. rewrite <-split_len.
  rewrite (bind_ok _ _ _ (blen (range_macs false B start n), blen (concat before), blen b) s).
  { by destruct is_insert. }
  rewrite (for_each_hit B _ (λ b '(t, p, c), (t + blen b, p, c))
             (λ b '(t, p, c), (t + blen b, t, c + blen b)) before b after start _ s seg_split).
  - assert (∀ l (t p c : Z), fold_left (flip (λ (b : bucket) '(t, p, c), (t + blen b, p, c))) l (t, p, c)
              = (t + blen (concat l), p, c)) as Hf.
    { intros l. induction l as [|b' l IH]; intros t p c; simpl; [by rewrite blen_nil, Z.add_0_r|].
      rewrite IH, blen_app. do 2 f_equal. lia. }
    rewrite !Hf. unfold range_macs. rewrite concat_macs_len, (range_split B start n i b) by done.
    fold before after. rewrite concat_app. cbn [concat]. rewrite !blen_app, !Z.add_0_l.
    by rewrite <-Z.add_assoc.
  - intros j b' [[t p] c] Hj Hne. rewrite before_len in Hne.
    destruct (table_get_ok s B HL j b' Hj) as (q & Hq & Hc).
    rewrite (bind_ok _ _ _ _ _ Hq). unfold chain_fuel. rewrite bind_gets.
    rewrite (bind_ok _ _ _ _ _ (chain_count_ok _ _ _ _ 0 Hc (chain_fuel_enough s B HL _ _ _ Hj Hc))).
    rewrite (proj2 (Z.eqb_neq _ _)) by lia. done.
  - intros [[t p] c]. rewrite before_len.
    destruct (table_get_ok s B HL i b Hb) as (q & Hq & Hc).
    rewrite (bind_ok _ _ _ _ _ Hq). unfold chain_fuel. rewrite bind_gets.
    rewrite (bind_ok _ _ _ _ _ (chain_count_ok _ _ _ _ 0 Hc (chain_fuel_enough s B HL _ _ _ Hb Hc))).
    by rewrite Z.eqb_refl.
Qed.

Lemma rebuild_count_opt_ok kv_pos is_insert :
  mac_opt (arg_enclave s) = true →
  rebuild_count_opt (Z.of_nat i) kv_pos is_insert (seqZ (Z.of_nat start) (Z.of_nat n)) s =
  Ok ((blen (range_macs true B start n),
       blen (concat before) + (if is_insert then kv_pos else blen b - kv_pos - 1)), s).
Proof.
  intros Ho. unfold rebuild_count_opt. rewrite <-split_len.
  rewrite (bind_ok _ _ _ (blen (range_macs true B start n),
    blen (concat before) + (if is_insert then kv_pos else blen b - kv_pos - 1)) s); [done|].
  rewrite (for_each_hit B _ (λ b '(t, u), (t + blen b, u))
             (λ b '(t, u), (t + blen b, t + (if is_insert then kv_pos else blen b - kv_pos - 1)))
             before b after start _ s seg_split).
  - rewrite !fold_left_total. unfold range_macs.
    rewrite concat_macs_len, (range_split B start n i b) by done.
    fold before after. rewrite concat_app. cbn [concat]. rewrite !blen_app, !Z.add_0_l.
    by rewrite <-Z.add_assoc.
  - intros j b' [t u] Hj Hne. rewrite before_len in Hne.
    destruct (macbuf_get_ok s B HL j b' Ho Hj) as (m & Hm & _ & (Hsz & _)).
    rewrite (bind_ok _ _ _ _ _ Hm), (proj2 (Z.eqb_neq _ _)) by lia. by rewrite Hsz.
  - intros [t u]. rewrite before_len.
    destruct (macbuf_get_ok s B HL i b Ho Hb) as (m & Hm & _ & (Hsz & _)).
    rewrite (bind_ok _ _ _ _ _ Hm), Z.eqb_refl, Hsz. by destruct is_insert.
Qed.
End counts.

(** ** The aggregate before the change *)
Section previous.
Context `{Platform}.
Implicit Types (pre post : list bytes) (m prev : bytes).

Lemma concat_split pre m post : concat (pre ++ m :: post) = concat pre ++ m ++ concat post.
Proof. by rewrite concat_app. Qed.

Lemma rebuild_previous_insert s kv_pos prev pre m post :
  NDEBUG = true ∨ (kv_pos =? 0) = true → blocks MAC_SIZE (pre ++ m :: post) →
  rebuild_previous kv_pos true prev (concat (pre ++ m :: post)) (blen (pre ++ m :: post)) (blen pre) s =
  Ok (if bool_decide (pre ++ post = []) then (SGX_SUCCESS, zeros MAC_SIZE)
      else sgx_rijndael128_cmac_msg gsk (concat (pre ++ post)), s).
Proof.
  intros Hnd (Hpre & (Hm & Hpost)%Forall_cons)%blocks_app.
  pose proof (blocks_concat MAC_SIZE pre ltac:(done) Hpre) as HP.
  pose proof (blocks_concat MAC_SIZE post ltac:(done) Hpost) as HQ.
  pose proof (blen_nonneg pre). pose proof (blen_nonneg post).
  unfold rebuild_previous. rewrite (bind_ok _ _ _ _ _ (assert_passes _ s Hnd)).
  rewrite blen_app, blen_cons, concat_split.
  destruct (Z.ltb_spec 1 (blen pre + (1 + blen post))) as [Hlt|Hge].
  - rewrite bool_decide_false.
    2:{ intros Hnil. apply (f_equal (@blen _)) in Hnil. rewrite blen_app in Hnil. unfold blen in *. simpl in *. lia. }
    rewrite (bind_lift _ _ _ (zeros (MAC_SIZE * blen pre) ++ zeros (MAC_SIZE * blen post) ++ [])).
    2:{ rewrite app_nil_r, <-zeros_app by (unfold MAC_SIZE; lia).
        rewrite zalloc_ok by (unfold MAC_SIZE; lia). do 2 f_equal. lia. }
    rewrite (bind_lift _ _ _ (concat pre ++ zeros (MAC_SIZE * blen post) ++ [])).
    2:{ apply (memcpy_app [] _ _ _ []); [done| |lia|done]. rewrite blen_zeros; unfold MAC_SIZE; lia. }
    rewrite (bind_lift _ _ _ (concat pre ++ concat post ++ [])).
    2:{ rewrite (app_assoc (concat pre) m), <-(app_nil_r (concat post)) at 1.
        apply memcpy_app; [lia| |lia|rewrite blen_app; lia].
        rewrite blen_zeros; unfold MAC_SIZE; lia. }
    by rewrite app_nil_r, <-concat_app.
  - assert (pre = []) as -> by (apply nil_length_inv; unfold blen in *; lia).
    assert (post = []) as -> by (apply nil_length_inv; unfold blen in *; lia). done.
Qed.

Lemma rebuild_previous_update s kv_pos prev pre m post :
  blocks MAC_SIZE (pre ++ m :: post) → blen prev = MAC_SIZE →
  rebuild_previous kv_pos false prev (concat (pre ++ m :: post)) (blen (pre ++ m :: post)) (blen pre) s =
  Ok (sgx_rijndael128_cmac_msg gsk (concat (pre ++ prev :: post)), s).
Proof.
  intros Hbl Hprev. pose proof (blocks_concat MAC_SIZE _ ltac:(done) Hbl) as Hall.
  apply blocks_app in Hbl as (Hpre & (Hm & Hpost)%Forall_cons).
  pose proof (blocks_concat MAC_SIZE pre ltac:(done) Hpre) as HP.
  set (agg := concat (pre ++ m :: post)) in *. set (n := blen (pre ++ m :: post)) in *.
  assert (0 ≤ n) by apply blen_nonneg.
  unfold rebuild_previous.
  rewrite (bind_lift _ _ _ (zeros (MAC_SIZE * n))) by (apply zalloc_ok; unfold MAC_SIZE; lia).
  rewrite (bind_lift _ _ _ agg).
  2:{ pose proof (memcpy_all [] (zeros (MAC_SIZE * n)) agg [] 0 (MAC_SIZE * n)) as P.
      rewrite !app_nil_r in P. apply P; [done|apply blen_zeros; unfold MAC_SIZE; lia|lia]. }
  unfold agg. rewrite concat_split.
  rewrite (bind_lift _ _ _ (concat pre ++ prev ++ concat post)) by (apply memcpy_all; lia).
  by rewrite <-concat_split.
Qed.
End previous.

(** ** Roots *)
Section roots.
Context `{Platform} `{!PlatformOk}.
Implicit Types (s : enclave) (B : list bucket).

Lemma root_facts s h :
  cfg_ok s → 0 ≤ h < ht_size (ht_enclave s) →
  let ratio := ratio_root_per_buckets s in let q := h / ratio in
  root_of h s = Ok (q, s) ∧ root_range h s = Ok (seqZ (q * ratio) ratio, s) ∧
  0 ≤ q < root_count s ∧
  0 ≤ q * ratio ≤ h ∧ h < q * ratio + ratio ≤ ht_size (ht_enclave s).
Proof.
  intros [Hsz Hr Hd] Hh ratio q. subst ratio.
  assert (root_of h s = Ok (q, s)) as Hroot.
  { unfold root_of. msimpl. unfold lift, zdiv. rewrite (proj2 (Z.eqb_neq _ 0)) by lia.
    by rewrite Z.quot_div_nonneg by lia. }
  pose proof (Z.div_mod h (ratio_root_per_buckets s) ltac:(lia)) as Hdm.
  pose proof (Z.mod_pos_bound h (ratio_root_per_buckets s) ltac:(lia)) as Hmb.
  fold q in Hdm. assert (0 ≤ q) by (apply Z.div_pos; lia).
  assert (q < root_count s) by nia.
  split_and!; try done; try nia.
  unfold root_range. msimpl. by rewrite (bind_ok _ _ _ _ _ Hroot).
Qed.

(** The bounds of a root's range as numbers of buckets. *)
Lemma root_range_nat s B h :
  layout s B → 0 ≤ h < ht_size (ht_enclave s) →
  let ratio := ratio_root_per_buckets s in
  let start := Z.to_nat (h / ratio * ratio) in let n := Z.to_nat ratio in
  seqZ (h / ratio * ratio) ratio = seqZ (Z.of_nat start) (Z.of_nat n) ∧
  (start + n ≤ length B)%nat ∧ (start ≤ Z.to_nat h < start + n)%nat.
Proof.
  intros HL Hh ratio start n.
  destruct (root_facts s h (ly_cfg _ _ HL) Hh) as (_ & _ & _ & H1 & H2).
  pose proof (ly_size _ _ HL) as Hsz. unfold blen in Hsz.
  split; [|subst start n ratio; lia].
  subst start n ratio. rewrite !Z2Nat.id by lia. done.
Qed.

Lemma root_macs_bound s B r :
  layout s B → root_macs s B r ≠ [] →
  0 < blen (concat (root_macs s B r)) ≤ INT_MAX.
Proof.
  intros HL Hne. unfold root_macs in *. set (ms := range_macs _ _ _ _) in *.
  rewrite (blocks_concat MAC_SIZE) by (try done; by apply (range_macs_blocks s B HL)).
  pose proof (range_macs_le (mac_opt (arg_enclave s)) B
    (Z.to_nat (r * ratio_root_per_buckets s)) (Z.to_nat (ratio_root_per_buckets s))) as Hle.
  fold ms in Hle. pose proof (ly_count _ _ HL). unfold MAC_SIZE in *.
  assert (0 < blen ms).
  { destruct ms; [done|]. rewrite blen_cons. pose proof (blen_nonneg ms). lia. }
  lia.
Qed.

(** Both ways of collecting the MACs below a root give the same list of bytes. *)
Lemma aggregate_ok s B h :
  layout s B → 0 ≤ h < ht_size (ht_enclave s) →
  let q := h / ratio_root_per_buckets s in
  let range := seqZ (q * ratio_root_per_buckets s) (ratio_root_per_buckets s) in
  ∃ x, (if mac_opt (arg_enclave s)
        then macbuf_copy range (zeros (MAC_SIZE * blen (root_macs s B q)))
        else table_copy range (zeros (MAC_SIZE * blen (root_macs s B q)))) s =
       Ok ((concat (root_macs s B q), x), s).
Proof.
  intros HL Hh q range. destruct (root_range_nat s B h HL Hh) as (Hseq & Hr & _).
  fold q in Hseq, Hr. unfold range. rewrite Hseq. unfold root_macs.
  destruct (mac_opt (arg_enclave s)) eqn:Ho; eexists.
  - apply macbuf_copy_ok; [done..|]. apply blen_zeros.
    pose proof (blen_nonneg (range_macs true B (Z.to_nat (q * ratio_root_per_buckets s))
      (Z.to_nat (ratio_root_per_buckets s)))). unfold MAC_SIZE. lia.
  - apply table_copy_ok; [done..|]. apply blen_zeros.
    pose proof (blen_nonneg (range_macs false B (Z.to_nat (q * ratio_root_per_buckets s))
      (Z.to_nat (ratio_root_per_buckets s)))). unfold MAC_SIZE. lia.
Qed.

Lemma get_chain_mac_ok s B h :
  layout s B → 0 ≤ h < ht_size (ht_enclave s) →
  root_macs s B (h / ratio_root_per_buckets s) ≠ [] →
  ∃ m, blen m = MAC_SIZE ∧
    sgx_rijndael128_cmac_msg gsk (concat (root_macs s B (h / ratio_root_per_buckets s))) =
      (SGX_SUCCESS, m) ∧
    get_chain_mac h s = Ok (m, s).
Proof.
  intros HL Hh Hne. set (q := h / ratio_root_per_buckets s) in *.
  destruct (root_facts s h (ly_cfg _ _ HL) Hh) as (_ & Hrange & _).
  destruct (root_range_nat s B h HL Hh) as (Hseq & Hr & _).
  destruct (aggregate_ok s B h HL Hh) as (x & Hagg). fold q in Hrange, Hseq, Hr, Hagg.
  pose proof (root_macs_bound s B q HL Hne) as Hbound.
  destruct (cmac_ok gsk _ Hbound) as (m & Hm & Hml).
  exists m. split; [done|]. split; [done|].
  set (ms := root_macs s B q) in *.
  assert (blen (concat ms) = MAC_SIZE * blen ms) as Hlen.
  { apply blocks_concat; [done|]. by apply (range_macs_blocks s B HL). }
  pose proof (blen_nonneg ms) as Hms.
  assert (zalloc (MAC_SIZE * blen ms) = Ok (zeros (MAC_SIZE * blen ms))) as Hz
    by (apply zalloc_ok; unfold MAC_SIZE; lia).
  unfold get_chain_mac. rewrite (bind_ok _ _ _ _ _ Hrange). msimpl.
  rewrite (bind_ok _ _ _ (concat ms, blen ms) s).
  { rewrite (bind_lift _ _ _ (concat ms)) by (by apply read_at_all).
    rewrite Hm, (bind_ok _ _ _ _ _ (assert_success_ok s)). unfold lift. by rewrite read_at_all. }
  unfold ms, root_macs in *. destruct (mac_opt (arg_enclave s)) eqn:Ho.
  - rewrite (bind_ok _ _ _ (blen ms) s).
    { rewrite (bind_lift _ _ _ _ Hz). by rewrite (bind_ok _ _ _ _ _ Hagg). }
    rewrite Hseq, <-(range_len B _ _ Hr).
    rewrite (for_each_count B _ (λ b, blen b)); [|apply seg_range|].
    + rewrite fold_blen. unfold ms, range_macs. by rewrite concat_macs_len.
    + intros j b c Hb. destruct (macbuf_get_ok s B HL j b Ho Hb) as (mb & Hmb & _ & (Hsz & _)).
      rewrite (bind_ok _ _ _ _ _ Hmb). by rewrite Hsz.
  - rewrite (bind_ok _ _ _ (blen ms) s).
    { rewrite (bind_lift _ _ _ _ Hz). by rewrite (bind_ok _ _ _ _ _ Hagg). }
    rewrite Hseq, <-(range_len B _ _ Hr).
    rewrite (for_each_count B _ (λ b, blen b)); [|apply seg_range|].
    + rewrite fold_blen. unfold ms, range_macs. by rewrite concat_macs_len.
    + intros j b c Hb. by apply (chain_count_bucket s B HL).
Qed.

(** The check of a root compares its MAC with the MAC of what is in memory. *)
Lemma verify_tree_root_spec s B h stored :
  layout s B → 0 ≤ h < ht_size (ht_enclave s) →
  root_macs s B (h / ratio_root_per_buckets s) ≠ [] →
  MACTable s !! Z.to_nat (h / ratio_root_per_buckets s) = Some stored → blen stored = MAC_SIZE →
  enclave_verify_tree_root h s =
  Ok (if bool_decide (sgx_rijndael128_cmac_msg gsk
                        (concat (root_macs s B (h / ratio_root_per_buckets s))) = (SGX_SUCCESS, stored))
      then SGX_SUCCESS else SGX_ERROR_UNEXPECTED, s).
Proof.
  intros HL Hh Hne Hst Hsl. destruct (get_chain_mac_ok s B h HL Hh Hne) as (m & Hml & Hm & Hg).
  destruct (root_facts s h (ly_cfg _ _ HL) Hh) as (Hroot & _ & Hq & _).
  unfold enclave_verify_tree_root. rewrite (bind_ok _ _ _ _ _ Hg), (bind_ok _ _ _ _ _ Hroot). msimpl.
  rewrite (bind_lift _ _ _ stored) by (apply zlookup_ok; [lia|done]).
  rewrite (bind_lift _ _ _ (bool_decide (m = stored))) by (by apply memcmp_eq_all).
  rewrite Hm. destruct (decide (m = stored)) as [->|Hms].
  - by rewrite !bool_decide_true.
  - rewrite !bool_decide_false by congruence. done.
Qed.

(** What the root must have been before the change. *)
Definition root_was (s : enclave) (q : Z) (old : list bytes) : Prop :=
  ∃ stored, MACTable s !! Z.to_nat q = Some stored ∧ blen stored = MAC_SIZE ∧
    sgx_rijndael128_cmac_msg gsk (concat old) = (SGX_SUCCESS, stored).

(** Position of the changed MAC in the aggregate. *)
Definition updated_pos (opt is_insert : bool) (len kv_pos : Z) : Z :=
  if opt then (if is_insert then kv_pos else len - kv_pos - 1)
  else (if is_insert then len - kv_pos - 1 else kv_pos).

Lemma rebuild_count_ok s B h b kv_pos (is_insert : bool) :
  layout s B → 0 ≤ h < ht_size (ht_enclave s) → B !! Z.to_nat h = Some b →
  let q := h / ratio_root_per_buckets s in
  let range := seqZ (q * ratio_root_per_buckets s) (ratio_root_per_buckets s) in
  (if mac_opt (arg_enclave s) then rebuild_count_opt h kv_pos is_insert range
   else rebuild_count_chain h kv_pos is_insert range) s =
  Ok ((blen (root_macs s B q),
       blen (concat (before B (Z.to_nat (q * ratio_root_per_buckets s)) (Z.to_nat h))) +
       updated_pos (mac_opt (arg_enclave s)) is_insert (blen b) kv_pos), s).
Proof.
  intros HL Hh Hb q range. destruct (root_range_nat s B h HL Hh) as (Hseq & Hr & Hi).
  fold q in Hseq, Hr, Hi. unfold range, root_macs, updated_pos. rewrite Hseq.
  destruct (mac_opt (arg_enclave s)) eqn:Ho.
  - pose proof (rebuild_count_opt_ok s B HL _ _ _ b Hr Hi Hb kv_pos is_insert Ho) as P.
    by rewrite (Z2Nat.id h) in P by lia.
  - pose proof (rebuild_count_chain_ok s B HL _ _ _ b Hr Hi Hb kv_pos is_insert) as P.
    by rewrite (Z2Nat.id h) in P by lia.
Qed.

(** The end of [enclave_rebuild_tree_root]: the MAC of the old aggregate, [old], is compared
    with the root [q], which the MAC of the new one, [agg], replaces. *)
Definition rebuild_finish (q : Z) (is_insert : bool) (total : Z) (agg : bytes) (old : sgx_status * bytes) : E sgx_status :=
  let '(ret, temp_mac) := old in
  if negb (bool_decide (ret = SGX_SUCCESS)) then mret SGX_ERROR_UNEXPECTED
  else
    same ←
      (if negb is_insert || (is_insert && (1 <? total)) then
         t ← gets MACTable;
         stored ← lift (zlookup t q);
         lift (memcmp_eq temp_mac stored MAC_SIZE)
       else mret true);
    if negb same then print "Previous MAC compare failed";; mret SGX_ERROR_UNEXPECTED
    else
      src ← lift (read_at agg 0 (MAC_SIZE * total));
      let '(ret, temp_mac) := sgx_rijndael128_cmac_msg gsk src in
      m ← lift (read_at temp_mac 0 MAC_SIZE);
      t ← gets MACTable;
      t' ← lift (zupdate t q m);
      modify (set_MACTable t');;
      mret ret.

Section rebuild.
Context (s : enclave) (B : list bucket) (h : Z) (b : bucket) (kv_pos : Z) (is_insert : bool) (prev : bytes).
Context (pre : list bytes) (m : bytes) (post : list bytes).
Context (Hnd : is_insert = true → NDEBUG = true ∨ (kv_pos =? 0) = true).
Context (HL : layout s B) (Hh : 0 ≤ h < ht_size (ht_enclave s)) (Hb : B !! Z.to_nat h = Some b).
Let q := h / ratio_root_per_buckets s.
Let old := if is_insert then pre ++ post else pre ++ prev :: post.
Context (Hms : root_macs s B q = pre ++ m :: post).
Context (Hpos : blen pre = blen (concat (before B (Z.to_nat (q * ratio_root_per_buckets s)) (Z.to_nat h))) +
                           updated_pos (mac_opt (arg_enclave s)) is_insert (blen b) kv_pos).
Context (Hprev : is_insert = false → blen prev = MAC_SIZE).

(** The first entry below a root has no old aggregate. *)
Let old_mac := if is_insert && bool_decide (pre ++ post = []) then (SGX_SUCCESS, zeros MAC_SIZE)
               else sgx_rijndael128_cmac_msg gsk (concat old).

Lemma rebuild_macs : blocks MAC_SIZE (pre ++ m :: post) ∧ 0 < blen (concat (pre ++ m :: post)) ≤ INT_MAX.
Proof.
  clear Hpos Hprev. rewrite <-Hms. split; [by apply (range_macs_blocks s B HL)|].
  apply root_macs_bound; [done|]. rewrite Hms. by destruct pre.
Qed.

Lemma rebuild_until_check :
  enclave_rebuild_tree_root h kv_pos is_insert prev s =
  rebuild_finish q is_insert (blen (pre ++ m :: post)) (concat (pre ++ m :: post)) old_mac s.
Proof.
  destruct (root_facts s h (ly_cfg _ _ HL) Hh) as (Hroot & Hrange & _). fold q in Hroot, Hrange.
  pose proof (rebuild_count_ok s B h b kv_pos is_insert HL Hh Hb) as Hcount.
  destruct (aggregate_ok s B h HL Hh) as (x & Hagg). fold q in Hcount, Hagg.
  destruct rebuild_macs as [Hbl _]. pose proof (blen_nonneg (root_macs s B q)).
  unfold enclave_rebuild_tree_root. rewrite (bind_ok _ _ _ _ _ Hrange). msimpl.
  rewrite (bind_ok _ _ _ _ _ Hcount). cbv beta iota.
  rewrite (bind_lift _ _ _ (zeros (MAC_SIZE * blen (root_macs s B q))))
    by (apply zalloc_ok; unfold MAC_SIZE; lia).
  rewrite (bind_ok _ _ _ _ _ Hagg), <-Hpos. cbv beta iota. rewrite Hms.
  rewrite (bind_ok _ _ _ old_mac s).
  2:{ unfold old_mac, old. destruct is_insert; [apply rebuild_previous_insert; [by apply Hnd|done]|].
      apply rebuild_previous_update; auto. }
  unfold rebuild_finish. destruct old_mac as [ret tm]. destruct (negb _); [done|].
  by rewrite (bind_ok _ _ _ _ _ Hroot).
Qed.

(** Either there is nothing to compare, or the old aggregate is compared. *)
Lemma rebuild_compares :
  old_mac = (SGX_SUCCESS, zeros MAC_SIZE) ∧ (negb is_insert || is_insert && (1 <? blen (pre ++ m :: post))) = false ∨
  (is_insert = true → pre ++ post ≠ []) ∧ old_mac = sgx_rijndael128_cmac_msg gsk (concat old) ∧
  (negb is_insert || is_insert && (1 <? blen (pre ++ m :: post))) = true.
Proof.
  clear Hms Hpos Hprev HL Hb. unfold old_mac, old. destruct is_insert; simpl; [|by right]. case_bool_decide as Hnil; [left|right].
  - apply app_nil in Hnil as [-> ->]. done.
  - split; [done|]. split; [done|]. apply Z.ltb_lt. rewrite blen_app, blen_cons.
    pose proof (blen_pos _ Hnil) as Hpp. rewrite blen_app in Hpp. lia.
Qed.

(** Rebuilding the root of [h] after one MAC below it has changed (or is new):
    the old aggregate is checked and the new one becomes the root. *)
Lemma rebuild_tree_root_ok :
  q < blen (MACTable s) → ((is_insert = true → pre ++ post ≠ []) → root_was s q old) →
  ∃ m', sgx_rijndael128_cmac_msg gsk (concat (root_macs s B q)) = (SGX_SUCCESS, m') ∧
    blen m' = MAC_SIZE ∧
    enclave_rebuild_tree_root h kv_pos is_insert prev s =
    Ok (SGX_SUCCESS, set_MACTable (<[Z.to_nat q := m']> (MACTable s)) s).
Proof.
  intros Hq Hold. destruct rebuild_macs as [Hbl Hbound].
  destruct (root_facts s h (ly_cfg _ _ HL) Hh) as (_ & _ & Hq0 & _). fold q in Hq0.
  destruct (cmac_ok gsk _ Hbound) as (m' & Hm' & Hml). exists m'. rewrite Hms. split; [done|]. split; [done|].
  pose proof (blocks_concat MAC_SIZE _ ltac:(done) Hbl) as Hlen.
  rewrite rebuild_until_check. unfold rebuild_finish.
  assert (∃ tm, old_mac = (SGX_SUCCESS, tm) ∧ ∀ k : bool → E sgx_status,
    ((if negb is_insert || is_insert && (1 <? blen (pre ++ m :: post)) then
      t ← gets MACTable; stored ← lift (zlookup t q); lift (memcmp_eq tm stored MAC_SIZE)
      else mret true) ≫= k) s = k true s) as (tm & -> & Hsame).
  { destruct rebuild_compares as [[-> ->]|(Hne & -> & ->)]; [by eexists|].
    destruct (Hold Hne) as (stored & Hst & Hsl & ->). exists stored. split; [done|]. intros k.
    rewrite (bind_ok _ _ _ true s); [done|]. msimpl. rewrite (bind_lift _ _ _ stored) by (apply zlookup_ok; [lia|done]).
    unfold lift. rewrite memcmp_eq_all by done. by rewrite bool_decide_true. }
  rewrite (bool_decide_true (SGX_SUCCESS = SGX_SUCCESS)) by done. cbn [negb]. rewrite Hsame. cbn [negb].
  rewrite (bind_lift _ _ _ (concat (pre ++ m :: post))) by (by apply read_at_all).
  rewrite Hm'. rewrite (bind_lift _ _ _ m') by (by apply read_at_all). msimpl.
  rewrite (bind_lift _ _ _ (<[Z.to_nat q := m']> (MACTable s))) by (apply zupdate_ok; lia). by msimpl.
Qed.

(** The root of [h] is compared and written wherever its number says. *)
Lemma rebuild_outside :
  blen (MACTable s) ≤ q → is_insert = true → enclave_rebuild_tree_root h kv_pos is_insert prev s = Fault Out_of_bounds.
Proof.
  intros Hq Hins. destruct rebuild_macs as [Hbl Hbound]. rewrite rebuild_until_check. unfold rebuild_finish.
  assert (∀ x : bytes, zlookup (MACTable s) q = Fault Out_of_bounds ∧ zupdate (MACTable s) q x = Fault Out_of_bounds) as Hout.
  { intros x. pose proof (blen_nonneg (MACTable s)). unfold zlookup, zupdate, blen in *.
    rewrite (proj2 (Z.ltb_ge q 0)), (proj2 (Z.leb_le 0 q)), (proj2 (Z.ltb_ge q _)) by lia.
    by rewrite lookup_ge_None_2 by lia. }
  pose proof (blocks_concat MAC_SIZE _ ltac:(done) Hbl) as Hlen.
  destruct rebuild_compares as [[-> ->]|(Hne & -> & ->)].
  - rewrite (bool_decide_true (SGX_SUCCESS = SGX_SUCCESS)) by done. cbn [negb]. rewrite bind_ret. cbn [negb].
    rewrite (bind_lift _ _ _ (concat (pre ++ m :: post))) by (by apply read_at_all).
    destruct (cmac_ok gsk _ Hbound) as (m' & -> & Hml).
    rewrite (bind_lift _ _ _ m') by (by apply read_at_all). msimpl. apply bind_fault. by destruct (Hout m') as [_ ->].
  - specialize (Hne Hins). destruct (cmac_ok gsk (concat old)) as (tm & -> & _).
    { unfold old. rewrite Hins, concat_app, blen_app. rewrite concat_split, !blen_app in Hbound.
      pose proof (blen_nonneg m).
      apply Forall_app in Hbl as [Hb1 [_ Hb2]%Forall_cons].
      pose proof (blocks_concat MAC_SIZE _ ltac:(done) Hb1) as L1. pose proof (blocks_concat MAC_SIZE _ ltac:(done) Hb2) as L2.
      pose proof (blen_pos _ Hne) as Hpp. rewrite blen_app in Hpp. unfold MAC_SIZE in *. lia. }
    rewrite (bool_decide_true (SGX_SUCCESS = SGX_SUCCESS)) by done. cbn [negb]. apply bind_fault. msimpl.
    apply bind_fault. by destruct (Hout tm) as [-> _].
Qed.
End rebuild.

(** With assertions the root is not rebuilt for an entry that has others behind it. *)
Lemma rebuild_tree_root_asserts s B h b kv_pos prev :
  NDEBUG = false → kv_pos ≠ 0 → layout s B → 0 ≤ h < ht_size (ht_enclave s) → B !! Z.to_nat h = Some b →
  enclave_rebuild_tree_root h kv_pos true prev s = Fault Assert_failed.
Proof.
  intros Hd Hk HL Hh Hb. destruct (root_facts s h (ly_cfg _ _ HL) Hh) as (_ & Hrange & _).
  pose proof (rebuild_count_ok s B h b kv_pos true HL Hh Hb) as Hcount.
  destruct (aggregate_ok s B h HL Hh) as (x & Hagg).
  set (q := h / ratio_root_per_buckets s) in *. pose proof (blen_nonneg (root_macs s B q)).
  unfold enclave_rebuild_tree_root. rewrite (bind_ok _ _ _ _ _ Hrange). msimpl.
  rewrite (bind_ok _ _ _ _ _ Hcount). cbv beta iota.
  rewrite (bind_lift _ _ _ (zeros (MAC_SIZE * blen (root_macs s B q)))) by (apply zalloc_ok; unfold MAC_SIZE; lia).
  rewrite (bind_ok _ _ _ _ _ Hagg). cbv beta iota. apply bind_fault. unfold rebuild_previous. apply bind_fault.
  unfold assert_. by rewrite Hd, (proj2 (Z.eqb_neq _ _) Hk).
Qed.
End roots.
