(* ===== verification/HashTableProofs.v ===== *)
(** * The hash table on well-formed states

    Lookup finds the entry of a key and its position in the chain; update and
    insertion change one bucket and keep the layout. *)

From S2P Require Import Prelude CString Common Hash Core HashTable Rep CoreProofs RootProofs.

Section lookup.
Context `{Platform} `{!PlatformOk} (Hside : outside_ok).
Implicit Types (s : enclave) (k v : bytes) (b : bucket).

(** The hint the loop compares with, for either setting of the option. *)
Definition hint_ok k (hint : option Z) : Prop := hint = None ∨ hint = Some (hint_of k).

(** One round of the loop: the entry is decrypted only if size and hint agree,
    and the outcome depends on its key alone. *)
Lemma get_round s k k' v e hint :
  entry_ok k' v e → blen k + 1 < 2 ^ 32 → hint_ok k hint →
  ∃ ctr', blen ctr' = NAC_SIZE ∧
  match key_val e with
  | Some cipher =>
      if (key_size e =? u32 (blen k + 1)) &&
         (match hint with Some h => h =? key_hash e | None => true end)
      then decrypt_key_val_and_compare (dup_str k) cipher (key_size e) (val_size e) (nac e)
      else mret None
  | None => mret None
  end s = Ok (if bool_decide (k' = k) then Some (dup_str k' ++ dup_str v, ctr') else None, s).
Proof.
  intros He Hk Hh. destruct (eo_cipher _ _ _ He) as (cipher & _ & _ & Hc & _). rewrite Hc.
  pose proof (blen_nonneg k). rewrite u32_small by lia.
  destruct (Z.eqb_spec (key_size e) (blen k + 1)) as [Hsz|Hsz]; rewrite (eo_ksize _ _ _ He) in Hsz.
  2:{ exists (zeros NAC_SIZE). split; [done|].
      rewrite bool_decide_false; [done|]. intros ->. lia. }
  destruct (decrypt_compare_ok s k' v e k cipher He Hc ltac:(lia)) as (ctr' & Hl & Hdec).
  exists ctr'. split; [done|]. destruct Hh as [->| ->]; cbn [andb]; [done|].
  rewrite (eo_hint _ _ _ He). destruct (Z.eqb_spec (hint_of k) (hint_of k')) as [_|Hne]; [done|].
  rewrite bool_decide_false by congruence. done.
Qed.

Definition entries_ok b : Prop := Forall (λ c, entry_ok (c_key c) (c_val c) (c_ent c)) b.

Lemma ht_get_loop_none s k hint p b fuel n :
  chain (heap s) p b → (length b ≤ fuel)%nat → entries_ok b → blen k + 1 < 2 ^ 32 → hint_ok k hint →
  k ∉ c_key <$> b →
  ht_get_loop fuel (dup_str k) (blen k + 1) hint p n s = Ok ((None, n + blen b), s).
Proof.
  intros Hc Hf Hok Hk Hh. revert p fuel n Hc Hf. induction b as [|c b IH]; intros p fuel n Hc Hf Hnin.
  - rewrite Hc. destruct fuel; simpl; by rewrite blen_nil, Z.add_0_r.
  - destruct Hc as (-> & Hl & Hc). destruct fuel as [|fuel]; [simpl in Hf; lia|].
    apply Forall_cons in Hok as [He Hok]. rewrite fmap_cons, not_elem_of_cons in Hnin.
    destruct (get_round s k _ _ _ hint He Hk Hh) as (ctr' & _ & Hr).
    cbn [ht_get_loop]. rewrite (bind_ok _ _ _ _ _ (load_ok _ _ _ Hl)), (bind_ok _ _ _ _ _ Hr).
    rewrite bool_decide_false by naive_solver. rewrite IH; [|done..|simpl in Hf; lia|tauto].
    rewrite blen_cons. do 3 f_equal. lia.
Qed.

Lemma ht_get_loop_found s k hint p b1 c b2 fuel n :
  chain (heap s) p (b1 ++ c :: b2) → (length (b1 ++ c :: b2) ≤ fuel)%nat →
  entries_ok (b1 ++ c :: b2) → blen k + 1 < 2 ^ 32 → hint_ok k hint →
  k ∉ c_key <$> b1 → c_key c = k →
  ∃ ctr', blen ctr' = NAC_SIZE ∧
  ht_get_loop fuel (dup_str k) (blen k + 1) hint p n s =
  Ok ((Some (Found (c_loc c) (dup_str k ++ dup_str (c_val c)) ctr'), n + blen b1), s).
Proof.
  intros Hc Hf Hok Hk Hh Hnin Hkey. revert p fuel n Hc Hf.
  induction b1 as [|d b1 IH]; intros p fuel n Hc Hf.
  - destruct Hc as (-> & Hl & _). destruct fuel as [|fuel]; [simpl in Hf; lia|].
    apply Forall_cons in Hok as [He _].
    destruct (get_round s k _ _ _ hint He Hk Hh) as (ctr' & Hcl & Hr).
    exists ctr'. split; [done|].
    cbn [ht_get_loop]. rewrite (bind_ok _ _ _ _ _ (load_ok _ _ _ Hl)), (bind_ok _ _ _ _ _ Hr).
    rewrite bool_decide_true by done.
    rewrite !(bind_ok _ _ _ _ _ (assert_outside _ _ s Hside)).
    by rewrite blen_nil, Z.add_0_r, Hkey.
  - destruct Hc as (-> & Hl & Hc). destruct fuel as [|fuel]; [simpl in Hf; lia|].
    rewrite <-app_comm_cons in Hok. apply Forall_cons in Hok as [He Hok].
    rewrite fmap_cons, not_elem_of_cons in Hnin.
    destruct (get_round s k _ _ _ hint He Hk Hh) as (ctr0 & _ & Hr).
    destruct (IH Hok ltac:(tauto) _ fuel (n + 1) Hc) as (ctr' & Hcl & Hrun); [simpl in Hf; lia|].
    exists ctr'. split; [done|].
    cbn [ht_get_loop]. rewrite (bind_ok _ _ _ _ _ (load_ok _ _ _ Hl)), (bind_ok _ _ _ _ _ Hr).
    rewrite bool_decide_false by naive_solver. rewrite Hrun, blen_cons. do 3 f_equal. lia.
Qed.

(** The bucket a key belongs to. *)
Definition bin_of s k : nat := Z.to_nat (bucket_of (ht_size (ht_enclave s)) k).

Lemma bin_range s B k :
  layout s B → 0 ≤ bucket_of (ht_size (ht_enclave s)) k < ht_size (ht_enclave s) ∧
  Z.of_nat (bin_of s k) = bucket_of (ht_size (ht_enclave s)) k.
Proof.
  intros HL. pose proof (bucket_of_range _ k (co_size _ (ly_cfg _ _ HL))).
  unfold bin_of. split; [done|]. lia.
Qed.

Lemma bin_bucket s B k : layout s B → is_Some (B !! bin_of s k).
Proof.
  intros HL. apply lookup_lt_is_Some. destruct (bin_range s B k HL) as [Hr _].
  pose proof (ly_size _ _ HL). unfold bin_of, blen in *. lia.
Qed.

Lemma shape_entries s B i b : shape s B → B !! i = Some b → entries_ok b.
Proof.
  intros HS Hb. eapply Forall_impl; [by apply (sh_cells _ _ HS i)|]. by intros c [? _].
Qed.

(** [ht_get_o] runs the loop on the chain of the key's bucket. *)
Lemma ht_get_o_loop s B k b :
  layout s B → nonul k → B !! bin_of s k = Some b →
  ∃ p hint, chain (heap s) p b ∧ hint_ok k hint ∧ (length b ≤ S (size (heap s)))%nat ∧
    ht_get_o (dup_str k) (blen k + 1) s =
    ht_get_loop (S (size (heap s))) (dup_str k) (blen k + 1) hint p 0 s.
Proof.
  intros HL Hk Hb. destruct (bin_range s B k HL) as [Hr Hbin].
  destruct (table_get_ok s B HL _ b Hb) as (p & Hp & Hc). rewrite Hbin in Hp.
  pose proof (chain_fuel_enough s B HL _ b p Hb Hc).
  unfold ht_get_o. rewrite (bind_ok _ _ _ _ _ (ht_hash_dup s k Hk (co_size _ (ly_cfg _ _ HL)))).
  unfold chain_fuel. msimpl. destruct (key_opt (arg_enclave s)).
  - exists p, (Some (hint_of k)). split_and!; [done|by right|done|].
    rewrite (bind_lift _ _ _ _ (key_hash_dup k Hk)). by rewrite (bind_ok _ _ _ _ _ Hp).
  - exists p, None. split_and!; [done|by left|done|]. by rewrite (bind_ok _ _ _ _ _ Hp).
Qed.

Lemma ht_get_o_none s B k b :
  shape s B → nonul k → blen k + 1 < 2 ^ 32 → B !! bin_of s k = Some b → k ∉ c_key <$> b →
  ht_get_o (dup_str k) (blen k + 1) s = Ok ((None, blen b), s).
Proof.
  intros HS Hk Hkl Hb Hnin.
  destruct (ht_get_o_loop s B k b (sh_layout _ _ HS) Hk Hb) as (p & hint & Hc & Hh & Hf & ->).
  rewrite (ht_get_loop_none _ _ _ _ b); [by rewrite Z.add_0_l|done..| |done|done|done].
  by eapply shape_entries.
Qed.

Lemma ht_get_o_found s B k b1 c b2 :
  shape s B → nonul k → blen k + 1 < 2 ^ 32 → B !! bin_of s k = Some (b1 ++ c :: b2) → c_key c = k →
  ∃ ctr', blen ctr' = NAC_SIZE ∧
  ht_get_o (dup_str k) (blen k + 1) s =
  Ok ((Some (Found (c_loc c) (dup_str k ++ dup_str (c_val c)) ctr'), blen b1), s).
Proof.
  intros HS Hk Hkl Hb Hkey.
  destruct (ht_get_o_loop s B k _ (sh_layout _ _ HS) Hk Hb) as (p & hint & Hc & Hh & Hf & ->).
  pose proof (nodup_bucket c_key B _ _ Hb (sh_keys _ _ HS)) as Hnd'.
  rewrite fmap_app, fmap_cons in Hnd'. apply NoDup_app in Hnd' as (_ & Hdis & _).
  apply (ht_get_loop_found _ _ _ _ b1 c b2 _ 0); try done.
  - by eapply shape_entries.
  - intros Hin. apply (Hdis _ Hin). rewrite Hkey. set_solver.
Qed.
End lookup.

(** ** Updates of the MAC buckets *)
Section macbuf.
Context `{Platform}.
Implicit Types (s : enclave) (b : bucket).

Lemma bucket_macs_split b1 c b2 :
  bucket_macs true (b1 ++ c :: b2) = reverse (c_mac <$> b2) ++ c_mac c :: reverse (c_mac <$> b1).
Proof.
  unfold bucket_macs. rewrite fmap_app, fmap_cons, reverse_app, reverse_cons.
  by rewrite <-app_assoc.
Qed.

Lemma macbuf_write_ok s i m pos x mac' :
  MACbuf_enclave s !! i = Some m → blen x = MAC_SIZE →
  memcpy (me_mac m) (MAC_SIZE * pos) x 0 MAC_SIZE = Ok mac' →
  macbuf_write (Z.of_nat i) pos x s =
  Ok (tt, set_macbuf (<[i := mkMACentry (me_size m) mac']> (MACbuf_enclave s)) s).
Proof.
  intros Hm Hx Hc. apply lookup_lt_Some in Hm as Hlt. unfold macbuf_write, macbuf_get, macbuf_set.
  rewrite (bind_ok _ _ _ m s).
  2:{ msimpl. unfold lift. rewrite (zlookup_ok _ _ m); [done|lia|by rewrite Nat2Z.id]. }
  rewrite (bind_lift _ _ _ _ Hc). msimpl.
  by rewrite (bind_lift _ _ _ _ (zupdate_nat _ i _ Hlt)).
Qed.

(** Replacing the MAC of a cell. *)
Lemma macbuf_replace s i m b1 c c' b2 :
  MACbuf_enclave s !! i = Some m → macbuf_ok m (b1 ++ c :: b2) →
  Forall (λ c, blen (c_mac c) = MAC_SIZE) (b1 ++ c :: b2) → blen (c_mac c') = MAC_SIZE →
  ∃ m', macbuf_ok m' (b1 ++ c' :: b2) ∧
    macbuf_write (Z.of_nat i) (me_size m - blen b1 - 1) (c_mac c') s =
    Ok (tt, set_macbuf (<[i := m']> (MACbuf_enclave s)) s).
Proof.
  intros Hm (Hsz & Hlen & junk & Hj) (Hb1 & (Hc & Hb2)%Forall_cons)%Forall_app Hc'.
  rewrite bucket_macs_split, concat_split in Hj.
  assert (blen (concat (reverse (c_mac <$> b2))) = MAC_SIZE * blen b2) as Hpre.
  { rewrite <-(bucket_macs_len true b2). apply blocks_concat; [done|]. by apply bucket_macs_blocks. }
  set (P := concat (reverse (c_mac <$> b2))) in *. set (Q := concat (reverse (c_mac <$> b1))) in *.
  exists (mkMACentry (me_size m) (P ++ c_mac c' ++ Q ++ junk)). split.
  - split; [|split]; cbn [me_size me_mac].
    + rewrite Hsz. rewrite !blen_app, !blen_cons. done.
    + rewrite <-Hlen, Hj. unfold P, Q. rewrite !blen_app, Hc, Hc'. lia.
    + exists junk. rewrite bucket_macs_split, concat_split. unfold P, Q. by rewrite <-!app_assoc.
  - apply macbuf_write_ok; [done|done|]. rewrite Hj, <-!app_assoc. apply memcpy_all; [|done|done].
    rewrite Hpre, Hsz, blen_app, blen_cons. lia.
Qed.

(** Adding the MAC of a new cell at the end. *)
Lemma macbuf_push s i m b c :
  MACbuf_enclave s !! i = Some m → macbuf_ok m b →
  Forall (λ c, blen (c_mac c) = MAC_SIZE) b → blen (c_mac c) = MAC_SIZE → blen b < MAC_SLOTS →
  ∃ m', macbuf_ok m' (c :: b) ∧
    (macbuf_set (Z.of_nat i) (mkMACentry (me_size m + 1) (me_mac m));;
     macbuf_write (Z.of_nat i) (blen b) (c_mac c)) s =
    Ok (tt, set_macbuf (<[i := m']> (MACbuf_enclave s)) s).
Proof.
  intros Hm (Hsz & Hlen & junk & Hj) Hb Hc Hroom.
  assert (blen (concat (bucket_macs true b)) = MAC_SIZE * blen b) as Hpre.
  { rewrite <-(bucket_macs_len true b). apply blocks_concat; [done|]. by apply bucket_macs_blocks. }
  rewrite Hj, blen_app, Hpre in Hlen. set (P := concat (bucket_macs true b)) in *.
  pose proof (blen_nonneg b). unfold MAC_SIZE, MAC_SLOTS in *.
  assert (0 ≤ 16 ≤ blen junk) as Hjl by lia.
  set (j1 := take (Z.to_nat 16) junk). set (j2 := drop (Z.to_nat 16) junk).
  assert (junk = j1 ++ j2) as Hjunk by (unfold j1, j2; by rewrite take_drop).
  pose proof (blen_take junk 16 Hjl) as Hj1. fold j1 in Hj1.
  pose proof (blen_drop junk 16 Hjl) as Hj2. fold j2 in Hj2.
  exists (mkMACentry (me_size m + 1) (P ++ c_mac c ++ j2)). split.
  - split; [|split]; cbn [me_size me_mac].
    + rewrite Hsz, blen_cons. lia.
    + rewrite !blen_app. unfold MAC_SIZE, MAC_SLOTS. lia.
    + exists j2. unfold bucket_macs. rewrite fmap_cons, reverse_cons, concat_app. simpl.
      by rewrite app_nil_r, <-app_assoc.
  - apply lookup_lt_Some in Hm as Hlt. rewrite (bind_ok _ _ _ tt (set_macbuf
      (<[i := mkMACentry (me_size m + 1) (me_mac m)]> (MACbuf_enclave s)) s)).
    2:{ unfold macbuf_set. msimpl.
        by rewrite (bind_lift _ _ _ _ (zupdate_nat _ i _ Hlt)). }
    rewrite (macbuf_write_ok _ i (mkMACentry (me_size m + 1) (me_mac m)) _ _ (P ++ c_mac c ++ j2)).
    + simpl. by rewrite list_insert_insert_eq.
    + simpl. by apply list_lookup_insert_eq.
    + done.
    + simpl. rewrite Hj, Hjunk. apply memcpy_all; done.
Qed.
End macbuf.

(** ** Updates of the table keep the layout *)
Section change.
Context `{Platform}.
Implicit Types (s : enclave) (B : list bucket).

(** The state with other entries and MAC buckets. *)
Definition with_mem (h : gmap loc entry) (mb : list MACentry) (s : enclave) : enclave :=
  set_macbuf mb (set_heap h s).

Lemma with_mem_cfg h mb s : cfg_ok s → cfg_ok (with_mem h mb s).
Proof. by intros []. Qed.

Lemma layout_update s B i b1 c c' b2 mb :
  layout s B → B !! i = Some (b1 ++ c :: b2) →
  c_loc c' = c_loc c → next (c_ent c') = next (c_ent c) → blen (c_mac c') = MAC_SIZE →
  (mac_opt (arg_enclave s) = true →
     ∃ m', mb = <[i := m']> (MACbuf_enclave s) ∧ macbuf_ok m' (b1 ++ c' :: b2)) →
  layout (with_mem (<[c_loc c := c_ent c']> (heap s)) mb s) (<[i := b1 ++ c' :: b2]> B).
Proof.
  intros [Hcfg Hsz Hch Hloc Hml Hmb Hcnt] Hb Hl Hn Hmac Hbuf.
  assert (concat (<[i:=b1 ++ c' :: b2]> B) =
          (concat (take i B) ++ b1) ++ c' :: b2 ++ concat (drop (S i) B)) as Hnew.
  { rewrite (concat_insert _ _ _ _ Hb). by rewrite <-!app_assoc, <-app_comm_cons. }
  assert (concat B = (concat (take i B) ++ b1) ++ c :: b2 ++ concat (drop (S i) B)) as Hold.
  { rewrite (concat_middle _ _ _ Hb). by rewrite <-!app_assoc, <-app_comm_cons. }
  pose proof (lookup_lt_Some _ _ _ Hb) as Hlt.
  split; simpl.
  - by apply with_mem_cfg.
  - by rewrite blen_insert.
  - apply Forall2_same_length_lookup. split; [rewrite length_insert; by apply (Forall2_length _ _ _ Hch)|].
    intros j p b Hp Hbj. destruct (decide (i = j)) as [<-|Hij].
    + rewrite list_lookup_insert_eq in Hbj by done. injection Hbj as <-.
      apply chain_update; [|done..|by eapply Forall2_lookup_lr].
      by eapply nodup_bucket.
    + rewrite list_lookup_insert_ne in Hbj by done.
      apply chain_insert_ne; [|by eapply Forall2_lookup_lr].
      intros (d & Hd1 & Hd2)%list_elem_of_fmap.
      rewrite (concat_middle _ _ _ Hb) in Hloc.
      assert (d ∈ concat (take i B) ∨ d ∈ concat (drop (S i) B)) as Hd.
      { apply (elem_of_bucket (<[i := []]> B) j b d) in Hd2; [|by rewrite list_lookup_insert_ne].
        rewrite (concat_insert _ _ _ _ Hb) in Hd2. set_solver. }
      rewrite !fmap_app in Hloc. apply NoDup_app in Hloc as (_ & Hx & (_ & Hy & _)%NoDup_app).
      assert (c_loc c ∈ c_loc <$> b1 ++ c :: b2) as Hc by (apply list_elem_of_fmap_2; set_solver).
      rewrite fmap_app in Hc.
      destruct Hd as [Hd|Hd]; apply (list_elem_of_fmap_2 c_loc) in Hd; rewrite <-Hd1 in Hd.
      * apply (Hx _ Hd). set_solver.
      * by apply (Hy _ Hc).
  - rewrite Hnew. rewrite Hold in Hloc. rewrite !fmap_app, !fmap_cons, Hl in *. done.
  - rewrite Hnew. rewrite Hold in Hml. rewrite !Forall_app, !Forall_cons in *. tauto.
  - intros Ho. destruct (Hbuf Ho) as (m' & -> & Hm'). by apply Forall2_insert; [apply Hmb|].
  - rewrite Hnew. rewrite Hold in Hcnt. rewrite !blen_app, !blen_cons in *. done.
Qed.

Lemma layout_insert s B i b c mb :
  layout s B → B !! i = Some b → heap s !! c_loc c = None →
  chain (heap s) (next (c_ent c)) b → blen (c_mac c) = MAC_SIZE →
  MAC_SIZE * (blen (concat B) + 1) ≤ INT_MAX →
  (mac_opt (arg_enclave s) = true →
     ∃ m', mb = <[i := m']> (MACbuf_enclave s) ∧ macbuf_ok m' (c :: b)) →
  layout (set_table (<[i := Some (c_loc c)]> (ht_table (ht_enclave s)))
            (with_mem (<[c_loc c := c_ent c]> (heap s)) mb s)) (<[i := c :: b]> B).
Proof.
  intros [Hcfg Hsz Hch Hloc Hml Hmb Hcnt] Hb Hfresh Hnext Hmac Hroom Hbuf.
  assert (concat (<[i:=c :: b]> B) ≡ₚ c :: concat B) as Hnew.
  { rewrite (concat_insert _ _ _ _ Hb), (concat_middle _ _ _ Hb).
    rewrite <-app_comm_cons. symmetry. apply Permutation_middle. }
  assert (c_loc c ∉ c_loc <$> concat B) as Hnin.
  { intros (d & Hd1 & (b' & (j & Hj) & Hd2)%elem_of_concat)%list_elem_of_fmap.
    destruct (Forall2_lookup_r _ _ _ _ _ Hch Hj) as (p & _ & Hp).
    eapply chain_lookup in Hp; [|done]. rewrite <-Hd1 in Hp. congruence. }
  assert (∀ j b' p, B !! j = Some b' → chain (heap s) p b' →
            chain (<[c_loc c := c_ent c]> (heap s)) p b') as Hkeep.
  { intros j b' p Hj Hp. apply chain_insert_ne; [|done].
    intros (d & Hd1 & Hd2)%list_elem_of_fmap. apply Hnin. rewrite Hd1.
    by eapply list_elem_of_fmap_2, elem_of_bucket. }
  pose proof (lookup_lt_Some _ _ _ Hb) as Hlt.
  split; simpl.
  - destruct Hcfg. by split.
  - by rewrite blen_insert.
  - apply Forall2_same_length_lookup.
    split; [rewrite !length_insert; by apply (Forall2_length _ _ _ Hch)|].
    intros j p b' Hp Hbj. destruct (decide (i = j)) as [<-|Hij].
    + rewrite list_lookup_insert_eq in Hbj by done. injection Hbj as <-.
      rewrite list_lookup_insert_eq in Hp by (rewrite (Forall2_length _ _ _ Hch); done).
      injection Hp as <-. simpl. split; [done|]. split; [by simplify_map_eq|]. by eapply Hkeep.
    + rewrite list_lookup_insert_ne in Hbj by done. rewrite list_lookup_insert_ne in Hp by done.
      eapply Hkeep; [done|]. by eapply Forall2_lookup_lr.
  - rewrite Hnew, fmap_cons. by apply NoDup_cons.
  - rewrite Hnew. by constructor.
  - intros Ho. destruct (Hbuf Ho) as (m' & -> & Hm'). by apply Forall2_insert; [apply Hmb|].
  - unfold blen. rewrite Hnew. cbn [length]. unfold blen in Hroom. lia.
Qed.
End change.

(** ** [ht_set_o] and [ht_append_o] *)
Section set.
Context `{Platform} `{!PlatformOk}.
Implicit Types (s : enclave) (B : list bucket) (k v : bytes).

Lemma realloc_bytes_len b n : 0 ≤ n → blen (realloc_bytes b n) = n.
Proof.
  intros. unfold realloc_bytes, blen, zeros. rewrite length_app, length_take, length_replicate. lia.
Qed.

(** The entry after an update. *)
Definition updated (e : entry) (val_len : Z) (kv nac_ mac_ : bytes) : entry :=
  mkEntry (key_size e) val_len (key_hash e) (Some kv) nac_ mac_ (next e).

Lemma entry_update_ok s l e old resize kv nac_ mac_ val_len :
  mem_avail s → heap s !! l = Some e → key_val e = Some old → blen old = key_size e + val_size e →
  0 ≤ key_size e → 0 ≤ val_len → key_size e + val_len < 2 ^ 32 → blen kv = key_size e + val_len →
  blen nac_ = NAC_SIZE → blen mac_ = MAC_SIZE → (resize = false → val_size e = val_len) →
  entry_update l resize kv nac_ mac_ (key_size e) val_len s =
  Ok (tt, set_heap (<[l := updated e val_len kv nac_ mac_]> (heap s)) s).
Proof.
  intros [_ Hre] Hl Hold Hlen Hk Hv Hb Hkv Hn Hm Hsz. unfold entry_update.
  rewrite (bind_ok _ _ _ _ _ (load_ok _ _ _ Hl)). msimpl. rewrite u32_small by lia.
  set (n := key_size e + val_len) in *.
  set (buf := if resize then realloc_bytes old n else old).
  assert (blen buf = n) as Hbuf.
  { unfold buf. destruct resize; [apply realloc_bytes_len; lia|]. specialize (Hsz eq_refl). lia. }
  rewrite (bind_ok _ _ _ buf s).
  2:{ unfold buf. destruct resize; rewrite Hold; [|done]. by rewrite Hre. }
  rewrite (bind_lift _ _ _ kv).
  2:{ pose proof (memcpy_all [] buf kv [] 0 n) as P. rewrite !app_nil_r in P. by apply P. }
  rewrite (bind_lift _ _ _ nac_) by (by apply read_at_all).
  rewrite (bind_lift _ _ _ mac_) by (by apply read_at_all).
  unfold store. by rewrite Hl.
Qed.

Lemma entry_sizes k v e :
  entry_ok k v e → 0 ≤ blen k ∧ 0 ≤ blen v ∧ key_size e = blen k + 1 ∧ val_size e = blen v + 1 ∧
  ∃ old, key_val e = Some old ∧ blen old = key_size e + val_size e.
Proof.
  intros He. destruct (eo_cipher _ _ _ He) as (old & _ & _ & Hc & Hl & _).
  rewrite (eo_ksize _ _ _ He), (eo_vsize _ _ _ He).
  split_and!; try apply blen_nonneg; try done. by exists old.
Qed.

(** Updating the entry of a key in place: the other cells of the bucket and the
    other buckets stay, the MAC bucket follows. *)
Lemma ht_set_o_update s B k b1 c b2 kv nac_ mac_ val_len v' :
  mem_avail s → shape s B → nonul k → B !! bin_of s k = Some (b1 ++ c :: b2) → c_key c = k →
  0 ≤ val_len → blen k + 1 + val_len < 2 ^ 32 → blen kv = blen k + 1 + val_len →
  blen nac_ = NAC_SIZE → blen mac_ = MAC_SIZE →
  let e' := updated (c_ent c) val_len kv nac_ mac_ in
  let c' := Cell (c_loc c) e' k v' in
  ∃ mb, (mac_opt (arg_enclave s) = true →
           ∃ m', mb = <[bin_of s k := m']> (MACbuf_enclave s) ∧ macbuf_ok m' (b1 ++ c' :: b2)) ∧
    ht_set_o (Some (c_loc c)) (dup_str k) kv nac_ mac_ (blen k + 1) val_len (blen b1) s =
    Ok (tt, with_mem (<[c_loc c := e']> (heap s)) mb s).
Proof.
  intros Hmem HS Hk Hb Hkey Hvl Hbound Hkv Hn Hm e' c'. pose proof (sh_layout _ _ HS) as HL.
  destruct (bin_range s B k HL) as [Hr Hbin].
  pose proof (shape_entries s B _ _ HS Hb) as Hents. apply Forall_app in Hents as (_ & (He & _)%Forall_cons).
  rewrite Hkey in He. destruct (entry_sizes _ _ _ He) as (_ & _ & Hks & Hvs & old & Hold & Hlen).
  destruct (table_get_ok s B HL _ _ Hb) as (p & _ & Hc).
  assert (heap s !! c_loc c = Some (c_ent c)) as Hl by (eapply chain_lookup; [done|set_solver]).
  rewrite <-Hks in Hbound, Hkv.
  pose proof (entry_update_ok s (c_loc c) (c_ent c) old (negb (val_size (c_ent c) =? val_len)) kv nac_ mac_
    val_len Hmem Hl Hold Hlen ltac:(pose proof (blen_nonneg k); lia) Hvl Hbound Hkv Hn Hm) as Hupd.
  specialize (Hupd ltac:(intros Hz%negb_false_iff%Z.eqb_eq; lia)). rewrite Hks in Hupd.
  unfold ht_set_o. rewrite (bind_ok _ _ _ _ _ (ht_hash_dup s k Hk (co_size _ (ly_cfg _ _ HL)))).
  rewrite (bind_lift _ _ _ _ (key_hash_dup k Hk)). msimpl.
  rewrite (bind_ok _ _ _ _ _ (load_ok _ _ _ Hl)), (bind_ok _ _ _ _ _ Hupd).
  destruct (mac_opt (arg_enclave s)) eqn:Ho.
  - destruct (macbuf_get_ok s B HL _ _ Ho Hb) as (m & _ & Hmb & Hmok).
    set (s1 := set_heap (<[c_loc c := e']> (heap s)) s).
    destruct (macbuf_replace s1 _ m b1 c c' b2 Hmb Hmok) as (m' & Hm' & Hw);
      [by eapply (bucket_maclen s B HL)|done|].
    exists (<[bin_of s k := m']> (MACbuf_enclave s)). split; [by eauto|].
    rewrite (bind_ok _ _ _ m s1); [by rewrite <-Hbin|].
    unfold macbuf_get. msimpl. unfold lift. by rewrite <-Hbin, (zlookup_nat _ _ m).
  - exists (MACbuf_enclave s). split; [done|]. by destruct s.
Qed.

(** A new key: the entry is allocated, filled and made the head of its chain; what is left
    is its MAC in the MAC bucket. *)
Lemma ht_newpair_ok s kl vl hint kv nac_ mac_ :
  mem_avail s → blen kv = kl + vl → blen nac_ = NAC_SIZE → blen mac_ = MAC_SIZE →
  ∃ l, heap s !! l = None ∧
    ht_newpair kl vl hint kv nac_ mac_ s =
    Ok (Some l, set_heap (<[l := mkEntry (u32 kl) (u32 vl) hint (Some kv) nac_ mac_ None]> (heap s)) s).
Proof.
  intros [Hmal _] Hkv Hn Hm. destruct (Hmal sizeof_entry) as (l & Hl). destruct (Hmal (kl + vl)) as (l2 & Hl2).
  exists l. split; [by eapply malloc_ok|]. unfold ht_newpair. msimpl. rewrite Hl, Hl2.
  rewrite (bind_lift _ _ _ kv) by (by apply read_at_all).
  rewrite (bind_lift _ _ _ nac_) by (by apply read_at_all).
  by rewrite (bind_lift _ _ _ mac_) by (by apply read_at_all).
Qed.

Lemma ht_set_o_push s B k b kv nac_ mac_ val_len kv_pos :
  mem_avail s → shape s B → nonul k → B !! bin_of s k = Some b →
  0 ≤ val_len → blen k + 1 + val_len < 2 ^ 32 → blen kv = blen k + 1 + val_len →
  blen nac_ = NAC_SIZE → blen mac_ = MAC_SIZE →
  ∃ l head, heap s !! l = None ∧ chain (heap s) head b ∧
    let e' := mkEntry (blen k + 1) val_len (hint_of k) (Some kv) nac_ mac_ head in
    ht_set_o None (dup_str k) kv nac_ mac_ (blen k + 1) val_len kv_pos s =
    (if mac_opt (arg_enclave s) then
       b0 ← macbuf_get (Z.of_nat (bin_of s k));
       macbuf_set (Z.of_nat (bin_of s k)) (mkMACentry (me_size b0 + 1) (me_mac b0));;
       macbuf_write (Z.of_nat (bin_of s k)) kv_pos mac_
     else mret tt)
    (set_table (<[bin_of s k := Some l]> (ht_table (ht_enclave s))) (set_heap (<[l := e']> (heap s)) s)).
Proof.
  intros Hmem HS Hk Hb Hvl Hbound Hkv Hn Hm. pose proof (sh_layout _ _ HS) as HL.
  destruct (bin_range s B k HL) as [Hr Hbin]. pose proof (blen_nonneg k).
  destruct (table_get_ok s B HL _ _ Hb) as (head & Hhead & Hc).
  destruct (ht_newpair_ok s (blen k + 1) val_len (hint_of k) kv nac_ mac_ Hmem Hkv Hn Hm) as (l & Hfresh & Hnew).
  rewrite !u32_small in Hnew by lia. set (e0 := mkEntry _ _ _ _ _ _ None) in Hnew.
  exists l, head. split; [done|]. split; [done|]. cbv zeta. set (e' := mkEntry _ _ _ _ _ _ head).
  set (s1 := set_heap (<[l := e0]> (heap s)) s) in *. set (s2 := set_heap (<[l := e']> (heap s)) s).
  assert (bin_of s k < length (ht_table (ht_enclave s)))%nat as Hlt.
  { rewrite (Forall2_length _ _ _ (ly_chains _ _ HL)). by eapply lookup_lt_Some. }
  unfold ht_set_o. rewrite (bind_ok _ _ _ _ _ (ht_hash_dup s k Hk (co_size _ (ly_cfg _ _ HL)))).
  rewrite (bind_lift _ _ _ _ (key_hash_dup k Hk)). msimpl.
  rewrite (bind_ok _ _ _ _ _ Hnew). rewrite bool_decide_false by done. msimpl. rewrite <-Hbin.
  rewrite (bind_ok _ _ _ head s1).
  2:{ unfold table_get in *. unfold gets, lift, mbind, M_bind, res_bind, compose in *. simpl in *.
      destruct (zlookup _ _); naive_solver. }
  simpl deref. msimpl.
  rewrite (bind_ok _ _ _ e0 s1) by (apply load_ok; simpl; by simplify_map_eq).
  rewrite (bind_ok _ _ _ tt s2).
  2:{ case_bool_decide as Hh; unfold store, s1, s2, e'; cbn [heap set_heap];
        rewrite lookup_insert_eq, insert_insert_eq; [rewrite Hh|]; done. }
  rewrite (bind_ok _ _ _ tt (set_table (<[bin_of s k := Some l]> (ht_table (ht_enclave s))) s2)); [done|].
  unfold table_set. msimpl. by rewrite (bind_lift _ _ _ _ (zupdate_nat _ _ _ Hlt)).
Qed.

(** A new key: a new cell at the head of the chain, its MAC at the end of the MAC
    bucket. *)
Lemma ht_set_o_insert s B k b kv nac_ mac_ val_len v' :
  mem_avail s → shape s B → nonul k → B !! bin_of s k = Some b →
  0 ≤ val_len → blen k + 1 + val_len < 2 ^ 32 → blen kv = blen k + 1 + val_len →
  blen nac_ = NAC_SIZE → blen mac_ = MAC_SIZE →
  (mac_opt (arg_enclave s) = true → blen b < MAC_SLOTS) →
  ∃ l head mb, heap s !! l = None ∧ chain (heap s) head b ∧
    let e' := mkEntry (blen k + 1) val_len (hint_of k) (Some kv) nac_ mac_ head in
    let c' := Cell l e' k v' in
    (mac_opt (arg_enclave s) = true →
       ∃ m', mb = <[bin_of s k := m']> (MACbuf_enclave s) ∧ macbuf_ok m' (c' :: b)) ∧
    ht_set_o None (dup_str k) kv nac_ mac_ (blen k + 1) val_len (blen b) s =
    Ok (tt, set_table (<[bin_of s k := Some l]> (ht_table (ht_enclave s)))
              (with_mem (<[l := e']> (heap s)) mb s)).
Proof.
  intros Hmem HS Hk Hb Hvl Hbound Hkv Hn Hm Hroom. pose proof (sh_layout _ _ HS) as HL.
  destruct (ht_set_o_push s B k b kv nac_ mac_ val_len (blen b) Hmem HS Hk Hb Hvl Hbound Hkv Hn Hm)
    as (l & head & Hl & Hc & Hset). cbv zeta in Hset. set (e' := mkEntry _ _ _ _ _ _ head) in *.
  set (s2 := set_table _ _) in Hset. exists l, head. destruct (mac_opt (arg_enclave s)) eqn:Ho.
  - destruct (macbuf_get_ok s B HL _ _ Ho Hb) as (m & _ & Hmb & Hmok).
    destruct (macbuf_push s2 _ m b (Cell l e' k v') Hmb Hmok) as (m' & Hm' & Hw);
      [by eapply (bucket_maclen s B HL)|done|by apply Hroom|].
    exists (<[bin_of s k := m']> (MACbuf_enclave s)). split; [done|]. split; [done|]. split; [by eauto|].
    rewrite Hset. rewrite (bind_ok _ _ _ m s2); [done|].
    unfold macbuf_get. msimpl. unfold lift. by rewrite (zlookup_nat _ _ m).
  - exists (MACbuf_enclave s). split; [done|]. split; [done|]. split; [done|]. rewrite Hset. by destruct s.
Qed.
End set.
