(* ===== verification/StoreProofs.v ===== *)
(** * The abstract store and one changed bucket

    The map a table represents, and how it, the contents of the entries and the
    roots change when one cell is updated or added. *)

From S2P Require Import Prelude CString Common Hash Core HashTable Rep CoreProofs RootProofs.
From S2P Require Import HashTableProofs.

(** ** The map *)
Section abs.
Implicit Types (B : list bucket) (k v : bytes).

Lemma abs_keys (l : bucket) : ((λ c, (c_key c, c_val c)) <$> l).*1 = c_key <$> l.
Proof. by rewrite <-list_fmap_compose. Qed.

Lemma abs_Some B k v :
  NoDup (c_key <$> concat B) →
  abs B !! k = Some v ↔ ∃ c, c ∈ concat B ∧ c_key c = k ∧ c_val c = v.
Proof.
  intros Hnd. unfold abs. rewrite <-elem_of_list_to_map by (by rewrite abs_keys).
  rewrite list_elem_of_fmap. naive_solver.
Qed.

Lemma abs_None B k : abs B !! k = None ↔ k ∉ c_key <$> concat B.
Proof. unfold abs. rewrite <-not_elem_of_list_to_map. by rewrite abs_keys. Qed.

(** Adding or replacing one cell is an insertion into the map. *)
Lemma abs_cons B B' c (rest : bucket) :
  NoDup (c_key <$> concat B') → concat B' ≡ₚ c :: rest →
  abs B' = <[c_key c := c_val c]> (list_to_map ((λ c, (c_key c, c_val c)) <$> rest)).
Proof.
  intros Hnd HP. unfold abs.
  rewrite (list_to_map_proper _ ((c_key c, c_val c) :: ((λ c, (c_key c, c_val c)) <$> rest))).
  - done.
  - by rewrite abs_keys.
  - by rewrite HP.
Qed.

Lemma concat_update {A} (B : list (list A)) i b1 (c c' : A) b2 :
  B !! i = Some (b1 ++ c :: b2) →
  ∃ x y, concat B = x ++ c :: y ∧ concat (<[i := b1 ++ c' :: b2]> B) = x ++ c' :: y.
Proof.
  intros Hb. exists (concat (take i B) ++ b1), (b2 ++ concat (drop (S i) B)).
  rewrite (concat_middle _ _ _ Hb), (concat_insert _ _ _ _ Hb).
  by rewrite <-!app_assoc, <-!app_comm_cons.
Qed.

Lemma concat_push {A} (B : list (list A)) i b (c : A) :
  B !! i = Some b → concat (<[i := c :: b]> B) ≡ₚ c :: concat B.
Proof.
  intros Hb. rewrite (concat_insert _ _ _ _ Hb), (concat_middle _ _ _ Hb).
  rewrite <-app_comm_cons. symmetry. apply Permutation_middle.
Qed.

Lemma abs_update B i b1 c c' b2 :
  NoDup (c_key <$> concat B) → B !! i = Some (b1 ++ c :: b2) → c_key c' = c_key c →
  NoDup (c_key <$> concat (<[i := b1 ++ c' :: b2]> B)) ∧
  abs (<[i := b1 ++ c' :: b2]> B) = <[c_key c := c_val c']> (abs B).
Proof.
  intros Hnd Hb Hk. destruct (concat_update B i b1 c c' b2 Hb) as (x & y & Hold & Hnew).
  assert (NoDup (c_key <$> concat (<[i := b1 ++ c' :: b2]> B))) as Hnd'.
  { rewrite Hold in Hnd. rewrite Hnew. rewrite fmap_app, fmap_cons, Hk in *. done. }
  split; [done|].
  rewrite (abs_cons B _ c' (x ++ y)), (abs_cons B B c (x ++ y)); try done.
  - by rewrite Hk, insert_insert_eq.
  - rewrite Hold. symmetry. apply Permutation_middle.
  - rewrite Hnew. symmetry. apply Permutation_middle.
Qed.

Lemma abs_insert B i b c :
  NoDup (c_key <$> concat B) → B !! i = Some b → c_key c ∉ c_key <$> concat B →
  NoDup (c_key <$> concat (<[i := c :: b]> B)) ∧
  abs (<[i := c :: b]> B) = <[c_key c := c_val c]> (abs B).
Proof.
  intros Hnd Hb Hk. pose proof (concat_push B i b c Hb) as HP.
  assert (NoDup (c_key <$> concat (<[i := c :: b]> B))) as Hnd'.
  { rewrite HP, fmap_cons. by apply NoDup_cons. }
  split; [done|]. by rewrite (abs_cons B _ c (concat B)).
Qed.
End abs.

Section store.
Context `{Platform}.
Implicit Types (s : enclave) (B : list bucket) (k v : bytes).

(** A key of the store is in the bucket of its hash. *)
Lemma shape_lookup s B k v :
  shape s B → abs B !! k = Some v →
  ∃ b1 c b2, B !! bin_of s k = Some (b1 ++ c :: b2) ∧ c_key c = k ∧ c_val c = v ∧
    entry_ok k v (c_ent c).
Proof.
  intros HS (c & Hc & Hk & Hv)%abs_Some; [|apply (sh_keys _ _ HS)].
  apply elem_of_concat in Hc as (b & (i & Hi) & Hc).
  pose proof (sh_cells _ _ HS i b Hi) as Hcells. rewrite Forall_forall in Hcells.
  destruct (Hcells c Hc) as [He Hbin]. rewrite Hk, Hv in *.
  assert (bin_of s k = i) as Hbi by (unfold bin_of; rewrite Hbin; lia).
  apply list_elem_of_split in Hc as (b1 & b2 & ->).
  exists b1, c, b2. by rewrite Hbi.
Qed.

Lemma shape_missing s B k :
  shape s B → abs B !! k = None → ∃ b, B !! bin_of s k = Some b ∧ k ∉ c_key <$> b.
Proof.
  intros HS Hk%abs_None. destruct (bin_bucket s B k (sh_layout _ _ HS)) as (b & Hb).
  exists b. split; [done|]. intros (c & -> & Hc)%list_elem_of_fmap. apply Hk.
  by eapply list_elem_of_fmap_2, elem_of_bucket.
Qed.

(** Entries after one cell has changed. *)
Lemma cells_insert s s' B i b' :
  shape s B → ht_size (ht_enclave s') = ht_size (ht_enclave s) → Forall (cell_ok s i) b' →
  ∀ j b, <[i := b']> B !! j = Some b → Forall (cell_ok s' j) b.
Proof.
  intros HS Hsz Hb' j b Hj. unfold cell_ok in *. rewrite Hsz.
  destruct (decide (i = j)) as [<-|Hij].
  - destruct (decide (i < length B)%nat).
    + rewrite list_lookup_insert_eq in Hj by done. by injection Hj as <-.
    + rewrite list_insert_ge in Hj by lia. apply lookup_lt_Some in Hj. lia.
  - rewrite list_lookup_insert_ne in Hj by done. by apply (sh_cells _ _ HS).
Qed.

(** ** MACs below a root around the changed one *)
Lemma before_insert B start i b' : before (<[i := b']> B) start i = before B start i.
Proof.
  unfold before. destruct (decide (start ≤ i)%nat) as [Hi|Hi].
  - by rewrite drop_insert_ge, take_insert_ge by lia.
  - by replace (i - start)%nat with 0%nat by lia.
Qed.

Lemma range_macs_update opt B start n i b1 c c' b2 :
  B !! i = Some (b1 ++ c :: b2) → (start ≤ i < start + n)%nat →
  ∃ pre post,
    range_macs opt B start n = pre ++ c_mac c :: post ∧
    range_macs opt (<[i := b1 ++ c' :: b2]> B) start n = pre ++ c_mac c' :: post ∧
    blen pre = blen (concat (before (<[i := b1 ++ c' :: b2]> B) start i)) +
               updated_pos opt false (blen (b1 ++ c' :: b2)) (blen b1).
Proof.
  intros Hb Hi. rewrite before_insert.
  set (P := concat (bucket_macs opt <$> before B start i)).
  set (Q := concat (bucket_macs opt <$> after B start n i)).
  assert (blen P = blen (concat (before B start i))) as HP by apply concat_macs_len.
  assert (∀ d, range_macs opt (<[i := b1 ++ d :: b2]> B) start n = P ++ bucket_macs opt (b1 ++ d :: b2) ++ Q) as Hr.
  { intros d. unfold range_macs. rewrite (range_split_insert _ _ _ _ _ _ Hb Hi).
    by rewrite fmap_app, fmap_cons, concat_app. }
  pose proof (Hr c) as Hc. rewrite (list_insert_id _ _ _ Hb) in Hc.
  specialize (Hr c'). rewrite Hc, Hr. unfold updated_pos. destruct opt.
  - rewrite !bucket_macs_split.
    exists (P ++ reverse (c_mac <$> b2)), (reverse (c_mac <$> b1) ++ Q).
    rewrite <-!app_assoc, <-!app_comm_cons. split_and!; [done..|].
    rewrite !blen_app, blen_cons, HP. unfold blen. rewrite length_reverse, length_fmap. lia.
  - unfold bucket_macs. rewrite !fmap_app, !fmap_cons.
    exists (P ++ (c_mac <$> b1)), ((c_mac <$> b2) ++ Q).
    rewrite <-!app_assoc, <-!app_comm_cons. split_and!; [done..|].
    rewrite !blen_app, HP. unfold blen. rewrite length_fmap. lia.
Qed.

Lemma range_macs_push opt B start n i b c :
  B !! i = Some b → (start ≤ i < start + n)%nat →
  ∃ pre post,
    range_macs opt B start n = pre ++ post ∧
    range_macs opt (<[i := c :: b]> B) start n = pre ++ c_mac c :: post ∧
    blen pre = blen (concat (before (<[i := c :: b]> B) start i)) +
               updated_pos opt true (blen (c :: b)) (blen b).
Proof.
  intros Hb Hi. rewrite before_insert.
  set (P := concat (bucket_macs opt <$> before B start i)).
  set (Q := concat (bucket_macs opt <$> after B start n i)).
  assert (blen P = blen (concat (before B start i))) as HP by apply concat_macs_len.
  assert (∀ d, range_macs opt (<[i := d]> B) start n = P ++ bucket_macs opt d ++ Q) as Hr.
  { intros d. unfold range_macs. rewrite (range_split_insert _ _ _ _ _ _ Hb Hi).
    by rewrite fmap_app, fmap_cons, concat_app. }
  pose proof (Hr b) as Hc. rewrite (list_insert_id _ _ _ Hb) in Hc.
  specialize (Hr (c :: b)). rewrite Hc, Hr. unfold updated_pos, bucket_macs. destruct opt.
  - exists (P ++ reverse (c_mac <$> b)), Q. rewrite fmap_cons, reverse_cons, <-!app_assoc.
    split_and!; [done..|]. rewrite !blen_app, HP. unfold blen.
    rewrite length_reverse, length_fmap. lia.
  - exists P, ((c_mac <$> b) ++ Q). rewrite fmap_cons, <-app_comm_cons.
    split_and!; [done..|]. rewrite HP, blen_cons. lia.
Qed.

(** ** The invariant after a root has been rebuilt *)
Definition same_cfg s s' : Prop :=
  arg_enclave s' = arg_enclave s ∧ ratio_root_per_buckets s' = ratio_root_per_buckets s ∧
  ht_size (ht_enclave s') = ht_size (ht_enclave s) ∧ MACTable s' = MACTable s.

Lemma root_ranges_apart ratio q r i :
  0 < ratio → 0 ≤ q → 0 ≤ r → q ≠ r → q * ratio ≤ i < q * ratio + ratio →
  i < r * ratio ∨ r * ratio + ratio ≤ i.
Proof. intros. destruct (Z.lt_trichotomy q r) as [|[|]]; [left; nia|lia|right; nia]. Qed.

(** Only the root of the changed bucket needed to change. *)
Lemma inv_rebuilt s s' B i b' m' :
  inv s B → same_cfg s s' → shape s' (<[i := b']> B) → (i < length B)%nat →
  let q := Z.of_nat i / ratio_root_per_buckets s in
  sgx_rijndael128_cmac_msg gsk (concat (root_macs s' (<[i := b']> B) q)) = (SGX_SUCCESS, m') →
  blen m' = MAC_SIZE →
  inv (set_MACTable (<[Z.to_nat q := m']> (MACTable s')) s') (<[i := b']> B).
Proof.
  intros [HS HT HR] (Harg & Hratio & Hsz & Htab) HS' Hi q Hm' Hml.
  pose proof (ly_cfg _ _ (sh_layout _ _ HS)) as Hcfg.
  pose proof (ly_size _ _ (sh_layout _ _ HS)) as Hlen.
  destruct (root_facts s (Z.of_nat i) Hcfg) as (_ & _ & Hq & Hq1 & Hq2).
  { unfold blen in Hlen. lia. }
  fold q in Hq, Hq1, Hq2.
  assert (Z.to_nat q < length (MACTable s'))%nat as Hlt.
  { rewrite Htab. unfold blen in HT. lia. }
  assert (root_count s' = root_count s) as Hcount by (unfold root_count; congruence).
  split.
  - destruct HS' as [[[? ? ?] ? ? ? ? ? ?] ? ?]. repeat (split; simpl; try done).
  - simpl. rewrite blen_insert, Htab, HT. by symmetry.
  - change (root_count (set_MACTable _ s')) with (root_count s'). rewrite Hcount. intros r Hr. destruct (decide (r = q)) as [->|Hrq].
    + intros _. exists m'. simpl. rewrite list_lookup_insert_eq by done. done.
    + unfold root_ok, root_macs in *. simpl. specialize (HR r Hr).
      rewrite Hratio, Harg. unfold range_macs in *. rewrite range_outside.
      * intros Hne. destruct (HR Hne) as (m & Hm & Hrest). exists m.
        rewrite list_lookup_insert_ne by lia. by rewrite Htab.
      * pose proof (co_ratio _ Hcfg).
        destruct (root_ranges_apart (ratio_root_per_buckets s) q r (Z.of_nat i)); lia.
Qed.

(** A table of [n] empty buckets. *)
Lemma empty_concat (n : nat) : concat (replicate n ([] : bucket)) = [].
Proof. by induction n. Qed.

Lemma empty_shape s n :
  cfg_ok s → ht_enclave s = mkHashtable n (replicate (Z.to_nat n) None) →
  length (MACbuf_enclave s) = Z.to_nat n → Forall (λ m, me_size m = 0 ∧ blen (me_mac m) = MAC_SIZE * MAC_SLOTS) (MACbuf_enclave s) →
  shape s (replicate (Z.to_nat n) []).
Proof.
  intros Hcfg Hht Hlen Hm. pose proof (co_size _ Hcfg) as Hn. rewrite Hht in Hn. simpl in Hn.
  split; [|by rewrite empty_concat; constructor|by intros i b [-> _]%lookup_replicate].
  split; rewrite ?Hht, ?empty_concat; simpl; try done.
  - unfold blen. rewrite length_replicate. lia.
  - by apply Forall2_replicate.
  - constructor.
  - intros _. rewrite <-Hlen. clear Hlen. induction Hm as [|m ms [H1 H2] _ IH]; simpl; [constructor|].
    constructor; [|done]. split; [done|]. split; [done|]. by exists (me_mac m).
Qed.

Lemma empty_roots s n r : root_macs s (replicate n []) r = [].
Proof.
  unfold root_macs, range_macs.
  assert (∀ l : list bucket, Forall (λ b, b = []) l → concat (bucket_macs (mac_opt (arg_enclave s)) <$> l) = []) as Hnil.
  { induction 1 as [|b l -> _ IH]; [done|]. rewrite fmap_cons. simpl. rewrite IH. by destruct (mac_opt _). }
  apply Hnil, Forall_take, Forall_drop, Forall_replicate. done.
Qed.
End store.
