(* ===== verification/EnclaveProofs.v ===== *)
(** * The request handlers refine a finite map

    From a state with the invariant, [enclave_set] inserts into the abstract
    store, [enclave_get] looks up in it, and [enclave_append] extends a value;
    the reply is the one the client expects, no failure is reported and the
    invariant holds again. *)

From S2P Require Import Prelude CString Common Hash Core HashTable Enclave Rep CoreProofs.
From S2P Require Import RootProofs HashTableProofs StoreProofs.

(** ** Requests *)

(** The buffer holds a command of three letters and a separator, spaces, the key,
    a space and the value. *)
Definition set_request (cipher k v : bytes) : Prop :=
  ∃ pre sp rest, cipher = pre ++ sp ++ k ++ SPACE :: v ++ NUL :: rest ∧ blen pre = 4 ∧
    Forall (.= SPACE) sp ∧ k ≠ [] ∧ nonul k ∧ nospace k ∧ nonul v.

(** The same without a value: the key ends at a space or at the end. *)
Definition get_request (cipher k : bytes) : Prop :=
  ∃ pre sp d rest, cipher = pre ++ sp ++ k ++ d :: rest ∧ (d = NUL ∨ d = SPACE) ∧ blen pre = 4 ∧
    Forall (.= SPACE) sp ∧ k ≠ [] ∧ nonul k ∧ nospace k.

(** The buffer of the request after [strtok_r]: the byte after the key is a NUL. *)
Definition key_cut (cipher k buf : bytes) : Prop :=
  ∃ pre sp d rest, cipher = pre ++ sp ++ k ++ d :: rest ∧ (d = NUL ∨ d = SPACE) ∧ blen pre = 4 ∧
    Forall (.= SPACE) sp ∧ buf = pre ++ sp ++ k ++ NUL :: rest.

Section requests.
Implicit Types (s : enclave) (k v cipher : bytes).

Lemma set_get_request cipher k v : set_request cipher k v → get_request cipher k.
Proof. intros (pre & sp & rest & -> & ? & ? & ? & ? & ? & ?). eexists pre, sp, SPACE, _. eauto 10. Qed.

(** The token after the command is the key; the command itself is not overwritten. *)
Lemma strtok_key cipher k :
  get_request cipher k →
  ∃ t, strtok_r cipher 4 = Ok (Some t) ∧ tok t = k ∧ blen (tok_buf t) = blen cipher ∧
    take 4 (tok_buf t) = take 4 cipher.
Proof.
  intros (pre & sp & d & rest & -> & Hd & Hpre & Hsp & Hne & Hn & Hs).
  assert (∀ l, take 4 (pre ++ l) = pre) as Htake by (intros l; apply take_app_length'; unfold blen in Hpre; lia).
  destruct Hd as [->| ->]; eexists.
  - split; [apply (strtok_r_end pre sp k rest 4 (eq_sym Hpre) Hsp Hne Hn Hs)|]. simpl. by rewrite !Htake.
  - split; [apply (strtok_r_space pre sp k rest 4 (eq_sym Hpre) Hsp Hne Hn Hs)|]. simpl.
    rewrite !Htake, !blen_app, !blen_cons. done.
Qed.

Lemma parse_get s cipher k :
  get_request cipher k → blen cipher < 2 ^ 32 →
  ∃ t, parse_key cipher s = Ok ((t, dup_str k, blen k + 1), s) ∧ blen (tok_buf t) = blen cipher ∧
    take 4 (tok_buf t) = take 4 cipher.
Proof.
  intros Hreq Hlen. destruct (strtok_key cipher k Hreq) as (t & Ht & Hk & Hb & Htk). exists t. split; [|done].
  unfold parse_key. rewrite (bind_lift _ _ _ _ Ht), Hk.
  destruct Hreq as (pre & sp & d & rest & -> & _). rewrite !blen_app, blen_cons in Hlen.
  pose proof (blen_nonneg pre). pose proof (blen_nonneg sp). pose proof (blen_nonneg rest). pose proof (blen_nonneg k).
  by rewrite u32_small by lia.
Qed.

Lemma parse_key_cut s cipher k x s' :
  get_request cipher k → parse_key cipher s = Ok (x, s') → key_cut cipher k (tok_buf x.1.1).
Proof.
  intros (pre & sp & d & rest & -> & Hd & Hpre & Hsp & Hne & Hn & Hs) Hrun.
  exists pre, sp, d, rest. do 4 (split; [done|]). unfold parse_key in Hrun.
  destruct Hd as [->| ->]; (erewrite bind_lift in Hrun;
    [|first [apply (strtok_r_end pre sp k rest 4 (eq_sym Hpre) Hsp Hne Hn Hs)
            |apply (strtok_r_space pre sp k rest 4 (eq_sym Hpre) Hsp Hne Hn Hs)]]);
    injection Hrun as <- _; done.
Qed.

Lemma parse_set s cipher k v :
  set_request cipher k v → blen cipher < 2 ^ 32 →
  blen k + blen v + 6 ≤ blen cipher ∧
  ∃ t, parse_key cipher s = Ok ((t, dup_str k, blen k + 1), s) ∧ blen (tok_buf t) = blen cipher ∧
    parse_val t s = Ok ((dup_str v, blen v + 1), s).
Proof.
  intros (pre & sp & rest & -> & Hpre & Hsp & Hne & Hn & Hs & Hv) Hlen.
  pose proof (blen_nonneg k). pose proof (blen_nonneg v).
  pose proof (blen_nonneg sp). pose proof (blen_nonneg rest).
  assert (blen (pre ++ sp ++ k ++ SPACE :: v ++ NUL :: rest) =
          4 + blen sp + blen k + 1 + blen v + 1 + blen rest) as Hsum.
  { rewrite !blen_app, !blen_cons, blen_app, blen_cons. lia. }
  rewrite Hsum in *. split; [lia|]. eexists. split.
  - unfold parse_key.
    rewrite (bind_lift _ _ _ _ (strtok_r_space pre sp k _ 4 (eq_sym Hpre) Hsp Hne Hn Hs)).
    simpl. by rewrite u32_small by lia.
  - split.
    + simpl. rewrite !blen_app, !blen_cons, blen_app, blen_cons. lia.
    + unfold parse_val. cbn [tok_rest tok_buf].
      rewrite (bind_lift _ _ _ v); [by rewrite u32_small by lia|].
      replace (pre ++ sp ++ k ++ NUL :: v ++ NUL :: rest)
        with ((pre ++ sp ++ k ++ [NUL]) ++ v ++ NUL :: rest).
      2:{ by rewrite <-!app_assoc. }
      apply cstr_at_app; [|done]. rewrite !blen_app, blen_cons, blen_nil. lia.
Qed.

(** The reply: the bytes asked for, and zeros up to the end of the buffer. *)
Lemma respond_ok s buf pre x post off n :
  blen buf = max_buf_size (arg_enclave s) → off = blen pre → n = blen x → n ≤ blen buf →
  respond buf (pre ++ x ++ post) off n s =
  Ok (x ++ zeros (max_buf_size (arg_enclave s) - blen x), s).
Proof.
  intros Hbuf -> -> Hle. pose proof (blen_nonneg x). pose proof (blen_nonneg buf).
  unfold respond. msimpl. rewrite <-Hbuf.
  rewrite (bind_lift _ _ _ (zeros (blen buf))) by (by apply zalloc_ok).
  rewrite (bind_lift _ _ _ (zeros (blen buf))) by (apply write_at_all; by rewrite blen_zeros).
  unfold lift. replace (zeros (blen buf)) with ([] ++ zeros (blen x) ++ zeros (blen buf - blen x)).
  2:{ rewrite app_nil_l, <-zeros_app by lia. f_equal. lia. }
  rewrite memcpy_app; [done|done|by apply blen_zeros|done|done].
Qed.
(** An answer that does not fit the buffer. *)
Lemma respond_oob s buf pre x post off n :
  blen buf = max_buf_size (arg_enclave s) → off = blen pre → n = blen x → blen buf < n →
  respond buf (pre ++ x ++ post) off n s = Fault Out_of_bounds.
Proof.
  intros Hb -> -> Hn. pose proof (blen_nonneg buf). unfold respond. msimpl.
  rewrite (bind_lift _ _ _ (zeros (max_buf_size (arg_enclave s)))) by (apply zalloc_ok; lia).
  rewrite (bind_lift _ _ _ (zeros (max_buf_size (arg_enclave s)))).
  2:{ apply write_at_all. rewrite blen_zeros; lia. }
  unfold lift, memcpy, mbind, res_bind. rewrite read_at_app by done.
  unfold write_at. rewrite blen_zeros by lia.
  destruct (Z.leb_spec (0 + blen x) (max_buf_size (arg_enclave s))); [lia|]. done.
Qed.
End requests.

Section handlers.
Context `{Platform} `{!PlatformOk} (Hside : outside_ok).
Implicit Types (s : enclave) (B : list bucket) (k v cipher : bytes).

Lemma verify_entry_ok s k v e : entry_ok k v e → verify_entry e s = Ok (tt, s).
Proof.
  intros He. destruct (eo_cipher _ _ _ He) as (cipher & _ & _ & Hc & _).
  unfold verify_entry. rewrite Hc. msimpl.
  by rewrite (bind_ok _ _ _ _ _ (enclave_verification_ok s k v e cipher He Hc)).
Qed.

Lemma check_tree_ok s : check_tree SGX_SUCCESS s = Ok (tt, s).
Proof. done. Qed.

(** Where a changed bucket is below its root. *)
Lemma bin_root s B k :
  layout s B →
  let h := bucket_of (ht_size (ht_enclave s)) k in
  let q := h / ratio_root_per_buckets s in
  0 ≤ h < ht_size (ht_enclave s) ∧ Z.of_nat (bin_of s k) = h ∧
  (Z.to_nat (q * ratio_root_per_buckets s) ≤ bin_of s k <
     Z.to_nat (q * ratio_root_per_buckets s) + Z.to_nat (ratio_root_per_buckets s))%nat ∧
  0 ≤ q < root_count s.
Proof.
  intros HL h q. destruct (bin_range s B k HL) as [Hr Hbin]. fold h in Hr, Hbin.
  destruct (root_range_nat s B h HL Hr) as (_ & _ & Hi). fold q in Hi.
  destruct (root_facts s h (ly_cfg _ _ HL) Hr) as (_ & _ & Hq & _). fold q in Hq.
  split_and!; try done; unfold bin_of; fold h; lia.
Qed.

(** A cell whose entry is rewritten in place with a new value: the memory, the
    root and the store after the change. *)
Lemma update_cell s B k v b1 c b2 mb kv nac_ mac_ msg ctr' :
  inv s B → nonul v → blen k + blen v + 27 ≤ INT_MAX →
  B !! bin_of s k = Some (b1 ++ c :: b2) → c_key c = k →
  blen kv = blen k + 1 + (blen v + 1) → blen nac_ = NAC_SIZE → blen mac_ = MAC_SIZE →
  sgx_aes_ctr_decrypt gsk kv nac_ NAC_SIZE = (SGX_SUCCESS, dup_str k ++ dup_str v, ctr') →
  blen ctr' = NAC_SIZE →
  mac_message kv (hint_of k) (blen k + 1) (blen v + 1) nac_ = Ok msg →
  sgx_rijndael128_cmac_msg gsk msg = (SGX_SUCCESS, mac_) →
  let e' := updated (c_ent c) (blen v + 1) kv nac_ mac_ in
  let c' := Cell (c_loc c) e' k v in
  let B' := <[bin_of s k := b1 ++ c' :: b2]> B in
  let s1 := with_mem (<[c_loc c := e']> (heap s)) mb s in
  (mac_opt (arg_enclave s) = true →
     ∃ m', mb = <[bin_of s k := m']> (MACbuf_enclave s) ∧ macbuf_ok m' (b1 ++ c' :: b2)) →
  abs B' = <[k := v]> (abs B) ∧
  ∃ s2, enclave_rebuild_tree_root (bucket_of (ht_size (ht_enclave s)) k) (blen b1) false
          (mac (c_ent c)) s1 = Ok (SGX_SUCCESS, s2) ∧
    inv s2 B' ∧ arg_enclave s2 = arg_enclave s ∧ out s2 = out s.
Proof.
  intros Hinv Hv Hbound Hb Hkey Hkvl Hn Hm Hdec Hctr Hmsg Hcm e' c' B' s1 Hmb.
  pose proof (inv_shape _ _ Hinv) as HS. pose proof (sh_layout _ _ HS) as HL.
  destruct (bin_root s B k HL) as (Hh & Hbin & Hi & Hq).
  set (h := bucket_of (ht_size (ht_enclave s)) k) in *.
  set (q := h / ratio_root_per_buckets s) in *.
  pose proof (sh_cells _ _ HS _ _ Hb) as Hcells.
  apply Forall_app in Hcells as (Hc1 & ((He & Hbk) & Hc2)%Forall_cons). rewrite Hkey in He, Hbk.
  assert (entry_ok k v e') as He'.
  { split; try done; simpl.
    - apply (eo_key _ _ _ He).
    - apply (eo_ksize _ _ _ He).
    - apply (eo_hint _ _ _ He).
    - exists kv, msg, ctr'. rewrite (eo_hint _ _ _ He), (eo_ksize _ _ _ He). split_and!; done. }
  assert (layout s1 B') as HL1 by (by apply (layout_update s B _ b1 c c' b2)).
  destruct (abs_update B (bin_of s k) b1 c c' b2 (sh_keys _ _ HS) Hb (eq_sym Hkey)) as [Hkeys Habs].
  rewrite Hkey in Habs. split; [done|].
  assert (shape s1 B') as HS1.
  { split; [done|done|]. apply (cells_insert s); [done|done|].
    apply Forall_app. split; [done|]. by constructor. }
  destruct (range_macs_update (mac_opt (arg_enclave s)) B (Z.to_nat (q * ratio_root_per_buckets s))
    (Z.to_nat (ratio_root_per_buckets s)) (bin_of s k) b1 c c' b2 Hb Hi) as (pre & post & Hold & Hnew & Hpos).
  assert (root_was s q (pre ++ c_mac c :: post)) as Hwas.
  { destruct (inv_roots _ _ Hinv q Hq) as (m0 & ? & ? & Hroot); unfold root_macs in *; rewrite Hold in *.
    - by destruct pre.
    - by exists m0. }
  pose proof (lookup_lt_Some _ _ _ Hb) as Hlt.
  destruct (rebuild_tree_root_ok s1 B' h (b1 ++ c' :: b2) (blen b1) false (mac (c_ent c)) pre (c_mac c') post)
    as (m' & Hm' & Hml & Hrun); try done.
  - unfold B', bin_of. fold h. apply list_lookup_insert_eq. done.
  - intros _. apply (eo_maclen _ _ _ He).
  - change (q < blen (MACTable s)). rewrite (inv_table _ _ Hinv). lia.
  - exists (set_MACTable (<[Z.to_nat q := m']> (MACTable s1)) s1). split; [done|]. split; [|done].
    pose proof (inv_rebuilt s s1 B (bin_of s k) (b1 ++ c' :: b2) m' Hinv) as Hir. rewrite Hbin in Hir.
    by apply Hir.
Qed.

(** The invariant does not mention the random numbers drawn or the output. *)
Lemma inv_set_rand s B n : inv s B → inv (set_rand n s) B.
Proof. intros [[[[] ? ? ? ? ? ?] ? ?] ? ?]. repeat (split; simpl; try done). Qed.

Lemma inv_add_out s B m : inv s B → inv (add_out m s) B.
Proof. intros [[[[] ? ? ? ? ? ?] ? ?] ? ?]. repeat (split; simpl; try done). Qed.

(** A new cell at the head of its chain. *)
Section push.
Context (s : enclave) (B : list bucket) (k v : bytes) (b : bucket) (l : loc) (head : ptr) (mb : list MACentry).
Context (kv nac_ mac_ msg ctr' : bytes).
Let h := bucket_of (ht_size (ht_enclave s)) k.
Let q := h / ratio_root_per_buckets s.
Let e' := mkEntry (blen k + 1) (blen v + 1) (hint_of k) (Some kv) nac_ mac_ head.
Let c' := Cell l e' k v.
Let B' := <[bin_of s k := c' :: b]> B.
Let s1 := set_table (<[bin_of s k := Some l]> (ht_table (ht_enclave s))) (with_mem (<[l := e']> (heap s)) mb s).

(** The new entry holds [k] and [v], and its memory is free. *)
Record pushed : Prop := {
  pu_key : nonul k;
  pu_val : nonul v;
  pu_bound : blen k + blen v + 27 ≤ INT_MAX;
  pu_bucket : B !! bin_of s k = Some b;
  pu_new : abs B !! k = None;
  pu_room : MAC_SIZE * (blen (concat B) + 1) ≤ INT_MAX;
  pu_free : heap s !! l = None;
  pu_chain : chain (heap s) head b;
  pu_kv : blen kv = blen k + 1 + (blen v + 1);
  pu_nac : blen nac_ = NAC_SIZE;
  pu_mac : blen mac_ = MAC_SIZE;
  pu_decrypt : sgx_aes_ctr_decrypt gsk kv nac_ NAC_SIZE = (SGX_SUCCESS, dup_str k ++ dup_str v, ctr');
  pu_ctr : blen ctr' = NAC_SIZE;
  pu_msg : mac_message kv (hint_of k) (blen k + 1) (blen v + 1) nac_ = Ok msg;
  pu_cmac : sgx_rijndael128_cmac_msg gsk msg = (SGX_SUCCESS, mac_);
  pu_macbuf : mac_opt (arg_enclave s) = true → ∃ m', mb = <[bin_of s k := m']> (MACbuf_enclave s) ∧ macbuf_ok m' (c' :: b);
}.

Lemma pushed_shape :
  shape s B → pushed →
  abs B' = <[k := v]> (abs B) ∧ shape s1 B' ∧ B' !! Z.to_nat h = Some (c' :: b) ∧
  ∃ pre post, root_macs s B q = pre ++ post ∧ root_macs s1 B' q = pre ++ c_mac c' :: post ∧
    blen pre = blen (concat (before B' (Z.to_nat (q * ratio_root_per_buckets s)) (Z.to_nat h))) +
               updated_pos (mac_opt (arg_enclave s)) true (blen (c' :: b)) (blen b).
Proof.
  intros HS []. pose proof (sh_layout _ _ HS) as HL. destruct (bin_root s B k HL) as (Hh & Hbin & Hi & Hq).
  assert (entry_ok k v e') as He' by (split; try done; exists kv, msg, ctr'; split_and!; done).
  assert (layout s1 B') as HL1 by (by apply (layout_insert s B _ b c')).
  destruct (abs_insert B (bin_of s k) b c' (sh_keys _ _ HS)) as [Hkeys Habs]; [done|by apply abs_None|].
  split; [done|]. split; [|split].
  - split; [done|done|]. apply (cells_insert s); [done|done|]. constructor; [done|]. by apply (sh_cells _ _ HS).
  - apply list_lookup_insert_eq. by eapply lookup_lt_Some.
  - by apply (range_macs_push (mac_opt (arg_enclave s)) B (Z.to_nat (q * ratio_root_per_buckets s))
      (Z.to_nat (ratio_root_per_buckets s)) (bin_of s k) b c').
Qed.

(** With assertions only in an empty chain. *)
Lemma insert_cell prev :
  NDEBUG = true ∨ b = [] → inv s B → pushed →
  abs B' = <[k := v]> (abs B) ∧
  ∃ s2, enclave_rebuild_tree_root h (blen b) true prev s1 = Ok (SGX_SUCCESS, s2) ∧
    inv s2 B' ∧ arg_enclave s2 = arg_enclave s ∧ out s2 = out s.
Proof.
  intros Hpass Hinv Hpush. pose proof (inv_shape _ _ Hinv) as HS. pose proof (sh_layout _ _ HS) as HL.
  destruct (bin_root s B k HL) as (Hh & Hbin & _ & Hq). fold h in Hh, Hbin, Hq. fold q in Hq.
  destruct (pushed_shape HS Hpush) as (Habs & HS1 & Hb' & pre & post & Hold & Hnew & Hpos). split; [done|].
  destruct (rebuild_tree_root_ok s1 B' h (c' :: b) (blen b) true prev pre (c_mac c') post)
    as (m' & Hm' & Hml & Hrun); try done.
  - intros _. destruct Hpass as [?| ->]; [by left|by right].
  - apply HS1.
  - change (q < blen (MACTable s)). rewrite (inv_table _ _ Hinv). lia.
  - intros Hne. destruct (inv_roots _ _ Hinv q Hq) as (m0 & ? & ? & Hroot);
      rewrite Hold in *; [by apply Hne|]. by exists m0.
  - exists (set_MACTable (<[Z.to_nat q := m']> (MACTable s1)) s1). split; [done|]. split; [|done].
    pose proof (inv_rebuilt s s1 B (bin_of s k) (c' :: b) m' Hinv) as Hir. rewrite Hbin in Hir.
    apply Hir; try done. eapply lookup_lt_Some, (pu_bucket Hpush).
Qed.
End push.

(** ** The handlers *)

(** There is room for the entry of [k]: it has one already, or its MAC bucket and
    the aggregate of its root can take another MAC. *)
Definition room s B k : Prop :=
  abs B !! k = None →
  MAC_SIZE * (blen (concat B) + 1) ≤ INT_MAX ∧
  (mac_opt (arg_enclave s) = true → ∀ b, B !! bin_of s k = Some b → blen b < MAC_SLOTS).

(** The buffer of a request has the configured size, and that is not huge. *)
Definition buffer_ok s cipher : Prop :=
  blen cipher = max_buf_size (arg_enclave s) ∧ blen cipher + 27 ≤ INT_MAX.

Definition reply s (x : bytes) : bytes := x ++ zeros (max_buf_size (arg_enclave s) - blen x).

Lemma enclave_set_update s B cipher k v v0 :
  inv s B → mem_avail s → set_request cipher k v → buffer_ok s cipher → abs B !! k = Some v0 →
  ∃ s' B', enclave_set cipher s = Ok (reply s (dup_str k), s') ∧ inv s' B' ∧
    abs B' = <[k := v]> (abs B) ∧ arg_enclave s' = arg_enclave s ∧ out s' = out s.
Proof.
  intros Hinv Hmem Hreq [Hmax Hbuf] Hk0. unfold INT_MAX in *.
  destruct (parse_set s cipher k v Hreq ltac:(lia)) as (Hlen & t & Hpk & Htl & Hpv).
  destruct Hreq as (_ & _ & _ & _ & _ & _ & _ & Hk & _ & Hv).
  pose proof (inv_shape _ _ Hinv) as HS. pose proof (ly_cfg _ _ (sh_layout _ _ HS)) as Hcfg.
  destruct (shape_lookup s B k v0 HS Hk0) as (b1 & c & b2 & Hb & Hkey & Hval & He).
  pose proof (blen_nonneg k). pose proof (blen_nonneg v).
  destruct (ht_get_o_found Hside s B k b1 c b2 HS Hk ltac:(lia) Hb Hkey) as (ctr & Hctr & Hget).
  destruct (enclave_encrypt_ok s k v (hint_of k) ctr ltac:(unfold INT_MAX; lia) Hctr)
    as (kv & msg & mac_ & ctr' & Henc & Hkvl & Hml & Hdec & Hcl & Hmsg & Hcm).
  destruct (ht_set_o_update s B k b1 c b2 kv ctr mac_ (blen v + 1) v Hmem HS Hk Hb Hkey)
    as (mb & Hmb & Hset); [lia..|done|done|].
  destruct (update_cell s B k v b1 c b2 mb kv ctr mac_ msg ctr') as (Habs & s2 & Hreb & Hinv' & Harg & Hout);
    try done; [unfold INT_MAX; lia|].
  exists s2. eexists. split_and!; [|done..]. unfold enclave_set.
  rewrite (bind_ok _ _ _ _ _ Hpk). cbv beta iota. rewrite (bind_ok _ _ _ _ _ Hpv). cbv beta iota.
  rewrite (bind_ok _ _ _ _ _ Hget). cbv beta iota.
  rewrite (bind_ok _ _ _ _ _ (ht_hash_dup s k Hk (co_size _ Hcfg))).
  rewrite (bind_lift _ _ _ _ (key_hash_dup k Hk)).
  rewrite (bind_ok _ _ _ (ctr, mac (c_ent c), false) s).
  2:{ cbn [f_entry f_nac]. destruct (table_get_ok s B (sh_layout _ _ HS) _ _ Hb) as (p & _ & Hchain).
      rewrite (bind_ok _ _ _ (c_ent c) s) by (apply load_ok; eapply chain_lookup; [done|set_solver]).
      rewrite (bind_ok _ _ _ _ _ (verify_entry_ok s k v0 _ He)).
      rewrite (bind_lift _ _ _ (mac (c_ent c))); [done|]. apply read_at_all. by rewrite (eo_maclen _ _ _ He). }
  cbv beta iota. rewrite (bind_ok _ _ _ _ _ Henc). cbv beta iota.
  cbn [fmap option_fmap option_map f_entry]. rewrite (bind_ok _ _ _ _ _ Hset), (bind_ok _ _ _ _ _ Hreb).
  rewrite (bind_ok _ _ _ _ _ (check_tree_ok s2)).
  unfold reply. rewrite <-Harg. rewrite <-(app_nil_l (dup_str k)), <-(app_nil_r (dup_str k)) at 1.
  apply respond_ok; rewrite ?Harg; try done; rewrite ?dup_str_len; lia.
Qed.

Lemma enclave_set_missing s B cipher k v :
  shape s B → set_request cipher k v → buffer_ok s cipher → abs B !! k = None →
  let sr := set_rand (S (rand_calls s)) s in
  let nac_ := sgx_read_rand (rand_calls s) NAC_SIZE in
  ∃ t b kv msg mac_ ctr', B !! bin_of s k = Some b ∧ blen (tok_buf t) = blen cipher ∧
    blen kv = blen k + 1 + (blen v + 1) ∧ blen mac_ = MAC_SIZE ∧
    sgx_aes_ctr_decrypt gsk kv nac_ NAC_SIZE = (SGX_SUCCESS, dup_str k ++ dup_str v, ctr') ∧ blen ctr' = NAC_SIZE ∧
    mac_message kv (hint_of k) (blen k + 1) (blen v + 1) nac_ = Ok msg ∧
    sgx_rijndael128_cmac_msg gsk msg = (SGX_SUCCESS, mac_) ∧
    enclave_set cipher s =
    (ht_set_o None (dup_str k) kv nac_ mac_ (blen k + 1) (blen v + 1) (blen b);;
     ret ← enclave_rebuild_tree_root (bucket_of (ht_size (ht_enclave s)) k) (blen b) true (zeros MAC_SIZE);
     check_tree ret;; respond (tok_buf t) (dup_str k) 0 (blen k + 1)) sr.
Proof.
  intros HS Hreq [Hmax Hbuf] Hk0 sr nac_. unfold INT_MAX in *.
  destruct (parse_set s cipher k v Hreq ltac:(lia)) as (Hlen & t & Hpk & Htl & Hpv).
  destruct Hreq as (_ & _ & _ & _ & _ & _ & _ & Hk & _ & Hv).
  pose proof (ly_cfg _ _ (sh_layout _ _ HS)) as Hcfg.
  destruct (shape_missing s B k HS Hk0) as (b & Hb & Hnin).
  pose proof (blen_nonneg k). pose proof (blen_nonneg v).
  assert (blen nac_ = NAC_SIZE) as Hnac by (by apply rand_ok).
  destruct (enclave_encrypt_ok sr k v (hint_of k) nac_ ltac:(unfold INT_MAX; lia) Hnac)
    as (kv & msg & mac_ & ctr' & Henc & Hkvl & Hml & Hdec & Hcl & Hmsg & Hcm).
  exists t, b, kv, msg, mac_, ctr'. split_and!; try done. unfold enclave_set.
  rewrite (bind_ok _ _ _ _ _ Hpk). cbv beta iota. rewrite (bind_ok _ _ _ _ _ Hpv). cbv beta iota.
  rewrite (bind_ok _ _ _ _ _ (ht_get_o_none s B k b HS Hk ltac:(lia) Hb Hnin)). cbv beta iota.
  rewrite (bind_ok _ _ _ _ _ (ht_hash_dup s k Hk (co_size _ Hcfg))).
  rewrite (bind_lift _ _ _ _ (key_hash_dup k Hk)).
  rewrite (bind_ok _ _ _ (nac_, zeros MAC_SIZE, true) sr) by done.
  cbv beta iota. rewrite (bind_ok _ _ _ _ _ Henc). done.
Qed.

(** The new entry is in its bucket; the root is next. *)
Lemma enclave_set_linked s B cipher k v :
  shape s B → mem_avail s → set_request cipher k v → buffer_ok s cipher → room s B k → abs B !! k = None →
  let sr := set_rand (S (rand_calls s)) s in
  let nac_ := sgx_read_rand (rand_calls s) NAC_SIZE in
  shape sr B ∧
  ∃ t b l head mb kv mac_ msg ctr', pushed sr B k v b l head mb kv nac_ mac_ msg ctr' ∧ blen (tok_buf t) = blen cipher ∧
    enclave_set cipher s =
    (ret ← enclave_rebuild_tree_root (bucket_of (ht_size (ht_enclave s)) k) (blen b) true (zeros MAC_SIZE);
     check_tree ret;; respond (tok_buf t) (dup_str k) 0 (blen k + 1))
    (set_table (<[bin_of sr k := Some l]> (ht_table (ht_enclave sr)))
       (with_mem (<[l := mkEntry (blen k + 1) (blen v + 1) (hint_of k) (Some kv) nac_ mac_ head]> (heap sr)) mb sr)).
Proof.
  intros HS Hmem Hreq Hbuf Hroom Hk0 sr nac_. destruct (Hroom Hk0) as [Hcount Hslots].
  destruct (enclave_set_missing s B cipher k v HS Hreq Hbuf Hk0) as (t & b & kv & msg & mac_ & ctr' &
    Hb & Htl & Hkvl & Hml & Hdec & Hcl & Hmsg & Hcm & ->).
  destruct Hbuf as [Hmax Hbuf]. unfold INT_MAX in *.
  destruct (parse_set s cipher k v Hreq ltac:(lia)) as (Hlen & _).
  destruct Hreq as (_ & _ & _ & _ & _ & _ & _ & Hk & _ & Hv).
  assert (shape sr B) as HSr by (destruct HS as [[[] ? ? ? ? ? ?] ? ?]; repeat (split; simpl; try done)).
  pose proof (blen_nonneg k). pose proof (blen_nonneg v).
  assert (blen nac_ = NAC_SIZE) as Hnac by (by apply rand_ok). split; [done|].
  destruct (ht_set_o_insert sr B k b kv nac_ mac_ (blen v + 1) v Hmem HSr Hk Hb)
    as (l & head & mb & Hl & Hhead & Hmb & Hset); [lia..|done|done|by intros; apply Hslots|].
  exists t, b, l, head, mb, kv, mac_, msg, ctr'. split; [split; try done; unfold INT_MAX; lia|]. split; [done|].
  by rewrite (bind_ok _ _ _ _ _ Hset).
Qed.

Lemma enclave_set_insert s B cipher k v :
  NDEBUG = true ∨ B !! bin_of s k = Some [] →
  inv s B → mem_avail s → set_request cipher k v → buffer_ok s cipher → room s B k →
  abs B !! k = None →
  ∃ s' B', enclave_set cipher s = Ok (reply s (dup_str k), s') ∧ inv s' B' ∧
    abs B' = <[k := v]> (abs B) ∧ arg_enclave s' = arg_enclave s ∧ out s' = out s.
Proof.
  intros Hpass Hinv Hmem Hreq Hbuf Hroom Hk0.
  destruct (enclave_set_linked s B cipher k v (inv_shape _ _ Hinv) Hmem Hreq Hbuf Hroom Hk0)
    as (HSr & t & b & l & head & mb & kv & mac_ & msg & ctr' & Hpush & Htl & ->).
  set (sr := set_rand (S (rand_calls s)) s) in *. pose proof (inv_set_rand s B (S (rand_calls s)) Hinv) as Hinvr.
  pose proof (pu_bucket _ _ _ _ _ _ _ _ _ _ _ _ _ Hpush) as Hb.
  destruct (insert_cell sr B k v b l head mb kv (sgx_read_rand (rand_calls s) NAC_SIZE) mac_ msg ctr' (zeros MAC_SIZE))
    as (Habs & s2 & Hreb & Hinv' & Harg & Hout); try done; [destruct Hpass as [?|Hnil]; [by left|right; unfold bin_of in *; simpl in *; congruence]|].
  exists s2. eexists. split_and!; [|done..].
  destruct Hbuf as [Hmax Hbuf]. destruct (parse_set s cipher k v Hreq ltac:(unfold INT_MAX in *; lia)) as (Hlen & _).
  pose proof (blen_nonneg v). rewrite (bind_ok _ _ _ _ _ Hreb), (bind_ok _ _ _ _ _ (check_tree_ok s2)).
  unfold reply. change (arg_enclave sr) with (arg_enclave s) in Harg. rewrite <-Harg.
  rewrite <-(app_nil_l (dup_str k)), <-(app_nil_r (dup_str k)) at 1.
  apply respond_ok; rewrite ?Harg; try done; rewrite ?dup_str_len; lia.
Qed.

(** A GET of a present key up to the copy of the value into the buffer. *)
Lemma enclave_get_respond s B cipher k v :
  inv s B → get_request cipher k → buffer_ok s cipher → abs B !! k = Some v →
  ∃ buf, blen buf = blen cipher ∧
    enclave_get cipher s = respond buf (dup_str k ++ dup_str v) (blen k + 1) (blen v + 1) s.
Proof.
  intros Hinv Hreq [Hmax Hbuf] Hk0. unfold INT_MAX in *.
  destruct (parse_get s cipher k Hreq ltac:(lia)) as (t & Hpk & Htl & _). exists (tok_buf t). split; [done|].
  destruct Hreq as (_ & _ & _ & _ & _ & _ & _ & _ & _ & Hk & _).
  pose proof (inv_shape _ _ Hinv) as HS. pose proof (sh_layout _ _ HS) as HL.
  destruct (shape_lookup s B k v HS Hk0) as (b1 & c & b2 & Hb & Hkey & Hval & He).
  destruct (bin_root s B k HL) as (Hh & Hbin & Hi & Hq).
  pose proof (eo_bound _ _ _ He). pose proof (blen_nonneg k). pose proof (blen_nonneg v).
  destruct (ht_get_o_found Hside s B k b1 c b2 HS Hk ltac:(unfold INT_MAX in *; lia) Hb Hkey) as (ctr & _ & Hget).
  destruct (range_macs_update (mac_opt (arg_enclave s)) B _ _ (bin_of s k) b1 c c b2 Hb Hi)
    as (pre & post & Hms & _).
  assert (root_macs s B (bucket_of (ht_size (ht_enclave s)) k / ratio_root_per_buckets s) ≠ []) as Hne.
  { unfold root_macs. rewrite Hms. by destruct pre. }
  destruct (inv_roots _ _ Hinv _ Hq Hne) as (m & Hm & Hml & Hcm).
  pose proof (verify_tree_root_spec s B _ m HL Hh Hne Hm Hml) as Hver.
  rewrite bool_decide_true in Hver by done.
  destruct (table_get_ok s B HL _ _ Hb) as (p & _ & Hchain).
  unfold enclave_get. rewrite (bind_ok _ _ _ _ _ Hpk). cbv beta iota.
  rewrite (bind_ok _ _ _ _ _ Hget). cbv beta iota. cbn [f_entry f_plain].
  rewrite (bind_ok _ _ _ _ _ (ht_hash_dup s k Hk (co_size _ (ly_cfg _ _ HL)))).
  rewrite (bind_ok _ _ _ (c_ent c) s) by (apply load_ok; eapply chain_lookup; [done|set_solver]).
  rewrite (bind_ok _ _ _ _ _ (verify_entry_ok s k v _ He)), (bind_ok _ _ _ _ _ Hver).
  rewrite (bind_ok _ _ _ _ _ (check_tree_ok s)).
  by rewrite (eo_ksize _ _ _ He), (eo_vsize _ _ _ He), Hval.
Qed.

Lemma enclave_get_hit s B cipher k v :
  inv s B → get_request cipher k → buffer_ok s cipher → abs B !! k = Some v →
  blen v + 1 ≤ max_buf_size (arg_enclave s) →
  enclave_get cipher s = Ok (reply s (dup_str v), s).
Proof.
  intros Hinv Hreq Hbuf Hk0 Hfit. pose proof Hbuf as [Hmax _].
  destruct (enclave_get_respond s B cipher k v Hinv Hreq Hbuf Hk0) as (buf & Hlen & ->). unfold reply.
  rewrite <-(app_nil_r (dup_str v)) at 1. apply respond_ok; rewrite ?dup_str_len; lia.
Qed.

Lemma enclave_get_miss s B cipher k :
  inv s B → get_request cipher k → buffer_ok s cipher → abs B !! k = None →
  ∃ buf, blen buf = blen cipher ∧ key_cut cipher k buf ∧
  enclave_get cipher s = Ok (buf, add_out "GET FAILED: No data in database" s).
Proof.
  intros Hinv Hreq [Hmax Hbuf] Hk0. unfold INT_MAX in *.
  destruct (parse_get s cipher k Hreq ltac:(lia)) as (t & Hpk & Htl & _).
  pose proof (parse_key_cut _ _ _ _ _ Hreq Hpk) as Hcut.
  destruct Hreq as (pre & sp & d & rest & Hci & _ & _ & _ & _ & Hk & _).
  pose proof (inv_shape _ _ Hinv) as HS.
  destruct (shape_missing s B k HS Hk0) as (b & Hb & Hnin).
  assert (blen k + 1 < 2 ^ 32).
  { rewrite Hci, !blen_app, blen_cons in Hbuf. pose proof (blen_nonneg pre).
    pose proof (blen_nonneg sp). pose proof (blen_nonneg rest). lia. }
  exists (tok_buf t). split; [done|]. split; [done|].
  unfold enclave_get. rewrite (bind_ok _ _ _ _ _ Hpk). cbv beta iota.
  by rewrite (bind_ok _ _ _ _ _ (ht_get_o_none s B k b HS Hk ltac:(lia) Hb Hnin)).
Qed.
End handlers.
