(* ===== verification/AppendProofs.v ===== *)
(** * Append

    [enclave_append] extends the value of a key that is in the store.  The MAC
    bucket is followed correctly only where the slot [kv_pos] that [ht_append_o]
    writes is the slot of the entry. *)

From S2P Require Import Prelude CString Common Hash Core HashTable Enclave Rep CoreProofs.
From S2P Require Import RootProofs HashTableProofs StoreProofs EnclaveProofs.

Section append.
Context `{Platform} `{!PlatformOk} (Hside : outside_ok).
Implicit Types (s : enclave) (B : list bucket) (k v cipher : bytes).

(** The MAC of the entry of [k] is in slot [kv_pos] of its MAC bucket: the MACs are
    in reverse order, so the entry is in the middle of its chain. *)
Definition append_slot s B k : Prop :=
  mac_opt (arg_enclave s) = true →
  ∀ b1 c b2, B !! bin_of s k = Some (b1 ++ c :: b2) → c_key c = k → blen b1 = blen b2.

(** The plaintext of the extended entry. *)
Lemma append_buffer s k v0 v :
  blen k + blen v0 + blen v + 27 ≤ INT_MAX →
  ∀ {A} (K : bytes → E A),
  (kv ← lift (zalloc (u32 (blen k + 1 + (blen v0 + 1) + (blen v + 1) - 1)));
   kv ← lift (memcpy kv 0 (dup_str k ++ dup_str v0) 0 (u32 (blen k + 1 + (blen v0 + 1))));
   kv ← lift (write_at kv (blen k + 1 + (blen v0 + 1) - 1) (dup_str v));
   K kv) s = K (dup_str k ++ dup_str (v0 ++ v)) s.
Proof.
  unfold INT_MAX. intros Hb A K. pose proof (blen_nonneg k). pose proof (blen_nonneg v0).
  pose proof (blen_nonneg v). rewrite !u32_small by lia.
  rewrite (bind_lift _ _ _ (zeros (blen k + 1 + (blen v0 + 1) + blen v))).
  2:{ rewrite zalloc_ok by lia. do 2 f_equal. lia. }
  rewrite (zeros_app (blen k + 1 + (blen v0 + 1))) by lia.
  rewrite (bind_lift _ _ _ ((dup_str k ++ dup_str v0) ++ zeros (blen v))).
  2:{ apply (memcpy_all [] (zeros (blen k + 1 + (blen v0 + 1)))); [done| |].
      - apply blen_zeros. lia.
      - rewrite blen_app, !dup_str_len. lia. }
  rewrite (bind_lift _ _ _ (dup_str k ++ dup_str (v0 ++ v))); [done|].
  replace ((dup_str k ++ dup_str v0) ++ zeros (blen v))
    with ((dup_str k ++ v0) ++ ([NUL] ++ zeros (blen v)) ++ []).
  2:{ unfold dup_str. by rewrite app_nil_r, <-!app_assoc. }
  rewrite write_at_app.
  - unfold dup_str. by rewrite app_nil_r, <-!app_assoc.
  - rewrite blen_app, dup_str_len. lia.
  - rewrite blen_app, dup_str_len, blen_zeros by lia. unfold blen. simpl. lia.
Qed.

Lemma ht_append_o_ok s B k b1 c b2 kv nac_ mac_ val_len v' :
  mem_avail s → shape s B → nonul k → B !! bin_of s k = Some (b1 ++ c :: b2) → c_key c = k →
  0 ≤ val_len → blen k + 1 + val_len < 2 ^ 32 → blen kv = blen k + 1 + val_len →
  blen nac_ = NAC_SIZE → blen mac_ = MAC_SIZE →
  (mac_opt (arg_enclave s) = true → blen b1 = blen b2) →
  let e' := updated (c_ent c) val_len kv nac_ mac_ in
  let c' := Cell (c_loc c) e' k v' in
  ∃ mb, (mac_opt (arg_enclave s) = true →
           ∃ m', mb = <[bin_of s k := m']> (MACbuf_enclave s) ∧ macbuf_ok m' (b1 ++ c' :: b2)) ∧
    ht_append_o (Some (c_loc c)) (dup_str k) kv nac_ mac_ (blen k + 1) val_len (blen b1) s =
    Ok (tt, with_mem (<[c_loc c := e']> (heap s)) mb s).
Proof.
  intros Hmem HS Hk Hb Hkey Hvl Hbound Hkv Hn Hm Hslot e' c'. pose proof (sh_layout _ _ HS) as HL.
  destruct (bin_range s B k HL) as [Hr Hbin].
  pose proof (shape_entries s B _ _ HS Hb) as Hents. apply Forall_app in Hents as (_ & (He & _)%Forall_cons).
  rewrite Hkey in He. destruct (entry_sizes _ _ _ He) as (_ & _ & Hks & Hvs & old & Hold & Hlen).
  destruct (table_get_ok s B HL _ _ Hb) as (p & _ & Hc).
  assert (heap s !! c_loc c = Some (c_ent c)) as Hl by (eapply chain_lookup; [done|set_solver]).
  rewrite <-Hks in Hbound, Hkv.
  pose proof (entry_update_ok s (c_loc c) (c_ent c) old true kv nac_ mac_
    val_len Hmem Hl Hold Hlen ltac:(pose proof (blen_nonneg k); lia) Hvl Hbound Hkv Hn Hm
    ltac:(done)) as Hupd. rewrite Hks in Hupd.
  unfold ht_append_o. rewrite (bind_ok _ _ _ _ _ (ht_hash_dup s k Hk (co_size _ (ly_cfg _ _ HL)))).
  msimpl. rewrite (bind_ok _ _ _ _ _ Hupd).
  destruct (mac_opt (arg_enclave s)) eqn:Ho.
  - destruct (macbuf_get_ok s B HL _ _ Ho Hb) as (m & _ & Hmb & Hmok).
    set (s1 := set_heap (<[c_loc c := e']> (heap s)) s).
    destruct (macbuf_replace s1 _ m b1 c c' b2 Hmb Hmok) as (m' & Hm' & Hw);
      [by eapply (bucket_maclen s B HL)|done|].
    exists (<[bin_of s k := m']> (MACbuf_enclave s)). split; [by eauto|].
    rewrite <-Hbin. replace (me_size m - blen b1 - 1) with (blen b1) in Hw; [done|].
    destruct Hmok as (-> & _). rewrite blen_app, blen_cons. specialize (Hslot eq_refl). lia.
  - exists (MACbuf_enclave s). split; [done|]. by destruct s.
Qed.

Lemma enclave_append_hit s B cipher k v v0 :
  inv s B → mem_avail s → set_request cipher k v → buffer_ok s cipher → abs B !! k = Some v0 →
  blen k + blen v0 + blen v + 27 ≤ INT_MAX → append_slot s B k →
  ∃ s' B', enclave_append cipher s = Ok (reply s (dup_str k), s') ∧ inv s' B' ∧
    abs B' = <[k := v0 ++ v]> (abs B) ∧ arg_enclave s' = arg_enclave s ∧ out s' = out s.
Proof.
  intros Hinv Hmem Hreq [Hmax Hbuf] Hk0 Hfit Hslot.
  destruct (parse_set s cipher k v Hreq ltac:(unfold INT_MAX in *; lia)) as (Hlen & t & Hpk & Htl & Hpv).
  destruct Hreq as (_ & _ & _ & _ & _ & _ & _ & Hk & _ & Hv).
  pose proof (inv_shape _ _ Hinv) as HS. pose proof (ly_cfg _ _ (sh_layout _ _ HS)) as Hcfg.
  destruct (shape_lookup s B k v0 HS Hk0) as (b1 & c & b2 & Hb & Hkey & Hval & He).
  pose proof (blen_nonneg k). pose proof (blen_nonneg v). pose proof (blen_nonneg v0).
  assert (nonul (v0 ++ v)) as Hvv.
  { unfold nonul. pose proof (eo_val _ _ _ He) as Hv0. unfold nonul in *. set_solver. }
  assert (blen k + blen (v0 ++ v) + 27 ≤ INT_MAX) as Hfit' by (rewrite blen_app; lia).
  destruct (ht_get_o_found Hside s B k b1 c b2 HS Hk ltac:(unfold INT_MAX in *; lia) Hb Hkey)
    as (ctr & Hctr & Hget).
  destruct (enclave_encrypt_ok s k (v0 ++ v) (hint_of k) ctr Hfit' Hctr)
    as (kv & msg & mac_ & ctr' & Henc & Hkvl & Hml & Hdec & Hcl & Hmsg & Hcm).
  destruct (ht_append_o_ok s B k b1 c b2 kv ctr mac_ (blen (v0 ++ v) + 1) (v0 ++ v) Hmem HS Hk Hb Hkey)
    as (mb & Hmb & Hset); [unfold INT_MAX in *; rewrite ?blen_app in *; lia..|done|done| |].
  { intros Ho. by eapply Hslot. }
  destruct (update_cell s B k (v0 ++ v) b1 c b2 mb kv ctr mac_ msg ctr')
    as (Habs & s2 & Hreb & Hinv' & Harg & Hout); try done.
  exists s2. eexists. split_and!; [|done..]. unfold enclave_append.
  rewrite (bind_ok _ _ _ _ _ Hpk). cbv beta iota. rewrite (bind_ok _ _ _ _ _ Hpv). cbv beta iota.
  rewrite (bind_ok _ _ _ _ _ Hget). cbv beta iota.
  rewrite (bind_ok _ _ _ _ _ (ht_hash_dup s k Hk (co_size _ Hcfg))).
  rewrite (bind_lift _ _ _ _ (key_hash_dup k Hk)). cbn [f_entry f_nac f_plain].
  destruct (table_get_ok s B (sh_layout _ _ HS) _ _ Hb) as (p & _ & Hchain).
  rewrite (bind_ok _ _ _ (c_ent c) s) by (apply load_ok; eapply chain_lookup; [done|set_solver]).
  rewrite (bind_ok _ _ _ _ _ (verify_entry_ok s k v0 _ He)).
  rewrite (bind_lift _ _ _ (mac (c_ent c))).
  2:{ apply read_at_all. by rewrite (eo_maclen _ _ _ He). }
  rewrite (eo_ksize _ _ _ He), (eo_vsize _ _ _ He), Hval, append_buffer by done.
  replace (u32 (blen v0 + 1 + (blen v + 1) - 1)) with (blen (v0 ++ v) + 1).
  2:{ rewrite u32_small by (unfold INT_MAX in *; lia). rewrite blen_app. lia. }
  rewrite (bind_ok _ _ _ _ _ Henc). cbv beta iota.
  rewrite (bind_ok _ _ _ _ _ Hset), (bind_ok _ _ _ _ _ Hreb), (bind_ok _ _ _ _ _ (check_tree_ok s2)).
  unfold reply. rewrite <-Harg. rewrite <-(app_nil_l (dup_str k)), <-(app_nil_r (dup_str k)) at 1.
  apply respond_ok; rewrite ?Harg; try done; rewrite ?dup_str_len; unfold INT_MAX in *; lia.
Qed.

Lemma enclave_append_miss s B cipher k v :
  inv s B → set_request cipher k v → buffer_ok s cipher → abs B !! k = None →
  ∃ buf, blen buf = blen cipher ∧
  enclave_append cipher s = Ok (buf, add_out "There's no data in the database" s).
Proof.
  intros Hinv Hreq [Hmax Hbuf] Hk0.
  destruct (parse_set s cipher k v Hreq ltac:(unfold INT_MAX in *; lia)) as (Hlen & t & Hpk & Htl & Hpv).
  destruct Hreq as (_ & _ & _ & _ & _ & _ & _ & Hk & _ & Hv).
  pose proof (blen_nonneg k). pose proof (blen_nonneg v).
  pose proof (inv_shape _ _ Hinv) as HS. pose proof (ly_cfg _ _ (sh_layout _ _ HS)) as Hcfg.
  destruct (shape_missing s B k HS Hk0) as (b & Hb & Hnin).
  exists (tok_buf t). split; [done|]. unfold enclave_append.
  rewrite (bind_ok _ _ _ _ _ Hpk). cbv beta iota. rewrite (bind_ok _ _ _ _ _ Hpv). cbv beta iota.
  rewrite (bind_ok _ _ _ _ _ (ht_get_o_none s B k b HS Hk ltac:(unfold INT_MAX in *; lia) Hb Hnin)).
  cbv beta iota. rewrite (bind_ok _ _ _ _ _ (ht_hash_dup s k Hk (co_size _ Hcfg))).
  by rewrite (bind_lift _ _ _ _ (key_hash_dup k Hk)).
Qed.
End append.
