(* ===== verification/Service.v ===== *)
(** * What a store promises

    The abstract key-value store: a finite map, the requests a client can make of
    it and their effect.  [KvService] is the interface between the code that
    answers one job and the code that queues and schedules jobs. *)

From S2P Require Import Prelude CString Common Enclave Rep EnclaveProofs.

Abbreviation kvmap := (gmap bytes bytes).

Inductive request :=
  | RGet (k : bytes)
  | RSet (k v : bytes)
  | RApp (k v : bytes).

#[global] Instance request_eq_dec : EqDecision request.
Proof. solve_decision. Defined.

Definition req_key (r : request) : bytes :=
  match r with RGet k | RSet k _ | RApp k _ => k end.

(** The map after a request and the string of the answer, if one is defined. *)
Definition spec_step (m : kvmap) (r : request) : kvmap * option bytes :=
  match r with
  | RGet k => (m, m !! k)
  | RSet k v => (<[k := v]> m, Some k)
  | RApp k v =>
      match m !! k with
      | Some v0 => (<[k := v0 ++ v]> m, Some k)
      | None => (m, None)
      end
  end.

Definition spec_run (m : kvmap) (rs : list request) : kvmap :=
  fold_left (λ m r, fst (spec_step m r)) rs m.

(** The buffer starts with one of two spellings of a command. *)
Definition has_cmd (cipher : bytes) (upper lower : string) : Prop :=
  ∃ rest, cipher = str upper ++ rest ∨ cipher = str lower ++ rest.

(** The buffer holds a request. *)
Definition encodes (cipher : bytes) (r : request) : Prop :=
  match r with
  | RGet k => has_cmd cipher "GET" "get" ∧ get_request cipher k
  | RSet k v => has_cmd cipher "SET" "set" ∧ set_request cipher k v
  | RApp k v => has_cmd cipher "APP" "app" ∧ set_request cipher k v
  end.

(** The answer [buf] carries the string [x], NUL-terminated and padded to [n] bytes. *)
Definition answers (n : Z) (buf : bytes) (x : option bytes) : Prop :=
  ∀ y, x = Some y → buf = dup_str y ++ zeros (n - blen (dup_str y)).

(** ** The interface

    A service answers one job at a time.  [kv_rep s m]: the state [s] holds the map
    [m]; [kv_admits s m c r]: the buffer [c] and the request [r] are within the limits
    of the service. *)
Class KvService (St : Type) := {
  kv_job : bytes → M St verdict;
  kv_bufsize : St → Z;
  kv_rep : St → kvmap → Prop;
  kv_admits : St → kvmap → bytes → request → Prop;
}.

Class KvServiceOk (St : Type) `{KvService St} : Prop := {
  kv_refines s m cipher r :
    kv_rep s m → encodes cipher r → kv_admits s m cipher r →
    ∃ buf s', kv_job cipher s = Ok (Reply buf, s') ∧
      kv_rep s' (fst (spec_step m r)) ∧ kv_bufsize s' = kv_bufsize s ∧ blen buf = kv_bufsize s ∧
      answers (kv_bufsize s) buf (snd (spec_step m r));
}.

(** ** Runs of a service *)
Section service.
Context {St : Type} `{!KvService St}.

(** The jobs of a list, one after another, and the answers. *)
Fixpoint kv_run (cs : list bytes) : M St (list verdict) :=
  match cs with
  | [] => mret []
  | c :: cs' => v ← kv_job c; vs ← kv_run cs'; mret (v :: vs)
  end.

(** Every request is within the limits when its turn comes. *)
Fixpoint kv_admits_all (s : St) (m : kvmap) (cs : list bytes) (rs : list request) : Prop :=
  match cs, rs with
  | c :: cs', r :: rs' =>
      encodes c r ∧ kv_admits s m c r ∧
      ∀ v s', kv_job c s = Ok (v, s') → kv_admits_all s' (fst (spec_step m r)) cs' rs'
  | [], [] => True
  | _, _ => False
  end.

(** The answers the map gives to a list of requests. *)
Fixpoint spec_answers (n : Z) (m : kvmap) (vs : list verdict) (rs : list request) : Prop :=
  match vs, rs with
  | Reply buf :: vs', r :: rs' =>
      answers n buf (snd (spec_step m r)) ∧ spec_answers n (fst (spec_step m r)) vs' rs'
  | [], [] => True
  | _, _ => False
  end.

Lemma kv_run_refines `{!KvServiceOk St} s m cs rs :
  kv_rep s m → kv_admits_all s m cs rs →
  ∃ vs s', kv_run cs s = Ok (vs, s') ∧ kv_rep s' (spec_run m rs) ∧
    kv_bufsize s' = kv_bufsize s ∧ spec_answers (kv_bufsize s) m vs rs.
Proof.
  revert s m rs. induction cs as [|c cs IH]; intros s m [|r rs] Hrep; simpl; try done.
  - intros _. by exists [], s.
  - intros (Henc & Hadm & Hall).
    destruct (kv_refines s m c r Hrep Henc Hadm) as (buf & s1 & Hrun & Hrep1 & Hsz & _ & Hans).
    destruct (IH s1 _ rs Hrep1 (Hall _ _ Hrun)) as (vs & s2 & Hrun2 & Hrep2 & Hsz2 & Hans2).
    exists (Reply buf :: vs), s2. rewrite (bind_ok _ _ _ _ _ Hrun), (bind_ok _ _ _ _ _ Hrun2).
    rewrite Hsz in Hans2. split_and!; try done. by rewrite Hsz2.
Qed.
End service.
