(* ===== verification/EnclaveService.v ===== *)
(** * The enclave as a store

    The worker's job refines the abstract store: the instance of [KvService] the
    dispatcher is verified against. *)

From S2P Require Import Prelude CString Common Hash Core HashTable Enclave Config Rep CoreProofs.
From S2P Require Import RootProofs HashTableProofs StoreProofs EnclaveProofs AppendProofs.
From S2P Require Import Service.

(** ** Limits in terms of the map *)

(** The keys of [m] that belong to the bucket [i]. *)
Definition keys_in (size i : Z) (m : kvmap) : list bytes :=
  filter (λ k, bucket_of size k = i) (map_to_list m).*1.

(** There is room for another key: the aggregate of all MACs fits an [int]; a MAC bucket has
    [MAC_SLOTS] slots. *)
Definition capacity (arg : Arg) (size : Z) (m : kvmap) (k : bytes) : Prop :=
  MAC_SIZE * (Z.of_nat (base.size m) + 1) ≤ INT_MAX ∧
  (mac_opt arg = true → blen (keys_in size (bucket_of size k) m) < MAC_SLOTS).

(** The request [r] does not exceed a capacity of the store: there is room for a new key; a
    value that is read fits the buffer; with MAC buckets, only the single key of a bucket
    is appended to.  With assertions, a new key is alone in its bucket. *)
Definition within `{Platform} (arg : Arg) (size : Z) (m : kvmap) (r : request) : Prop :=
  match r with
  | RGet k => ∀ v, m !! k = Some v → blen v + 1 ≤ max_buf_size arg
  | RSet k v =>
      m !! k = None →
      capacity arg size m k ∧ (NDEBUG = false → keys_in size (bucket_of size k) m = [])
  | RApp k v =>
      ∀ v0, m !! k = Some v0 →
      blen k + blen v0 + blen v + 27 ≤ INT_MAX ∧
      (mac_opt arg = true → keys_in size (bucket_of size k) m = [k])
  end.

Section keys.
Context `{Platform}.
Implicit Types (s : enclave) (B : list bucket).

Lemma abs_size B : NoDup (c_key <$> concat B) → Z.of_nat (base.size (abs B)) = blen (concat B).
Proof.
  intros Hside. unfold blen. f_equal. rewrite <-length_map_to_list. unfold abs.
  rewrite map_to_list_to_map by (by rewrite abs_keys). by rewrite length_fmap.
Qed.

Lemma keys_in_bucket s B i b :
  shape s B → B !! i = Some b →
  c_key <$> b ≡ₚ keys_in (ht_size (ht_enclave s)) (Z.of_nat i) (abs B).
Proof.
  intros HS Hb. pose proof (sh_keys _ _ HS) as Hside. apply NoDup_Permutation.
  - by eapply nodup_bucket.
  - apply NoDup_filter, NoDup_fst_map_to_list.
  - intros k. unfold keys_in. rewrite list_elem_of_filter, !list_elem_of_fmap. split.
    + intros (c & -> & Hc). pose proof (sh_cells _ _ HS _ _ Hb) as Hcs.
      rewrite Forall_forall in Hcs. destruct (Hcs c Hc) as [_ Hbk]. split; [done|].
      exists (c_key c, c_val c). split; [done|]. apply elem_of_map_to_list, abs_Some; [done|].
      exists c. split; [by eapply elem_of_bucket|done].
    + intros (Hbk & (k' & v) & -> & Hin%elem_of_map_to_list). cbn [fst] in *.
      apply abs_Some in Hin as (c & Hc & Hck & _); [|done].
      apply elem_of_concat in Hc as (b' & (j & Hj) & Hc).
      pose proof (sh_cells _ _ HS _ _ Hj) as Hcs. rewrite Forall_forall in Hcs.
      destruct (Hcs c Hc) as [_ Hbk']. rewrite Hck, Hbk in Hbk'.
      assert (i = j) as -> by lia. rewrite Hj in Hb. injection Hb as ->. by exists c.
Qed.

Lemma capacity_room s B k :
  shape s B → capacity (arg_enclave s) (ht_size (ht_enclave s)) (abs B) k → room s B k.
Proof.
  intros HS [Hcount Hslots] Hnone.
  rewrite abs_size in Hcount by apply (sh_keys _ _ HS). split; [done|].
  intros Ho b Hb. specialize (Hslots Ho).
  destruct (bin_range s B k (sh_layout _ _ HS)) as [_ Hbin]. rewrite <-Hbin in Hslots.
  pose proof (keys_in_bucket s B _ b HS Hb) as HP. apply Permutation_length in HP.
  rewrite length_fmap in HP. unfold blen in *. lia.
Qed.

(** The bucket of a key is empty when the map has no key there. *)
Lemma empty_bucket s B k :
  shape s B →
  keys_in (ht_size (ht_enclave s)) (bucket_of (ht_size (ht_enclave s)) k) (abs B) = [] ↔ B !! bin_of s k = Some [].
Proof.
  intros HS. destruct (bin_range s B k (sh_layout _ _ HS)) as [_ Hbin].
  destruct (bin_bucket s B k (sh_layout _ _ HS)) as [b Hb].
  pose proof (keys_in_bucket s B _ b HS Hb) as HP. rewrite Hbin in HP. rewrite Hb. split.
  - intros Hnil. rewrite Hnil in HP. by apply Permutation_nil_r, fmap_nil_inv in HP as ->.
  - intros [= ->]. by apply Permutation_nil_l in HP.
Qed.

Lemma within_alone s B k v :
  shape s B → abs B !! k = None → within (arg_enclave s) (ht_size (ht_enclave s)) (abs B) (RSet k v) →
  NDEBUG = true ∨ B !! bin_of s k = Some [].
Proof.
  intros HS Hk Hw. destruct (Hw Hk) as [_ Halone]. destruct NDEBUG; [by left|right].
  apply empty_bucket; auto.
Qed.

Lemma within_slot s B k v v0 :
  shape s B → abs B !! k = Some v0 →
  within (arg_enclave s) (ht_size (ht_enclave s)) (abs B) (RApp k v) →
  blen k + blen v0 + blen v + 27 ≤ INT_MAX ∧ append_slot s B k.
Proof.
  intros HS Hk Hw. destruct (Hw v0 Hk) as [Hlen Hone]. split; [done|].
  intros Ho b1 c b2 Hb Hck. specialize (Hone Ho).
  destruct (bin_range s B k (sh_layout _ _ HS)) as [_ Hbin]. rewrite <-Hbin in Hone.
  pose proof (keys_in_bucket s B _ _ HS Hb) as HP. rewrite Hone in HP.
  apply Permutation_length in HP. rewrite fmap_app, fmap_cons, length_app in HP. simpl in HP.
  rewrite !length_fmap in HP. unfold blen. lia.
Qed.
End keys.

(** ** Commands *)
Section jobs.
Context `{Platform}.
Implicit Types (s : enclave) (cipher : bytes).

Lemma worker_job_get s cipher :
  has_cmd cipher "GET" "get" → worker_job cipher s = (Reply <$> enclave_get cipher) s.
Proof. by intros (r & [->| ->]). Qed.
Lemma worker_job_set s cipher :
  has_cmd cipher "SET" "set" → worker_job cipher s = (Reply <$> enclave_set cipher) s.
Proof. by intros (r & [->| ->]). Qed.
Lemma worker_job_app s cipher :
  has_cmd cipher "APP" "app" → worker_job cipher s = (Reply <$> enclave_append cipher) s.
Proof. by intros (r & [->| ->]). Qed.
Lemma worker_job_quit s rest : worker_job (str "quit" ++ rest) s = Ok (Quit, s).
Proof. done. Qed.
End jobs.

(** ** The instance *)
Section service.
Context `{Platform} `{!PlatformOk} (Hside : outside_ok) (Hmem : ∀ s, mem_avail s).
Implicit Types (s : enclave) (cipher : bytes) (m : kvmap).

(** The state holds the map [m]: some list of buckets that the invariant describes
    has the contents [m]. *)
Definition holds s m : Prop := ∃ B, inv s B ∧ abs B = m.

Lemma reply_len s x : blen x ≤ max_buf_size (arg_enclave s) → blen (reply s x) = max_buf_size (arg_enclave s).
Proof. intros Hx. unfold reply. rewrite blen_app, blen_zeros by lia. lia. Qed.

Lemma reply_key_len s cipher k v :
  set_request cipher k v → buffer_ok s cipher →
  blen (reply s (dup_str k)) = max_buf_size (arg_enclave s).
Proof.
  intros Hreq [Hmax Hbuf]. apply reply_len. rewrite dup_str_len.
  destruct (parse_set s cipher k v Hreq) as [Hlen _]; [unfold INT_MAX in *; lia|].
  pose proof (blen_nonneg v). lia.
Qed.

Lemma holds_get s m cipher k :
  holds s m → get_request cipher k → buffer_ok s cipher →
  within (arg_enclave s) (ht_size (ht_enclave s)) m (RGet k) →
  ∃ buf s', enclave_get cipher s = Ok (buf, s') ∧ holds s' m ∧
    blen buf = max_buf_size (arg_enclave s) ∧
    answers (max_buf_size (arg_enclave s)) buf (m !! k) ∧ (m !! k = None → key_cut cipher k buf) ∧
    s' = match m !! k with Some _ => s | None => add_out "GET FAILED: No data in database" s end.
Proof.
  intros (B & Hinv & <-) Hreq Hbuf Hw. destruct (abs B !! k) as [v|] eqn:Hk.
  - eexists _, s. split; [by apply (enclave_get_hit Hside s B cipher k v); eauto|].
    split; [by exists B|]. split; [by apply reply_len; rewrite dup_str_len; apply Hw|].
    split; [by intros y [= <-]|done].
  - destruct (enclave_get_miss s B cipher k Hinv Hreq Hbuf Hk) as (buf & Hlen & Hcut & Hrun).
    eexists _, _. split; [done|]. rewrite Hlen, (proj1 Hbuf). split; [|done]. exists B. split; [by apply inv_add_out|done].
Qed.

Lemma holds_set s m cipher k v :
  holds s m → set_request cipher k v → buffer_ok s cipher →
  within (arg_enclave s) (ht_size (ht_enclave s)) m (RSet k v) →
  ∃ s', enclave_set cipher s = Ok (reply s (dup_str k), s') ∧ holds s' (<[k := v]> m) ∧
    blen (reply s (dup_str k)) = max_buf_size (arg_enclave s) ∧ out s' = out s.
Proof.
  intros (B & Hinv & <-) Hreq Hbuf Hw.
  assert (∃ s' B', enclave_set cipher s = Ok (reply s (dup_str k), s') ∧ inv s' B' ∧
    abs B' = <[k := v]> (abs B) ∧ arg_enclave s' = arg_enclave s ∧ out s' = out s)
    as (s' & B' & Hrun & Hinv' & Habs & _ & Hout).
  { destruct (abs B !! k) as [v0|] eqn:Hk.
    - by apply (enclave_set_update Hside s B cipher k v v0).
    - apply (enclave_set_insert s B cipher k v); try done.
      + eapply within_alone; [apply Hinv|done..].
      + intros Hnone. apply capacity_room; [apply Hinv|by apply Hw|done]. }
  exists s'. split; [done|]. split; [by exists B'|]. split; [|done].
  by eapply reply_key_len.
Qed.

Lemma holds_append s m cipher k v :
  holds s m → set_request cipher k v → buffer_ok s cipher →
  within (arg_enclave s) (ht_size (ht_enclave s)) m (RApp k v) →
  ∃ buf s', enclave_append cipher s = Ok (buf, s') ∧ holds s' (fst (spec_step m (RApp k v))) ∧
    blen buf = max_buf_size (arg_enclave s) ∧
    answers (max_buf_size (arg_enclave s)) buf (snd (spec_step m (RApp k v))) ∧
    out s' = match m !! k with Some _ => out s | None => out s ++ ["There's no data in the database"] end.
Proof.
  intros (B & Hinv & <-) Hreq Hbuf Hw. simpl. destruct (abs B !! k) as [v0|] eqn:Hk.
  - destruct (within_slot s B k v v0 (inv_shape _ _ Hinv) Hk Hw) as [Hfit Hslot].
    destruct (enclave_append_hit Hside s B cipher k v v0) as (s' & B' & Hrun & Hinv' & Habs & _ & Hout); try done.
    eexists _, s'. split; [done|]. split; [by exists B'|]. split; [by eapply reply_key_len|].
    split; [|done]. by intros y [= <-].
  - destruct (enclave_append_miss s B cipher k v Hinv Hreq Hbuf Hk) as (buf & Hlen & Hrun).
    eexists _, _. split; [done|]. rewrite Hlen, (proj1 Hbuf). split; [|done]. exists B. split; [by apply inv_add_out|done].
Qed.

#[global] Instance enclave_service : KvService enclave := {
  kv_job := worker_job;
  kv_bufsize s := max_buf_size (arg_enclave s);
  kv_rep := holds;
  kv_admits s m cipher r :=
    buffer_ok s cipher ∧ within (arg_enclave s) (ht_size (ht_enclave s)) m r;
}.

Lemma enclave_service_ok : KvServiceOk enclave.
Proof.
  split. intros s m cipher r Hrep Henc [Hbuf Hw].
  assert (∀ v s', worker_job cipher s = Ok (v, s') → kv_bufsize s' = kv_bufsize s) as Hsz.
  { intros v s' Hrun%(keeps_run _ _ _ _ _ (keeps_worker_job cipher)). unfold config in Hrun. simpl. congruence. }
  destruct r as [k|k v|k v]; destruct Henc as [Hcmd Hreq]; cbn [kv_job kv_rep enclave_service].
  - destruct (holds_get s m cipher k Hrep Hreq Hbuf Hw) as (buf & s' & Hrun & Hrep' & Hlen & Hans & _).
    assert (worker_job cipher s = Ok (Reply buf, s')) as Hj
      by (rewrite worker_job_get by done; by apply fmap_run).
    exists buf, s'. split_and!; eauto.
  - destruct (holds_set s m cipher k v Hrep Hreq Hbuf Hw) as (s' & Hrun & Hrep' & Hlen & _).
    assert (worker_job cipher s = Ok (Reply (reply s (dup_str k)), s')) as Hj
      by (rewrite worker_job_set by done; by apply fmap_run).
    eexists _, s'. split_and!; eauto. by intros y [= <-].
  - destruct (holds_append s m cipher k v Hrep Hreq Hbuf Hw) as (buf & s' & Hrun & Hrep' & Hlen & Hans & _).
    assert (worker_job cipher s = Ok (Reply buf, s')) as Hj
      by (rewrite worker_job_app by done; by apply fmap_run).
    exists buf, s'. split_and!; eauto.
Qed.

(** What is printed is not part of the store. *)
Lemma holds_add_out s m x : holds s m → holds (add_out x s) m.
Proof. intros (B & Hinv & Habs). exists B. split; [by apply inv_add_out|done]. Qed.
End service.
