(* ===== verification/Isolation.v ===== *)
(** * What a job sees and what it writes

    A request on a key reads and writes one part of the store: the buckets, MAC buckets,
    entries and roots of one worker.  Two runs of the same job, from states that agree on
    that part, give the same answer and agree on it again, and what is outside of it is
    left as it was.  Nothing is said of the outside: another worker may be in the middle of
    a job there. *)

From S2P Require Import Prelude CString Common Hash Core HashTable Enclave Rep CoreProofs.
From S2P Require Import RootProofs.
From S2P Require Import HashTableProofs StoreProofs EnclaveProofs Service EnclaveService.

(** Buckets, roots and entries. *)
Record part := mkPart {
  pa_bucket : nat → Prop;
  pa_root : nat → Prop;
  pa_loc : loc → Prop;
}.

Definition inside (P : part) (p : ptr) : Prop := ∀ l, p = Some l → pa_loc P l.

(** The pointers of the part stay in it. *)
Record closed (P : part) (s : enclave) : Prop := {
  cl_table j p : pa_bucket P j → ht_table (ht_enclave s) !! j = Some p → inside P p;
  cl_heap l e : pa_loc P l → heap s !! l = Some e → inside P (next e);
}.

(** The parts of [s] and [t] are equal. *)
Record same_part (P : part) (s t : enclave) : Prop := {
  sp_table j : pa_bucket P j → ht_table (ht_enclave t) !! j = ht_table (ht_enclave s) !! j;
  sp_macbuf j : pa_bucket P j → MACbuf_enclave t !! j = MACbuf_enclave s !! j;
  sp_root r : pa_root P r → MACTable t !! r = MACTable s !! r;
  sp_heap l : pa_loc P l → heap t !! l = heap s !! l;
}.

(** Outside of the part [t] is as [t0]. *)
Definition same_rest (P : part) : enclave → enclave → Prop :=
  same_part (mkPart (λ j, ¬ pa_bucket P j) (λ r, ¬ pa_root P r) (λ l, ¬ pa_loc P l)).

(** The configuration of the enclave. *)
Record same_setup (s t : enclave) : Prop := {
  ss_arg : arg_enclave t = arg_enclave s;
  ss_size : ht_size (ht_enclave t) = ht_size (ht_enclave s);
  ss_ratio : ratio_root_per_buckets t = ratio_root_per_buckets s;
}.

Lemma same_part_refl P s : same_part P s s.
Proof. by split. Qed.
Lemma same_setup_refl s : same_setup s s.
Proof. by split. Qed.
Lemma same_setup_trans s t u : same_setup s t → same_setup t u → same_setup s u.
Proof. intros [] []. split; congruence. Qed.

Section isolation.
Context `{Platform} `{!PlatformOk} (P : part) (s0 t0 : enclave).

(** [s] and [t] are reached by the same commands from [s0] and [t0]; until the heap is written
    ([fresh]) the allocator works on the heaps of the start. *)
Record agree (fresh : bool) (s t : enclave) : Prop := {
  ag_setup : same_setup s0 s ∧ same_setup s0 t;
  ag_rand : rand_calls t = rand_calls s;
  ag_part : same_part P s t;
  ag_closed : closed P s;
  ag_live : dom (heap s) ⊆ dom (heap t);
  ag_heaps : fresh = true → heap s = heap s0 ∧ heap t = heap t0;
  ag_rest : same_rest P t0 t;
}.

Lemma agree_stale f s t : agree f s t → agree false s t.
Proof. by intros []. Qed.

(** [m1] from [s] and [m2] from [t]: if [m1] returns, so does [m2], with a related result. *)
Definition sim {A} (f g : bool) (R : A → A → Prop) (m1 m2 : E A) : Prop :=
  ∀ s t a s', agree f s t → m1 s = Ok (a, s') → ∃ b t', m2 t = Ok (b, t') ∧ agree g s' t' ∧ R a b.

(** An equal result with a property. *)
Definition both {A} (Q : A → Prop) (a b : A) : Prop := a = b ∧ Q a.

Section rules.
Context {A B : Type}.
Implicit Types (f g : bool) (R : A → A → Prop) (T : B → B → Prop).

Lemma sim_bind f g h R T (m1 m2 : E A) (k1 k2 : A → E B) :
  sim f g R m1 m2 → (∀ a b, R a b → sim g h T (k1 a) (k2 b)) → sim f h T (m1 ≫= k1) (m2 ≫= k2).
Proof.
  intros Hm Hk s t b s' Hst (a & s1 & H1 & H2)%bind_inv.
  destruct (Hm _ _ _ _ Hst H1) as (a' & t1 & E & Hst1 & HR).
  destruct (Hk _ _ HR _ _ _ _ Hst1 H2) as (b' & t' & E' & Hst' & HT).
  exists b', t'. by rewrite (bind_ok _ _ _ _ _ E).
Qed.

Lemma sim_bind_eq f g h T (m1 m2 : E A) (k1 k2 : A → E B) :
  sim f g eq m1 m2 → (∀ a, sim g h T (k1 a) (k2 a)) → sim f h T (m1 ≫= k1) (m2 ≫= k2).
Proof. intros Hm Hk. eapply sim_bind; [exact Hm|]. intros a b <-. apply Hk. Qed.

Lemma sim_read f h T (m1 m2 : E A) (k1 k2 : A → E B) :
  sim f f eq m1 m2 → (∀ a, sim f h T (k1 a) (k2 a)) → sim f h T (m1 ≫= k1) (m2 ≫= k2).
Proof. apply sim_bind_eq. Qed.

Lemma sim_bind_both f g h Q T (m1 m2 : E A) (k1 k2 : A → E B) :
  sim f g (both Q) m1 m2 → (∀ a, Q a → sim g h T (k1 a) (k2 a)) → sim f h T (m1 ≫= k1) (m2 ≫= k2).
Proof. intros Hm Hk. eapply sim_bind; [exact Hm|]. intros a b [<- HQ]. by apply Hk. Qed.

Lemma sim_weaken f g R (m1 m2 : E A) : sim f g R m1 m2 → sim f false R m1 m2.
Proof.
  intros Hm s t a s' Hst H1. destruct (Hm _ _ _ _ Hst H1) as (b & t' & E & Hst' & HR).
  exists b, t'. split; [done|]. split; [by eapply agree_stale|done].
Qed.

Lemma sim_stale f g R (m1 m2 : E A) : sim false g R m1 m2 → sim f g R m1 m2.
Proof. intros Hm s t a s' Hst. by apply Hm, (agree_stale f). Qed.

Lemma sim_ret f R a b : R a b → sim f f R (mret a) (mret b).
Proof. intros HR s t a' s' Hst [= <- <-]. by exists b, t. Qed.
Lemma sim_raise f g R e (m : E A) : sim f g R (raise e) m.
Proof. by intros s t a s' _. Qed.
Lemma sim_lift f (r : res A) : sim f f eq (lift r) (lift r).
Proof. intros s t a s' Hst [-> ->]%lift_inv. by exists a, t. Qed.
Lemma sim_gets f R (g : enclave → A) : (∀ s t, agree f s t → R (g s) (g t)) → sim f f R (gets g) (gets g).
Proof. intros Hg s t a s' Hst [= <- <-]. exists (g t), t. auto. Qed.
Lemma sim_fmap f g (F : A → B) (m1 m2 : E A) : sim f g eq m1 m2 → sim f g eq (F <$> m1) (F <$> m2).
Proof.
  intros Hm s t b s' Hst. unfold fmap, M_fmap. destruct (m1 s) as [[a s1]|] eqn:E1; [|done]. intros [= <- <-].
  destruct (Hm _ _ _ _ Hst E1) as (a' & t1 & E & Hst1 & <-). exists (F a), t1. by rewrite E.
Qed.
End rules.
Lemma sim_modify f g (F : enclave → enclave) :
  (∀ s t, agree f s t → agree g (F s) (F t)) → sim f g eq (modify F) (modify F).
Proof. intros HF s t [] s' Hst [= <-]. exists tt, (F t). auto. Qed.
Lemma sim_for_each {A} f l (F : Z → A → E A) a :
  (∀ i a, i ∈ l → sim f f eq (F i a) (F i a)) → sim f f eq (for_each l F a) (for_each l F a).
Proof.
  revert a. induction l as [|i l IH]; intros a HF; simpl; [by apply sim_ret|].
  eapply sim_bind; [apply HF; set_solver|]. intros a1 _ <-. apply IH. intros j b Hj. apply HF. set_solver.
Qed.

Context (Hmalloc : ∀ n, ocall_tc_malloc (heap t0) n = ocall_tc_malloc (heap s0) n).
Context (Hrealloc : ∀ l n, ocall_tc_realloc (heap t0) l n = ocall_tc_realloc (heap s0) l n).
Context (Hnew : ∀ l, ocall_tc_malloc (heap s0) sizeof_entry = Some l → pa_loc P l).

(** The bucket of the request and its root. *)
Context (i : nat) (Hratio : 0 < ratio_root_per_buckets s0).
Let q : Z := Z.of_nat i / ratio_root_per_buckets s0.
Context (Hgroup : ∀ j, Z.of_nat j / ratio_root_per_buckets s0 = q → pa_bucket P j) (Hroot : pa_root P (Z.to_nat q)).

Lemma own_bucket : pa_bucket P (Z.to_nat (Z.of_nat i)).
Proof. rewrite Nat2Z.id. by apply Hgroup. Qed.

(** Two runs of one command. *)
Abbreviation self f g R m := (sim f g R m m).

(** ** Accesses *)
Lemma sim_load f l : pa_loc P l → self f f (both (λ e, inside P (next e))) (load l).
Proof.
  intros Hl s t e s' Hst. unfold load. rewrite (sp_heap _ _ _ (ag_part _ _ _ Hst) l Hl).
  destruct (heap s !! l) as [x|] eqn:E; [|done]. intros [= <- <-]. exists x, t. split; [done|]. split; [done|].
  split; [done|]. by apply (cl_heap _ _ (ag_closed _ _ _ Hst) l).
Qed.

Lemma agree_set_heap f s t l e :
  agree f s t → pa_loc P l → inside P (next e) →
  agree false (set_heap (<[l := e]> (heap s)) s) (set_heap (<[l := e]> (heap t)) t).
Proof.
  intros [[[] []] Hr [] [Ct Ch] Hd _ []] Hl He. split; simpl; try done.
  - split; simpl; try done. intros l' Hl'. destruct (decide (l = l')) as [->|Hne]; [by rewrite !lookup_insert_eq|].
    rewrite !lookup_insert_ne by done. auto.
  - split; simpl; [done|]. intros l' e' Hl'. destruct (decide (l = l')) as [->|Hne].
    + rewrite lookup_insert_eq. by intros [= <-].
    + rewrite lookup_insert_ne by done. by apply Ch.
  - rewrite !dom_insert. by apply union_mono_l.
  - split; simpl; try done. intros l' Hl'. rewrite lookup_insert_ne by (by intros ->). auto.
Qed.

Lemma sim_store f l e : pa_loc P l → inside P (next e) → self f false eq (store l e).
Proof.
  intros Hl He s t [] s' Hst. unfold store. rewrite (sp_heap _ _ _ (ag_part _ _ _ Hst) l Hl).
  destruct (heap s !! l); [|done]. intros [= <-]. eexists _, _. split; [done|]. split; [|done]. by eapply agree_set_heap.
Qed.

(** Output and random numbers are in no part. *)
Lemma sim_print f m : self f f eq (print m).
Proof.
  apply sim_modify. intros s t [[[] []] Hr [] [] Hd Hh []]. split; simpl; try done; by split.
Qed.
Lemma sim_rand f n : self f f eq (modify (set_rand n)).
Proof.
  apply sim_modify. intros s t [[[] []] Hr [] [] Hd Hh []]. split; simpl; try done; by split.
Qed.
Lemma sim_rand_calls f : self f f eq (gets rand_calls).
Proof. apply sim_gets. by intros s t []. Qed.
Lemma sim_arg f : self f f eq (gets arg_enclave).
Proof. apply sim_gets. intros s t [[[] []]]. congruence. Qed.
Lemma sim_ratio f : self f f (both (λ r, r = ratio_root_per_buckets s0)) (gets ratio_root_per_buckets).
Proof. apply sim_gets. intros s t [[[] []]]. split; congruence. Qed.
Lemma sim_size f : self f f eq (gets (ht_size ∘ ht_enclave)).
Proof. apply sim_gets. intros s t [[[] []]]. simpl. congruence. Qed.
Lemma sim_deref f p : inside P p → self f f (both (pa_loc P)) (deref p).
Proof. intros Hp. destruct p as [l|]; [apply sim_ret; split; auto|apply sim_raise]. Qed.
Lemma sim_assert f b : self f f eq (assert_ b).
Proof. unfold assert_. destruct NDEBUG; [by apply sim_ret|]. destruct b; [by apply sim_ret|apply sim_raise]. Qed.

(** An array of which the elements of the part are equal. *)
Lemma zlookup_part {A} (Q : nat → Prop) (l k : list A) j x :
  (∀ n, Q n → k !! n = l !! n) → Q (Z.to_nat j) → zlookup l j = Ok x → zlookup k j = Ok x.
Proof.
  intros Heq Hj Hx. apply zlookup_inv in Hx as [Hr Hx]. apply zlookup_ok; [lia|]. by rewrite Heq.
Qed.

Lemma zupdate_part {A} (Q : nat → Prop) (l k : list A) j x l' :
  (∀ n, Q n → k !! n = l !! n) → Q (Z.to_nat j) → zupdate l j x = Ok l' →
  ∃ k', zupdate k j x = Ok k' ∧ (∀ n, Q n → k' !! n = l' !! n) ∧ (∀ n, ¬ Q n → k' !! n = k !! n).
Proof.
  intros Heq Hj. unfold zupdate. destruct (Z.leb_spec 0 j) as [Hj0|]; [|done]. simpl.
  destruct (Z.ltb_spec j (blen l)) as [Hlt|]; [|done]. intros [= <-].
  assert (is_Some (k !! Z.to_nat j)) as Hk%lookup_lt_is_Some.
  { rewrite Heq by done. apply lookup_lt_is_Some. unfold blen in Hlt. lia. }
  rewrite (proj2 (Z.ltb_lt j (blen k))) by (unfold blen; lia). eexists. split; [done|]. split.
  - intros n Hn. destruct (decide (n = Z.to_nat j)) as [->|Hne].
    + rewrite (list_lookup_insert_eq k) by done. symmetry. apply list_lookup_insert_eq. unfold blen in Hlt. lia.
    + rewrite !list_lookup_insert_ne by done. auto.
  - intros n Hn. apply list_lookup_insert_ne. by intros <-.
Qed.

Lemma sim_table_get f j : pa_bucket P (Z.to_nat j) → self f f (both (inside P)) (table_get j).
Proof.
  intros Hj s t p s' Hst. unfold table_get. msimpl. intros [Hp ->]%lift_inv. exists p, t.
  msimpl. simpl. rewrite (zlookup_part _ _ _ _ _ (sp_table _ _ _ (ag_part _ _ _ Hst)) Hj Hp).
  split; [done|]. split; [done|]. split; [done|]. apply zlookup_inv in Hp as [_ Hp]. by eapply (cl_table _ _ (ag_closed _ _ _ Hst)).
Qed.

Lemma sim_macbuf_get f j : pa_bucket P (Z.to_nat j) → self f f eq (macbuf_get j).
Proof.
  intros Hj s t b s' Hst. unfold macbuf_get. msimpl. intros [Hb ->]%lift_inv. exists b, t.
  msimpl. by rewrite (zlookup_part _ _ _ _ _ (sp_macbuf _ _ _ (ag_part _ _ _ Hst)) Hj Hb).
Qed.

Lemma sim_table_set f j p : pa_bucket P (Z.to_nat j) → inside P p → self f f eq (table_set j p).
Proof.
  intros Hj Hp s t [] s' Hst. unfold table_set. msimpl.
  intros (l & s1 & [Hl ->]%lift_inv & [= <-])%bind_inv.
  destruct (zupdate_part _ _ _ _ _ _ (sp_table _ _ _ (ag_part _ _ _ Hst)) Hj Hl) as (k & Hk & Heq & Hne).
  destruct Hst as [[[] []] Hr [] [Ct Ch] Hd Hh []].
  exists tt, (set_table k t). msimpl. simpl. rewrite (bind_lift _ _ _ _ Hk). split; [done|]. split; [|done].
  split; simpl; try done; split; simpl; try done.
  - intros n p' Hn. unfold zupdate in Hl. destruct (_ && _); [|done]. injection Hl as <-.
    intros [(_ & <- & _)|[_ Hp']]%list_lookup_insert_Some; [done|by eapply Ct].
  - intros n Hn. rewrite Hne by done. auto.
Qed.

Lemma sim_macbuf_set f j x : pa_bucket P (Z.to_nat j) → self f f eq (macbuf_set j x).
Proof.
  intros Hj s t [] s' Hst. unfold macbuf_set. msimpl.
  intros (l & s1 & [Hl ->]%lift_inv & [= <-])%bind_inv.
  destruct (zupdate_part _ _ _ _ _ _ (sp_macbuf _ _ _ (ag_part _ _ _ Hst)) Hj Hl) as (k & Hk & Heq & Hne).
  destruct Hst as [[[] []] Hr [] [] Hd Hh []].
  exists tt, (set_macbuf k t). msimpl. simpl. rewrite (bind_lift _ _ _ _ Hk). split; [done|]. split; [|done].
  split; simpl; try done; split; simpl; try done. intros n Hn. rewrite Hne by done. auto.
Qed.

Lemma sim_root_get {A} f g R (k : bytes → E A) :
  (∀ x, self f g R (k x)) →
  self f g R (t ← gets MACTable; x ← lift (zlookup t q); k x).
Proof.
  intros Hk s t b s' Hst. msimpl. intros (x & s1 & [Hx ->]%lift_inv & Hrun)%bind_inv.
  rewrite (bind_lift _ _ _ x); [by eapply Hk|].
  exact (zlookup_part _ _ _ _ _ (sp_root _ _ _ (ag_part _ _ _ Hst)) Hroot Hx).
Qed.

Lemma sim_root_set {A} f g R m (k : E A) :
  self f g R k →
  self f g R (t ← gets MACTable; t' ← lift (zupdate t q m); modify (set_MACTable t');; k).
Proof.
  intros Hk s t a s' Hst. msimpl. intros (l & s1 & [Hl ->]%lift_inv & Hrun)%bind_inv. rewrite bind_modify in Hrun.
  destruct (zupdate_part _ _ _ _ _ _ (sp_root _ _ _ (ag_part _ _ _ Hst)) Hroot Hl) as (l2 & Hl2 & Heq & Hne).
  rewrite (bind_lift _ _ _ _ Hl2), bind_modify. eapply Hk; [|exact Hrun].
  destruct Hst as [[[] []] Hr [] [] Hd Hh []]. split; simpl; try done; split; simpl; try done.
  intros n Hn. rewrite Hne by done. auto.
Qed.

(** Walks through two runs of one command; what it accesses must be in the part. *)
Ltac solve_sim :=
  repeat (intros; first
    [ solve [eauto with sim]
    | match goal with |- sim _ _ _ (_ <$> _) _ => apply sim_fmap end
    | apply sim_read | apply sim_for_each
    | match goal with |- sim _ _ _ (match ?x with _ => _ end) _ => destruct x end ]).
Create HintDb sim discriminated.
Local Hint Resolve sim_lift sim_print sim_rand sim_rand_calls sim_arg sim_size sim_assert sim_raise
  sim_macbuf_get sim_macbuf_set sim_table_set sim_store own_bucket : sim.
Local Hint Extern 1 (sim _ _ _ (mret _) _) => by apply sim_ret : sim.

(** ** Chains *)
Lemma sim_chain_fuel f : sim f f Nat.le chain_fuel chain_fuel.
Proof.
  apply sim_gets. intros s t Hst. apply le_n_S. rewrite <-!size_dom. apply subseteq_size. by destruct Hst.
Qed.

Lemma sim_chain_count f n n' p c : (n ≤ n')%nat → inside P p → sim f f eq (chain_count n p c) (chain_count n' p c).
Proof.
  revert n' p c. induction n as [|n IH]; intros n' p c Hn Hp; (destruct p as [l|]; [|destruct n'; by apply sim_ret]).
  - apply sim_raise.
  - destruct n' as [|n']; [lia|]. simpl. eapply sim_bind_both; [by apply sim_load, Hp|]. intros e He. apply IH; [lia|done].
Qed.

Lemma sim_chain_copy f n n' p agg c :
  (n ≤ n')%nat → inside P p → sim f f eq (chain_copy n p agg c) (chain_copy n' p agg c).
Proof.
  revert n' p agg c. induction n as [|n IH]; intros n' p agg c Hn Hp; (destruct p as [l|]; [|destruct n'; by apply sim_ret]).
  - apply sim_raise.
  - destruct n' as [|n']; [lia|]. simpl. eapply sim_bind_both; [by apply sim_load, Hp|]. intros e He.
    apply sim_read; [apply sim_lift|]. intros agg'. apply IH; [lia|done].
Qed.

(** A walk over the chain of a bucket. *)
Lemma sim_walk {A B} f g R j (m : nat → ptr → E A) (k : A → E B) :
  pa_bucket P (Z.to_nat j) →
  (∀ n n' p, (n ≤ n')%nat → inside P p → sim f f eq (m n p) (m n' p)) → (∀ a, self f g R (k a)) →
  self f g R (p ← table_get j; n ← chain_fuel; a ← m n p; k a).
Proof.
  intros Hj Hm Hk. eapply sim_bind_both; [by apply sim_table_get|]. intros p Hp.
  eapply sim_bind; [apply sim_chain_fuel|]. intros n n' Hn. apply sim_read; [by apply Hm|exact Hk].
Qed.

Lemma sim_walk_last {A} f j (m : nat → ptr → E A) :
  pa_bucket P (Z.to_nat j) →
  (∀ n n' p, (n ≤ n')%nat → inside P p → sim f f eq (m n p) (m n' p)) →
  self f f eq (p ← table_get j; n ← chain_fuel; m n p).
Proof.
  intros Hj Hm. eapply sim_bind_both; [by apply sim_table_get|]. intros p Hp.
  eapply sim_bind; [apply sim_chain_fuel|]. intros n n' Hn. by apply Hm.
Qed.

(** ** The root *)
Lemma sim_root_of f : self f f (both (λ r, r = q)) (root_of (Z.of_nat i)).
Proof.
  unfold root_of. eapply sim_bind_both; [apply sim_ratio|]. intros r ->. intros s t a s' Hst [Hq ->]%lift_inv.
  exists a, t. rewrite Hq. split; [done|]. split; [done|]. split; [done|]. unfold zdiv in Hq.
  rewrite (proj2 (Z.eqb_neq _ 0)) in Hq by lia. injection Hq as <-. by rewrite Z.quot_div_nonneg by lia.
Qed.

Definition in_group (range : list Z) : Prop := ∀ j, j ∈ range → pa_bucket P (Z.to_nat j).

Lemma sim_root_range f : self f f (both in_group) (root_range (Z.of_nat i)).
Proof.
  unfold root_range. eapply sim_bind_both; [apply sim_ratio|]. intros r ->.
  eapply sim_bind_both; [apply sim_root_of|]. intros x ->. apply sim_ret. split; [done|].
  intros j Hj%elem_of_seqZ. assert (0 ≤ q) by (apply Z.div_pos; lia). apply Hgroup.
  rewrite Z2Nat.id by nia. symmetry. apply (Z.div_unique_pos _ _ _ (j - q * ratio_root_per_buckets s0)); lia.
Qed.

Lemma sim_macbuf_copy f range agg : in_group range → self f f eq (macbuf_copy range agg).
Proof. intros Hr. unfold macbuf_copy. solve_sim. Qed.
Lemma sim_table_copy f range agg : in_group range → self f f eq (table_copy range agg).
Proof.
  intros Hr. unfold table_copy. apply sim_for_each. intros j [a n] Hj. apply (sim_walk_last f j (λ fuel p, chain_copy fuel p a n)); [auto|].
  intros. by apply sim_chain_copy.
Qed.
Local Hint Resolve sim_macbuf_copy sim_table_copy : sim.

Lemma sim_assert_success f r : self f f eq (assert_success r).
Proof. unfold assert_success. solve_sim. Qed.
Local Hint Resolve sim_assert_success : sim.

Lemma sim_chain_mac f : self f f eq (get_chain_mac (Z.of_nat i)).
Proof.
  unfold get_chain_mac. eapply sim_bind_both; [apply sim_root_range|]. intros range Hr.
  apply sim_read; [apply sim_arg|]. intros arg. apply sim_read; [|solve_sim].
  destruct (mac_opt arg); [solve_sim|]. apply sim_read; [|solve_sim].
  apply sim_for_each. intros j n Hj. apply (sim_walk_last f j (λ fuel p, chain_count fuel p n)); [auto|].
  intros. by apply sim_chain_count.
Qed.

Lemma sim_verify_root f :
  self f f eq (enclave_verify_tree_root (Z.of_nat i)).
Proof.
  unfold enclave_verify_tree_root. apply sim_read; [apply sim_chain_mac|]. intros cur.
  eapply sim_bind_both; [apply sim_root_of|]. intros r ->.
  apply sim_root_get. solve_sim.
Qed.
Lemma sim_rebuild f pos ins prev :
  self f f eq (enclave_rebuild_tree_root (Z.of_nat i) pos ins prev).
Proof.
  unfold enclave_rebuild_tree_root. eapply sim_bind_both; [apply sim_root_range|]. intros range Hr.
  apply sim_read; [apply sim_arg|]. intros arg. apply sim_read.
  { destruct (mac_opt arg); [unfold rebuild_count_opt; solve_sim|]. unfold rebuild_count_chain.
    apply sim_read; [|solve_sim]. apply sim_for_each. intros j [[n1 n2] n3] Hj.
    apply (sim_walk f f eq j (λ fuel p, chain_count fuel p 0)); [auto| |solve_sim]. intros. by apply sim_chain_count. }
  intros [total upd]. apply sim_read; [solve_sim|]. intros agg. apply sim_read; [solve_sim|]. intros [agg' n].
  apply sim_read; [unfold rebuild_previous; solve_sim|]. intros [ret tm]. destruct (negb _); [solve_sim|].
  eapply sim_bind_both; [apply sim_root_of|]. intros r ->. apply sim_read.
  { destruct (_ || _); [|solve_sim]. apply sim_root_get. solve_sim. }
  intros same. destruct (negb same); [solve_sim|]. apply sim_read; [solve_sim|]. intros src.
  destruct (sgx_rijndael128_cmac_msg gsk src). apply sim_read; [solve_sim|]. intros m.
  apply sim_root_set. solve_sim.
Qed.

(** ** Entries *)
Lemma sim_heap : self true true (λ h h', h = heap s0 ∧ h' = heap t0) (gets heap).
Proof. apply sim_gets. intros s t Hst. by apply (ag_heaps _ _ _ Hst). Qed.

Lemma sim_entry_update l r x y z a v :
  pa_loc P l → self true false eq (entry_update l r x y z a v).
Proof.
  intros Hl. unfold entry_update. eapply sim_bind_both; [by apply sim_load|]. intros e He.
  eapply sim_bind; [apply sim_heap|]. intros h h' [-> ->]. rewrite Hrealloc.
  apply sim_read; [solve_sim|]. intros buf. do 3 (apply sim_read; [solve_sim|]; intros ?). by apply sim_store.
Qed.

Lemma sim_newpair a b c x y z :
  self true false (both (inside P)) (ht_newpair a b c x y z).
Proof.
  unfold ht_newpair. eapply sim_bind; [apply sim_heap|]. intros h h' [-> ->]. rewrite !Hmalloc.
  destruct (ocall_tc_malloc (heap s0) sizeof_entry) as [l|] eqn:Hl; [|by eapply sim_weaken, sim_ret].
  destruct (ocall_tc_malloc (heap s0) (a + b)); [|by eapply sim_weaken, sim_ret].
  do 3 (apply sim_read; [solve_sim|]; intros ?). intros s t np s' Hst. rewrite !bind_modify. intros [= <- <-].
  eexists _, _. split; [done|]. destruct (ag_heaps _ _ _ Hst eq_refl) as [Hs Ht]. rewrite <-Hs, <-Ht.
  assert (inside P (Some l)) as Hp by (intros l' [= <-]; by apply Hnew).
  split; [|by split]. eapply agree_set_heap; [exact Hst|by apply Hnew|done].
Qed.

Lemma sim_macbuf_write f p x : self f f eq (macbuf_write (Z.of_nat i) p x).
Proof. unfold macbuf_write. solve_sim. Qed.
Local Hint Resolve sim_rebuild sim_verify_root sim_macbuf_write : sim.

(** ** The hash table *)
Context (k : bytes) (Hk : nonul k) (Hsize : 0 < ht_size (ht_enclave s0) ≤ INT_MAX).
Context (Hi : Z.of_nat i = bucket_of (ht_size (ht_enclave s0)) k).

Lemma sim_hash f : self f f (both (λ h, h = Z.of_nat i)) (ht_hash (dup_str k)).
Proof.
  intros s t h s' Hst. pose proof Hst as [[[_ Hs _] [_ Ht _]] _ _ _ _ _ _].
  rewrite !ht_hash_dup by (rewrite ?Hs, ?Ht; done). intros [= <- <-]. rewrite Hs, Ht. by eexists _, _.
Qed.

Lemma sim_decrypt f key c n m x :
  self f f eq (decrypt_key_val_and_compare key c n m x).
Proof. unfold decrypt_key_val_and_compare. solve_sim. Qed.
Local Hint Resolve sim_decrypt : sim.

(** The entry that is found is in the part. *)
Definition found_inside (r : option found * Z) : Prop := inside P (f_entry <$> r.1).

Lemma sim_get_loop f n n' key ks hint p pos :
  (n ≤ n')%nat → inside P p →
  sim f f (both found_inside) (ht_get_loop n key ks hint p pos) (ht_get_loop n' key ks hint p pos).
Proof.
  revert n' p pos. induction n as [|n IH]; intros n' p pos Hn Hp;
    (destruct p as [l|]; [|destruct n'; by apply sim_ret]).
  - apply sim_raise.
  - destruct n' as [|n']; [lia|]. simpl. eapply sim_bind_both; [by apply sim_load, Hp|]. intros e He.
    apply sim_read; [solve_sim|]. intros [[plain ctr]|]; [|apply IH; [lia|done]].
    do 2 (apply sim_read; [solve_sim|]; intros ?). apply sim_ret. split; [done|]. intros l' [= <-]. by apply Hp.
Qed.

Lemma sim_get f n : self f f (both found_inside) (ht_get_o (dup_str k) n).
Proof.
  unfold ht_get_o. eapply sim_bind_both; [apply sim_hash|]. intros bin ->. apply sim_read; [solve_sim|]. intros arg.
  eapply sim_bind; [apply sim_chain_fuel|]. intros fuel fuel' Hf. destruct (key_opt arg).
  - apply sim_read; [solve_sim|]. intros hint. eapply sim_bind_both; [apply sim_table_get, own_bucket|].
    intros p Hp. by apply sim_get_loop.
  - eapply sim_bind_both; [apply sim_table_get, own_bucket|]. intros p Hp. by apply sim_get_loop.
Qed.

Lemma sim_set_o l kv n m a v p :
  inside P l → self true false eq (ht_set_o l (dup_str k) kv n m a v p).
Proof.
  intros Hl. unfold ht_set_o. eapply sim_bind_both; [apply sim_hash|]. intros bin ->.
  apply sim_read; [solve_sim|]. intros h. apply sim_read; [solve_sim|]. intros arg.
  destruct l as [l|].
  - eapply sim_bind_both; [by apply sim_load, Hl|]. intros e He.
    eapply sim_bind_eq; [by apply sim_entry_update, Hl|]. intros _. solve_sim.
  - eapply sim_bind_both; [apply sim_newpair|]. intros np Hnp.
    apply sim_read; [solve_sim|]. intros _. eapply sim_bind_both; [apply sim_table_get, own_bucket|]. intros head Hhead.
    eapply sim_bind_both; [by apply sim_deref|]. intros l Hloc. eapply sim_bind_both; [by apply sim_load|]. intros e He.
    apply sim_read; [|intros _; solve_sim]. destruct (bool_decide _); by apply sim_store.
Qed.

Lemma sim_append_o l kv n m a v p :
  pa_loc P l →
  self true false eq (ht_append_o (Some l) (dup_str k) kv n m a v p).
Proof.
  intros Hl. unfold ht_append_o. eapply sim_bind_both; [apply sim_hash|]. intros bin ->.
  apply sim_read; [solve_sim|]. intros arg. eapply sim_bind_eq; [by apply sim_entry_update|]. intros _. solve_sim.
Qed.

(** ** The handlers *)
Lemma sim_encrypt f kv c j kl vl n : self f f eq (enclave_encrypt kv c j kl vl n).
Proof. unfold enclave_encrypt. solve_sim. Qed.
Lemma sim_verify_entry f e : self f f eq (verify_entry e).
Proof. unfold verify_entry, enclave_verification. solve_sim. Qed.
Lemma sim_check_tree f r : self f f eq (check_tree r).
Proof. unfold check_tree. solve_sim. Qed.
Lemma sim_respond f c x o n : self f f eq (respond c x o n).
Proof. unfold respond. solve_sim. Qed.
Local Hint Resolve sim_encrypt sim_verify_entry sim_check_tree sim_respond : sim.

Lemma sim_fact {A} f g (Q : A → Prop) (m : E A) :
  (∀ s a s', m s = Ok (a, s') → Q a) → self f g eq m → sim f g (both Q) m m.
Proof.
  intros HQ Hm s t a s' Hst H1. destruct (Hm _ _ _ _ Hst H1) as (b & t' & E & Hst' & <-).
  exists a, t'. split; [done|]. split; [done|]. split; [done|by eapply HQ].
Qed.

Lemma sim_parse_key f cipher :
  get_request cipher k → blen cipher < 2 ^ 32 →
  self f f (both (λ r : token * bytes * Z, r.1.2 = dup_str k)) (parse_key cipher).
Proof.
  intros Hreq Hlen. apply sim_fact; [|unfold parse_key; solve_sim].
  intros s a s' Hrun. destruct (parse_get s cipher k Hreq Hlen) as (t & Hpk & _). by rewrite Hpk in Hrun; injection Hrun as <- _.
Qed.
Lemma sim_parse_val f t : self f f eq (parse_val t).
Proof. unfold parse_val. solve_sim. Qed.

Lemma sim_set cipher v : set_request cipher k v → blen cipher < 2 ^ 32 → self true false eq (enclave_set cipher).
Proof.
  intros Hreq Hlen. unfold enclave_set.
  eapply sim_bind_both; [apply sim_parse_key; [by eapply set_get_request|done]|]. intros [[t key] n] Hkey. simpl in Hkey. subst key.
  apply sim_read; [apply sim_parse_val|]. intros [val vn]. eapply sim_bind_both; [apply sim_get|]. intros [fd pos] Hf.
  unfold found_inside in Hf. simpl in Hf.
  eapply sim_bind_both; [apply sim_hash|]. intros h ->. apply sim_read; [solve_sim|]. intros hint. apply sim_read.
  { destruct fd as [fd|]; [|solve_sim]. eapply sim_bind_both; [by apply sim_load, Hf|]. intros e _. solve_sim. }
  intros [[nac_ prev] ins]. apply sim_read; [solve_sim|]. intros [kv m].
  eapply sim_bind_eq; [by apply sim_set_o|]. intros _. solve_sim.
Qed.

Lemma sim_append cipher v : set_request cipher k v → blen cipher < 2 ^ 32 → self true false eq (enclave_append cipher).
Proof.
  intros Hreq Hlen. unfold enclave_append.
  eapply sim_bind_both; [apply sim_parse_key; [by eapply set_get_request|done]|]. intros [[t key] n] Hkey. simpl in Hkey. subst key.
  apply sim_read; [apply sim_parse_val|]. intros [val vn]. eapply sim_bind_both; [apply sim_get|]. intros [fd pos] Hf.
  unfold found_inside in Hf. simpl in Hf.
  eapply sim_bind_both; [apply sim_hash|]. intros h ->. apply sim_read; [solve_sim|]. intros hint.
  destruct fd as [fd|]; [|eapply sim_weaken; solve_sim]. eapply sim_bind_both; [by apply sim_load, Hf|]. intros e _.
  do 5 (apply sim_read; [solve_sim|]; intros ?). apply sim_read; [solve_sim|]. intros [kv m].
  eapply sim_bind_eq; [by apply sim_append_o, Hf|]. intros _. solve_sim.
Qed.

Lemma sim_get_handler cipher : get_request cipher k → blen cipher < 2 ^ 32 → self true true eq (enclave_get cipher).
Proof.
  intros Hreq Hlen. unfold enclave_get. eapply sim_bind_both; [by apply sim_parse_key|]. intros [[t key] n] Hkey. simpl in Hkey. subst key.
  eapply sim_bind_both; [apply sim_get|]. intros [fd pos] Hf. destruct fd as [fd|]; [|solve_sim].
  eapply sim_bind_both; [apply sim_hash|]. intros h ->. eapply sim_bind_both; [by apply sim_load, Hf|]. intros e _. solve_sim.
Qed.

(** A job that returns from [s0] returns the same from [t0]. *)
Lemma sim_job cipher r :
  req_key r = k → encodes cipher r → blen cipher < 2 ^ 32 → self true false eq (worker_job cipher).
Proof.
  intros Hkey Henc Hlen s t v s' Hst. destruct r as [k'|k' x|k' x]; simpl in *; subst k'; destruct Henc as [Hcmd Hreq].
  - rewrite !worker_job_get by done. by apply (sim_weaken _ _ _ _ _ (sim_fmap _ _ Reply _ _ (sim_get_handler cipher Hreq Hlen)) s t).
  - rewrite !worker_job_set by done. by apply (sim_fmap _ _ Reply _ _ (sim_set cipher x Hreq Hlen) s t).
  - rewrite !worker_job_app by done. by apply (sim_fmap _ _ Reply _ _ (sim_append cipher x Hreq Hlen) s t).
Qed.
End isolation.
