(* ===== verification/Dispatch.v ===== *)
(** * Dispatcher and workers, [Enclave/Enclave.cpp]

    [enclave_message_pass] runs in the hotcalls responder: it answers control
    messages itself and puts every other request into the queue of the worker that
    owns the bucket of its key.  Each worker ([enclave_worker_thread]) works on the
    front of its queue outside the lock and removes it when it is done, so the
    steps of several workers and of the responder interleave.

    Two things depend on the workers that have started.  The mutex and the condition variable
    of a queue are only allocated by [enclave_init_values]; the worker initialises them, and
    destroys them when it quits.  And the ecalls take the table header by [[in]] (Enclave.edl),
    so [ht_enclave] is a copy that lives as long as the ecall that has assigned it: it dangles
    after [enclave_init_values] has returned, until a worker assigns its own. *)

From S2P Require Import Prelude CString Common Hash Enclave.

(** Where a worker is in its loop. *)
Inductive worker :=
  | WLoop              (* at the top of the loop, with the lock *)
  | WJob (j : job)     (* works on [cur_job], lock released *)
  | WPop               (* the answer is sent, the job is still in the queue *)
  | WQuit              (* has returned after the quit job *)
  | WLeft.             (* has left the loop at an unknown command *)

#[global] Instance job_eq_dec : EqDecision job.
Proof. solve_decision. Defined.

(** The globals [num], [exit_count], [queue], the workers by [thread_id], and the
    messages written to client sockets.  [pushed] and [ran] are history variables:
    the jobs put into a queue and the jobs a worker has run, with the thread.  [header] is
    the worker whose copy of the table header [ht_enclave] is, if there is one. *)
Record dispatch := mkDispatch {
  d_enclave : enclave;
  queue : list (list job);
  num : Z;
  exit_count : Z;
  workers : list worker;
  sent : list (Z * bytes);
  pushed : list (Z * job);
  ran : list (Z * job);
  header : option nat;
}.

Abbreviation D := (M dispatch).

Definition set_enclave (s : enclave) (d : dispatch) : dispatch :=
  mkDispatch s (queue d) (num d) (exit_count d) (workers d) (sent d) (pushed d) (ran d) (header d).
Definition set_queue (q : list (list job)) (d : dispatch) : dispatch :=
  mkDispatch (d_enclave d) q (num d) (exit_count d) (workers d) (sent d) (pushed d) (ran d) (header d).
Definition set_exit_count (n : Z) (d : dispatch) : dispatch :=
  mkDispatch (d_enclave d) (queue d) (num d) n (workers d) (sent d) (pushed d) (ran d) (header d).
Definition set_workers (n : Z) (w : list worker) (d : dispatch) : dispatch :=
  mkDispatch (d_enclave d) (queue d) n (exit_count d) w (sent d) (pushed d) (ran d) (header d).
Definition set_header (k : option nat) (d : dispatch) : dispatch :=
  mkDispatch (d_enclave d) (queue d) (num d) (exit_count d) (workers d) (sent d) (pushed d) (ran d) k.
Definition add_sent (x : Z * bytes) (d : dispatch) : dispatch :=
  mkDispatch (d_enclave d) (queue d) (num d) (exit_count d) (workers d) (sent d ++ [x]) (pushed d) (ran d) (header d).
Definition log_push (x : Z * job) (d : dispatch) : dispatch :=
  mkDispatch (d_enclave d) (queue d) (num d) (exit_count d) (workers d) (sent d) (pushed d ++ [x]) (ran d) (header d).
Definition log_run (x : Z * job) (d : dispatch) : dispatch :=
  mkDispatch (d_enclave d) (queue d) (num d) (exit_count d) (workers d) (sent d) (pushed d) (ran d ++ [x]) (header d).

(** Enclave code run by one of the threads. *)
Definition in_enclave {A} (m : E A) : D A := λ d,
  match m (d_enclave d) with
  | Ok (a, s) => Ok (a, set_enclave s d)
  | Fault f => Fault f
  end.

(** The end of [enclave_init_values]: one empty queue per thread, and the copy of the header
    is freed with the return of the ecall. *)
Definition init_queues (s : enclave) : dispatch :=
  mkDispatch s (replicate (Z.to_nat (num_threads (arg_enclave s))) []) 0 0 [] [] [] [] None.

(** A worker that has not returned from its ecall; [None] is one that has assigned its header and
    not taken its number yet. *)
Definition in_ecall (w : option worker) : bool := match w with Some (WQuit | WLeft) => false | _ => true end.

(** [ht_enclave] is dereferenced. *)
Definition use_header : D unit :=
  d ← gets id;
  match header d with
  | Some k => if in_ecall (workers d !! k) then mret tt else raise Bad_ptr
  | None => raise Bad_ptr
  end.

(** [sgx_thread_mutex_lock(&queue_mutex[i])] by another thread than worker [i]: the mutex is
    one from the start of the worker until it quits. *)
Definition use_mutex (i : Z) : D unit :=
  ws ← gets workers;
  match ws !! Z.to_nat i with
  | None | Some WQuit => raise Uninit
  | Some _ => mret tt
  end.

(** [queue[i].push(j)] under the lock of queue [i] *)
Definition push (i : Z) (j : job) : D unit :=
  qs ← gets queue;
  q ← lift (zlookup qs i);
  use_mutex i;;
  qs' ← lift (zupdate qs i (q ++ [j]));
  modify (log_push (i, j) ∘ set_queue qs').

(** [queue[i].pop()] under the lock of queue [i] *)
Definition pop (i : Z) : D unit :=
  qs ← gets queue;
  q ← lift (zlookup qs i);
  qs' ← lift (zupdate qs i (tail q));
  modify (set_queue qs').

(** The ocall [message_return(buf, n, sock)] *)
Definition message_return (buf : bytes) (n sock : Z) : D unit :=
  x ← lift (read_at buf 0 n);
  modify (add_sent (sock, x)).

Definition get_arg : D Arg := gets (arg_enclave ∘ d_enclave).

Section dispatch.
Context `{Platform}.

(** The worker a key belongs to. *)
Definition thread_of (key : bytes) : E Z :=
  s ← gets id;
  hash_val ← ht_hash key;
  per ← lift (zdiv (ht_size (ht_enclave s)) (num_threads (arg_enclave s)));
  lift (zdiv hash_val per).

(** The job that ends a worker. *)
Definition quit_job (n : Z) : res job :=
  z ← zalloc n; b ← write_at z 0 (str "quit"); Ok (mkJob (-1) b).

(** [enclave_message_pass]; returns the buffer, in which [strtok_r] has overwritten
    the end of the key. *)
Definition enclave_message_pass (p : EcallParams) : D bytes :=
  let cipher := ep_buf p in
  arg ← get_arg;
  is_exit ← in_enclave (is_cmd cipher "EXIT" "exit" 4);
  if (is_exit : bool) then
    message_return cipher (max_buf_size arg) (ep_client_sock p);;
    n ← gets exit_count;
    modify (set_exit_count (n + 1));;
    (if n + 1 =? ep_num_clients p then
       in_enclave (print "All threads are finished");;
       for_each (seqZ 0 (num_threads arg)) (λ i _,
         j ← lift (quit_job (max_buf_size arg)); push i j) tt
     else mret tt);;
    mret cipher
  else
    is_load ← lift (strncmp_eq cipher (str "LOADDONE") 8);
    if (is_load : bool) then
      in_enclave (print "Load process is done");;
      message_return cipher (max_buf_size arg) (ep_client_sock p);;
      mret cipher
    else
      b ← lift (read_at cipher 0 (max_buf_size arg));
      '(t, key, _) ← in_enclave (parse_key cipher);
      use_header;;
      thread_id ← in_enclave (thread_of key);
      push thread_id (mkJob (ep_client_sock p) b);;
      mret (tok_buf t).

(** ** Workers *)

(** The prologue of [enclave_worker_thread]: the thread assigns [ht_enclave] and
    [MACbuf_enclave], takes the next number and initialises the mutex of its queue.  [ht_] and
    [MACbuf_] are what the host passes, with the contents of the memory they point to.  The
    assignments are made without the lock, so after it the header can be the copy of any
    thread that has come this far; [k] is the number this thread has or will get. *)
Definition worker_start (ht_ : hashtable) (MACbuf_ : list MACentry) (k : nat) : D unit :=
  in_enclave (modify (set_tables ht_ MACbuf_));;
  modify (set_header (Some k));;
  n ← gets num;
  qs ← gets queue;
  _ ← lift (zlookup qs n);
  ws ← gets workers;
  modify (set_workers (n + 1) (ws ++ [WLoop])).

Definition set_worker (i : Z) (w : worker) : D unit :=
  n ← gets num; ws ← gets workers; ws' ← lift (zupdate ws i w); modify (set_workers n ws').

(** The next step of worker [i]; with an empty queue it waits for the condition
    variable and looks again.  A job that replies has used the table header. *)
Definition worker_step (i : Z) : D unit :=
  ws ← gets workers;
  w ← lift (zlookup ws i);
  match w with
  | WLoop =>
      qs ← gets queue;
      q ← lift (zlookup qs i);
      match q with
      | [] => mret tt
      | j :: _ => set_worker i (WJob j)
      end
  | WJob j =>
      arg ← get_arg;
      v ← in_enclave (worker_job (job_buf j));
      modify (log_run (i, j));;
      match v with
      | Reply cipher =>
          use_header;;
          message_return cipher (max_buf_size arg) (job_client_sock j);;
          set_worker i WPop
      | Quit => pop i;; set_worker i WQuit
      | Untyped => set_worker i WLeft
      end
  | WPop => pop i;; set_worker i WLoop
  | WQuit | WLeft => mret tt
  end.

(** ** Interleavings *)
Inductive event :=
  | EStart (ht_ : hashtable) (MACbuf_ : list MACentry) (k : nat)   (* a worker starts *)
  | EWorker (i : nat)           (* worker [i] makes a step *)
  | ERequest (p : EcallParams). (* the responder passes a message *)

Definition event_step (ev : event) : D unit :=
  match ev with
  | EStart ht_ MACbuf_ k => worker_start ht_ MACbuf_ k
  | EWorker i => worker_step (Z.of_nat i)
  | ERequest p => enclave_message_pass p;; mret tt
  end.

(** [dsteps d evs d']: the schedule [evs] leads from [d] to [d']. *)
Inductive dsteps : dispatch → list event → dispatch → Prop :=
  | dsteps_nil d : dsteps d [] d
  | dsteps_snoc d evs d1 ev d2 :
      dsteps d evs d1 → event_step ev d1 = Ok (tt, d2) → dsteps d (evs ++ [ev]) d2.

End dispatch.
