(* ===== verification/DispatchProofs.v ===== *)
(** * Queues, routing and schedules

    Whatever the interleaving: each worker runs the jobs put into its queue exactly
    once and in order, a request goes to the worker that owns its bucket, and the
    store behaves like a map that serves the jobs in the order they ran. *)

From S2P Require Import Prelude CString Common Hash Core HashTable Enclave Config Rep CoreProofs.
From S2P Require Import RootProofs HashTableProofs EnclaveProofs Service Dispatch.
From S2P Require Import EnclaveService.

(** The jobs of worker [i] in a history. *)
Definition jobs_of (i : nat) (l : list (Z * job)) : list job :=
  (filter (λ x, x.1 = Z.of_nat i) l).*2.

(** The jobs of a queue the worker has not run yet: its front is done when the
    worker is about to remove it or has left the loop over it. *)
Definition pending (w : option worker) (q : list job) : list job :=
  match w with Some (WPop | WLeft) => tail q | _ => q end.

(** The front of the queue while a worker is busy with it. *)
Definition at_front (w : worker) (q : list job) : Prop :=
  match w with
  | WJob j => head q = Some j
  | WPop | WLeft => q ≠ []
  | WLoop | WQuit => True
  end.

Record fifo (d : dispatch) : Prop := {
  ff_num : num d = blen (workers d);
  ff_bound : blen (workers d) ≤ blen (queue d);
  ff_order i q : queue d !! i = Some q →
    jobs_of i (pushed d) = jobs_of i (ran d) ++ pending (workers d !! i) q;
  ff_front i w : workers d !! i = Some w → ∃ q, queue d !! i = Some q ∧ at_front w q;
  ff_header : workers d ≠ [] → is_Some (header d);
}.

(** [ht_enclave] is the copy of a worker that has not returned. *)
Definition has_header (d : dispatch) : Prop := ∃ k, header d = Some k ∧ in_ecall (workers d !! k) = true.

(** Every queue has a worker, which has initialised its mutex and not quit. *)
Definition manned (d : dispatch) : Prop := ∀ i, (i < length (queue d))%nat → ∃ w, workers d !! i = Some w ∧ w ≠ WQuit.

Lemma jobs_of_snoc i l n j :
  jobs_of i (l ++ [(n, j)]) = jobs_of i l ++ if decide (n = Z.of_nat i) then [j] else [].
Proof.
  unfold jobs_of. rewrite filter_app, fmap_app. f_equal. rewrite filter_cons. simpl.
  by destruct (decide _).
Qed.

(** Reading and writing a queue or a worker by index. *)
Lemma zlookup_zupdate {A} (l l' : list A) i x y :
  zlookup l i = Ok x → zupdate l i y = Ok l' →
  ∃ k, i = Z.of_nat k ∧ l !! k = Some x ∧ (k < length l)%nat ∧ l' = <[k := y]> l.
Proof.
  intros [Hi Hx]%zlookup_inv. rewrite zupdate_ok by done. intros [= <-].
  exists (Z.to_nat i). split; [lia|]. split; [done|]. split; [by eapply lookup_lt_Some|done].
Qed.

Lemma zupdate_inv {A} (l l' : list A) i y :
  zupdate l i y = Ok l' → 0 ≤ i < blen l ∧ l' = <[Z.to_nat i := y]> l.
Proof.
  unfold zupdate. destruct (Z.leb_spec 0 i), (Z.ltb_spec i (blen l)); simpl; try done.
  by intros [= <-].
Qed.

(** Turns a hypothesis that a command returned into what its parts did. *)
Ltac minv H :=
  lazymatch type of H with
  | (_ ≫= _) _ = Ok _ =>
      let a := fresh "a" in let s := fresh "s" in let H1 := fresh "H" in let H2 := fresh "H" in
      apply bind_inv in H as (a & s & H1 & H2); minv H1; minv H2
  | lift _ _ = Ok _ => let E := fresh "E" in apply lift_inv in H as [E ->]
  | gets _ _ = Ok _ => first [injection H as <- <- | injection H as <-]
  | mret _ _ = Ok _ => first [injection H as <- <- | injection H as <-]
  | modify _ _ = Ok _ => first [injection H as <- <- | injection H as <-]
  | _ => idtac
  end.

Section fifo.
Context `{Platform}.
Implicit Types d : dispatch.

Lemma use_header_ok d : has_header d → use_header d = Ok (tt, d).
Proof. intros (k & Hk & Hin). unfold use_header. msimpl. unfold id. by rewrite Hk, Hin. Qed.

(** A worker that moves and does not return leaves the header alone. *)
Lemma has_header_worker d d' i w :
  has_header d → header d' = header d → workers d' = <[i := w]> (workers d) → in_ecall (Some w) = true → has_header d'.
Proof.
  intros (k & Hk & Hin) Eh Ew Hw. exists k. rewrite Eh, Ew. split; [done|].
  destruct (decide (i = k)) as [->|Hne]; [|by rewrite list_lookup_insert_ne].
  destruct (decide (k < length (workers d))%nat); [by rewrite list_lookup_insert_eq|].
  by rewrite list_insert_ge by lia.
Qed.

Lemma use_header_run d u d' : use_header d = Ok (u, d') → d' = d ∧ has_header d.
Proof.
  unfold use_header, has_header. intros (d1 & d2 & [= <- <-] & Hr)%bind_inv. unfold id in Hr.
  destruct (header d) as [k|]; [|done]. destruct (in_ecall _) eqn:E; [|done]. injection Hr as _ <-. eauto.
Qed.

Lemma use_mutex_ok d i w : workers d !! i = Some w → w ≠ WQuit → use_mutex (Z.of_nat i) d = Ok (tt, d).
Proof. intros Hw Hq. unfold use_mutex. msimpl. rewrite Nat2Z.id, Hw. by destruct w. Qed.

Lemma use_mutex_run i d u d' : use_mutex i d = Ok (u, d') → d' = d.
Proof.
  unfold use_mutex. intros (ws & d1 & [= <- <-] & Hr)%bind_inv.
  destruct (workers d !! _) as [[]|]; by inversion Hr.
Qed.

Lemma push_run d i j u d' :
  push i j d = Ok (u, d') →
  ∃ k q, i = Z.of_nat k ∧ queue d !! k = Some q ∧ (k < length (queue d))%nat ∧
    d' = log_push (i, j) (set_queue (<[k := q ++ [j]]> (queue d)) d).
Proof.
  unfold push. intros Hr. minv Hr. apply use_mutex_run in H0 as ->.
  destruct (zlookup_zupdate _ _ _ _ _ E E0) as (k & -> & Hq & Hk & ->). by eexists k, _.
Qed.

Lemma push_ok d i j q w :
  queue d !! i = Some q → workers d !! i = Some w → w ≠ WQuit →
  push (Z.of_nat i) j d = Ok (tt, log_push (Z.of_nat i, j) (set_queue (<[i := q ++ [j]]> (queue d)) d)).
Proof.
  intros Hq Hw Hne. unfold push. msimpl. rewrite (bind_lift _ _ _ _ (zlookup_nat _ _ _ Hq)).
  rewrite (bind_ok _ _ _ _ _ (use_mutex_ok d i w Hw Hne)).
  by rewrite (bind_lift _ _ _ _ (zupdate_nat _ _ _ (lookup_lt_Some _ _ _ Hq))).
Qed.

Lemma pop_run d i u d' :
  pop i d = Ok (u, d') →
  ∃ k q, i = Z.of_nat k ∧ queue d !! k = Some q ∧ (k < length (queue d))%nat ∧
    d' = set_queue (<[k := tail q]> (queue d)) d.
Proof.
  unfold pop. intros Hr. minv Hr.
  destruct (zlookup_zupdate _ _ _ _ _ E E0) as (k & -> & Hq & Hk & ->). by eexists k, _.
Qed.

Lemma set_worker_run d i w u d' :
  set_worker (Z.of_nat i) w d = Ok (u, d') →
  d' = set_workers (num d) (<[i := w]> (workers d)) d ∧ (i < length (workers d))%nat.
Proof.
  unfold set_worker. intros Hr. minv Hr. apply zupdate_inv in E as [Hi ->].
  rewrite Nat2Z.id. split; [done|]. unfold blen in Hi. lia.
Qed.

Lemma in_enclave_run {A} (m : E A) d a d' :
  in_enclave m d = Ok (a, d') → ∃ s, m (d_enclave d) = Ok (a, s) ∧ d' = set_enclave s d.
Proof. unfold in_enclave. destruct (m _) as [[]|]; naive_solver. Qed.

Lemma preserves_in_enclave {A} (P : dispatch → Prop) (m : E A) :
  (∀ d s, P d → P (set_enclave s d)) → preserves P (in_enclave m).
Proof. intros HP d a d' Hd (s & _ & ->)%in_enclave_run. auto. Qed.

Lemma fifo_in_enclave {A} (m : E A) : preserves fifo (in_enclave m).
Proof. apply preserves_in_enclave. by intros d s []. Qed.
Lemma fifo_message_return b n c : preserves fifo (message_return b n c).
Proof.
  unfold message_return. apply preserves_bind; [apply preserves_lift|]. intros x.
  apply preserves_modify. by intros d [].
Qed.
Lemma fifo_exit_count n : preserves fifo (modify (set_exit_count n)).
Proof. apply preserves_modify. by intros d []. Qed.

Lemma pending_snoc w q j : (∀ x, w = Some x → at_front x q) → pending w (q ++ [j]) = pending w q ++ [j].
Proof.
  destruct w as [[]|]; try done; intros Hw; specialize (Hw _ eq_refl); by destruct q.
Qed.

Lemma at_front_snoc w q j : at_front w q → at_front w (q ++ [j]).
Proof. destruct w; simpl; try done; by destruct q. Qed.

Lemma fifo_push i j : preserves fifo (push i j).
Proof.
  intros d u d' [Hn Hb Ho Hf Hh] (k & q & -> & Hq & Hk & ->)%push_run. split; simpl; try done.
  - by rewrite blen_insert.
  - intros i q'. rewrite jobs_of_snoc. destruct (decide (k = i)) as [->|Hne].
    + rewrite list_lookup_insert_eq by done. intros [= <-].
      rewrite decide_True, (Ho _ _ Hq), <-app_assoc by done. f_equal. symmetry. apply pending_snoc.
      intros w Hw. destruct (Hf _ _ Hw) as (q' & Hq' & Hfr). congruence.
    + rewrite list_lookup_insert_ne by done. intros Hq'. rewrite decide_False by lia.
      by rewrite app_nil_r, (Ho _ _ Hq').
  - intros i w Hw. destruct (Hf _ _ Hw) as (q' & Hq' & Hfr). destruct (decide (k = i)) as [->|Hne].
    + rewrite list_lookup_insert_eq by done. eexists. split; [done|].
      rewrite Hq in Hq'. injection Hq' as <-. by apply at_front_snoc.
    + rewrite list_lookup_insert_ne by done. eauto.
Qed.
Lemma fifo_use_header : preserves fifo use_header.
Proof. by intros d u d' Hd [-> _]%use_header_run. Qed.
Local Hint Resolve fifo_in_enclave fifo_message_return fifo_exit_count fifo_push fifo_use_header : preserves.

Lemma fifo_request p : preserves fifo (enclave_message_pass p).
Proof. unfold enclave_message_pass, get_arg. solve_preserves. Qed.

Lemma fifo_start ht_ mb k : preserves fifo (worker_start ht_ mb k).
Proof.
  intros d u d' [Hn Hb Ho Hf Hh] Hr. unfold worker_start in Hr. minv Hr.
  apply in_enclave_run in H0 as (s1 & _ & ->). simpl in E |- *.
  apply zlookup_inv in E as [[_ Hlt] Hq]. rewrite Hn in Hlt, Hq. split; simpl.
  - rewrite Hn, blen_app. done.
  - rewrite blen_app, blen_cons, blen_nil. lia.
  - intros i q Hi. rewrite (Ho _ _ Hi). f_equal. rewrite lookup_app.
    destruct (workers d !! i) as [w|]; [done|]. by destruct (i - _)%nat.
  - intros i w. rewrite lookup_app_Some. intros [Hw|[Hge Hw]]; [eauto|].
    apply list_lookup_singleton_Some in Hw as [Hz <-].
    assert (i = Z.to_nat (blen (workers d))) as -> by (unfold blen; lia).
    eexists. split; [exact Hq|done].
  - done.
Qed.

(** A step of worker [i] that takes its queue from [q] to [q'], its place in the
    loop to [w'] and runs the jobs [js]. *)
Lemma fifo_worker d i w w' q q' s sn js :
  fifo d → workers d !! i = Some w → queue d !! i = Some q →
  pending (Some w) q = js ++ pending (Some w') q' → at_front w' q' →
  fifo (mkDispatch s (<[i := q']> (queue d)) (num d) (exit_count d) (<[i := w']> (workers d)) sn
          (pushed d) (ran d ++ ((λ j, (Z.of_nat i, j)) <$> js)) (header d)).
Proof.
  intros [Hn Hb Ho Hf Hh] Hw Hq Hp Hfr. apply lookup_lt_Some in Hw as Hwl, Hq as Hql.
  assert (∀ k l, jobs_of k (l ++ ((λ j, (Z.of_nat i, j)) <$> js)) =
                 jobs_of k l ++ if decide (i = k) then js else []) as Hjs.
  { clear. intros k l. revert l. induction js as [|j js IH]; intros l.
    - rewrite app_nil_r. by destruct (decide _); rewrite app_nil_r.
    - rewrite fmap_cons, cons_middle, app_assoc, IH, jobs_of_snoc, <-app_assoc. f_equal.
      destruct (decide (i = k)) as [->|]; [by rewrite decide_True|]. by rewrite decide_False by lia. }
  split; simpl; rewrite ?blen_insert; try done.
  - intros k q0. rewrite Hjs. destruct (decide (i = k)) as [->|Hne].
    + rewrite !list_lookup_insert_eq by done. intros [= <-].
      rewrite (Ho _ _ Hq), Hw, Hp. by rewrite app_assoc.
    + rewrite !list_lookup_insert_ne by done. rewrite app_nil_r. apply Ho.
  - intros k w0. destruct (decide (i = k)) as [->|Hne].
    + rewrite !list_lookup_insert_eq by done. intros [= <-]. eauto.
    + rewrite !list_lookup_insert_ne by done. apply Hf.
  - intros _. apply Hh. intros Hnil. by rewrite Hnil in Hw.
Qed.

Lemma fifo_step i : preserves fifo (worker_step (Z.of_nat i)).
Proof.
  intros d u d' HF Hr. unfold worker_step in Hr. apply bind_inv in Hr as (ws & s0 & [= <- <-] & Hr).
  apply bind_inv in Hr as (w & s0 & [Hw ->]%lift_inv & Hr).
  apply zlookup_inv in Hw as [_ Hw]. rewrite Nat2Z.id in Hw.
  destruct (ff_front _ HF _ _ Hw) as (q & Hq & Hfr). apply lookup_lt_Some in Hw as Hwl, Hq as Hql.
  assert (∀ s w' q' sn js, pending (Some w) q = js ++ pending (Some w') q' → at_front w' q' →
    fifo (mkDispatch s (<[i := q']> (queue d)) (num d) (exit_count d) (<[i := w']> (workers d)) sn
            (pushed d) (ran d ++ ((λ j, (Z.of_nat i, j)) <$> js)) (header d))) as Hstep
    by (intros; by eapply fifo_worker).
  assert (∀ s w' sn js, pending (Some w) q = js ++ pending (Some w') q → at_front w' q →
    fifo (mkDispatch s (queue d) (num d) (exit_count d) (<[i := w']> (workers d)) sn
            (pushed d) (ran d ++ ((λ j, (Z.of_nat i, j)) <$> js)) (header d))) as Hstay.
  { intros s w' sn js H1 H2. rewrite <-(list_insert_id _ _ _ Hq). by apply Hstep. }
  destruct w as [|j| | |].
  - (* look at the queue *)
    apply bind_inv in Hr as (qs & s0 & [= <- <-] & Hr).
    apply bind_inv in Hr as (q0 & s0 & [H0 ->]%lift_inv & Hr).
    apply zlookup_inv in H0 as [_ H0]. rewrite Nat2Z.id, Hq in H0. injection H0 as <-.
    destruct q as [|j q]; [by injection Hr as <- <-|].
    apply set_worker_run in Hr as [-> _].
    pose proof (Hstay (d_enclave d) (WJob j) (sent d) [] eq_refl eq_refl) as HS.
    simpl in HS. rewrite app_nil_r in HS. done.
  - (* run the job *)
    destruct q as [|j' q]; [done|]. injection Hfr as ->.
    apply bind_inv in Hr as (arg & s0 & [= <- <-] & Hr).
    apply bind_inv in Hr as (v & s0 & (s & Hrun & ->)%in_enclave_run & Hr).
    apply bind_inv in Hr as (? & s0 & [= <- <-] & Hr).
    destruct v as [buf| |].
    + apply bind_inv in Hr as (? & s0 & [-> _]%use_header_run & Hr).
      apply bind_inv in Hr as (? & s1 & Hm & [-> _]%set_worker_run).
      unfold message_return in Hm. minv Hm. by apply (Hstay s WPop _ [j]).
    + apply bind_inv in Hr as (? & s1 & (k & q0 & Hk & Hq0 & _ & ->)%pop_run & [-> _]%set_worker_run).
      apply Nat2Z.inj in Hk as <-. simpl in Hq0. rewrite Hq in Hq0. injection Hq0 as <-.
      by apply (Hstep s WQuit q _ [j]).
    + apply set_worker_run in Hr as [-> _]. by apply (Hstay s WLeft _ [j]).
  - (* remove it *)
    apply bind_inv in Hr as (? & s1 & (k & q0 & Hk & Hq0 & _ & ->)%pop_run & [-> _]%set_worker_run).
    apply Nat2Z.inj in Hk as <-. simpl in Hq0. rewrite Hq in Hq0. injection Hq0 as <-.
    pose proof (Hstep (d_enclave d) WLoop (tail q) (sent d) [] eq_refl I) as HS.
    simpl in HS. rewrite app_nil_r in HS. done.
  - by injection Hr as <- <-.
  - by injection Hr as <- <-.
Qed.

Lemma fifo_init s : fifo (init_queues s).
Proof.
  split; simpl; try done; [apply blen_nonneg|].
  intros i q Hq. apply lookup_replicate in Hq as [-> _]. done.
Qed.

Lemma fifo_reachable s evs d : dsteps (init_queues s) evs d → fifo d.
Proof.
  intros Hd. remember (init_queues s) as d0 eqn:E.
  induction Hd as [d|d evs d1 ev d2 _ IH Hs]; subst; [apply fifo_init|].
  specialize (IH eq_refl). destruct ev as [ht_ mb k|i|p]; simpl in Hs.
  - by eapply fifo_start.
  - by eapply fifo_step.
  - apply bind_inv in Hs as (b & d3 & Hs & [= <-]). by eapply fifo_request.
Qed.
End fifo.

(** ** Routing *)
Section routing.
Context `{Platform}.
Implicit Types (s : enclave) (d : dispatch) (k : bytes).

(** Buckets per worker. *)
Definition per_worker s : Z := ht_size (ht_enclave s) / num_threads (arg_enclave s).

(** The buckets are shared out evenly to the workers, and no root is split. *)
Record threads_ok s : Prop := {
  to_size : 0 < ht_size (ht_enclave s) ≤ INT_MAX;
  to_pos : 0 < num_threads (arg_enclave s);
  to_even : ht_size (ht_enclave s) = num_threads (arg_enclave s) * per_worker s;
  to_roots : ∃ c, per_worker s = c * ratio_root_per_buckets s ∧ 0 < ratio_root_per_buckets s;
}.

Lemma thread_of_run s k :
  nonul k → 0 < ht_size (ht_enclave s) ≤ INT_MAX → 0 < num_threads (arg_enclave s) → 0 < per_worker s →
  thread_of (dup_str k) s = Ok (bucket_of (ht_size (ht_enclave s)) k / per_worker s, s).
Proof.
  intros Hk Hs Hn Hp. unfold thread_of. msimpl.
  rewrite (bind_ok _ _ _ _ _ (ht_hash_dup s k Hk Hs)).
  pose proof (bucket_of_range _ k Hs).
  assert (Z.quot (ht_size (ht_enclave s)) (num_threads (arg_enclave s)) = per_worker s) as Hq.
  { unfold per_worker. rewrite Z.quot_div_nonneg by lia. done. }
  rewrite (bind_lift _ _ _ (per_worker s)).
  - unfold lift, zdiv. rewrite (proj2 (Z.eqb_neq _ _)) by lia. simpl.
    by rewrite Z.quot_div_nonneg by lia.
  - unfold zdiv, id. rewrite (proj2 (Z.eqb_neq _ _)) by lia. by rewrite Hq.
Qed.

Lemma per_worker_pos s : threads_ok s → 0 < per_worker s.
Proof. intros [Hs Hn He _]. nia. Qed.

Lemma thread_of_ok s k :
  threads_ok s → nonul k →
  ∃ i, thread_of (dup_str k) s = Ok (Z.of_nat i, s) ∧ Z.of_nat i < num_threads (arg_enclave s) ∧
    Z.of_nat i = bucket_of (ht_size (ht_enclave s)) k / per_worker s.
Proof.
  intros Ht Hk. pose proof (per_worker_pos s Ht) as Hp. destruct Ht as [Hs Hn He _].
  pose proof (bucket_of_range _ k Hs) as Hb.
  assert (0 ≤ bucket_of (ht_size (ht_enclave s)) k / per_worker s < num_threads (arg_enclave s)) as Hr.
  { split; [apply Z.div_pos; lia|]. apply Z.div_lt_upper_bound; lia. }
  exists (Z.to_nat (bucket_of (ht_size (ht_enclave s)) k / per_worker s)).
  rewrite Z2Nat.id by lia. split; [by apply thread_of_run|lia].
Qed.

(** Buckets below one root belong to one worker. *)
Lemma same_root_same_worker s (i j : nat) :
  threads_ok s → Z.of_nat j / ratio_root_per_buckets s = Z.of_nat i / ratio_root_per_buckets s →
  Z.of_nat j / per_worker s = Z.of_nat i / per_worker s.
Proof.
  intros Ht Hr. pose proof (per_worker_pos s Ht) as Hp. destruct Ht as [_ _ _ (c & Hc & Hpos)].
  assert (0 < c) by nia. rewrite Hc, (Z.mul_comm c), <-!Z.div_div by lia. by rewrite Hr.
Qed.

(** A request up to its routing. *)
Lemma pass_request_route d p k :
  let s := d_enclave d in
  (∃ c, encodes (ep_buf p) c ∧ req_key c = k) → buffer_ok s (ep_buf p) →
  ∃ buf, take 4 buf = take 4 (ep_buf p) ∧
    enclave_message_pass p d =
    (use_header;; tid ← in_enclave (thread_of (dup_str k)); push tid (mkJob (ep_client_sock p) (ep_buf p));; mret buf) d.
Proof.
  intros s (c & Henc & Hk) [Hmax Hbuf].
  assert (get_request (ep_buf p) k ∧
    is_cmd (ep_buf p) "EXIT" "exit" 4 s = Ok (false, s) ∧
    strncmp_eq (ep_buf p) (str "LOADDONE") 8 = Ok false) as (Hget & Hexit & Hload).
  { assert (get_request (ep_buf p) k) as Hget.
    { destruct c; destruct Henc as [_ Hr]; simpl in Hk; subst; [done|by eapply set_get_request..]. }
    split; [done|]. destruct c; destruct Henc as [(r & [Hr|Hr]) _]; rewrite Hr; done. }
  destruct (parse_get s (ep_buf p) k Hget ltac:(unfold INT_MAX in *; lia)) as (t & Hpk & _ & Htk). exists (tok_buf t).
  split; [done|].
  assert (∀ A (m : E A) a, m s = Ok (a, s) → in_enclave m d = Ok (a, d)) as Hin.
  { intros A m a Hm. unfold in_enclave. fold s. rewrite Hm. by destruct d. }
  unfold enclave_message_pass, get_arg. msimpl.
  rewrite (bind_ok _ _ _ _ _ (Hin _ _ _ Hexit)), (bind_lift _ _ _ _ Hload).
  rewrite (bind_lift _ _ _ (ep_buf p)) by (by apply read_at_all).
  by rewrite (bind_ok _ _ _ _ _ (Hin _ _ _ Hpk)).
Qed.

(** A request is pushed to the queue of the worker of its key. *)
Lemma pass_request_push d p k tid :
  let s := d_enclave d in
  has_header d → thread_of (dup_str k) s = Ok (tid, s) →
  (∃ c, encodes (ep_buf p) c ∧ req_key c = k) → buffer_ok s (ep_buf p) →
  ∃ buf, take 4 buf = take 4 (ep_buf p) ∧
    enclave_message_pass p d = (push tid (mkJob (ep_client_sock p) (ep_buf p));; mret buf) d.
Proof.
  intros s Hhd Htid Hc Hb. destruct (pass_request_route d p k Hc Hb) as (buf & Htk & ->). exists buf. split; [done|].
  rewrite (bind_ok _ _ _ _ _ (use_header_ok d Hhd)), (bind_ok _ _ _ tid d); [done|].
  unfold in_enclave. fold s. rewrite Htid. by destruct d.
Qed.

(** Without the table header a request is not routed. *)
Lemma pass_request_dangling d p k :
  use_header d = Fault Bad_ptr → (∃ c, encodes (ep_buf p) c ∧ req_key c = k) → buffer_ok (d_enclave d) (ep_buf p) →
  enclave_message_pass p d = Fault Bad_ptr.
Proof. intros Hu Hc Hb. destruct (pass_request_route d p k Hc Hb) as (buf & _ & ->). by apply bind_fault. Qed.

Lemma encodes_nonul b c : encodes b c → nonul (req_key c).
Proof.
  destruct c as [k|k v|k v]; simpl.
  - intros [_ (? & ? & ? & ? & ? & ? & ? & ? & ? & ? & ?)]. done.
  - intros [_ (? & ? & ? & ? & ? & ? & ? & ? & ? & ?)]. done.
  - intros [_ (? & ? & ? & ? & ? & ? & ? & ? & ? & ?)]. done.
Qed.

(** A request is copied into the queue of its worker; the store does not change and
    nothing is answered yet. *)
Lemma pass_request_run d p k :
  let s := d_enclave d in
  threads_ok s → has_header d → manned d → length (queue d) = Z.to_nat (num_threads (arg_enclave s)) →
  (∃ c, encodes (ep_buf p) c ∧ req_key c = k) → buffer_ok s (ep_buf p) →
  ∃ i q buf, thread_of (dup_str k) s = Ok (Z.of_nat i, s) ∧ queue d !! i = Some q ∧
    take 4 buf = take 4 (ep_buf p) ∧
    let j := mkJob (ep_client_sock p) (ep_buf p) in
    enclave_message_pass p d =
    Ok (buf, log_push (Z.of_nat i, j) (set_queue (<[i := q ++ [j]]> (queue d)) d)).
Proof.
  intros s Ht Hhd Hman Hlen Hc Hbuf.
  assert (nonul k) as Hn by (destruct Hc as (c & Henc & <-); by eapply encodes_nonul).
  destruct (thread_of_ok s k Ht Hn) as (i & Hi & Hlt & _).
  destruct (lookup_lt_is_Some_2 (queue d) i) as [q Hq]; [rewrite Hlen; lia|].
  destruct (pass_request_push d p k (Z.of_nat i) Hhd Hi Hc Hbuf) as (buf & Htk & Hrun).
  exists i, q, buf. split; [done|]. split; [done|]. split; [done|]. cbv zeta. rewrite Hrun.
  destruct (Hman i (lookup_lt_Some _ _ _ Hq)) as (w & Hw & Hne).
  by rewrite (bind_ok _ _ _ _ _ (push_ok d i _ q w Hq Hw Hne)).
Qed.

(** A request whose worker has not started, or has quit, finds no mutex. *)
Lemma pass_request_unmanned d p k i :
  let s := d_enclave d in
  has_header d → thread_of (dup_str k) s = Ok (Z.of_nat i, s) → (i < length (queue d))%nat →
  workers d !! i = None ∨ workers d !! i = Some WQuit →
  (∃ c, encodes (ep_buf p) c ∧ req_key c = k) → buffer_ok s (ep_buf p) →
  enclave_message_pass p d = Fault Uninit.
Proof.
  intros s Hhd Hi Hlt Hw Hc Hb. destruct (pass_request_push d p k _ Hhd Hi Hc Hb) as (buf & _ & ->).
  destruct (lookup_lt_is_Some_2 _ _ Hlt) as [q Hq].
  apply bind_fault. unfold push. msimpl. rewrite (bind_lift _ _ _ _ (zlookup_nat _ _ _ Hq)). apply bind_fault.
  unfold use_mutex. msimpl. rewrite Nat2Z.id. by destruct Hw as [->| ->].
Qed.

(** If the buckets are not shared out evenly, keys of the last buckets belong to a worker
    that does not exist. *)
Lemma pass_request_oob d p k :
  let s := d_enclave d in
  0 < ht_size (ht_enclave s) ≤ INT_MAX → 0 < num_threads (arg_enclave s) → 0 < per_worker s →
  has_header d → length (queue d) = Z.to_nat (num_threads (arg_enclave s)) →
  (∃ c, encodes (ep_buf p) c ∧ req_key c = k) → buffer_ok s (ep_buf p) →
  num_threads (arg_enclave s) ≤ bucket_of (ht_size (ht_enclave s)) k / per_worker s →
  enclave_message_pass p d = Fault Out_of_bounds.
Proof.
  intros s Hs Hn Hp Hhd Hlen Hc Hbuf Hout.
  assert (nonul k) as Hk by (destruct Hc as (c & Henc & <-); by eapply encodes_nonul).
  destruct (pass_request_push d p k _ Hhd (thread_of_run s k Hk Hs Hn Hp) Hc Hbuf) as (buf & _ & ->).
  apply bind_fault. unfold push. msimpl. apply bind_fault. unfold lift.
  rewrite zlookup_oob; [done|]. unfold blen. rewrite Hlen. fold s. lia.
Qed.
End routing.

(** ** Control messages *)
Section control.
Context `{Platform}.
Implicit Types (d : dispatch).

Definition the_quit_job (n : Z) : job := mkJob (-1) (str "quit" ++ zeros (n - 4)).

Lemma quit_job_ok n : 4 ≤ n → quit_job n = Ok (the_quit_job n).
Proof.
  intros Hn. unfold quit_job, mbind, res_bind. rewrite zalloc_ok by lia.
  replace n with (4 + (n - 4)) at 1 by lia. rewrite zeros_app by lia.
  pose proof (write_at_app [] (zeros 4) (str "quit") (zeros (n - 4)) 0 eq_refl eq_refl) as W.
  rewrite app_nil_l in W. by rewrite W.
Qed.

(** [j] is put at the end of every queue. *)
Definition push_everywhere (j : job) (d : dispatch) : dispatch :=
  mkDispatch (d_enclave d) ((λ q, q ++ [j]) <$> queue d) (num d) (exit_count d) (workers d) (sent d)
    (pushed d ++ ((λ i, (i, j)) <$> seqZ 0 (blen (queue d)))) (ran d) (header d).

Lemma push_all_from d j (m : D job) done todo k :
  (∀ d, m d = Ok (j, d)) → manned d → queue d = done ++ todo → k = blen done →
  for_each (seqZ k (blen todo)) (λ i _, j ← m; push i j) tt d =
  Ok (tt, mkDispatch (d_enclave d) (done ++ ((λ q, q ++ [j]) <$> todo)) (num d) (exit_count d) (workers d)
            (sent d) (pushed d ++ ((λ i, (i, j)) <$> seqZ k (blen todo))) (ran d) (header d)).
Proof.
  intros Hm. revert d done k. induction todo as [|q todo IH]; intros d done k Hman Hq ->.
  - simpl. rewrite !app_nil_r, <-(app_nil_r done), <-Hq. by destruct d.
  - rewrite blen_cons. pose proof (blen_nonneg todo). rewrite seqZ_cons by lia.
    replace (Z.pred (1 + blen todo)) with (blen todo) by lia. cbn [for_each].
    set (d1 := log_push (blen done, j) (set_queue (done ++ (q ++ [j]) :: todo) d)).
    rewrite (bind_ok _ _ _ tt d1).
    + rewrite (IH d1 (done ++ [q ++ [j]])).
      * cbn [d1 log_push set_queue d_enclave num exit_count workers sent pushed ran header].
        rewrite fmap_cons, <-!app_assoc. done.
      * intros i. simpl. intros Hi. apply Hman. rewrite Hq. revert Hi. rewrite !length_app. simpl. lia.
      * simpl. by rewrite <-app_assoc.
      * rewrite blen_app. unfold blen. simpl. lia.
    + rewrite (bind_ok _ _ _ _ _ (Hm d)). unfold push. msimpl. rewrite Hq.
      assert ((done ++ q :: todo) !! length done = Some q) as Hlk by (by apply list_lookup_middle).
      rewrite (bind_lift _ _ _ q) by (by apply zlookup_nat).
      destruct (Hman (length done)) as (w & Hw & Hne); [rewrite Hq, length_app; simpl; lia|].
      rewrite (bind_ok _ _ _ _ _ (use_mutex_ok d (length done) w Hw Hne)).
      rewrite (bind_lift _ _ _ (done ++ (q ++ [j]) :: todo)); [done|].
      unfold blen. rewrite zupdate_nat by (rewrite length_app; simpl; lia).
      by rewrite insert_app_r_alt, Nat.sub_diag by lia.
Qed.

(** The last client's exit message: it is echoed and every worker is told to quit. *)
Lemma pass_exit_run d p :
  let s := d_enclave d in
  let n := max_buf_size (arg_enclave s) in
  has_cmd (ep_buf p) "EXIT" "exit" → blen (ep_buf p) = n →
  blen (queue d) = num_threads (arg_enclave s) → (exit_count d + 1 = ep_num_clients p → manned d) →
  let d1 := set_exit_count (exit_count d + 1) (add_sent (ep_client_sock p, ep_buf p) d) in
  enclave_message_pass p d =
  Ok (ep_buf p,
      if exit_count d + 1 =? ep_num_clients p
      then push_everywhere (the_quit_job n) (set_enclave (add_out "All threads are finished" s) d1)
      else d1).
Proof.
  intros s n Hcmd Hlen Hq Hman d1.
  assert (is_cmd (ep_buf p) "EXIT" "exit" 4 s = Ok (true, s) ∧ 4 ≤ n) as [Hexit Hn].
  { destruct Hcmd as (r & [Hr|Hr]); rewrite <-Hlen, Hr; (split; [done|]); rewrite blen_app;
      pose proof (blen_nonneg r); change (blen (str _)) with 4; lia. }
  unfold enclave_message_pass, get_arg. msimpl.
  rewrite (bind_ok _ _ _ true d).
  2:{ unfold in_enclave. fold s. rewrite Hexit. by destruct d. }
  rewrite (bind_ok _ _ _ tt (add_sent (ep_client_sock p, ep_buf p) d)).
  2:{ unfold message_return. rewrite (bind_lift _ _ _ (ep_buf p)); [done|]. by apply read_at_all. }
  msimpl. fold d1. change (exit_count (add_sent _ d)) with (exit_count d).
  destruct (Z.eqb_spec (exit_count d + 1) (ep_num_clients p)) as [Hlast|]; [|done].
  set (d2 := set_enclave (add_out "All threads are finished" s) d1).
  rewrite (bind_ok _ _ _ tt (push_everywhere (the_quit_job n) d2)); [done|].
  rewrite (bind_ok _ _ _ tt d2) by done.
  change ((arg_enclave ∘ d_enclave) d) with (arg_enclave s). rewrite <-Hq.
  pose proof (push_all_from d2 (the_quit_job n) (lift (quit_job n)) [] (queue d) 0) as P.
  apply P; [|by apply Hman|done|done]. intros d'. unfold lift. by rewrite quit_job_ok.
Qed.

(** The message at the end of the load phase is sent back. *)
Lemma pass_load_run d p rest :
  let s := d_enclave d in
  ep_buf p = str "LOADDONE" ++ rest → blen (ep_buf p) = max_buf_size (arg_enclave s) →
  enclave_message_pass p d =
  Ok (ep_buf p, add_sent (ep_client_sock p, ep_buf p) (set_enclave (add_out "Load process is done" s) d)).
Proof.
  intros s Hb Hlen. unfold enclave_message_pass, get_arg. msimpl.
  rewrite (bind_ok _ _ _ false d) by (unfold in_enclave; rewrite Hb; by destruct d).
  rewrite (bind_lift _ _ _ true) by (by rewrite Hb).
  rewrite (bind_ok _ _ _ tt (set_enclave (add_out "Load process is done" s) d)) by done.
  rewrite (bind_ok _ _ _ tt (add_sent (ep_client_sock p, ep_buf p) (set_enclave (add_out "Load process is done" s) d)));
    [done|].
  unfold message_return. by rewrite (bind_lift _ _ _ (ep_buf p)) by (by apply read_at_all).
Qed.
End control.

(** ** The steps of a worker *)
Section steps.
Context `{Platform}.
Implicit Types (d : dispatch) (q : list job).

(** Unfolds [worker_step] down to the place of the worker. *)
Local Ltac at_worker Hw :=
  unfold worker_step; msimpl; rewrite (bind_lift _ _ _ _ (zlookup_nat _ _ _ Hw)); cbn iota; msimpl.

Lemma set_worker_ok d i w w0 :
  workers d !! i = Some w0 →
  set_worker (Z.of_nat i) w d = Ok (tt, set_workers (num d) (<[i := w]> (workers d)) d).
Proof.
  intros Hw. unfold set_worker. msimpl.
  by rewrite (bind_lift _ _ _ _ (zupdate_nat _ _ _ (lookup_lt_Some _ _ _ Hw))).
Qed.

Lemma pop_ok d i q :
  queue d !! i = Some q → pop (Z.of_nat i) d = Ok (tt, set_queue (<[i := tail q]> (queue d)) d).
Proof.
  intros Hq. unfold pop. msimpl. rewrite (bind_lift _ _ _ _ (zlookup_nat _ _ _ Hq)).
  by rewrite (bind_lift _ _ _ _ (zupdate_nat _ _ _ (lookup_lt_Some _ _ _ Hq))).
Qed.

(** With an empty queue the worker waits. *)
Lemma worker_waits d i :
  workers d !! i = Some WLoop → queue d !! i = Some [] → worker_step (Z.of_nat i) d = Ok (tt, d).
Proof. intros Hw Hq. at_worker Hw. by rewrite (bind_lift _ _ _ _ (zlookup_nat _ _ _ Hq)). Qed.

Lemma worker_take d i j q :
  workers d !! i = Some WLoop → queue d !! i = Some (j :: q) →
  worker_step (Z.of_nat i) d = Ok (tt, set_workers (num d) (<[i := WJob j]> (workers d)) d).
Proof.
  intros Hw Hq. at_worker Hw. rewrite (bind_lift _ _ _ _ (zlookup_nat _ _ _ Hq)). by apply (set_worker_ok _ _ _ WLoop).
Qed.

Lemma worker_pop d i q :
  workers d !! i = Some WPop → queue d !! i = Some q →
  worker_step (Z.of_nat i) d =
  Ok (tt, set_workers (num d) (<[i := WLoop]> (workers d)) (set_queue (<[i := tail q]> (queue d)) d)).
Proof.
  intros Hw Hq. at_worker Hw. rewrite (bind_ok _ _ _ _ _ (pop_ok d i q Hq)).
  exact (set_worker_ok (set_queue _ d) i WLoop WPop Hw).
Qed.

(** The quit job ends the worker. *)
Lemma worker_quit d i n q :
  workers d !! i = Some (WJob (the_quit_job n)) → queue d !! i = Some q →
  worker_step (Z.of_nat i) d =
  Ok (tt, mkDispatch (d_enclave d) (<[i := tail q]> (queue d)) (num d) (exit_count d) (<[i := WQuit]> (workers d)) (sent d)
            (pushed d) (ran d ++ [(Z.of_nat i, the_quit_job n)]) (header d)).
Proof.
  intros Hw Hq. at_worker Hw. unfold get_arg. msimpl.
  rewrite (bind_ok _ _ _ Quit d) by (unfold in_enclave, the_quit_job; cbn [job_buf]; rewrite worker_job_quit; by destruct d).
  msimpl. rewrite (bind_ok _ _ _ _ _ (pop_ok (log_run (Z.of_nat i, the_quit_job n) d) i q Hq)).
  exact (set_worker_ok (set_queue _ (log_run _ d)) i WQuit (WJob (the_quit_job n)) Hw).
Qed.

Lemma worker_ended d i : workers d !! i = Some WQuit → worker_step (Z.of_nat i) d = Ok (tt, d).
Proof. intros Hw. by at_worker Hw. Qed.

(** A worker starts with the header and the MAC buckets of the host. *)
Lemma worker_start_ok d q k :
  queue d !! length (workers d) = Some q → num d = blen (workers d) →
  worker_start (ht_enclave (d_enclave d)) (MACbuf_enclave (d_enclave d)) k d =
  Ok (tt, set_header (Some k) (set_workers (num d + 1) (workers d ++ [WLoop]) d)).
Proof.
  intros Hq Hn. unfold worker_start. rewrite (bind_ok _ _ _ tt d) by (by destruct d as [[]]). do 2 msimpl.
  cbn [num workers queue set_header]. rewrite Hn. unfold blen at 1.
  by rewrite (bind_lift _ _ _ _ (zlookup_nat _ _ _ Hq)).
Qed.
End steps.

(** ** A worker that has left *)
Section stranded.
Context `{Platform}.
Implicit Types (d : dispatch).

(** A job with an unknown command. *)
Lemma worker_job_untyped c b s :
  c ∉ str "GgSsAaq" → worker_job (c :: b) s = Ok (Untyped, add_out "Untyped request" s).
Proof.
  intros Hc. assert (∀ x lit n, x ∈ str "GgSsAaq" → strncmp_eq (c :: b) (x :: lit) (S n) = Ok false) as Hd.
  { intros x lit n Hx. apply strncmp_eq_diff. by intros ->. }
  assert (∀ x y u l u' l' n s, str u = x :: u' → str l = y :: l' → x ∈ str "GgSsAaq" → y ∈ str "GgSsAaq" →
    is_cmd (c :: b) u l (S n) s = Ok (false, s)) as Hcmd.
  { intros x y u l u' l' n s1 Hu Hl Hx Hy. unfold is_cmd. rewrite Hu, Hl.
    rewrite (bind_lift _ _ _ _ (Hd x u' n Hx)). unfold lift. by rewrite Hd. }
  unfold worker_job.
  rewrite (bind_ok _ _ _ _ _ (Hcmd x47 x67 "GET"%string "get"%string _ _ 2%nat s eq_refl eq_refl ltac:(by_compute) ltac:(by_compute))). cbn iota.
  rewrite (bind_ok _ _ _ _ _ (Hcmd x53 x73 "SET"%string "set"%string _ _ 2%nat s eq_refl eq_refl ltac:(by_compute) ltac:(by_compute))). cbn iota.
  rewrite (bind_ok _ _ _ _ _ (Hcmd x41 x61 "APP"%string "app"%string _ _ 2%nat s eq_refl eq_refl ltac:(by_compute) ltac:(by_compute))). cbn iota.
  by rewrite (bind_lift _ _ _ _ (Hd x71 (str "uit") 3%nat ltac:(by_compute))).
Qed.

Lemma worker_leaves d i j c b :
  workers d !! i = Some (WJob j) → job_buf j = c :: b → c ∉ str "GgSsAaq" →
  worker_step (Z.of_nat i) d =
  Ok (tt, set_workers (num d) (<[i := WLeft]> (workers d))
            (log_run (Z.of_nat i, j) (set_enclave (add_out "Untyped request" (d_enclave d)) d))).
Proof.
  intros Hw Hb Hc. unfold worker_step. msimpl. rewrite (bind_lift _ _ _ _ (zlookup_nat _ _ _ Hw)). cbn iota.
  unfold get_arg. msimpl. rewrite (bind_ok _ _ _ Untyped (set_enclave (add_out "Untyped request" (d_enclave d)) d)).
  2:{ unfold in_enclave. by rewrite Hb, worker_job_untyped. }
  msimpl. exact (set_worker_ok (log_run _ (set_enclave _ d)) i WLeft (WJob j) Hw).
Qed.

(** The header is the copy of worker [i], which has returned. *)
Definition stranded (i : nat) d : Prop := header d = Some i ∧ workers d !! i = Some WLeft.

Lemma stranded_use d i : stranded i d → use_header d = Fault Bad_ptr.
Proof. intros [Hh Hw]. unfold use_header. msimpl. unfold id. by rewrite Hh, Hw. Qed.

Lemma stranded_message i p : preserves (stranded i) (enclave_message_pass p).
Proof.
  assert (∀ (A : Type) (m : E A), preserves (stranded i) (in_enclave m)) as H1
    by (intros; apply preserves_in_enclave; by intros d s []).
  assert (∀ b n c, preserves (stranded i) (message_return b n c)) as H2
    by (intros; unfold message_return; solve_preserves; intros; by apply preserves_modify).
  assert (∀ k j, preserves (stranded i) (push k j)) as H3
    by (intros k j d u d' Hd (n & q & _ & _ & _ & ->)%push_run; done).
  assert (∀ n, preserves (stranded i) (modify (set_exit_count n))) as H4 by (intros; by apply preserves_modify).
  assert (preserves (stranded i) use_header) as H5 by (by intros d u d' Hd [-> _]%use_header_run).
  unfold enclave_message_pass, get_arg. solve_preserves.
Qed.

Lemma stranded_worker i k : preserves (stranded i) (worker_step (Z.of_nat k)).
Proof.
  intros d u d' Hd Hr. destruct (decide (k = i)) as [->|Hne].
  { unfold worker_step in Hr. apply bind_inv in Hr as (ws & s0 & [= <- <-] & Hr).
    rewrite (bind_lift _ _ _ _ (zlookup_nat _ _ _ (proj2 Hd))) in Hr. by injection Hr as _ <-. }
  cut (preserves (stranded i) (worker_step (Z.of_nat k))); [intros Hp; by eapply Hp|]. clear d u d' Hd Hr.
  assert (∀ w, preserves (stranded i) (set_worker (Z.of_nat k) w)) as H0.
  { intros w d u d' [Hh Hw] [-> _]%set_worker_run. split; [done|]. simpl. by rewrite list_lookup_insert_ne. }
  assert (∀ (A : Type) (m : E A), preserves (stranded i) (in_enclave m)) as H1
    by (intros; apply preserves_in_enclave; by intros d s []).
  assert (∀ b n c, preserves (stranded i) (message_return b n c)) as H2
    by (intros; unfold message_return; solve_preserves; intros; by apply preserves_modify).
  assert (∀ n, preserves (stranded i) (pop n)) as H3
    by (intros n d u d' Hd (n' & q & _ & _ & _ & ->)%pop_run; done).
  assert (∀ x, preserves (stranded i) (modify (log_run x))) as H4 by (intros; by apply preserves_modify).
  assert (preserves (stranded i) use_header) as H5 by (by intros d u d' Hd [-> _]%use_header_run).
  unfold worker_step, get_arg. solve_preserves.
Qed.

(** No more worker starts. *)
Definition no_start (ev : event) : Prop := match ev with EStart _ _ _ => False | _ => True end.

Lemma stranded_steps i d evs d' : stranded i d → Forall no_start evs → dsteps d evs d' → stranded i d'.
Proof.
  intros Hd Hev Hs. induction Hs as [d|d evs d1 ev d2 _ IH Hstep]; [done|].
  apply Forall_app in Hev as [Hev [Hno _]%Forall_cons]. specialize (IH Hd Hev). destruct ev as [ht_ mb k|k|p]; [done| |].
  - by eapply stranded_worker.
  - apply bind_inv in Hstep as (b & d3 & Hstep & [= <-]). by eapply stranded_message.
Qed.
End stranded.

(** ** Schedules and the abstract store

    Proved against the interface of a store: the dispatcher only needs that a job
    refines the map and that printing does not touch it. *)
Section schedules.
Context `{Platform} `{!KvService enclave} `{!KvServiceOk enclave}.
Context (Hjob : ∀ c s, kv_job c s = worker_job c s).
Context (Hbufsize : ∀ s, kv_bufsize s = max_buf_size (arg_enclave s)).
Implicit Types (d : dispatch) (m : kvmap) (r : request).

(** Running a job: the answer goes to the client of the job. *)
Lemma worker_job_run d m i j r :
  kv_rep (d_enclave d) m → has_header d → workers d !! i = Some (WJob j) →
  encodes (job_buf j) r → kv_admits (d_enclave d) m (job_buf j) r →
  ∃ s' buf, kv_job (job_buf j) (d_enclave d) = Ok (Reply buf, s') ∧
    worker_step (Z.of_nat i) d =
      Ok (tt, mkDispatch s' (queue d) (num d) (exit_count d) (<[i := WPop]> (workers d))
                (sent d ++ [(job_client_sock j, buf)]) (pushed d) (ran d ++ [(Z.of_nat i, j)]) (header d)) ∧
    kv_rep s' (fst (spec_step m r)) ∧ kv_bufsize s' = kv_bufsize (d_enclave d) ∧
    blen buf = max_buf_size (arg_enclave (d_enclave d)) ∧
    answers (max_buf_size (arg_enclave (d_enclave d))) buf (snd (spec_step m r)).
Proof.
  intros Hrep Hhd Hw Henc Hadm. apply lookup_lt_Some in Hw as Hlt.
  destruct (kv_refines _ _ _ _ Hrep Henc Hadm) as (buf & s' & Hrun & Hrep' & Hsz & Hlen & Hans).
  exists s', buf. split; [done|]. rewrite Hjob in Hrun. rewrite Hbufsize in Hlen, Hans.
  split; [|done]. unfold worker_step. msimpl. rewrite (bind_lift _ _ _ _ (zlookup_nat _ _ _ Hw)).
  unfold get_arg. msimpl. rewrite (bind_ok _ _ _ (Reply buf) (set_enclave s' d)).
  2:{ unfold in_enclave. by rewrite Hrun. }
  msimpl. rewrite (bind_ok _ _ _ tt (log_run (Z.of_nat i, j) (set_enclave s' d))) by (by apply use_header_ok).
  unfold message_return.
  rewrite (bind_ok _ _ _ tt (add_sent (job_client_sock j, buf) (log_run (Z.of_nat i, j) (set_enclave s' d)))).
  2:{ unfold compose. by rewrite (bind_lift _ _ _ _ (read_at_all buf _ (eq_sym Hlen))). }
  unfold set_worker. msimpl. by rewrite (bind_lift _ _ _ _ (zupdate_nat _ _ _ Hlt)).
Qed.

(** ** A worker empties its queue *)
Fixpoint worker_steps (n : nat) (i : Z) : D unit :=
  match n with O => mret tt | S n' => worker_step i;; worker_steps n' i end.

Lemma worker_steps_app n k i d u d' :
  worker_steps n i d = Ok (u, d') → worker_steps (n + k) i d = worker_steps k i d'.
Proof.
  revert d. induction n as [|n IH]; intros d; simpl; [by intros [= _ <-]|].
  intros ([] & d1 & H1 & H2)%bind_inv. rewrite (bind_ok _ _ _ _ _ H1). by apply IH.
Qed.

(** Three steps take the front of the queue, run it and remove it. *)
Lemma worker_round d m i j q r :
  kv_rep (d_enclave d) m → has_header d → workers d !! i = Some WLoop → queue d !! i = Some (j :: q) →
  encodes (job_buf j) r → kv_admits (d_enclave d) m (job_buf j) r →
  ∃ s' buf, kv_job (job_buf j) (d_enclave d) = Ok (Reply buf, s') ∧
    worker_steps 3 (Z.of_nat i) d =
      Ok (tt, mkDispatch s' (<[i := q]> (queue d)) (num d) (exit_count d) (workers d)
                (sent d ++ [(job_client_sock j, buf)]) (pushed d) (ran d ++ [(Z.of_nat i, j)]) (header d)) ∧
    kv_rep s' (fst (spec_step m r)) ∧
    answers (max_buf_size (arg_enclave (d_enclave d))) buf (snd (spec_step m r)).
Proof.
  intros Hrep Hhd Hw Hq Henc Hadm. apply lookup_lt_Some in Hw as Hlt, Hq as Hql.
  pose proof (worker_take d i j q Hw Hq) as H1. set (d1 := set_workers _ _ d) in H1.
  destruct (worker_job_run d1 m i j r) as (s' & buf & Hjobr & H2 & Hrep' & _ & _ & Hans); try done.
  { by apply (has_header_worker d d1 i (WJob j)). }
  { simpl. by apply list_lookup_insert_eq. }
  cbn [d1 set_workers d_enclave queue num exit_count workers sent pushed ran header] in H2, Hjobr, Hans.
  rewrite list_insert_insert_eq in H2. set (d2 := mkDispatch s' _ _ _ _ _ _ _ _) in H2.
  assert (workers d2 !! i = Some WPop) as Hw2 by (by apply list_lookup_insert_eq).
  pose proof (worker_pop d2 i (j :: q) Hw2 Hq) as H3. cbn [d2 set_workers set_queue tail d_enclave queue num exit_count
    workers sent pushed ran header] in H3. rewrite list_insert_insert_eq, (list_insert_id _ _ _ Hw) in H3.
  exists s', buf. split; [done|]. split; [|done]. cbn [worker_steps].
  by rewrite (bind_ok _ _ _ _ _ H1), (bind_ok _ _ _ _ _ H2), (bind_ok _ _ _ _ _ H3).
Qed.

(** The answers sent for the jobs [js] with the requests [rs]. *)
Definition answered (n : Z) m (js : list job) (rs : list request) (msgs : list (Z * bytes)) : Prop :=
  msgs.*1 = job_client_sock <$> js ∧ spec_answers n m (Reply <$> msgs.*2) rs.

Lemma worker_drain d m i js rest rs :
  kv_rep (d_enclave d) m → has_header d → workers d !! i = Some WLoop → queue d !! i = Some (js ++ rest) →
  kv_admits_all (d_enclave d) m (job_buf <$> js) rs →
  ∃ d' msgs, worker_steps (3 * length js) (Z.of_nat i) d = Ok (tt, d') ∧
    queue d' = <[i := rest]> (queue d) ∧ workers d' = workers d ∧
    sent d' = sent d ++ msgs ∧ kv_rep (d_enclave d') (spec_run m rs) ∧
    answered (kv_bufsize (d_enclave d)) m js rs msgs.
Proof.
  revert d m rs. induction js as [|j js IH]; intros d m rs Hrep Hhd Hw Hq Hall.
  - destruct rs as [|r rs]; [|done]. exists d, []. rewrite app_nil_l in Hq. rewrite (list_insert_id _ _ _ Hq), app_nil_r. done.
  - destruct rs as [|r rs]; [done|]. destruct Hall as (Henc & Hadm & Hall).
    destruct (worker_round d m i j (js ++ rest) r Hrep Hhd Hw Hq Henc Hadm) as (s' & buf & Hj & Hrun & Hrep' & Hans).
    destruct (kv_refines _ _ _ _ Hrep Henc Hadm) as (buf' & s1 & Hj' & _ & Hsz & _).
    rewrite Hj in Hj'. injection Hj' as <- <-. apply lookup_lt_Some in Hq as Hql.
    edestruct (IH (mkDispatch s' (<[i := js ++ rest]> (queue d)) (num d) (exit_count d) (workers d)
                (sent d ++ [(job_client_sock j, buf)]) (pushed d) (ran d ++ [(Z.of_nat i, j)]) (header d)) _ rs Hrep' Hhd)
      as (d' & msgs & Hrun' & Hq' & Hw' & Hsent & Hrep'' & Hsock & Hansw).
    + done.
    + simpl. by apply list_lookup_insert_eq.
    + by apply (Hall _ _ Hj).
    + exists d', ((job_client_sock j, buf) :: msgs).
      replace (3 * length (j :: js))%nat with (3 + 3 * length js)%nat by (simpl; lia).
      rewrite (worker_steps_app _ _ _ _ _ _ Hrun). cbn [queue workers sent d_enclave] in *.
      rewrite list_insert_insert_eq in Hq'.
      rewrite <-app_assoc in Hsent. split_and!; try done.
      * split; [by rewrite !fmap_cons, Hsock|]. rewrite !fmap_cons. split; [by rewrite Hbufsize|].
        by rewrite Hsz in Hansw.
Qed.
End schedules.

(** The quit job ends its worker in two steps. *)
Lemma worker_quits `{Platform} d i n q :
  workers d !! i = Some WLoop → queue d !! i = Some (the_quit_job n :: q) →
  worker_steps 2 (Z.of_nat i) d =
  Ok (tt, mkDispatch (d_enclave d) (<[i := q]> (queue d)) (num d) (exit_count d) (<[i := WQuit]> (workers d)) (sent d)
            (pushed d) (ran d ++ [(Z.of_nat i, the_quit_job n)]) (header d)).
Proof.
  intros Hw Hq. apply lookup_lt_Some in Hw as Hlt, Hq as Hql. cbn [worker_steps].
  pose proof (worker_take d i _ q Hw Hq) as H1. set (d1 := set_workers _ _ d) in H1.
  assert (workers d1 !! i = Some (WJob (the_quit_job n))) as Hw1 by (by apply list_lookup_insert_eq).
  rewrite (bind_ok _ _ _ _ _ H1), (bind_ok _ _ _ _ _ (worker_quit d1 i n _ Hw1 Hq)).
  cbn [d1 set_workers d_enclave queue num exit_count workers sent pushed ran header tail]. by rewrite list_insert_insert_eq.
Qed.
