(* ===== verification/HotCalls.v ===== *)
(** * Hot calls, [Common/hot_calls.h] and [App/spinlock.c]

    Threads outside the enclave post a call in a shared [HotCall] record and poll for
    its end; a responder thread inside polls for calls and runs them.  A spin lock
    protects the record.  Every thread is a program counter over the shared record,
    and a schedule interleaves their steps; a step is one access to the lock word or
    to one field of the record. *)

From S2P Require Import Prelude.

(** ** The shared record *)
Record HotCall := mkHotCall {
  spinlock : Z;
  hc_data : Z;
  hc_callID : Z;
  keepPolling : bool;
  runFunction : bool;
  isDone : bool;
  busy : bool;
}.

(** [HOTCALL_INITIALIZER], [HotCall_init] *)
Definition HotCall_init : HotCall := mkHotCall 0 0 0 true false false false.

Definition set_lock (l : Z) (h : HotCall) : HotCall :=
  mkHotCall l (hc_data h) (hc_callID h) (keepPolling h) (runFunction h) (isDone h) (busy h).

Definition MAX_RETRIES : Z := 10.

(** ** Spin lock *)

(** [_InterlockedExchange(dst, val)]: the old and the new value of [dst]. *)
Definition InterlockedExchange (dst val : Z) : Z * Z := (dst, val).

(** Where a thread is in [sgx_spin_lock]: at the exchange, or reading the lock word
    until it is zero. *)
Inductive spin := SXchg | SRead.

(** One step of [sgx_spin_lock]: the lock word, and where the thread is now; [None] when
    the lock is taken. *)
Definition sgx_spin_lock (lock : Z) (sp : spin) : Z * option spin :=
  match sp with
  | SXchg =>
      let '(old, new) := InterlockedExchange lock 1 in
      (new, if old =? 0 then None else Some SRead)
  | SRead => (lock, Some (if lock =? 0 then SXchg else SRead))
  end.

Definition sgx_spin_unlock (h : HotCall) : HotCall := set_lock 0 h.

(** Assignments to one field. *)
Definition set_busy (b : bool) (h : HotCall) : HotCall :=
  mkHotCall (spinlock h) (hc_data h) (hc_callID h) (keepPolling h) (runFunction h) (isDone h) b.
Definition set_isDone (b : bool) (h : HotCall) : HotCall :=
  mkHotCall (spinlock h) (hc_data h) (hc_callID h) (keepPolling h) (runFunction h) b (busy h).
Definition set_runFunction (b : bool) (h : HotCall) : HotCall :=
  mkHotCall (spinlock h) (hc_data h) (hc_callID h) (keepPolling h) b (isDone h) (busy h).
Definition set_keepPolling (b : bool) (h : HotCall) : HotCall :=
  mkHotCall (spinlock h) (hc_data h) (hc_callID h) b (runFunction h) (isDone h) (busy h).
Definition set_callID (id : Z) (h : HotCall) : HotCall :=
  mkHotCall (spinlock h) (hc_data h) id (keepPolling h) (runFunction h) (isDone h) (busy h).
Definition set_data (d : Z) (h : HotCall) : HotCall :=
  mkHotCall (spinlock h) d (hc_callID h) (keepPolling h) (runFunction h) (isDone h) (busy h).

(** ** Callers *)

(** The assignments of the posting branch, in their order. *)
Inductive post_step := PBusy | PIsDone | PRunFunction | PCallID | PData.

(** Program counters of [HotCall_requestCall] (Rq) and [StopResponder] (St).  [rq] holds
    the arguments [callID] and [data], [k] is [numRetries]; [t] is a history variable,
    the place of the request among all accepted ones. *)
Inductive caller :=
  | CIdle
  | RqLock (sp : spin) (rq : Z * Z) (k : Z)
  | RqTest (rq : Z * Z) (k : Z)                   (* lock held: [if (busy == false)] *)
  | RqPost (p : post_step) (rq : Z * Z) (k : Z)   (* lock held: posts the call *)
  | RqPosted (t : nat) (rq : Z * Z) (k : Z)       (* lock held: the call is posted *)
  | RqBusy (rq : Z * Z) (k : Z)                   (* lock held: the record is in use *)
  | RqWaitLock (sp : spin) (t : nat) (rq : Z * Z) (k : Z)
  | RqWaitTest (t : nat) (rq : Z * Z) (k : Z)     (* lock held: [if (isDone == true)] *)
  | RqWaitMore (t : nat) (rq : Z * Z) (k : Z)     (* lock held: not done yet *)
  | RqFree (t : nat) (rq : Z * Z) (k : Z)         (* lock held: resets [busy] *)
  | RqWaitDone (t : nat) (rq : Z * Z) (k : Z)     (* lock held: [busy] is reset *)
  | RqReturn (rq : Z * Z) (ret : Z) (t : option nat)
  | StLock (sp : spin)
  | StSet                                         (* lock held *)
  | StUnlock                                      (* lock held: [keepPolling] is reset *)
  | StReturn.

(** The lock is taken or the thread still spins. *)
Definition lock_then {A} (h : HotCall) (sp : spin) (again : spin → A) (taken : A) : HotCall * A :=
  let '(l, o) := sgx_spin_lock (spinlock h) sp in
  (set_lock l h, match o with Some sp' => again sp' | None => taken end).

(** One step of a caller; [n] is the number of requests accepted so far, the last
    component the request whose posting this step completes. *)
Definition caller_step (n : nat) (h : HotCall) (c : caller) : HotCall * caller * list (Z * Z) :=
  match c with
  | CIdle => (h, CIdle, [])
  | RqLock sp rq k => (lock_then h sp (λ sp', RqLock sp' rq k) (RqTest rq k), [])
  | RqTest rq k => (h, if busy h then RqBusy rq k else RqPost PBusy rq k, [])
  | RqPost PBusy rq k => (set_busy true h, RqPost PIsDone rq k, [])
  | RqPost PIsDone rq k => (set_isDone false h, RqPost PRunFunction rq k, [])
  | RqPost PRunFunction rq k => (set_runFunction true h, RqPost PCallID rq k, [])
  | RqPost PCallID rq k => (set_callID rq.1 h, RqPost PData rq k, [])
  | RqPost PData rq k => (set_data rq.2 h, RqPosted n rq k, [rq])
  | RqPosted t rq k => (sgx_spin_unlock h, RqWaitLock SXchg t rq k, [])
  | RqBusy rq k =>
      let k' := u32 (k + 1) in
      (sgx_spin_unlock h, if MAX_RETRIES <? k' then RqReturn rq (-1) None else RqLock SXchg rq k', [])
  | RqWaitLock sp t rq k => (lock_then h sp (λ sp', RqWaitLock sp' t rq k) (RqWaitTest t rq k), [])
  | RqWaitTest t rq k => (h, if isDone h then RqFree t rq k else RqWaitMore t rq k, [])
  | RqWaitMore t rq k => (sgx_spin_unlock h, RqWaitLock SXchg t rq k, [])
  | RqFree t rq k => (set_busy false h, RqWaitDone t rq k, [])
  | RqWaitDone t rq k => (sgx_spin_unlock h, RqReturn rq k (Some t), [])
  | RqReturn rq r t => (h, RqReturn rq r t, [])
  | StLock sp => (lock_then h sp StLock StSet, [])
  | StSet => (set_keepPolling false h, StUnlock, [])
  | StUnlock => (sgx_spin_unlock h, StReturn, [])
  | StReturn => (h, StReturn, [])
  end.

(** ** Responder *)

(** Program counters of [HotCall_waitForCall]. *)
Inductive responder :=
  | WfLock (sp : spin)
  | WfTestPoll                            (* lock held: [if (keepPolling != true)] *)
  | WfStop                                (* lock held: polling is over *)
  | WfTestRun                             (* lock held: [if (runFunction)] *)
  | WfGetID                               (* lock held: reads [callID] *)
  | WfGetData (callID : Z)                (* lock held: reads [data] *)
  | WfFetched (callID data : Z)           (* lock held: the call is read *)
  | WfCall (callID data : Z)              (* runs the callback *)
  | WfRelock (sp : spin) (callID data : Z)
  | WfMarkDone (callID data : Z)          (* lock held: sets [isDone] *)
  | WfMarkRun (callID data : Z)           (* lock held: resets [runFunction] *)
  | WfUnlock                              (* lock held: end of the loop body *)
  | WfReturn.

(** One step of the responder; the last component is the callback it runs: an
    identifier outside of the table of [numEntries] callbacks is skipped. *)
Definition responder_step (numEntries : Z) (h : HotCall) (r : responder)
  : HotCall * responder * list (Z * Z) :=
  match r with
  | WfLock sp => (lock_then h sp WfLock WfTestPoll, [])
  | WfTestPoll => (h, if negb (keepPolling h) then WfStop else WfTestRun, [])
  | WfStop => (sgx_spin_unlock h, WfReturn, [])
  | WfTestRun => (h, if runFunction h then WfGetID else WfUnlock, [])
  | WfGetID => (h, WfGetData (hc_callID h), [])
  | WfGetData id => (h, WfFetched id (hc_data h), [])
  | WfFetched id data => (sgx_spin_unlock h, WfCall id data, [])
  | WfCall id data =>
      (h, WfRelock SXchg id data, if id <? numEntries then [(id, data)] else [])
  | WfRelock sp id data => (lock_then h sp (λ sp', WfRelock sp' id data) (WfMarkDone id data), [])
  | WfMarkDone id data => (set_isDone true h, WfMarkRun id data, [])
  | WfMarkRun id data => (set_runFunction false h, WfUnlock, [])
  | WfUnlock => (sgx_spin_unlock h, WfLock SXchg, [])
  | WfReturn => (h, WfReturn, [])
  end.

(** ** Schedules *)

(** The record, the threads, and two histories: requests accepted and callbacks run. *)
Record world := mkWorld {
  w_hc : HotCall;
  w_callers : list caller;
  w_resp : responder;
  w_accepted : list (Z * Z);
  w_calls : list (Z * Z);
}.

Inductive action :=
  | ARequest (i : nat) (callID data : Z)   (* caller [i] enters [HotCall_requestCall] *)
  | AStop (i : nat)                        (* caller [i] enters [StopResponder] *)
  | ACaller (i : nat)                      (* caller [i] makes a step *)
  | AResponder.                            (* the responder makes a step *)

(** A thread may make a new call when it is not inside one. *)
Definition free_caller (c : caller) : bool :=
  match c with CIdle | RqReturn _ _ _ | StReturn => true | _ => false end.

Definition set_caller (i : nat) (c : caller) (w : world) : world :=
  mkWorld (w_hc w) (<[i := c]> (w_callers w)) (w_resp w) (w_accepted w) (w_calls w).

Definition world_step (numEntries : Z) (w : world) (a : action) : option world :=
  match a with
  | ARequest i id data =>
      c ← w_callers w !! i;
      if free_caller c then Some (set_caller i (RqLock SXchg (u16 id, data) 0) w) else None
  | AStop i =>
      c ← w_callers w !! i;
      if free_caller c then Some (set_caller i (StLock SXchg) w) else None
  | ACaller i =>
      c ← w_callers w !! i;
      let '(h, c', acc) := caller_step (length (w_accepted w)) (w_hc w) c in
      Some (mkWorld h (<[i := c']> (w_callers w)) (w_resp w) (w_accepted w ++ acc) (w_calls w))
  | AResponder =>
      let '(h, r, calls) := responder_step numEntries (w_hc w) (w_resp w) in
      Some (mkWorld h (w_callers w) r (w_accepted w) (w_calls w ++ calls))
  end.

Definition world_init (n : nat) : world :=
  mkWorld HotCall_init (replicate n CIdle) (WfLock SXchg) [] [].

Inductive reachable (numEntries : Z) (n : nat) : world → Prop :=
  | reach_init : reachable numEntries n (world_init n)
  | reach_step w a w' :
      reachable numEntries n w → world_step numEntries w a = Some w' → reachable numEntries n w'.

(** A schedule run to its end. *)
Definition world_run (numEntries : Z) (w : world) (sched : list action) : option world :=
  fold_left (λ o a, w ← o; world_step numEntries w a) sched (Some w).
