(* ===== verification/HotCallsProofs.v ===== *)
(** * Hot calls: mutual exclusion and exactly-once calls *)

From S2P Require Import Prelude HotCalls.

(** Who holds the lock. *)
Definition c_holds (c : caller) : bool :=
  match c with
  | RqTest _ _ | RqPost _ _ _ | RqPosted _ _ _ | RqBusy _ _ | RqWaitTest _ _ _ | RqWaitMore _ _ _
  | RqFree _ _ _ | RqWaitDone _ _ _ | StSet | StUnlock => true
  | _ => false
  end.
Definition r_holds (r : responder) : bool :=
  match r with
  | WfLock _ | WfCall _ _ | WfRelock _ _ _ | WfReturn => false
  | _ => true
  end.

(** The caller the record is busy with. *)
Definition c_owns (c : caller) : bool :=
  match c with
  | RqPost (PIsDone | PRunFunction | PCallID | PData) _ _
  | RqPosted _ _ _ | RqWaitLock _ _ _ _ | RqWaitTest _ _ _ | RqWaitMore _ _ _ | RqFree _ _ _ => true
  | _ => false
  end.

(** A call is being posted: [runFunction] is set, the arguments are not yet. *)
Definition c_writes (c : caller) : bool :=
  match c with RqPost (PCallID | PData) _ _ => true | _ => false end.

(** The request of a caller that waits for its end, and of one that has seen it. *)
Definition c_waits (c : caller) : option (nat * (Z * Z)) :=
  match c with
  | RqPosted t rq _ | RqWaitLock _ t rq _ | RqWaitTest t rq _ | RqWaitMore t rq _
  | RqFree t rq _ => Some (t, rq)
  | _ => None
  end.
Definition c_served (c : caller) : option (nat * (Z * Z)) :=
  match c with
  | RqWaitDone t rq _ | RqReturn rq _ (Some t) => Some (t, rq)
  | _ => None
  end.

(** What a caller knows of the record and of its own counter. *)
Definition c_local (h : HotCall) (c : caller) : Prop :=
  match c with
  | RqPost PBusy _ k => busy h = false ∧ 0 ≤ k ≤ MAX_RETRIES
  | RqPost PIsDone _ k => runFunction h = false ∧ 0 ≤ k ≤ MAX_RETRIES
  | RqPost PRunFunction _ k => isDone h = false ∧ runFunction h = false ∧ 0 ≤ k ≤ MAX_RETRIES
  | RqPost PCallID _ k => isDone h = false ∧ runFunction h = true ∧ 0 ≤ k ≤ MAX_RETRIES
  | RqPost PData rq k => isDone h = false ∧ runFunction h = true ∧ hc_callID h = rq.1 ∧ 0 ≤ k ≤ MAX_RETRIES
  | RqLock _ _ k | RqTest _ k | RqBusy _ k | RqPosted _ _ k | RqWaitLock _ _ _ k | RqWaitTest _ _ k
  | RqWaitMore _ _ k | RqWaitDone _ _ k => 0 ≤ k ≤ MAX_RETRIES
  | RqFree _ _ k => isDone h = true ∧ 0 ≤ k ≤ MAX_RETRIES
  | RqReturn _ r None => r = -1
  | RqReturn _ r (Some _) => 0 ≤ r ≤ MAX_RETRIES
  | CIdle | StLock _ | StSet | StUnlock | StReturn => True
  end.

(** The responder works on a call; it has run its callback. *)
Definition r_serves (r : responder) : bool :=
  match r with
  | WfGetID | WfGetData _ | WfFetched _ _ | WfCall _ _ | WfRelock _ _ _ | WfMarkDone _ _
  | WfMarkRun _ _ => true
  | _ => false
  end.
Definition r_ran (r : responder) : bool :=
  match r with WfRelock _ _ _ | WfMarkDone _ _ | WfMarkRun _ _ => true | _ => false end.

Definition r_local (h : HotCall) (r : responder) : Prop :=
  match r with
  | WfGetID => runFunction h = true
  | WfGetData id => runFunction h = true ∧ id = hc_callID h
  | WfFetched id d | WfCall id d | WfRelock _ id d | WfMarkDone id d =>
      runFunction h = true ∧ id = hc_callID h ∧ d = hc_data h
  | WfMarkRun id d => runFunction h = true ∧ isDone h = true
  | _ => True
  end.

(** Invariants about the lock and the ownership of the record. *)
Record lock_inv (w : world) : Prop := {
  li_bit : spinlock (w_hc w) = 0 ∨ spinlock (w_hc w) = 1;
  li_c i c : w_callers w !! i = Some c → c_holds c = true →
    spinlock (w_hc w) = 1 ∧ r_holds (w_resp w) = false;
  li_r : r_holds (w_resp w) = true → spinlock (w_hc w) = 1;
  li_u i j c c' : w_callers w !! i = Some c → w_callers w !! j = Some c' →
    c_holds c = true → c_holds c' = true → i = j;
}.

Record own_inv (w : world) : Prop := {
  oi_busy i c : w_callers w !! i = Some c → c_owns c = true → busy (w_hc w) = true;
  oi_u i j c c' : w_callers w !! i = Some c → w_callers w !! j = Some c' →
    c_owns c = true → c_owns c' = true → i = j;
  oi_local i c : w_callers w !! i = Some c → c_local (w_hc w) c;
  oi_resp : r_local (w_hc w) (w_resp w);
  oi_run : runFunction (w_hc w) = true → busy (w_hc w) = true;
  oi_mark : runFunction (w_hc w) = true → isDone (w_hc w) = true →
    ∃ id d, w_resp w = WfMarkRun id d;
  oi_writer i c : w_callers w !! i = Some c → c_writes c = true → r_serves (w_resp w) = false;
}.

(** ** Updates of the list of callers *)
Lemma callers_upd (l : list caller) i c' j c :
  <[i := c']> l !! j = Some c → (i = j ∧ c = c') ∨ (i ≠ j ∧ l !! j = Some c).
Proof. rewrite list_lookup_insert_Some. naive_solver. Qed.

Ltac cases_upd :=
  repeat match goal with
  | H : <[_ := _]> _ !! _ = Some _ |- _ => apply callers_upd in H as [[-> ->]|[? H]]
  end.

(** ** The lock *)
Lemma spin_cases lock sp l o :
  lock = 0 ∨ lock = 1 → sgx_spin_lock lock sp = (l, o) →
  (o = None ∧ lock = 0 ∧ l = 1) ∨ (∃ sp', o = Some sp' ∧ l = lock).
Proof.
  intros Hl. unfold sgx_spin_lock, InterlockedExchange. destruct sp; [|naive_solver].
  destruct (Z.eqb_spec lock 0); intros [= <- <-]; [naive_solver|]. right. eexists. split; [done|]. lia.
Qed.

(** A step of a caller on the lock: it takes it when it is free, releases it when it
    holds it, or leaves it alone. *)
Definition lock_change (h h' : HotCall) (before after : bool) : Prop :=
  (before = false ∧ after = true ∧ spinlock h = 0 ∧ spinlock h' = 1) ∨
  (before = true ∧ after = false ∧ spinlock h' = 0) ∨
  (before = after ∧ spinlock h' = spinlock h).

Lemma caller_lock n h c h' c' acc :
  spinlock h = 0 ∨ spinlock h = 1 → caller_step n h c = (h', c', acc) →
  lock_change h h' (c_holds c) (c_holds c').
Proof.
  intros Hb. unfold lock_change.
  destruct c as [|sp rq k|rq k|[] rq k|t rq k|rq k|sp t rq k|t rq k|t rq k|t rq k|t rq k|rq r t|sp| | |];
    simpl; try (intros [= <- <- <-]; simpl; auto; fail).
  all: try (unfold lock_then; destruct (sgx_spin_lock (spinlock h) sp) as [l o] eqn:E;
    intros [= <- <- <-]; simpl;
    destruct (spin_cases _ _ _ _ Hb E) as [(-> & ? & ->)|(sp' & -> & ->)]; simpl; auto; fail).
  - destruct (busy h); intros [= <- <- <-]; simpl; auto.
  - destruct (MAX_RETRIES <? u32 (k + 1)); intros [= <- <- <-]; simpl; auto.
  - destruct (isDone h); intros [= <- <- <-]; simpl; auto.
Qed.

Lemma responder_lock ne h r h' r' calls :
  spinlock h = 0 ∨ spinlock h = 1 → responder_step ne h r = (h', r', calls) →
  lock_change h h' (r_holds r) (r_holds r').
Proof.
  intros Hb. unfold lock_change.
  destruct r as [sp| | | | |id|id d|id d|sp id d|id d|id d| |]; simpl;
    try (intros [= <- <- <-]; simpl; auto; fail).
  all: try (unfold lock_then; destruct (sgx_spin_lock (spinlock h) sp) as [l o] eqn:E;
    intros [= <- <- <-]; simpl;
    destruct (spin_cases _ _ _ _ Hb E) as [(-> & ? & ->)|(sp' & -> & ->)]; simpl; auto; fail).
  - destruct (negb (keepPolling h)); intros [= <- <- <-]; simpl; auto.
  - destruct (runFunction h); intros [= <- <- <-]; simpl; auto.
Qed.

Lemma lock_inv_caller w i c h c' acc :
  lock_inv w → w_callers w !! i = Some c → lock_change (w_hc w) h (c_holds c) (c_holds c') →
  lock_inv (mkWorld h (<[i := c']> (w_callers w)) (w_resp w) acc (w_calls w)).
Proof.
  intros [Hb Hc Hr Hu] Hi Hch. split; simpl.
  - destruct Hch as [(_ & _ & _ & ->)|[(_ & _ & ->)|(_ & ->)]]; auto.
  - intros j cj Hj Hh. cases_upd.
    + destruct Hch as [(_ & _ & H0 & ->)|[(_ & ? & _)|(He & ->)]]; [|congruence|].
      * split; [done|]. destruct (r_holds (w_resp w)); [|done]. specialize (Hr eq_refl). lia.
      * apply (Hc _ _ Hi). congruence.
    + destruct (Hc _ _ Hj Hh) as [H1 H2].
      destruct Hch as [(_ & _ & H0 & ->)|[(Hci & _ & _)|(_ & ->)]]; [lia| |done].
      by destruct (Hu _ _ _ _ Hi Hj Hci Hh).
  - intros Hrh. specialize (Hr Hrh).
    destruct Hch as [(_ & _ & H0 & ->)|[(Hci & _ & _)|(_ & ->)]]; [lia| |done].
    destruct (Hc _ _ Hi Hci). congruence.
  - assert (∀ j cj, i ≠ j → w_callers w !! j = Some cj → c_holds cj = true → c_holds c' = true → False) as Hex.
    { intros j cj Hne Hj Hh Hh'. destruct (Hc _ _ Hj Hh) as [H1 _].
      destruct Hch as [(_ & _ & H0 & _)|[(_ & ? & _)|(He & _)]]; [lia|congruence|].
      rewrite Hh' in He. by apply Hne, (Hu _ _ _ _ Hi Hj). }
    intros j k cj ck Hj Hk H1 H2. cases_upd; [done|exfalso; eauto..|eauto].
Qed.

Lemma lock_inv_responder w h r calls :
  lock_inv w → lock_change (w_hc w) h (r_holds (w_resp w)) (r_holds r) →
  lock_inv (mkWorld h (w_callers w) r (w_accepted w) calls).
Proof.
  intros [Hb Hc Hr Hu] Hch. split; simpl.
  - destruct Hch as [(_ & _ & _ & ->)|[(_ & _ & ->)|(_ & ->)]]; auto.
  - intros j cj Hj Hh. destruct (Hc _ _ Hj Hh) as [H1 H2].
    destruct Hch as [(_ & _ & H0 & _)|[(? & _ & _)|(He & ->)]]; [lia|congruence|].
    split; [done|congruence].
  - intros Hrh. destruct Hch as [(_ & _ & _ & ->)|[(_ & ? & _)|(He & ->)]]; [done|congruence|].
    apply Hr. congruence.
  - done.
Qed.

Lemma free_caller_holds c : free_caller c = true → c_holds c = false ∧ c_owns c = false ∧ c_writes c = false.
Proof. by destruct c. Qed.

Lemma lock_inv_step ne w a w' : lock_inv w → world_step ne w a = Some w' → lock_inv w'.
Proof.
  intros HL. destruct a as [i id d|i|i|]; simpl.
  1,2: destruct (w_callers w !! i) as [c|] eqn:Hi; simpl; [|done];
    destruct (free_caller c) eqn:Hf; [|done]; intros [= <-];
    apply free_caller_holds in Hf as (Hf & _); unfold set_caller;
    eapply lock_inv_caller; [done..|]; right; right; by rewrite Hf.
  - destruct (w_callers w !! i) as [c|] eqn:Hi; simpl; [|done].
    destruct (caller_step _ _ _) as [[h c'] acc] eqn:Hs. intros [= <-].
    eapply lock_inv_caller; [done..|]. eapply caller_lock; [apply (li_bit _ HL)|done].
  - destruct (responder_step _ _ _) as [[h r] calls] eqn:Hs. intros [= <-].
    apply lock_inv_responder; [done|]. eapply responder_lock; [apply (li_bit _ HL)|done].
Qed.

Lemma replicate_idle n i c : replicate n CIdle !! i = Some c → c = CIdle.
Proof. by intros [-> _]%lookup_replicate. Qed.

Lemma lock_inv_init n : lock_inv (world_init n).
Proof. split; simpl; auto; try done; intros * H%replicate_idle; naive_solver. Qed.

(** ** The record and its owner *)

(** The fields of the record other than the lock word. *)
Definition fields (h : HotCall) := (hc_data h, hc_callID h, keepPolling h, runFunction h, isDone h, busy h).

(** What a thread without the lock knows does not depend on the record. *)
Lemma c_local_frame h h' c : c_holds c = false → c_local h c → c_local h' c.
Proof. destruct c as [| | |[]| | | | | | | | ? ? []| | | |]; simpl; naive_solver. Qed.

Lemma c_local_fields h h' c : fields h = fields h' → c_local h c → c_local h' c.
Proof.
  intros [= H1 H2 H3 H4 H5 H6].
  destruct c as [| | |[]| | | | | | | | ? ? []| | | |]; simpl; rewrite ?H1, ?H2, ?H4, ?H5, ?H6; naive_solver.
Qed.

Lemma r_local_fields h h' r : fields h = fields h' → r_local h r → r_local h' r.
Proof. intros [= H1 H2 H3 H4 H5 H6]. destruct r; simpl; rewrite ?H1, ?H2, ?H4, ?H5; naive_solver. Qed.

Lemma r_serves_run h r : r_local h r → r_serves r = true → runFunction h = true.
Proof. destruct r; simpl; naive_solver. Qed.

Lemma r_local_idle h r : r_serves r = false → r_local h r.
Proof. by destruct r. Qed.

(** Ownership of the record passes with [busy]: kept, taken from nobody, or given up. *)
Definition own_change (h h' : HotCall) (before after : bool) : Prop :=
  (before = after ∧ busy h' = busy h) ∨
  (before = false ∧ after = true ∧ busy h = false ∧ busy h' = true) ∨
  (before = true ∧ after = false ∧ busy h' = false).

Lemma own_inv_caller w i c h c' acc :
  lock_inv w → own_inv w → w_callers w !! i = Some c →
  own_change (w_hc w) h (c_owns c) (c_owns c') →
  (fields (w_hc w) = fields h ∨ c_holds c = true) →
  c_local h c' → r_local h (w_resp w) → (runFunction h = true → busy h = true) →
  (runFunction h = true → isDone h = true → ∃ id d, w_resp w = WfMarkRun id d) →
  (c_writes c' = true → r_serves (w_resp w) = false) →
  own_inv (mkWorld h (<[i := c']> (w_callers w)) (w_resp w) acc (w_calls w)).
Proof.
  intros HL [Hbusy Hu Hloc Hres Hrun Hmark Hwr] Hi Hown Hf H1 H2 H3 H4 H5. split; simpl; try done.
  - intros j cj Hj Ho. cases_upd.
    + destruct Hown as [(He & ->)|[(_ & _ & _ & ->)|(_ & ? & _)]]; [|done|congruence].
      apply (Hbusy _ _ Hi). congruence.
    + pose proof (Hbusy _ _ Hj Ho).
      destruct Hown as [(_ & ->)|[(_ & _ & ? & _)|(Hb & _)]]; [done|congruence|].
      by destruct (Hu _ _ _ _ Hi Hj Hb Ho).
  - assert (∀ j cj, i ≠ j → w_callers w !! j = Some cj → c_owns cj = true → c_owns c' = true → False) as Hex.
    { intros j cj Hne Hj Ho Ho'. pose proof (Hbusy _ _ Hj Ho).
      destruct Hown as [(He & _)|[(_ & _ & ? & _)|(_ & ? & _)]]; [|congruence..].
      rewrite Ho' in He. by apply Hne, (Hu _ _ _ _ Hi Hj). }
    intros j k cj ck Hj Hk Ho1 Ho2. cases_upd; [done|exfalso; eauto..|eauto].
  - intros j cj Hj. cases_upd; [done|]. specialize (Hloc _ _ Hj).
    destruct Hf as [Hf|Hh]; [by eapply c_local_fields|]. apply (c_local_frame (w_hc w)); [|done].
    destruct (c_holds cj) eqn:Hhj; [|done]. by destruct (li_u _ HL _ _ _ _ Hi Hj Hh Hhj).
  - intros j cj Hj Hw. cases_upd; eauto.
Qed.

(** The caller moves on, the record changes at most in its lock word. *)
Lemma own_inv_caller_same w i c h' d acc :
  lock_inv w → own_inv w → w_callers w !! i = Some c →
  fields (w_hc w) = fields h' → c_local h' d → c_owns d = c_owns c → c_writes d = c_writes c →
  own_inv (mkWorld h' (<[i := d]> (w_callers w)) (w_resp w) acc (w_calls w)).
Proof.
  intros HL HO Hi Hf Hl Ho Hw'. pose proof HO as [Hbusy Hu Hloc Hres Hrun Hmark Hwr].
  pose proof Hf as [= E1 E2 E3 E4 E5 E6].
  eapply own_inv_caller; try done; try (rewrite <-?E4, <-?E5, <-?E6; done).
  - left. by rewrite Ho.
  - by left.
  - by eapply r_local_fields.
  - rewrite Hw'. by apply (Hwr i).
Qed.

(** It works on the lock. *)
Lemma own_inv_caller_spin w i c sp (again : spin → caller) taken h c' (acc acc' : list (Z * Z)) :
  lock_inv w → own_inv w → w_callers w !! i = Some c →
  (∀ sp', c_local (w_hc w) (again sp') ∧ c_owns (again sp') = c_owns c ∧ c_writes (again sp') = c_writes c) →
  c_local (w_hc w) taken → c_owns taken = c_owns c → c_writes taken = c_writes c →
  (lock_then (w_hc w) sp again taken, []) = (h, c', acc) →
  own_inv (mkWorld h (<[i := c']> (w_callers w)) (w_resp w) acc' (w_calls w)).
Proof.
  intros HL HO Hi Ha Ht Ho Hwt. unfold lock_then.
  destruct (sgx_spin_lock (spinlock (w_hc w)) sp) as [l [sp'|]]; intros [= <- <- <-].
  - destruct (Ha sp') as (? & ? & ?). eapply own_inv_caller_same; try done; by eapply c_local_fields.
  - eapply own_inv_caller_same; try done; by eapply c_local_fields.
Qed.

Lemma oi_idle w : own_inv w → runFunction (w_hc w) = false → r_serves (w_resp w) = false.
Proof.
  intros HO Hrf. destruct (r_serves (w_resp w)) eqn:E; [|done].
  pose proof (r_serves_run _ _ (oi_resp _ HO) E). congruence.
Qed.

(** It posts a call, step by step. *)
Lemma own_inv_post w i p rq k h c' acc acc' :
  lock_inv w → own_inv w → w_callers w !! i = Some (RqPost p rq k) →
  caller_step (length (w_accepted w)) (w_hc w) (RqPost p rq k) = (h, c', acc) →
  own_inv (mkWorld h (<[i := c']> (w_callers w)) (w_resp w) acc' (w_calls w)).
Proof.
  intros HL HO Hi Hs. pose proof HO as [Hbusy Hu Hloc Hres Hrun Hmark Hwr].
  specialize (Hbusy _ _ Hi). specialize (Hloc _ _ Hi). specialize (Hwr _ _ Hi).
  destruct (li_c _ HL _ _ Hi eq_refl) as [_ Hrh].
  assert (∀ h', r_serves (w_resp w) = false → r_local h' (w_resp w)) as Hfree by (intros h'; apply r_local_idle).
  pose proof (oi_idle w HO) as Hidle.
  destruct p; injection Hs as <- <- <-; simpl in *; destruct_and?; eapply own_inv_caller; try done; simpl;
    try (by left); try (by right); auto; try congruence.
  - right. left. done.
  - destruct (runFunction (w_hc w)); [|done]. specialize (Hrun eq_refl). congruence.
Qed.

(** It gives the record back. *)
Lemma own_inv_free w i t rq k acc :
  lock_inv w → own_inv w → w_callers w !! i = Some (RqFree t rq k) →
  own_inv (mkWorld (set_busy false (w_hc w)) (<[i := RqWaitDone t rq k]> (w_callers w)) (w_resp w) acc (w_calls w)).
Proof.
  intros HL HO Hi. pose proof HO as [Hbusy Hu Hloc Hres Hrun Hmark Hwr].
  destruct (li_c _ HL _ _ Hi eq_refl) as [_ Hrh]. destruct (Hloc _ _ Hi) as [Hd Hk].
  assert (runFunction (w_hc w) = false) as Hrf.
  { destruct (runFunction (w_hc w)) eqn:E; [|done].
    destruct (Hmark eq_refl Hd) as (id & d & Hr). by rewrite Hr in Hrh. }
  eapply own_inv_caller; try done; simpl.
  - right. right. done.
  - by right.
  - congruence.
Qed.

Lemma own_inv_caller_step w i c h c' acc :
  lock_inv w → own_inv w → w_callers w !! i = Some c →
  caller_step (length (w_accepted w)) (w_hc w) c = (h, c', acc) →
  own_inv (mkWorld h (<[i := c']> (w_callers w)) (w_resp w) (w_accepted w ++ acc) (w_calls w)).
Proof.
  intros HL HO Hi Hs. pose proof HO as [_ _ Hloc Hres Hrun Hmark Hwr].
  specialize (Hloc _ _ Hi). specialize (Hwr _ _ Hi).
  pose proof (own_inv_caller_same w i c) as Hsame.
  destruct c as [|sp rq k|rq k|p rq k|t rq k|rq k|sp t rq k|t rq k|t rq k|t rq k|t rq k|rq r t|sp| | |];
    simpl in Hloc, Hwr.
  all: try solve [injection Hs as <- <- <-; by apply Hsame | by eapply own_inv_caller_spin in Hs].
  - destruct (busy (w_hc w)) eqn:Eb; simpl in Hs; rewrite Eb in Hs; injection Hs as <- <- <-; by apply Hsame.
  - by eapply own_inv_post.
  - simpl in Hs. destruct (Z.ltb_spec MAX_RETRIES (u32 (k + 1))); injection Hs as <- <- <-; apply Hsame; simpl; try done.
    unfold MAX_RETRIES in *. rewrite u32_small in * by lia. lia.
  - destruct (isDone (w_hc w)) eqn:Ed; simpl in Hs; rewrite Ed in Hs; injection Hs as <- <- <-; by apply Hsame.
  - injection Hs as <- <- <-. by apply own_inv_free.
  - injection Hs as <- <- <-. eapply own_inv_caller; try done; simpl; [by left|by right].
Qed.

(** The responder moves on, the record changes at most in its lock word. *)
Lemma own_inv_resp_same w h' r' calls :
  lock_inv w → own_inv w → fields (w_hc w) = fields h' → r_local h' r' →
  (∀ id d, w_resp w = WfMarkRun id d → False) →
  (r_serves r' = true → r_serves (w_resp w) = true ∨ r_holds (w_resp w) = true) →
  own_inv (mkWorld h' (w_callers w) r' (w_accepted w) calls).
Proof.
  intros HL [Hbusy Hu Hloc Hres Hrun Hmark Hwr] Hf Hl Hno Hsv. pose proof Hf as [= E1 E2 E3 E4 E5 E6].
  split; simpl; rewrite <-?E4, <-?E5, <-?E6; try done.
  - intros i c Hi. eapply c_local_fields; [done|]. eauto.
  - intros H1 H2. destruct (Hmark H1 H2) as (id & d & Hm). by destruct (Hno _ _ Hm).
  - intros i c Hi Hw. destruct (r_serves r') eqn:E; [|done]. specialize (Hwr _ _ Hi Hw).
    destruct (Hsv eq_refl) as [H1|H1]; [congruence|].
    assert (c_holds c = true) as Hc by (by destruct c as [| | |[]| | | | | | | | | | | |]).
    destruct (li_c _ HL _ _ Hi Hc). congruence.
Qed.

(** It works on the lock. *)
Lemma own_inv_resp_spin w sp (again : spin → responder) taken h r (calls calls' : list (Z * Z)) :
  lock_inv w → own_inv w →
  (∀ sp', r_local (w_hc w) (again sp') ∧ r_serves (again sp') = r_serves (w_resp w)) →
  r_local (w_hc w) taken → r_serves taken = r_serves (w_resp w) →
  (∀ id d, w_resp w = WfMarkRun id d → False) →
  (lock_then (w_hc w) sp again taken, []) = (h, r, calls) →
  own_inv (mkWorld h (w_callers w) r (w_accepted w) calls').
Proof.
  intros HL HO Ha Ht Ho Hno. unfold lock_then.
  destruct (sgx_spin_lock (spinlock (w_hc w)) sp) as [l [sp'|]]; intros [= <- <- <-].
  - destruct (Ha sp') as (? & He). apply own_inv_resp_same; try done. rewrite He. auto.
  - apply own_inv_resp_same; try done. rewrite Ho. auto.
Qed.

(** It finishes a call with the lock in its hands. *)
Lemma own_inv_resp_mark w h' r' calls :
  lock_inv w → own_inv w → r_holds (w_resp w) = true → busy h' = busy (w_hc w) → r_local h' r' →
  (runFunction h' = true → runFunction (w_hc w) = true) →
  (runFunction h' = true → isDone h' = true → ∃ id d, r' = WfMarkRun id d) →
  (r_serves r' = true → r_serves (w_resp w) = true) →
  own_inv (mkWorld h' (w_callers w) r' (w_accepted w) calls).
Proof.
  intros HL [Hbusy Hu Hloc Hres Hrun Hmark Hwr] Hh Hb Hl Hrf Hm Hsv. split; simpl; rewrite ?Hb; try done.
  - intros i c Hi. eapply c_local_frame; [|by eauto]. destruct (c_holds c) eqn:E; [|done].
    destruct (li_c _ HL _ _ Hi E). congruence.
  - auto.
  - intros i c Hi Hw. specialize (Hwr _ _ Hi Hw). destruct (r_serves r'); [|done].
    rewrite Hsv in Hwr; done.
Qed.

Lemma own_inv_responder ne w h r calls :
  lock_inv w → own_inv w → responder_step ne (w_hc w) (w_resp w) = (h, r, calls) →
  own_inv (mkWorld h (w_callers w) r (w_accepted w) (w_calls w ++ calls)).
Proof.
  intros HL HO Hs. pose proof (oi_resp _ HO) as Hres.
  pose proof (λ h' r' calls, own_inv_resp_same w h' r' calls HL HO) as Hsame.
  pose proof (λ h' r' calls, own_inv_resp_mark w h' r' calls HL HO) as Hmark.
  pose proof (λ sp again taken, own_inv_resp_spin w sp again taken h r calls (w_calls w ++ calls) HL HO) as Hspin.
  destruct (w_resp w) as [sp| | | | |id|id d|id d|sp id d|id d|id d| |] eqn:Er; simpl in Hs, Hres.
  all: try solve [injection Hs as <- <- <-; apply Hsame; try done; by auto | by apply Hspin in Hs].
  - injection Hs as <- <- <-. destruct (negb _); apply Hsame; try done; by auto.
  - injection Hs as <- <- <-. destruct (runFunction (w_hc w)) eqn:E; apply Hsame; try done; by auto.
  - injection Hs as <- <- <-. apply Hsame; try done; [|by auto]. simpl. naive_solver.
  - injection Hs as <- <- <-. destruct Hres as (Hr & _). apply Hmark; try done. by eauto.
  - injection Hs as <- <- <-. by apply Hmark.
Qed.

(** ** Histories

    [out] is the accepted request whose callback has not run yet. *)
Definition outstanding (w : world) (out : list (Z * Z)) : Prop :=
  let h := w_hc w in
  (out = [(hc_callID h, hc_data h)] ∧ runFunction h = true ∧ r_ran (w_resp w) = false ∧
     ∀ i c, w_callers w !! i = Some c → c_writes c = false) ∨
  (out = [] ∧ (runFunction h = false ∨ r_ran (w_resp w) = true ∨
     ∃ i c, w_callers w !! i = Some c ∧ c_writes c = true)).

Record hist_inv (ne : Z) (w : world) (served out : list (Z * Z)) : Prop := {
  hi_accepted : w_accepted w = served ++ out;
  hi_calls : w_calls w = filter (λ c, c.1 < ne) served;
  hi_out : outstanding w out;
  hi_waits i c t rq : w_callers w !! i = Some c → c_waits c = Some (t, rq) →
    w_accepted w !! t = Some rq ∧ S t = length (w_accepted w);
  hi_served i c t rq : w_callers w !! i = Some c → c_served c = Some (t, rq) → served !! t = Some rq;
}.

Lemma outstanding_le w out : outstanding w out → (length out ≤ 1)%nat.
Proof. intros [(-> & _)|(-> & _)]; simpl; lia. Qed.

(** The step posts nothing and runs nothing: the thread's part of the history stays. *)
Lemma hist_caller_quiet ne w served out i c h c' :
  hist_inv ne w served out → w_callers w !! i = Some c →
  hc_callID h = hc_callID (w_hc w) → hc_data h = hc_data (w_hc w) → runFunction h = runFunction (w_hc w) →
  c_writes c' = c_writes c →
  (∀ t rq, c_waits c' = Some (t, rq) → c_waits c = Some (t, rq)) →
  (∀ t rq, c_served c' = Some (t, rq) → c_served c = Some (t, rq) ∨
     (c_waits c = Some (t, rq) ∧ runFunction (w_hc w) = false)) →
  hist_inv ne (mkWorld h (<[i := c']> (w_callers w)) (w_resp w) (w_accepted w ++ []) (w_calls w)) served out.
Proof.
  intros [Ha Hc Ho Hw Hs] Hi E1 E2 E3 Ew Hwt Hsv. apply lookup_lt_Some in Hi as Hlt.
  rewrite app_nil_r. split; simpl; try done.
  - destruct Ho as [(-> & H1 & H2 & H3)|(-> & H1)].
    + left. simpl. rewrite E1, E2, E3. split_and!; try done.
      intros j cj Hj. cases_upd; [rewrite Ew|]; eauto.
    + right. split; [done|]. simpl. rewrite E3. destruct H1 as [H1|[H1|(j & cj & Hj & Hwj)]]; auto.
      right. right. destruct (decide (i = j)) as [<-|Hne].
      * exists i, c'. rewrite list_lookup_insert_eq by done. split; [done|congruence].
      * exists j, cj. by rewrite list_lookup_insert_ne.
  - intros j cj t rq Hj Hwj. cases_upd; eauto.
  - intros j cj t rq Hj Hsj. cases_upd; [|by eauto].
    destruct (Hsv _ _ Hsj) as [H1|[H1 Hrf]]; [by eauto|].
    destruct (Hw _ _ _ _ Hi H1) as [H2 _].
    destruct Ho as [(_ & H3 & _)|(-> & _)]; [congruence|]. by rewrite Ha, app_nil_r in H2.
Qed.

Ltac solve_quiet :=
  intros [= <- <- <-]; split_and!; simpl; try done; intros; simplify_eq; eauto.

Lemma caller_quiet n h c h' c' :
  (∀ p rq k, c = RqPost p rq k → p = PBusy ∨ p = PIsDone) →
  (∀ t rq k, c = RqFree t rq k → runFunction h = false) →
  ∀ acc, caller_step n h c = (h', c', acc) →
  acc = [] ∧ hc_callID h' = hc_callID h ∧ hc_data h' = hc_data h ∧ runFunction h' = runFunction h ∧
  c_writes c' = c_writes c ∧
  (∀ t rq, c_waits c' = Some (t, rq) → c_waits c = Some (t, rq)) ∧
  (∀ t rq, c_served c' = Some (t, rq) → c_served c = Some (t, rq) ∨
     (c_waits c = Some (t, rq) ∧ runFunction h = false)).
Proof.
  intros Hp Hf acc.
  destruct c as [|sp rq k|rq k|p rq k|t rq k|rq k|sp t rq k|t rq k|t rq k|t rq k|t rq k|rq r t|sp| | |];
    simpl; unfold lock_then.
  all: try (destruct (sgx_spin_lock (spinlock h) sp) as [l [sp'|]]; solve_quiet; fail).
  all: try (solve_quiet; fail).
  - destruct (busy h); solve_quiet.
  - destruct (Hp _ _ _ eq_refl) as [-> | ->]; solve_quiet.
  - destruct (MAX_RETRIES <? u32 (k + 1)); solve_quiet.
  - destruct (isDone h); solve_quiet.
Qed.

Lemma c_waits_owns c t rq : c_waits c = Some (t, rq) → c_owns c = true.
Proof. by destruct c as [| | |[]| | | | | | | | | | | |]. Qed.

Lemma c_writes_holds c : c_writes c = true → c_holds c = true.
Proof. by destruct c as [| | |[]| | | | | | | | | | | |]. Qed.

(** The last assignment of a posting: the request is accepted. *)
Lemma hist_post ne w served out i rq k :
  lock_inv w → own_inv w → hist_inv ne w served out → w_callers w !! i = Some (RqPost PData rq k) →
  hist_inv ne (mkWorld (set_data rq.2 (w_hc w)) (<[i := RqPosted (length (w_accepted w)) rq k]> (w_callers w))
    (w_resp w) (w_accepted w ++ [rq]) (w_calls w)) (served ++ out) [rq].
Proof.
  intros HL HO [Ha Hc Ho Hw Hs] Hi. destruct (oi_local _ HO _ _ Hi) as (_ & Hr & Hid & _).
  pose proof (oi_writer _ HO _ _ Hi eq_refl) as Hrs.
  assert (out = []) as -> by (destruct Ho as [(_ & _ & _ & Hno)|(-> & _)]; [by specialize (Hno _ _ Hi)|done]).
  rewrite app_nil_r in *. split; simpl; try done.
  - by rewrite Ha.
  - left. simpl. split; [by rewrite Hid, <-surjective_pairing|].
    split; [done|]. split; [by destruct (w_resp w)|].
    intros j cj Hj. cases_upd; [done|]. destruct (c_writes cj) eqn:E; [|done].
    destruct (li_u _ HL _ _ _ _ Hi Hj eq_refl (c_writes_holds _ E)). done.
  - intros j cj t rq' Hj Hwj. rewrite length_app. cases_upd.
    + injection Hwj as <- <-. split; [|simpl; lia]. by apply list_lookup_middle.
    + destruct (oi_u _ HO _ _ _ _ Hi Hj eq_refl (c_waits_owns _ _ _ Hwj)). done.
  - intros j cj t rq' Hj Hsj. cases_upd; [done|]. eauto.
Qed.

(** While a call is being posted nothing is outstanding. *)
Lemma hist_writing ne w served out i rq k h c' :
  hist_inv ne w served out → own_inv w →
  (w_callers w !! i = Some (RqPost PRunFunction rq k) ∨ w_callers w !! i = Some (RqPost PCallID rq k)) →
  c_writes c' = true → c_waits c' = None → c_served c' = None →
  hist_inv ne (mkWorld h (<[i := c']> (w_callers w)) (w_resp w) (w_accepted w ++ []) (w_calls w)) served out.
Proof.
  intros [Ha Hc Ho Hw Hs] HO Hi Ew Ewt Esv. rewrite app_nil_r.
  assert (out = []) as ->.
  { destruct Ho as [(-> & Hr & _ & Hno)|(-> & _)]; [|done].
    destruct Hi as [Hi|Hi]; [destruct (oi_local _ HO _ _ Hi); naive_solver congruence|].
    by specialize (Hno _ _ Hi). }
  assert (i < length (w_callers w))%nat as Hlt by (destruct Hi as [Hi|Hi]; by eapply lookup_lt_Some).
  split; simpl; try done.
  - right. split; [done|]. right. right. exists i, c'. simpl. by rewrite list_lookup_insert_eq.
  - intros j cj t rq' Hj Hwj. cases_upd; [congruence|eauto].
  - intros j cj t rq' Hj Hsj. cases_upd; [congruence|eauto].
Qed.

Lemma hist_caller ne w served out i c h c' acc :
  lock_inv w → own_inv w → hist_inv ne w served out → w_callers w !! i = Some c →
  caller_step (length (w_accepted w)) (w_hc w) c = (h, c', acc) →
  ∃ served' out', hist_inv ne
    (mkWorld h (<[i := c']> (w_callers w)) (w_resp w) (w_accepted w ++ acc) (w_calls w)) served' out'.
Proof.
  intros HL HO HI Hi Hs.
  assert ((∃ p rq k, c = RqPost p rq k ∧ p ≠ PBusy ∧ p ≠ PIsDone) ∨
    (∀ p rq k, c = RqPost p rq k → p = PBusy ∨ p = PIsDone)) as [(p & rq & k & -> & Hp)|Hq].
  { destruct c as [| | |[] rq k| | | | | | | | | | | |]; naive_solver. }
  - destruct p; [naive_solver..| | |]; simpl in Hs; injection Hs as <- <- <-.
    + exists served, out. by eapply hist_writing; [|done|left|..].
    + exists served, out. by eapply hist_writing; [|done|right|..].
    + eexists _, _. by apply hist_post.
  - exists served, out.
    assert (∀ t rq k, c = RqFree t rq k → runFunction (w_hc w) = false) as Hfr;
      [|by destruct (caller_quiet _ _ _ _ _ Hq Hfr _ Hs) as (-> & ? & ? & ? & ? & ? & ?);
        eapply hist_caller_quiet].
    intros t rq k ->. destruct (oi_local _ HO _ _ Hi) as [Hd _]. destruct (runFunction (w_hc w)) eqn:E; [|done].
    destruct (oi_mark _ HO E Hd) as (id & d & Hr). destruct (li_c _ HL _ _ Hi eq_refl) as [_ Hh].
    by rewrite Hr in Hh.
Qed.

Lemma hist_responder ne w served out h r calls :
  lock_inv w → own_inv w → hist_inv ne w served out →
  responder_step ne (w_hc w) (w_resp w) = (h, r, calls) →
  ∃ served' out', hist_inv ne (mkWorld h (w_callers w) r (w_accepted w) (w_calls w ++ calls)) served' out'.
Proof.
  intros HL HO [Ha Hc Ho Hw Hs] Hstep. pose proof (oi_resp _ HO) as Hres.
  (* nothing is run and the responder stays on the same side of the callback *)
  assert (∀ h' r', hc_callID h' = hc_callID (w_hc w) → hc_data h' = hc_data (w_hc w) →
    runFunction h' = runFunction (w_hc w) → r_ran r' = r_ran (w_resp w) →
    hist_inv ne (mkWorld h' (w_callers w) r' (w_accepted w) (w_calls w ++ [])) served out) as Hsame.
  { intros h' r' E1 E2 E3 E4. rewrite app_nil_r. split; simpl; try done.
    unfold outstanding in *. simpl. by rewrite E1, E2, E3, E4. }
  destruct (w_resp w) as [sp| | | | |id|id d|id d|sp id d|id d|id d| |] eqn:Er; simpl in Hstep.
  8:{ (* the callback *)
    injection Hstep as <- <- <-. destruct Hres as (Hr & -> & ->).
    destruct Ho as [(-> & _)|(_ & [Hr'|[Hr'|(i & c & Hi & Hwi)]])].
    - exists (served ++ [(hc_callID (w_hc w), hc_data (w_hc w))]), []. split; simpl; try done.
      + by rewrite app_nil_r.
      + rewrite filter_app, Hc. f_equal. rewrite filter_cons. simpl.
        destruct (Z.ltb_spec (hc_callID (w_hc w)) ne).
        * by rewrite decide_True.
        * rewrite decide_False by lia. done.
      + right. split; [done|]. by right; left.
      + intros i c t rq Hi Hsv. apply lookup_app_l_Some. eauto.
    - congruence.
    - by rewrite Er in Hr'.
    - pose proof (oi_writer _ HO _ _ Hi Hwi) as Hno. by rewrite Er in Hno. }
  10:{ (* [runFunction] is reset *)
    injection Hstep as <- <- <-. exists served, []. rewrite app_nil_r.
    destruct Ho as [(_ & _ & Hr & _)|(-> & _)]; [by rewrite Er in Hr|]. split; simpl; try done.
    right. split; [done|]. by left. }
  all: exists served, out.
  all: try (unfold lock_then in Hstep;
    destruct (sgx_spin_lock (spinlock (w_hc w)) sp) as [l [sp'|]]; injection Hstep as <- <- <-; by apply Hsame).
  all: injection Hstep as <- <- <-; apply Hsame; try done.
  - by destruct (negb (keepPolling (w_hc w))).
  - by destruct (runFunction (w_hc w)).
Qed.

(** ** Reachable states *)
Record hc_inv (ne : Z) (w : world) : Prop := {
  hv_lock : lock_inv w;
  hv_own : own_inv w;
  hv_hist : ∃ served out, hist_inv ne w served out;
}.

Lemma hc_inv_enter ne w i c c' :
  hc_inv ne w → w_callers w !! i = Some c → free_caller c = true →
  c_holds c' = false → c_owns c' = false → c_writes c' = false → c_waits c' = None → c_served c' = None →
  (∀ h, c_local h c') → hc_inv ne (set_caller i c' w).
Proof.
  intros [HL HO (served & out & HI)] Hi Hf E1 E2 E3 E4 E5 Hl.
  apply free_caller_holds in Hf as (F1 & F2 & F3). unfold set_caller. split.
  - eapply lock_inv_caller; [done..|]. right. right. by rewrite E1, F1.
  - eapply own_inv_caller; try done; try apply HO.
    + left. by rewrite E2, F2.
    + by left.
    + by rewrite E3.
  - exists served, out. rewrite <-(app_nil_r (w_accepted w)).
    eapply hist_caller_quiet; try done; [by rewrite E3, F3|by rewrite E4|by rewrite E5].
Qed.

Lemma hc_inv_step ne w a w' : hc_inv ne w → world_step ne w a = Some w' → hc_inv ne w'.
Proof.
  intros HV Hs. pose proof HV as [HL HO (served & out & HI)].
  pose proof (lock_inv_step _ _ _ _ HL Hs) as HL'. destruct a as [i id d|i|i|]; simpl in Hs.
  1,2: destruct (w_callers w !! i) as [c|] eqn:Hi; simpl in Hs; [|done];
    destruct (free_caller c) eqn:Hf; [|done]; injection Hs as <-; by eapply hc_inv_enter.
  - destruct (w_callers w !! i) as [c|] eqn:Hi; simpl in Hs; [|done].
    destruct (caller_step _ _ _) as [[h c'] acc] eqn:Hc. injection Hs as <-. split; [done|..].
    + by eapply own_inv_caller_step.
    + by eapply hist_caller.
  - destruct (responder_step _ _ _) as [[h r] calls] eqn:Hc. injection Hs as <-. split; [done|..].
    + by eapply own_inv_responder.
    + by eapply hist_responder.
Qed.

Lemma hc_inv_init ne n : hc_inv ne (world_init n).
Proof.
  split; [apply lock_inv_init|..].
  - split; simpl; try done; intros * H%replicate_idle; naive_solver.
  - exists [], []. split; simpl; try done.
    + right. split; [done|]. by left.
    + intros * H%replicate_idle. naive_solver.
    + intros * H%replicate_idle. naive_solver.
Qed.

Lemma hc_inv_reachable ne n w : reachable ne n w → hc_inv ne w.
Proof. induction 1; [apply hc_inv_init|by eapply hc_inv_step]. Qed.

Lemma reachable_run ne n w sched w' :
  reachable ne n w → world_run ne w sched = Some w' → reachable ne n w'.
Proof.
  unfold world_run. revert w. induction sched as [|a sched IH]; intros w Hr; simpl; [by intros [= <-]|].
  destruct (world_step ne w a) as [w1|] eqn:E.
  - apply IH. by eapply reach_step.
  - intros Hn. exfalso. clear -Hn. induction sched; simpl in *; [done|auto].
Qed.

Lemma world_run_app ne w s1 s2 w1 :
  world_run ne w s1 = Some w1 → world_run ne w (s1 ++ s2) = world_run ne w1 s2.
Proof. unfold world_run. rewrite fold_left_app. by intros ->. Qed.

Lemma world_run_caller ne w i c h c' acc sched :
  w_callers w !! i = Some c → caller_step (length (w_accepted w)) (w_hc w) c = (h, c', acc) →
  world_run ne w (ACaller i :: sched) =
  world_run ne (mkWorld h (<[i := c']> (w_callers w)) (w_resp w) (w_accepted w ++ acc) (w_calls w)) sched.
Proof. intros Hi Hs. unfold world_run. simpl. rewrite Hi. simpl. by rewrite Hs. Qed.

(** A caller runs alone for a while. *)
Fixpoint caller_steps (k n : nat) (h : HotCall) (c : caller) : HotCall * caller * list (Z * Z) :=
  match k with
  | O => (h, c, [])
  | S k' =>
      let '(h1, c1, a1) := caller_step n h c in
      let '(h2, c2, a2) := caller_steps k' (n + length a1) h1 c1 in (h2, c2, a1 ++ a2)
  end.

Lemma world_run_callers k ne w i c :
  w_callers w !! i = Some c →
  let '(h, c', acc) := caller_steps k (length (w_accepted w)) (w_hc w) c in
  world_run ne w (replicate k (ACaller i)) =
  Some (mkWorld h (<[i := c']> (w_callers w)) (w_resp w) (w_accepted w ++ acc) (w_calls w)).
Proof.
  revert w c. induction k as [|k IH]; intros w c Hi; simpl.
  - rewrite list_insert_id, app_nil_r by done. by destruct w.
  - destruct (caller_step _ _ _) as [[h1 c1] a1] eqn:H1. apply lookup_lt_Some in Hi as Hlt.
    specialize (IH (mkWorld h1 (<[i := c1]> (w_callers w)) (w_resp w) (w_accepted w ++ a1) (w_calls w)) c1).
    cbn [w_callers w_accepted w_hc w_resp w_calls] in IH. rewrite length_app in IH.
    rewrite list_lookup_insert_eq in IH by done. specialize (IH eq_refl).
    destruct (caller_steps k _ h1 c1) as [[h2 c2] a2].
    rewrite (world_run_caller _ _ _ _ _ _ _ _ Hi H1), IH.
    by rewrite list_insert_insert_eq, <-app_assoc.
Qed.

(** The responder runs alone for a while. *)
Fixpoint responder_steps (k : nat) (ne : Z) (h : HotCall) (r : responder) : HotCall * responder * list (Z * Z) :=
  match k with
  | O => (h, r, [])
  | S k' =>
      let '(h1, r1, a1) := responder_step ne h r in
      let '(h2, r2, a2) := responder_steps k' ne h1 r1 in (h2, r2, a1 ++ a2)
  end.

Lemma world_run_responder k ne w :
  let '(h, r, calls) := responder_steps k ne (w_hc w) (w_resp w) in
  world_run ne w (replicate k AResponder) =
  Some (mkWorld h (w_callers w) r (w_accepted w) (w_calls w ++ calls)).
Proof.
  revert w. induction k as [|k IH]; intros w; simpl.
  - rewrite app_nil_r. by destruct w.
  - destruct (responder_step _ _ _) as [[h1 r1] a1] eqn:H1.
    specialize (IH (mkWorld h1 (w_callers w) r1 (w_accepted w) (w_calls w ++ a1))).
    cbn [w_callers w_accepted w_hc w_resp w_calls] in IH.
    destruct (responder_steps k _ h1 r1) as [[h2 r2] a2].
    unfold world_run in *. simpl. rewrite H1, IH. by rewrite <-app_assoc.
Qed.

(** ** Properties *)
(** The three phases of an uncontended call. *)
Lemma caller_posts n h rq :
  spinlock h = 0 → busy h = false →
  caller_steps 8 n h (RqLock SXchg rq 0) =
  (mkHotCall 0 rq.2 rq.1 (keepPolling h) true false true, RqWaitLock SXchg n rq 0, [rq]).
Proof.
  destruct h as [l d cid kp rf dn bz]. simpl. intros -> ->. simpl. by rewrite !Nat.add_0_r.
Qed.

Lemma responder_serves ne h :
  spinlock h = 0 → keepPolling h = true → runFunction h = true → hc_callID h < ne →
  responder_steps 11 ne h (WfLock SXchg) =
  (mkHotCall 0 (hc_data h) (hc_callID h) true false true (busy h), WfLock SXchg, [(hc_callID h, hc_data h)]).
Proof.
  destruct h as [l d cid kp rf dn bz]. simpl. intros -> -> -> Hlt. simpl.
  by rewrite (proj2 (Z.ltb_lt _ _) Hlt).
Qed.

Lemma caller_returns n h t rq k :
  spinlock h = 0 → isDone h = true →
  caller_steps 4 n h (RqWaitLock SXchg t rq k) =
  (mkHotCall 0 (hc_data h) (hc_callID h) (keepPolling h) (runFunction h) true false, RqReturn rq k (Some t), []).
Proof. destruct h as [l d cid kp rf dn bz]. simpl. by intros -> ->. Qed.

Lemma world_run_cons ne w a w1 sched :
  world_step ne w a = Some w1 → world_run ne w (a :: sched) = world_run ne w1 sched.
Proof. unfold world_run. simpl. by intros ->. Qed.
