(* ===== verification/HotCallsClaims.v ===== *)
(** * Theorems on hot calls

    The record shared by the callers and the responder under every interleaving of their
    steps: mutual exclusion, exactly-once execution, no return before the call, completion
    of an uncontended call and of a stop. *)

From S2P Require Import Prelude HotCalls HotCallsProofs.

Section theorems.
Context (numEntries : Z) (n : nat) (w : world) (Hreach : reachable numEntries n w).

(** C11. At most one thread is inside a critical section of the hot-call record: two callers
    that both hold the lock are the same, and a caller and the responder never hold it
    together. *)
Theorem hotcall_mutual_exclusion :
  (∀ i j c c', w_callers w !! i = Some c → w_callers w !! j = Some c' →
     c_holds c = true → c_holds c' = true → i = j) ∧
  (∀ i c, w_callers w !! i = Some c → c_holds c = true → r_holds (w_resp w) = false).
Proof.
  destruct (hc_inv_reachable _ _ _ Hreach) as [HL _ _]. split; [apply (li_u _ HL)|].
  intros i c Hi Hc. apply (li_c _ HL _ _ Hi Hc).
Qed.

(** C10. Every accepted request is run exactly once, in the order of acceptance: the callbacks
    run so far are those of a prefix of the accepted requests that lacks at most the last
    one (an identifier outside of the table runs nothing). *)
Theorem hotcall_exactly_once :
  ∃ served out, w_accepted w = served ++ out ∧ (length out ≤ 1)%nat ∧
    w_calls w = filter (λ c, c.1 < numEntries) served.
Proof.
  destruct (hc_inv_reachable _ _ _ Hreach) as [_ _ (served & out & HI)].
  exists served, out. split; [apply HI|]. split; [by eapply outstanding_le, HI|apply HI].
Qed.

(** [HotCall_requestCall] returns a count only after its callback has run: the
    request is the [t]-th accepted one, at least [t + 1] accepted requests have been served,
    and the count of retries is at most [MAX_RETRIES]; otherwise it returns -1 and the
    request was not accepted. *)
Theorem hotcall_return_after_call i rq ret t :
  w_callers w !! i = Some (RqReturn rq ret t) →
  match t with
  | Some t => 0 ≤ ret ≤ MAX_RETRIES ∧ ∃ served out, w_accepted w = served ++ out ∧
      served !! t = Some rq ∧ w_calls w = filter (λ c, c.1 < numEntries) served
  | None => ret = -1
  end.
Proof.
  intros Hi. destruct (hc_inv_reachable _ _ _ Hreach) as [_ HO (served & out & HI)].
  pose proof (oi_local _ HO _ _ Hi) as Hl. destruct t as [t|]; [|done]. split; [done|].
  exists served, out. split; [apply HI|]. split; [|apply HI]. by apply (hi_served _ _ _ _ HI i _ t rq Hi).
Qed.
End theorems.

(** C19. An uncontended call completes: from a state in which the record is free and the
    responder polls, a caller that posts a valid call, the responder and the caller, each
    running alone in turn, end with the callback run once, the caller returning 0 and the
    record free again. *)
Theorem hotcall_round_trip numEntries w i c id data :
  spinlock (w_hc w) = 0 → busy (w_hc w) = false → keepPolling (w_hc w) = true →
  w_resp w = WfLock SXchg → w_callers w !! i = Some c → free_caller c = true →
  0 ≤ id < numEntries → numEntries ≤ 2 ^ 16 →
  ∃ w', world_run numEntries w
      (ARequest i id data :: replicate 8 (ACaller i) ++ replicate 11 AResponder ++ replicate 4 (ACaller i)) =
      Some w' ∧
    w_callers w' = <[i := RqReturn (id, data) 0 (Some (length (w_accepted w)))]> (w_callers w) ∧
    w_accepted w' = w_accepted w ++ [(id, data)] ∧ w_calls w' = w_calls w ++ [(id, data)] ∧
    spinlock (w_hc w') = 0 ∧ busy (w_hc w') = false ∧ keepPolling (w_hc w') = true ∧
    w_resp w' = WfLock SXchg.
Proof.
  intros Hl Hb Hk Hr Hi Hf Hid Hne. apply lookup_lt_Some in Hi as Hlt.
  assert (u16 id = id) as Hu by (apply Z.mod_small; lia).
  set (w1 := set_caller i (RqLock SXchg (id, data) 0) w).
  rewrite (world_run_cons _ _ _ w1) by (simpl; rewrite Hi; simpl; by rewrite Hf, Hu).
  assert (w_callers w1 !! i = Some (RqLock SXchg (id, data) 0)) as Hi1 by (by apply list_lookup_insert_eq).
  pose proof (world_run_callers 8 numEntries w1 i _ Hi1) as R1.
  rewrite (caller_posts _ (w_hc w1) _ Hl Hb) in R1.
  rewrite (world_run_app _ _ _ _ _ R1). clear R1.
  set (w2 := mkWorld _ _ _ _ _).
  pose proof (world_run_responder 11 numEntries w2) as R2.
  replace (w_resp w2) with (WfLock SXchg) in R2 by done.
  rewrite responder_serves in R2 by (try done; simpl; lia).
  rewrite (world_run_app _ _ _ _ _ R2). clear R2.
  set (w3 := mkWorld _ _ _ _ _).
  assert (w_callers w3 !! i = Some (RqWaitLock SXchg (length (w_accepted w1)) (id, data) 0)) as Hi3.
  { simpl. rewrite list_insert_insert_eq. by apply list_lookup_insert_eq. }
  pose proof (world_run_callers 4 numEntries w3 i _ Hi3) as R3.
  rewrite caller_returns in R3 by done. rewrite R3. clear R3. eexists. split; [done|].
  simpl. rewrite !list_insert_insert_eq, app_nil_r. split_and!; done.
Qed.

Lemma caller_stops n h :
  spinlock h = 0 →
  caller_steps 3 n h (StLock SXchg) =
  (mkHotCall 0 (hc_data h) (hc_callID h) false (runFunction h) (isDone h) (busy h), StReturn, []).
Proof. destruct h as [l d cid kp rf dn bz]. simpl. by intros ->. Qed.

Lemma responder_stops ne h :
  spinlock h = 0 → keepPolling h = false → responder_steps 3 ne h (WfLock SXchg) = (h, WfReturn, []).
Proof. destruct h as [l d cid kp rf dn bz]. simpl. by intros -> ->. Qed.

(** C20. A stop ends the responder: if the lock is free and the responder polls, a caller that
    runs [StopResponder] returns after three steps, and the responder leaves its loop in the
    next three, with the lock free and no callback run. *)
Theorem stop_ends_responder numEntries w i c :
  spinlock (w_hc w) = 0 → w_resp w = WfLock SXchg → w_callers w !! i = Some c → free_caller c = true →
  ∃ w', world_run numEntries w (AStop i :: replicate 3 (ACaller i) ++ replicate 3 AResponder) = Some w' ∧
    w_callers w' = <[i := StReturn]> (w_callers w) ∧ w_resp w' = WfReturn ∧ spinlock (w_hc w') = 0 ∧
    w_calls w' = w_calls w ∧ w_accepted w' = w_accepted w.
Proof.
  intros Hl Hr Hi Hf. apply lookup_lt_Some in Hi as Hlt.
  set (w1 := set_caller i (StLock SXchg) w).
  rewrite (world_run_cons _ _ _ w1) by (simpl; rewrite Hi; simpl; by rewrite Hf).
  assert (w_callers w1 !! i = Some (StLock SXchg)) as Hi1 by (by apply list_lookup_insert_eq).
  pose proof (world_run_callers 3 numEntries w1 i _ Hi1) as R1. rewrite caller_stops in R1 by done.
  rewrite (world_run_app _ _ _ _ _ R1). clear R1. set (w2 := mkWorld _ _ _ _ _).
  pose proof (world_run_responder 3 numEntries w2) as R2.
  replace (w_resp w2) with (WfLock SXchg) in R2 by done.
  rewrite responder_stops in R2 by done. rewrite R2. eexists. split; [done|].
  simpl. by rewrite !list_insert_insert_eq, !app_nil_r.
Qed.

(** ** Two callers and a responder *)

(** Caller 0 posts a call, caller 1 finds the record in use, the responder serves the call
    and caller 0 returns. *)
Definition demo_calls : list action :=
  ARequest 0 0 42 :: ARequest 1 0 43 :: replicate 4 (ACaller 0) ++ [ACaller 1; ACaller 1] ++ replicate 4 (ACaller 0) ++
  replicate 11 AResponder ++ replicate 4 (ACaller 0).

Lemma demo_calls_run : ∃ w, world_run 1 (world_init 2) demo_calls = Some w ∧
  w_callers w !! 0%nat = Some (RqReturn (0, 42) 0 (Some 0%nat)) ∧ w_calls w = [(0, 42)].
Proof. vm_compute. eexists. done. Qed.

Lemma demo_reachable w : world_run 1 (world_init 2) demo_calls = Some w → reachable 1 2 w.
Proof. apply reachable_run. constructor. Qed.

Lemma hotcall_mutual_exclusion_witness :
  ∃ w, world_run 1 (world_init 2) (take 12 demo_calls) = Some w ∧
    (∀ i j c c', w_callers w !! i = Some c → w_callers w !! j = Some c' →
       c_holds c = true → c_holds c' = true → i = j) ∧
    (∀ i c, w_callers w !! i = Some c → c_holds c = true → r_holds (w_resp w) = false).
Proof.
  destruct (world_run 1 (world_init 2) (take 12 demo_calls)) as [w|] eqn:E; [|by vm_compute in E].
  exists w. split; [done|].
  apply (hotcall_mutual_exclusion 1 2 w (reachable_run 1 2 (world_init 2) _ w (reach_init 1 2) E)).
Defined.

Lemma hotcall_exactly_once_witness :
  ∃ w, world_run 1 (world_init 2) demo_calls = Some w ∧ w_calls w = [(0, 42)] ∧
    ∃ served out, w_accepted w = served ++ out ∧ (length out ≤ 1)%nat ∧ w_calls w = filter (λ c, c.1 < 1) served.
Proof.
  destruct demo_calls_run as (w & Hw & _ & Hc). exists w. split; [done|]. split; [done|].
  apply (hotcall_exactly_once 1 2 w (demo_reachable w Hw)).
Defined.

Lemma hotcall_return_after_call_witness :
  ∃ w, world_run 1 (world_init 2) demo_calls = Some w ∧ 0 ≤ 0 ≤ MAX_RETRIES ∧
    ∃ served out, w_accepted w = served ++ out ∧ served !! 0%nat = Some (0, 42) ∧
      w_calls w = filter (λ c, c.1 < 1) served.
Proof.
  destruct demo_calls_run as (w & Hw & Hr & _). exists w. split; [done|].
  exact (hotcall_return_after_call 1 2 w (demo_reachable w Hw) 0 (0, 42) 0 (Some 0%nat) Hr).
Defined.

Lemma hotcall_round_trip_witness :
  ∃ w', world_run 1 (world_init 2)
      (ARequest 1 0 42 :: replicate 8 (ACaller 1) ++ replicate 11 AResponder ++ replicate 4 (ACaller 1)) = Some w' ∧
    w_callers w' = [CIdle; RqReturn (0, 42) 0 (Some 0%nat)] ∧ w_accepted w' = [(0, 42)] ∧ w_calls w' = [(0, 42)] ∧
    spinlock (w_hc w') = 0 ∧ busy (w_hc w') = false ∧ keepPolling (w_hc w') = true ∧ w_resp w' = WfLock SXchg.
Proof. by apply (hotcall_round_trip 1 (world_init 2) 1 CIdle 0 42). Defined.

Lemma stop_ends_responder_witness :
  ∃ w', world_run 1 (world_init 2) (AStop 0 :: replicate 3 (ACaller 0) ++ replicate 3 AResponder) = Some w' ∧
    w_callers w' = [StReturn; CIdle] ∧ w_resp w' = WfReturn ∧ spinlock (w_hc w') = 0 ∧
    w_calls w' = [] ∧ w_accepted w' = [].
Proof. by apply (stop_ends_responder 1 (world_init 2) 0 CIdle). Defined.
