(* ===== verification/Responder.v ===== *)
(** * Hot calls and the dispatcher together, [EcallStartResponder] and [App.cpp]

    The main thread posts the message of a client with [HotCall_requestCall]; the responder
    thread inside the enclave runs [enclave_message_pass] on it, while the workers go on.
    The state is the shared hot-call record, the shared [ecallParams] of [main] and the state
    of the enclave threads; a move is a step of one of the threads. *)

From S2P Require Import Prelude Common Enclave Dispatch HotCalls.

(** The address of [ecallParams], the only pointer that is passed. *)
Definition params_ptr : Z := 1.

(** [callTable.numEntries] *)
Definition numEntries : Z := 1.

Record system := mkSystem {
  sy_world : world;
  sy_params : EcallParams;
  sy_disp : dispatch;
}.

Inductive move :=
  | MHost               (* main makes a step of its call *)
  | MResponder          (* the responder makes a step *)
  | MWorker (ev : event). (* a worker starts or makes a step *)

Section responder.
Context `{Platform}.

(** The table of [EcallStartResponder]. *)
Definition callbacks : list (EcallParams → D bytes) := [enclave_message_pass].

(** [callTable->callbacks[callID](data)]: the callback works on the buffer in place. *)
Definition run_callback (c : Z * Z) (p : EcallParams) : D EcallParams :=
  f ← lift (zlookup callbacks c.1);
  if c.2 =? params_ptr then
    buf ← f p; mret (mkEcallParams buf (ep_client_sock p) (ep_num_clients p))
  else raise Bad_ptr.

Fixpoint run_callbacks (cs : list (Z * Z)) (p : EcallParams) : D EcallParams :=
  match cs with
  | [] => mret p
  | c :: cs' => p' ← run_callback c p; run_callbacks cs' p'
  end.

(** [ecallParams] is filled and [HotCall_requestCall(&hotEcall, 0, &ecallParams)] entered. *)
Definition post_message (p : EcallParams) (s : system) : option system :=
  w ← world_step numEntries (sy_world s) (ARequest 0 0 params_ptr);
  Some (mkSystem w p (sy_disp s)).

Definition world_move (m : move) (w : world) : option world :=
  match m with
  | MHost => world_step numEntries w (ACaller 0)
  | MResponder => world_step numEntries w AResponder
  | MWorker _ => Some w
  end.

(** A move: a step of the threads of the record, the callbacks it runs, and a step of a
    worker. *)
Definition system_step (s : system) (m : move) : res system :=
  match world_move m (sy_world s) with
  | None => Fault Out_of_bounds
  | Some w =>
      '(p, d) ← run_callbacks (drop (length (w_calls (sy_world s))) (w_calls w)) (sy_params s) (sy_disp s);
      match m with
      | MWorker ev => '(_, d') ← event_step ev d; Ok (mkSystem w p d')
      | _ => Ok (mkSystem w p d)
      end
  end.

Fixpoint system_run (ms : list move) (s : system) : res system :=
  match ms with
  | [] => Ok s
  | m :: ms' => s' ← system_step s m; system_run ms' s'
  end.
End responder.

(** The steps of the workers among the moves. *)
Fixpoint worker_events (ms : list move) : list event :=
  match ms with
  | [] => []
  | MWorker ev :: ms' => ev :: worker_events ms'
  | _ :: ms' => worker_events ms'
  end.
