(* ===== verification/ResponderProofs.v ===== *)
(** * A hot call of the main thread is one message pass: lemmas *)

From S2P Require Import Prelude Common Enclave Dispatch HotCalls HotCallsProofs Responder.

(** ** The main thread is the only caller *)

(** The record is busy exactly while the caller owns it, and the caller never finds it in
    use. *)
Definition alone (w : world) : Prop :=
  ∃ c, w_callers w = [c] ∧ busy (w_hc w) = c_owns c ∧ ∀ rq k, c ≠ RqBusy rq k.

Lemma caller_step_alone n h c h' c' acc :
  busy h = c_owns c → (∀ rq k, c ≠ RqBusy rq k) → caller_step n h c = (h', c', acc) →
  busy h' = c_owns c' ∧ ∀ rq k, c' ≠ RqBusy rq k.
Proof.
  intros Hb Hn Hs.
  destruct c as [|sp rq k|rq k|[] rq k|t rq k|rq k|sp t rq k|t rq k|t rq k|t rq k|t rq k|rq r t|sp| | |];
    simpl in Hs, Hb; unfold lock_then in Hs;
    try (destruct (sgx_spin_lock _ _) as [l [sp'|]]); try (rewrite Hb in Hs);
    try (destruct (isDone h)); try (by destruct (Hn rq k)); injection Hs as <- <- <-; done.
Qed.

Lemma alone_step w a w' : alone w → world_step numEntries w a = Some w' → alone w'.
Proof.
  intros (c & Hc & Hb & Hn). destruct a as [[|i] id data|[|i]|[|i]|]; simpl; rewrite ?Hc; simpl; try done.
  - destruct (free_caller c) eqn:Hf; [|done]. intros [= <-]. destruct (free_caller_holds c Hf) as (_ & Ho & _).
    exists (RqLock SXchg (u16 id, data) 0). unfold set_caller. simpl. rewrite Hc, Hb, Ho. done.
  - destruct (free_caller c) eqn:Hf; [|done]. intros [= <-]. destruct (free_caller_holds c Hf) as (_ & Ho & _).
    exists (StLock SXchg). unfold set_caller. simpl. rewrite Hc, Hb, Ho. done.
  - destruct (caller_step _ _ c) as [[h c'] acc] eqn:Hs. intros [= <-].
    destruct (caller_step_alone _ _ _ _ _ _ Hb Hn Hs). by exists c'.
  - destruct (responder_step _ _ _) as [[h r] calls] eqn:Hs. intros [= <-]. exists c. split; [done|]. split; [|done].
    rewrite <-Hb. simpl. clear -Hs.
    destruct (w_resp w); simpl in Hs; unfold lock_then in Hs;
      try destruct (sgx_spin_lock _ _) as [l [sp'|]]; by injection Hs as <- <- <-.
Qed.

Lemma alone_reachable w : reachable numEntries 1 w → alone w.
Proof. induction 1; [by exists CIdle|by eapply alone_step]. Qed.

(** Between two calls every accepted request has been served. *)
Lemma all_served w c :
  reachable numEntries 1 w → w_callers w = [c] → free_caller c = true →
  w_calls w = filter (λ c, c.1 < numEntries) (w_accepted w).
Proof.
  intros Hr Hc Hf. destruct (hc_inv_reachable _ _ _ Hr) as [_ HO (served & out & [HA HC Hout _ _])].
  destruct (alone_reachable w Hr) as (c' & Hc' & Hb & _). rewrite Hc in Hc'. injection Hc' as <-.
  destruct (free_caller_holds c Hf) as (_ & Ho & _).
  destruct Hout as [(_ & Hrun & _)|(-> & _)]; [|by rewrite HC, HA, app_nil_r].
  apply (oi_run _ HO) in Hrun. congruence.
Qed.

(** ** The phases of the call *)
Definition the_call : Z * Z := (0, params_ptr).

(** [acc0] are the requests accepted before. *)
Definition in_call (acc0 : list (Z * Z)) (c : caller) (acc : list (Z * Z)) : Prop :=
  match c with
  | RqLock _ rq k | RqTest rq k | RqPost _ rq k => rq = the_call ∧ k = 0 ∧ acc = acc0
  | RqPosted t rq k | RqWaitLock _ t rq k | RqWaitTest t rq k | RqWaitMore t rq k | RqFree t rq k
  | RqWaitDone t rq k => rq = the_call ∧ k = 0 ∧ t = length acc0 ∧ acc = acc0 ++ [the_call]
  | RqReturn rq r t => rq = the_call ∧ r = 0 ∧ t = Some (length acc0) ∧ acc = acc0 ++ [the_call]
  | _ => False
  end.

Definition calling (acc0 : list (Z * Z)) (w : world) : Prop :=
  ∃ c, w_callers w = [c] ∧ busy (w_hc w) = c_owns c ∧ in_call acc0 c (w_accepted w).

Lemma caller_step_calling acc0 h c acc h' c' new :
  busy h = c_owns c → in_call acc0 c acc → caller_step (length acc) h c = (h', c', new) →
  in_call acc0 c' (acc ++ new).
Proof.
  intros Hb Hin Hs.
  destruct c as [|sp rq k|rq k|[] rq k|t rq k|rq k|sp t rq k|t rq k|t rq k|t rq k|t rq k|rq r t|sp| | |];
    simpl in Hs, Hb, Hin; try done; unfold lock_then in Hs; destruct_and?; subst;
    try (destruct (sgx_spin_lock _ _) as [l [sp'|]]); try (rewrite Hb in Hs);
    try (destruct (isDone h)); injection Hs as <- <- <-; simpl; rewrite ?app_nil_r; done.
Qed.

Lemma calling_move acc0 m w w' : calling acc0 w → world_move m w = Some w' → calling acc0 w'.
Proof.
  intros (c & Hc & Hb & Hin) Hm.
  destruct m as [| |ev]; [| |injection Hm as <-; by exists c].
  - simpl in Hm. rewrite Hc in Hm. simpl in Hm.
    destruct (caller_step _ _ c) as [[h c'] acc] eqn:Hs. injection Hm as <-.
    assert (∀ rq k, c ≠ RqBusy rq k) as Hn by (intros rq k ->; done).
    exists c'. split; [done|]. split; [by eapply caller_step_alone|by eapply caller_step_calling].
  - assert (alone w) as Ha by (exists c; split; [done|]; split; [done|]; by intros rq k ->).
    destruct (alone_step _ AResponder _ Ha Hm) as (c1 & Hc1 & Hb1 & _). exists c1. split; [done|]. split; [done|].
    simpl in Hm. destruct (responder_step _ _ _) as [[h r] calls]. injection Hm as <-. simpl in *. congruence.
Qed.

(** ** Callbacks and steps of the workers *)
Section mixed.
Context `{Platform}.

(** The callbacks [cs] and the events [evs] in some interleaving. *)
Inductive mixed : EcallParams → dispatch → list (Z * Z) → list event → EcallParams → dispatch → Prop :=
  | mixed_nil p d : mixed p d [] [] p d
  | mixed_call p d c p1 d1 cs evs p2 d2 :
      run_callback c p d = Ok (p1, d1) → mixed p1 d1 cs evs p2 d2 → mixed p d (c :: cs) evs p2 d2
  | mixed_event p d ev d1 cs evs p2 d2 :
      event_step ev d = Ok (tt, d1) → mixed p d1 cs evs p2 d2 → mixed p d cs (ev :: evs) p2 d2.

Lemma mixed_calls cs : ∀ p d p1 d1 cs2 evs p2 d2,
  run_callbacks cs p d = Ok (p1, d1) → mixed p1 d1 cs2 evs p2 d2 → mixed p d (cs ++ cs2) evs p2 d2.
Proof.
  induction cs as [|c cs IH]; intros p d p1 d1 cs2 evs p2 d2; simpl; [by intros [= <- <-]|].
  intros Hr Hm. apply bind_inv in Hr as (p' & d' & Hc & Hr). eapply mixed_call; [done|]. by eapply IH.
Qed.

Lemma dsteps_cons d ev d1 evs d2 :
  event_step ev d = Ok (tt, d1) → dsteps d1 evs d2 → dsteps d (ev :: evs) d2.
Proof.
  intros Hev. induction 1 as [d1|d1 evs d2 ev' d3 _ IH Hs].
  - apply (dsteps_snoc _ [] d); [constructor|done].
  - rewrite app_comm_cons. eapply dsteps_snoc; [by apply IH|done].
Qed.

Lemma mixed_none p d evs p' d' : mixed p d [] evs p' d' → p' = p ∧ dsteps d evs d'.
Proof.
  remember [] as cs. induction 1 as [|p d c p1 d1 cs evs p2 d2|p d ev d1 cs evs p2 d2 Hev _ IH]; [|done|].
  - split; [done|constructor].
  - destruct (IH Heqcs) as [-> Hd]. split; [done|]. by eapply dsteps_cons.
Qed.

Lemma mixed_one p d c evs p' d' :
  mixed p d [c] evs p' d' →
  ∃ evs1 evs2 d1 d2, evs = evs1 ++ evs2 ∧ dsteps d evs1 d1 ∧ run_callback c p d1 = Ok (p', d2) ∧ dsteps d2 evs2 d'.
Proof.
  remember [c] as cs. induction 1 as [|p d c' p1 d1 cs evs p2 d2 Hc Hm _|p d ev d1 cs evs p2 d2 Hev _ IH]; [done|..].
  - injection Heqcs as -> ->. destruct (mixed_none _ _ _ _ _ Hm) as [-> Hd].
    exists [], evs, d, d1. repeat split; try done. constructor.
  - destruct (IH Heqcs) as (evs1 & evs2 & e1 & e2 & -> & H1 & H2 & H3).
    exists (ev :: evs1), evs2, e1, e2. repeat split; try done. by eapply dsteps_cons.
Qed.

(** ** Runs of the whole system *)
Lemma world_move_calls m w w' : world_move m w = Some w' → ∃ cs, w_calls w' = w_calls w ++ cs.
Proof.
  destruct m as [| |ev]; simpl.
  - destruct (w_callers w !! 0%nat) as [c|]; [|done]. simpl.
    destruct (caller_step _ _ c) as [[h c'] acc]. intros [= <-]. exists []. by rewrite app_nil_r.
  - destruct (responder_step _ _ _) as [[h r] calls]. intros [= <-]. by exists calls.
  - intros [= <-]. exists []. by rewrite app_nil_r.
Qed.

Lemma system_step_inv m s s1 :
  system_step s m = Ok s1 → ∃ cs p d, world_move m (sy_world s) = Some (sy_world s1) ∧
    w_calls (sy_world s1) = w_calls (sy_world s) ++ cs ∧ run_callbacks cs (sy_params s) (sy_disp s) = Ok (p, d) ∧
    sy_params s1 = p ∧ (match m with MWorker ev => event_step ev d = Ok (tt, sy_disp s1) | _ => sy_disp s1 = d end).
Proof.
  unfold system_step. destruct (world_move m (sy_world s)) as [w|] eqn:Hw; [|done].
  destruct (world_move_calls _ _ _ Hw) as [cs Hcs]. rewrite Hcs, drop_app_length.
  destruct (run_callbacks _ _ _) as [[p d]|f] eqn:Hr; [|done]. intros Hs.
  assert (∃ d', s1 = mkSystem w p d' ∧ match m with MWorker ev => event_step ev d = Ok (tt, d') | _ => d' = d end)
    as (d' & -> & Hd).
  { destruct m as [| |ev]; simpl in Hs; [injection Hs as <-; by eexists..|].
    destruct (event_step ev d) as [[[] d']|f]; [|done]. injection Hs as <-. by eexists. }
  exists cs, p, d. done.
Qed.

Lemma system_run_mixed ms : ∀ s s', system_run ms s = Ok s' →
  ∃ cs, w_calls (sy_world s') = w_calls (sy_world s) ++ cs ∧
    mixed (sy_params s) (sy_disp s) cs (worker_events ms) (sy_params s') (sy_disp s').
Proof.
  induction ms as [|m ms IH]; intros s s'; simpl.
  { intros [= <-]. exists []. rewrite app_nil_r. split; [done|constructor]. }
  destruct (system_step s m) as [s1|f] eqn:Hs; [|done]. simpl. intros Hrun.
  destruct (IH _ _ Hrun) as (cs2 & Hc2 & Hm). destruct (system_step_inv _ _ _ Hs) as (cs & p & d & _ & Hc & Hr & Hp & Hd).
  exists (cs ++ cs2). rewrite Hc2, Hc, app_assoc. split; [done|].
  eapply mixed_calls; [exact Hr|]. subst p.
  destruct m as [| |ev]; [by subst d..|]. by eapply mixed_event.
Qed.

Lemma system_run_world (P : world → Prop) ms :
  (∀ m w w', P w → world_move m w = Some w' → P w') →
  ∀ s s', system_run ms s = Ok s' → P (sy_world s) → P (sy_world s').
Proof.
  intros HP. induction ms as [|m ms IH]; intros s s'; simpl; [by intros [= <-]|].
  destruct (system_step s m) as [s1|f] eqn:Hs; [|done]. simpl.
  destruct (system_step_inv _ _ _ Hs) as (cs & p & d & Hw & _). intros Hrun Hp.
  apply (IH _ _ Hrun). by eapply HP.
Qed.

Lemma reachable_move m w w' : reachable numEntries 1 w → world_move m w = Some w' → reachable numEntries 1 w'.
Proof.
  intros Hr Hm. destruct m as [| |ev]; [exact (reach_step _ _ _ _ _ Hr Hm)..|]. by injection Hm as <-.
Qed.

(** The call posted by [main] runs [enclave_message_pass] once. *)
Lemma hot_call_one w c p0 p d ms s0 s' :
  reachable numEntries 1 w → w_callers w = [c] → free_caller c = true →
  post_message p (mkSystem w p0 d) = Some s0 → system_run ms s0 = Ok s' →
  (∃ rq r t, w_callers (sy_world s') = [RqReturn rq r t]) →
  w_callers (sy_world s') = [RqReturn the_call 0 (Some (length (w_accepted w)))] ∧
  mixed p d [the_call] (worker_events ms) (sy_params s') (sy_disp s').
Proof.
  intros Hr Hc Hf Hpost Hrun (rq & r & t & Hret).
  unfold post_message in Hpost. destruct (world_step _ _ _) as [w0|] eqn:Hw0; [|done]. injection Hpost as <-.
  pose proof (reach_step _ _ _ _ _ Hr Hw0) as Hr0.
  assert (w0 = set_caller 0 (RqLock SXchg the_call 0) w) as ->.
  { simpl in Hw0. rewrite Hc in Hw0. simpl in Hw0. rewrite Hf in Hw0. by injection Hw0 as <-. }
  assert (calling (w_accepted w) (set_caller 0 (RqLock SXchg the_call 0) w)) as Hcall.
  { destruct (alone_reachable _ Hr0) as (c0 & Hc0 & Hb0 & _). exists c0. split; [done|]. split; [done|].
    unfold set_caller in Hc0. simpl in Hc0. rewrite Hc in Hc0. by injection Hc0 as <-. }
  destruct (system_run_mixed _ _ _ Hrun) as (cs & Hcs & Hm). simpl in *.
  pose proof (system_run_world (calling (w_accepted w)) _ (calling_move (w_accepted w)) _ _ Hrun Hcall)
    as (c1 & Hc1 & _ & Hin).
  pose proof (system_run_world (reachable numEntries 1) _ reachable_move _ _ Hrun Hr0) as Hr1.
  rewrite Hret in Hc1. injection Hc1 as <-. destruct Hin as (-> & -> & -> & Hacc). split; [done|].
  pose proof (all_served _ _ Hr1 Hret eq_refl) as Hs1. rewrite Hacc, filter_app in Hs1.
  rewrite (all_served _ _ Hr Hc Hf) in Hcs. rewrite Hcs in Hs1. apply app_inv_head in Hs1. by subst cs.
Qed.
End mixed.
