(* ===== verification/Server.v ===== *)
(** * The host process, [App/App.cpp], [App/ocalls.cpp], [App/ErrorSupport.cpp]

    Command line, creation of the tables in untrusted memory, start of the enclave, and
    the loop that accepts clients and passes their messages to the enclave. *)

From stdpp Require Import pretty.
From S2P Require Import Prelude CString CLib Common Enclave Dispatch.

(** ** Error messages, [ErrorSupport.cpp] *)
Definition sgx_errlist : list (sgx_status * string) :=
  [ (SGX_ERROR_UNEXPECTED, "Unexpected error occurred.");
    (SGX_ERROR_INVALID_PARAMETER, "Invalid parameter.");
    (SGX_ERROR_OUT_OF_MEMORY, "Out of memory.");
    (SGX_ERROR_ENCLAVE_LOST, "Power transition occurred.");
    (SGX_ERROR_INVALID_ENCLAVE, "Invalid enclave image.");
    (SGX_ERROR_INVALID_ENCLAVE_ID, "Invalid enclave identification.");
    (SGX_ERROR_INVALID_SIGNATURE, "Invalid enclave signature.");
    (SGX_ERROR_OUT_OF_EPC, "Out of EPC memory.");
    (SGX_ERROR_NO_DEVICE, "Invalid SGX device.");
    (SGX_ERROR_MEMORY_MAP_CONFLICT, "Memory map conflicted.");
    (SGX_ERROR_INVALID_METADATA, "Invalid encalve metadata.");
    (SGX_ERROR_DEVICE_BUSY, "SGX device is busy.");
    (SGX_ERROR_INVALID_VERSION, "Enclave metadata version is invalid.");
    (SGX_ERROR_ENCLAVE_FILE_ACCESS, "Can't open enclave file.");
    (SGX_ERROR_INVALID_FUNCTION, "Invalid function name.");
    (SGX_ERROR_OUT_OF_TCS, "Out of TCS.");
    (SGX_ERROR_ENCLAVE_CRASHED, "The enclave is crashed.");
    (SGX_ERROR_MAC_MISMATCH, "Report varification error occurred.");
    (SGX_ERROR_INVALID_ATTRIBUTE, "The enclave is not authorized.");
    (SGX_ERROR_INVALID_CPUSVN, "Invalid CPUSVN.");
    (SGX_ERROR_INVALID_ISVSVN, "Invalid ISVSVN.");
    (SGX_ERROR_INVALID_KEYNAME, "The requested key name is invalid.");
    (SGX_ERROR_SERVICE_UNAVAILABLE, "AESM service is not responsive.");
    (SGX_ERROR_SERVICE_TIMEOUT, "Request to AESM is time out.");
    (SGX_ERROR_SERVICE_INVALID_PRIVILEGE, "Error occurred while getting launch token.") ].

(** The loop of [ret_error_support]: the index where it stops and what it prints. *)
Fixpoint errlist_loop (ret : sgx_status) (l : list (sgx_status * string)) (idx : nat) : nat * list string :=
  match l with
  | [] => (idx, [])
  | (err, msg) :: l' =>
      if bool_decide (ret = err) then (idx, ["Error: " +:+ msg]) else errlist_loop ret l' (S idx)
  end.

Definition ret_error_support (ret : sgx_status) : list string :=
  let ttl := length sgx_errlist in
  let '(idx, printed) := errlist_loop ret sgx_errlist 0 in
  if (idx =? ttl)%nat then printed ++ ["Error: Unexpected error occurred."] else printed.

(** ** Configuration *)
Definition help : list string :=
  [ "-h : help"; "-p <port number>"; "-b <maximum buffer size>"; "-t <number of threads>";
    "-s <number of hash buckets>"; "-r <number of root nodes in enclave>";
    "-y : key-hint optimization on"; "-c : mac bucketing optimization on" ].

Definition show_bool (b : bool) : string := if b then "true" else "false".

Definition parse_option (arg : Arg) : list string :=
  [ "Server Configuration";
    "Port: " +:+ pretty (port_num arg);
    "Table Size: " +:+ pretty (bucket_size arg);
    "Max Buf Size: " +:+ pretty (max_buf_size arg);
    "Num Threads: " +:+ pretty (num_threads arg);
    "Key OPT: " +:+ show_bool (key_opt arg);
    "MAC OPT: " +:+ show_bool (mac_opt arg) ].

Definition configuration_init : Arg :=
  {| port_num := 1234; max_buf_size := 64; num_threads := 1;
     bucket_size := 8 * 1024 * 1024; tree_root_size := 4 * 1024 * 1024;
     key_opt := false; mac_opt := false |}.

(** The option string ["hp:b:t:s:r:yc"] *)
Definition server_opts : list (byte * bool) :=
  [ (x68, false); (x70, true); (x62, true); (x74, true); (x73, true); (x72, true);
    (x79, false); (x63, false) ].

(** One iteration of the option loop; [-h] and an illegal option end the process. *)
Definition server_option (arg : Arg) (o : byte * bytes) : res Arg :=
  let '(opt, optarg) := o in
  let n := atoi optarg in
  match opt with
  | x68 => Fault Exited
  | x70 => Ok (mkArg n (num_threads arg) (max_buf_size arg) (bucket_size arg) (tree_root_size arg)
                 (key_opt arg) (mac_opt arg))
  | x62 => Ok (mkArg (port_num arg) (num_threads arg) n (bucket_size arg) (tree_root_size arg)
                 (key_opt arg) (mac_opt arg))
  | x74 => Ok (mkArg (port_num arg) n (max_buf_size arg) (bucket_size arg) (tree_root_size arg)
                 (key_opt arg) (mac_opt arg))
  | x73 => Ok (mkArg (port_num arg) (num_threads arg) (max_buf_size arg) n (tree_root_size arg)
                 (key_opt arg) (mac_opt arg))
  | x72 => Ok (mkArg (port_num arg) (num_threads arg) (max_buf_size arg) (bucket_size arg) n
                 (key_opt arg) (mac_opt arg))
  | x79 => Ok (mkArg (port_num arg) (num_threads arg) (max_buf_size arg) (bucket_size arg)
                 (tree_root_size arg) true (mac_opt arg))
  | x63 => Ok (mkArg (port_num arg) (num_threads arg) (max_buf_size arg) (bucket_size arg)
                 (tree_root_size arg) (key_opt arg) true)
  | _ => Fault Exited
  end.

Definition server_options (argv : list bytes) : res Arg :=
  fold_left (λ r o, a ← r; server_option a o) (getopt server_opts argv) (Ok configuration_init).

(** [fcntl(fd, F_SETFL, O_NONBLOCK)] *)
Definition setNonblocking (fcntl : Z → Z → Z → Z) (fd : Z) : Z := fcntl fd 4 2048.

(** ** Tables in untrusted memory *)

(** [macbuffer_create]: the MACs are not initialised, [garbage i] stands for what is in
    the memory of bucket [i]. *)
Definition macbuffer_create (garbage : nat → bytes) (size : Z) : list MACentry :=
  (λ i, mkMACentry 0 (garbage i)) <$> seq 0 (Z.to_nat size).

(** [ht_create]; the two flags say whether the calls of [malloc] succeed. *)
Definition ht_create (malloc_table malloc_heads : bool) (size : Z) : option hashtable :=
  if size <? 1 then None
  else if negb malloc_table then None
  else if negb malloc_heads then None
  else Some (mkHashtable size (replicate (Z.to_nat size) None)).

(** ** Start of the enclave *)
Inductive host_call :=
  | Destroy_enclave (eid : Z)
  | Save_token
  | Say (s : string).

Definition dquote : string := String.String (Ascii.ascii_of_nat 34) "".

(** [created] is what [sgx_create_enclave] returns: the status, the identifier and
    whether the launch token changed; [ofs_good]: the token file can be written. *)
Definition load_and_initialize_enclave (created : sgx_status * Z * bool) (ofs_good : bool) (eid : Z)
  : sgx_status * Z * list host_call :=
  let calls := if negb (eid =? 0) then [Destroy_enclave eid] else [] in
  let '(ret, eid', updated) := created in
  if negb (bool_decide (ret = SGX_SUCCESS)) then (ret, eid', calls)
  else if updated then
    (ret, eid', calls ++ [if ofs_good then Save_token
                          else Say ("Warning: Failed to save the launch token to " +:+ dquote
                                      +:+ "Enclave.token" +:+ dquote)])
  else (ret, eid', calls).

(** ** Ocalls, [ocalls.cpp] *)

(** [message_return] outside: a failed [write] closes the socket. *)
Definition ocall_message_return (written : Z) (client_sock : Z) (open_fds : gset Z) : gset Z :=
  if written <=? 0 then open_fds ∖ {[client_sock]} else open_fds.

(** [sbrk_o]: the block that begins at the old end of the data segment and the new end; [room] says
    how far the segment can grow.  A failure of [sbrk] is the pointer [(void * ) -1]. *)
Definition sbrk_o (room : Z → bool) (brk size : Z) : Z * Z :=
  let increment := (size + 2 ^ 63) mod 2 ^ 64 - 2 ^ 63 in
  if room (brk + increment) then (brk, brk + increment) else (2 ^ 64 - 1, brk).

Definition ocall_print (s : string) : list string :=
  ["--------------------"; s; "--------------------"].

(** ** The server loop *)

(** The local variables of [main] and the state of the enclave threads. *)
Record host := mkHost {
  h_arg : Arg;
  server_sockfd : Z;
  open_fds : gset Z;
  master : gset Z;
  fdmax : Z;
  num_connection : Z;
  num_clients : Z;
  run_phase : bool;
  h_buf : bytes;
  h_disp : dispatch;
  h_out : list string;
}.

Abbreviation H := (M host).

Definition upd_conn (open master : gset Z) (fdmax nconn ncl : Z) (h : host) : host :=
  mkHost (h_arg h) (server_sockfd h) open master fdmax nconn ncl (run_phase h) (h_buf h) (h_disp h) (h_out h).
Definition set_open (open : gset Z) (h : host) : host :=
  upd_conn open (master h) (fdmax h) (num_connection h) (num_clients h) h.
Definition set_buf (b : bytes) (h : host) : host :=
  mkHost (h_arg h) (server_sockfd h) (open_fds h) (master h) (fdmax h) (num_connection h) (num_clients h)
    (run_phase h) b (h_disp h) (h_out h).
Definition set_run (h : host) : host :=
  mkHost (h_arg h) (server_sockfd h) (open_fds h) (master h) (fdmax h) (num_connection h) (num_clients h)
    true (h_buf h) (h_disp h) (h_out h).
Definition set_disp (d : dispatch) (h : host) : host :=
  mkHost (h_arg h) (server_sockfd h) (open_fds h) (master h) (fdmax h) (num_connection h) (num_clients h)
    (run_phase h) (h_buf h) d (h_out h).
Definition say (s : string) (h : host) : host :=
  mkHost (h_arg h) (server_sockfd h) (open_fds h) (master h) (fdmax h) (num_connection h) (num_clients h)
    (run_phase h) (h_buf h) (h_disp h) (h_out h ++ [s]).

(** What a ready descriptor delivers. *)
Inductive input :=
  | IAccept (fd : Z)        (* [accept] returns a new socket, -1 on error *)
  | IRead (data : bytes).   (* [read] returns these bytes; none: end of file or error *)

Section server.
Context `{Platform}.

(** The sockets that are open after the ocalls [message_return] for [msgs], the first of
    which is the [n]-th [write] of the process. *)
Fixpoint written (n : nat) (msgs : list (Z * bytes)) (open : gset Z) : gset Z :=
  match msgs with
  | [] => open
  | (sock, _) :: msgs' => written (S n) msgs' (ocall_message_return (sys_write n) sock open)
  end.

(** Code of the enclave, with the ocalls it makes. *)
Definition in_dispatch {A} (m : D A) : H A := λ h,
  match m (h_disp h) with
  | Ok (a, d) =>
      let n := length (sent (h_disp h)) in
      Ok (a, set_open (written n (drop n (sent d)) (open_fds h)) (set_disp d h))
  | Fault f => Fault f
  end.

(** The state of [main] before the loop: the server socket listens. *)
Definition host_init (arg : Arg) (sock : Z) (d : dispatch) : host :=
  mkHost arg sock {[sock]} {[sock]} sock 0 0 false (zeros (max_buf_size arg)) d [].

(** A new client. *)
Definition accept_client (client_sockfd : Z) : H unit :=
  if client_sockfd =? -1 then modify (say "Accept error : ");; raise Exited
  else
    modify (say "Accept() is OK");;
    h ← gets id;
    let fdmax' := if fdmax h <? client_sockfd then client_sockfd else fdmax h in
    (if run_phase h && (num_connection h =? 0) then modify (say "Time check start") else mret tt);;
    let n := num_connection h + 1 in
    modify (upd_conn (open_fds h ∪ {[client_sockfd]}) (master h ∪ {[client_sockfd]}) fdmax' n (num_clients h));;
    if num_clients h <? n then
      modify (upd_conn (open_fds h ∪ {[client_sockfd]}) (master h ∪ {[client_sockfd]}) fdmax' n n);;
      modify (say ("num_clients: " +:+ pretty n))
    else mret tt.

(** [close(i); FD_CLR(i, &master); num_connection--;] *)
Definition drop_client (i : Z) : H unit :=
  h ← gets id;
  modify (upd_conn (open_fds h ∖ {[i]}) (master h ∖ {[i]}) (fdmax h) (num_connection h - 1) (num_clients h)).

(** What follows the hot call, with the buffer it left. *)
Definition after_call (i : Z) (buf : bytes) : H bool :=
  load ← lift (strncmp_eq buf (str "LOADDONE") 9);
  (if (load : bool) then
     drop_client i;;
     modify set_run;;
     n ← gets num_connection;
     if n =? 0 then modify (say "Waiting for running clients") else mret tt
   else mret tt);;
  ex ← lift (strncmp_eq buf (str "EXIT") 4);
  if (ex : bool) then
    drop_client i;;
    n ← gets num_connection;
    modify (say ("num_connection: " +:+ pretty n +:+ " remained"));;
    mret true
  else mret false.

(** A message of the client [i]; the result says whether the scan of the descriptors
    stops here ([break]). *)
Definition client_message (i : Z) (data : bytes) : H bool :=
  arg ← gets h_arg;
  z ← lift (zalloc (max_buf_size arg));
  modify (set_buf z);;
  let data := take (Z.to_nat (max_buf_size arg)) data in
  if bool_decide (data = []) then
    h ← gets id;
    modify (set_open (open_fds h ∖ {[i]}));; mret true
  else
    b ← lift (write_at z 0 data);
    modify (set_buf b);;
    h ← gets id;
    b' ← in_dispatch (enclave_message_pass (mkEcallParams b i (num_clients h)));
    modify (set_buf b');;
    after_call i b'.

(** One descriptor of the scan. *)
Definition serve_fd (ready : gset Z) (inp : Z → input) (i : Z) : H bool :=
  if bool_decide (i ∈ ready) then
    h ← gets id;
    if i =? server_sockfd h then
      accept_client (match inp i with IAccept fd => fd | IRead _ => -1 end);; mret false
    else client_message i (match inp i with IRead data => data | IAccept _ => [] end)
  else mret false.

(** [for(int i = 0; i <= fdmax; i++)]: [fdmax] is read again in every iteration, so an
    accepted client can make the scan longer; descriptors are below [FD_SETSIZE]. *)
Definition FD_SETSIZE : nat := 1024.

Fixpoint scan (fuel : nat) (ready : gset Z) (inp : Z → input) (i : Z) : H unit :=
  m ← gets fdmax;
  if i <=? m then
    match fuel with
    | O => raise Out_of_fuel
    | S fuel' =>
        stop ← serve_fd ready inp i;
        if (stop : bool) then mret tt else scan fuel' ready inp (i + 1)
    end
  else mret tt.

(** One iteration of the main loop; [select] fails when [master] has a closed descriptor.
    The result says whether the loop ends. *)
Definition server_round (ready : gset Z) (inp : Z → input) : H bool :=
  h ← gets id;
  if bool_decide (master h ⊆ open_fds h) then
    scan FD_SETSIZE (ready ∩ master h) inp 0;;
    h ← gets id;
    ex ← lift (strncmp_eq (h_buf h) (str "EXIT") 4);
    if (ex : bool) && (num_connection h =? 0) then
      modify (say "Client request is END");; mret true
    else mret false
  else raise Exited.

(** The main loop over what [select] reports, and the steps of the enclave threads
    between two reports. *)
Fixpoint server_loop (rounds : list (gset Z * (Z → input) * list event)) : H bool :=
  match rounds with
  | [] => mret false
  | (ready, inp, evs) :: rounds' =>
      fin ← server_round ready inp;
      if (fin : bool) then mret true
      else in_dispatch (foldr (λ ev m, event_step ev;; m) (mret tt) evs);; server_loop rounds'
  end.

(** [main] up to the loop: options, tables, enclave, queues and the server socket;
    [sock], [bound] and [listening] are the results of [socket], [bind] and [listen].  The
    initial heap of untrusted memory has no entries. *)
Definition server_start (argv : list bytes) (created : sgx_status * Z * bool) (ofs_good m1 m2 : bool)
  (garbage : nat → bytes) (sock bound listening : Z) : res (Z * option host) :=
  arg ← server_options argv;
  let '(ret, _, _) := load_and_initialize_enclave created ofs_good 0 in
  if negb (bool_decide (ret = SGX_SUCCESS)) then Ok (-1, None)
  else
    match ht_create m1 m2 (bucket_size arg) with
    | None => Fault Null_deref
    | Some ht =>
        s ← enclave_init_values ht ∅ (macbuffer_create garbage (bucket_size arg)) arg;
        if sock <? 0 then Fault Exited
        else if bound =? -1 then Fault Exited
        else if listening =? -1 then Fault Exited
        else Ok (0, Some (host_init arg sock (init_queues s)))
    end.

End server.
