(* ===== verification/Results.v ===== *)
(** * Time measurements and the files of results

    The programs of the repository read a clock at some points, and at the end append a line
    per measurement to [result.txt].  Times are in nanoseconds; a clock is an argument.  The
    clock of the server is kept beside the state of its loop and does not change what the
    loop does. *)

From stdpp Require Import pretty.
From S2P Require Import Prelude CString CLib Common Enclave Dispatch Server.

(** ** Numbers of seconds *)

(** ["%f"] and ["%lf"]: six digits after the point, rounded. *)
Definition six_digits (n : Z) : string := String.substring 1 6 (pretty (1000000 + n)).
Definition print_f (ns : Z) : string :=
  let us := (Z.abs ns + 500) / 1000 in
  (if ns <? 0 then "-" else "") +:+ pretty (us / 1000000) +:+ "." +:+ six_digits (us mod 1000000).

(** [difftime(b, a)] of two values of [time]. *)
Definition difftime (b a : Z) : Z := (b - a) * 1000000000.

(** [fopen("result.txt", "a")] and the lines: [None] is a file that cannot be opened, whose NULL
    is handed to [fprintf]. *)
Definition append_result (file : option string) (lines : list string) : res string :=
  match file with Some old => Ok (old +:+ String.concat "" lines) | None => Fault Null_deref end.

Definition newline : string := String.String (Ascii.ascii_of_nat 10) "".

(** ** The server, [App/App.cpp] *)

(** [start1], [mid1] and [end1]; a time point that is never set is 0. *)
Record clock := mkClock {
  start1 : Z;
  mid1 : Z;
  end1 : Z;
}.

(** What accepting a client at the time [now] does with the clock. *)
Definition accept_clock (now : Z) (h : host) (c : clock) : clock :=
  let c := if run_phase h && (num_connection h =? 0) then mkClock (start1 c) now (end1 c) else c in
  if num_clients h <? num_connection h + 1 then mkClock now (mid1 c) (end1 c) else c.

Definition server_results (arg : Arg) (c : clock) : list string :=
  [ newline +:+ " Thread: " +:+ pretty (num_threads arg) +:+ " Execution time for Loading : " +:+ print_f (mid1 c - start1 c);
    newline +:+ " Thread: " +:+ pretty (num_threads arg) +:+ " Execution time for Running : " +:+ print_f (end1 c - mid1 c) ].

Section server.
Context `{Platform}.

(** The scan of the descriptors with the clock; [now i] is the time at the descriptor [i]. *)
Fixpoint scan_clock (fuel : nat) (ready : gset Z) (inp : Z → input) (now : Z → Z) (i : Z) (h : host) (c : clock) : clock :=
  if i <=? fdmax h then
    match fuel with
    | O => c
    | S fuel' =>
        let c := if bool_decide (i ∈ ready) && (i =? server_sockfd h) then accept_clock (now i) h c else c in
        match serve_fd ready inp i h with
        | Ok (false, h') => scan_clock fuel' ready inp now (i + 1) h' c
        | _ => c
        end
    end
  else c.

(** The loop with the clock. *)
Fixpoint timed_loop (rounds : list (gset Z * (Z → input) * list event * (Z → Z))) (h : host) (c : clock)
  : res (bool * host * clock) :=
  match rounds with
  | [] => Ok (false, h, c)
  | (ready, inp, evs, now) :: rounds' =>
      '(fin, h1) ← (server_round ready inp h : res (bool * host));
      let c := scan_clock FD_SETSIZE (ready ∩ master h) inp now 0 h c in
      if (fin : bool) then Ok (true, h1, c)
      else
        '(_, h2) ← (in_dispatch (foldr (λ ev m, event_step ev;; m) (mret tt) evs) h1 : res (unit * host));
        timed_loop rounds' h2 c
  end.

(** The end of [main]: the threads are joined at the time [now], and the results are written. *)
Definition server_finish (now : Z) (file : option string) (h : host) (c : clock) : res (Z * string) :=
  f ← append_result file (server_results (h_arg h) (mkClock (start1 c) (mid1 c) now));
  Ok (0, f).

(** The clock changes nothing. *)
Lemma timed_loop_is_loop rounds h c :
  server_loop (fst <$> rounds) h = ('(fin, h', _) ← timed_loop rounds h c; Ok (fin, h')).
Proof.
  revert h c. induction rounds as [|[[[ready inp] evs] now] rounds IH]; intros h c; [done|].
  rewrite fmap_cons. cbn [fst server_loop timed_loop]. unfold mbind, M_bind, res_bind.
  destruct (server_round ready inp h) as [[[] h1]|f]; [done| |done].
  destruct (in_dispatch _ h1) as [[[] h2]|f]; [|done]. exact (IH h2 _).
Qed.

(** A client beyond the largest number so far starts the loading time again, in the run phase
    too, when [mid1] has been taken: the loading time is then not positive. *)
Lemma late_client_moves_start now h c :
  num_clients h < num_connection h + 1 → mid1 c ≤ now →
  let c' := accept_clock now h c in mid1 c' - start1 c' ≤ 0 ∧ start1 c' = now.
Proof.
  intros Hn Hm. unfold accept_clock. rewrite (proj2 (Z.ltb_lt _ _)) by done.
  destruct (run_phase h && (num_connection h =? 0)); simpl; lia.
Qed.

(** With no more run clients than load clients it stays what it was. *)
Lemma early_client_keeps_start now h c :
  num_connection h + 1 ≤ num_clients h → start1 (accept_clock now h c) = start1 c.
Proof. intros Hn. unfold accept_clock. rewrite (proj2 (Z.ltb_ge _ _)) by lia. by destruct (_ && _). Qed.
End server.

(** ** The other programs *)

(** [Unsecure_kvs/server.c] and [Baseline_kvs/App/App.cpp]; [workload] is [argv[1]]. *)
Definition kvs_result (workload : bytes) (end_ mid : Z) : string :=
  "Thread: 1 Workload: " +:+ String.string_of_list_byte workload +:+ "MB Execution time for Running : "
    +:+ print_f (difftime end_ mid) +:+ newline.

(** [eleos_shieldstore]: [workload] is the first character of [argv[1]]. *)
Definition eleos_results (threads : Z) (workload : byte) (key_size val_size : Z) (end1 mid1 start1 : Z) : list string :=
  let head := newline +:+ " Thread: " +:+ pretty threads +:+ " Workload: " +:+ String.string_of_list_byte [workload]
    +:+ " KeySize: " +:+ pretty (key_size - 1) +:+ " ValSize: " +:+ pretty (val_size - 1) +:+ " Execution time for " in
  [ head +:+ "loading : " +:+ print_f (difftime mid1 start1); head +:+ "Running : " +:+ print_f (difftime end1 mid1) ].

(** The micro benchmarks: two values of [struct timeval]. *)
Definition region_result (start_sec start_usec end_sec end_usec : Z) : string :=
  print_f ((end_usec - start_usec) * 1000 + (end_sec - start_sec) * 1000000000) +:+ " sec" +:+ newline.
