(* ===== verification/ServerProofs.v ===== *)
(** * The host process: start, connections and the end of the loop *)

From S2P Require Import Prelude CString CLib Common Hash Core HashTable Enclave Config Rep.
From S2P Require Import CoreProofs RootProofs HashTableProofs StoreProofs EnclaveProofs.
From S2P Require Import AppendProofs Service EnclaveService Dispatch DispatchProofs Server.

(** ** Error messages *)
Lemma errlist_loop_found ret l idx :
  (∃ msg, (ret, msg) ∈ l) →
  ∃ i msg, errlist_loop ret l idx = (i, ["Error: " +:+ msg]) ∧ (i < idx + length l)%nat ∧ (ret, msg) ∈ l.
Proof.
  revert idx. induction l as [|[err m] l IH]; intros idx (msg & Hin); [set_solver|]. simpl.
  case_bool_decide as E.
  - subst. exists idx, m. split; [done|]. split; [lia|set_solver].
  - destruct (IH (S idx)) as (i & msg' & Hr & Hi & Hm); [set_solver|].
    exists i, msg'. split; [done|]. split; [lia|set_solver].
Qed.

Lemma errlist_complete ret : ret ≠ SGX_SUCCESS → ∃ msg, (ret, msg) ∈ sgx_errlist.
Proof.
  intros Hne. assert (Exists (λ x, x.1 = ret) sgx_errlist) as Hex.
  { destruct ret; try done; unfold sgx_errlist; repeat (first [by constructor|apply Exists_cons_tl]). }
  apply Exists_exists in Hex as ([r m] & Hin & <-). by exists m.
Qed.

(** ** Empty tables *)
Section start.
Context `{Platform} `{!PlatformOk}.

(** What the host creates is a well-formed, empty store. *)
Lemma init_holds arg m1 m2 garbage ht s :
  ht_create m1 m2 (bucket_size arg) = Some ht →
  bucket_size arg ≤ INT_MAX → 0 < tree_root_size arg →
  bucket_size arg `mod` tree_root_size arg = 0 →
  (∀ i, blen (garbage i) = MAC_SIZE * MAC_SLOTS) →
  enclave_init_values ht ∅ (macbuffer_create garbage (bucket_size arg)) arg = Ok s →
  holds s ∅ ∧ arg_enclave s = arg ∧ ht_size (ht_enclave s) = bucket_size arg ∧
  ratio_root_per_buckets s = bucket_size arg / tree_root_size arg.
Proof.
  intros Hht Hmax Hroot Hdiv Hg Hs. unfold ht_create in Hht.
  destruct (Z.ltb_spec (bucket_size arg) 1); [done|]. destruct m1, m2; try done.
  injection Hht as <-. set (n := bucket_size arg) in *.
  unfold enclave_init_values, mbind, res_bind, zdiv in Hs. simpl in Hs.
  rewrite (proj2 (Z.eqb_neq _ _)) in Hs by lia. injection Hs as <-.
  rewrite Z.quot_div_nonneg by lia.
  pose proof (Z.div_mod n (tree_root_size arg) ltac:(lia)) as Hdm. rewrite Hdiv, Z.add_0_r in Hdm.
  assert (0 < n / tree_root_size arg) as Hpos by nia.
  set (st := mkEnclave _ _ _ _ _ _ _ _).
  assert (root_count st = tree_root_size arg) as Hcount by (symmetry; apply Z.div_unique_exact; simpl; lia).
  assert (cfg_ok st) as Hcfg by (by split; rewrite ?Hcount; simpl; [lia|..]).
  split; [|done]. exists (replicate (Z.to_nat n) []). split; [|by unfold abs; rewrite empty_concat].
  split; [apply empty_shape; try done| |intros r _ Hne; by rewrite empty_roots in Hne].
  - simpl. unfold macbuffer_create. by rewrite length_fmap, length_seq.
  - apply Forall_fmap, Forall_forall. intros i _. split; [done|apply Hg].
  - rewrite Hcount. simpl. unfold blen. rewrite length_replicate. lia.
Qed.

(** [main] up to its loop, when the enclave, the memory and the socket can be had. *)
Lemma server_start_run argv arg eid updated ofs garbage sock bound listening :
  server_options argv = Ok arg →
  1 ≤ bucket_size arg ≤ INT_MAX → 0 < tree_root_size arg → bucket_size arg `mod` tree_root_size arg = 0 →
  (∀ i, blen (garbage i) = MAC_SIZE * MAC_SLOTS) → 0 ≤ sock → bound ≠ -1 → listening ≠ -1 →
  ∃ s, server_start argv (SGX_SUCCESS, eid, updated) ofs true true garbage sock bound listening =
      Ok (0, Some (host_init arg sock (init_queues s))) ∧
    holds s ∅ ∧ arg_enclave s = arg ∧ ht_size (ht_enclave s) = bucket_size arg ∧
    ratio_root_per_buckets s = bucket_size arg / tree_root_size arg.
Proof.
  intros Hopt [Hb1 Hb2] Hr Hmod Hg Hs Hbd%Z.eqb_neq Hli%Z.eqb_neq. unfold server_start, mbind, res_bind. rewrite Hopt.
  unfold load_and_initialize_enclave. rewrite bool_decide_true by done.
  set (ht := mkHashtable (bucket_size arg) (replicate (Z.to_nat (bucket_size arg)) None)).
  assert (ht_create true true (bucket_size arg) = Some ht) as Hht.
  { unfold ht_create. destruct (Z.ltb_spec (bucket_size arg) 1); [lia|done]. }
  destruct (enclave_init_values ht ∅ (macbuffer_create garbage (bucket_size arg)) arg) as [s|f] eqn:Hinit.
  2:{ revert Hinit. unfold enclave_init_values, mbind, res_bind, zdiv. destruct (Z.eqb_spec (tree_root_size arg) 0); [lia|done]. }
  assert (sock <? 0 = false) as Hlt by (by apply Z.ltb_ge).
  exists s. split; [by destruct updated; simpl; rewrite Hht; fold ht; rewrite Hinit, Hlt, Hbd, Hli|].
  by apply (init_holds arg true true garbage ht s).
Qed.
End start.

(** ** Connections *)
Section connections.
Context `{Platform}.
Implicit Types (h : host) (i : Z).

(** [master] holds the listening socket and one descriptor per counted connection, all
    of them in the range that is scanned; [num_clients] bounds the connections. *)
Record conn_inv h : Prop := {
  ci_server : server_sockfd h ∈ master h;
  ci_range fd : fd ∈ master h → 0 ≤ fd ≤ fdmax h;
  ci_count : num_connection h = Z.of_nat (size (master h ∖ {[server_sockfd h]}));
  ci_clients : num_connection h ≤ num_clients h;
}.

Lemma host_init_conn arg sock d : 0 ≤ sock → conn_inv (host_init arg sock d).
Proof.
  intros Hs. split; simpl.
  - set_solver.
  - intros fd ->%elem_of_singleton. lia.
  - change (0 = Z.of_nat (base.size (({[sock]} : gset Z) ∖ {[sock]}))). by rewrite difference_diag_L, size_empty.
  - done.
Qed.

(** The part of the state the invariant is about. *)
Definition conn h := (server_sockfd h, master h, fdmax h, num_connection h, num_clients h).

Lemma conn_inv_frame h h' : conn h' = conn h → conn_inv h → conn_inv h'.
Proof. unfold conn. intros [= E1 E3 E4 E5 E6] []. split; rewrite ?E1, ?E3, ?E4, ?E5, ?E6; done. Qed.

Lemma conn_in_dispatch {A} (m : D A) : keeps conn (in_dispatch m).
Proof. apply run_keeps. intros h a h'. unfold in_dispatch. destruct (m _) as [[]|]; naive_solver. Qed.

Lemma accept_conn h fd u h' :
  conn_inv h → fd = -1 ∨ (0 ≤ fd ∧ fd ∉ master h) → accept_client fd h = Ok (u, h') →
  conn_inv h' ∧ server_sockfd h' = server_sockfd h ∧ master h' = master h ∪ {[fd]} ∧
  open_fds h' = open_fds h ∪ {[fd]} ∧ fdmax h' = Z.max (fdmax h) fd.
Proof.
  intros [Hs Hr Hc Hn] Hfd. unfold accept_client. destruct (Z.eqb_spec fd (-1)); [by intros ?%bind_inv; naive_solver|].
  destruct Hfd as [?|[Hpos Hnew]]; [done|]. rewrite bind_modify, bind_gets. unfold id.
  set (h1 := say _ h).
  set (fm := if fdmax h1 <? fd then fd else fdmax h1).
  assert (fm = Z.max (fdmax h) fd) as Hfm by (unfold fm; simpl; destruct (Z.ltb_spec (fdmax h) fd); lia).
  assert (size ((master h ∪ {[fd]}) ∖ {[server_sockfd h]}) = S (size (master h ∖ {[server_sockfd h]}))) as Hsz.
  { replace ((master h ∪ {[fd]}) ∖ {[server_sockfd h]}) with ({[fd]} ∪ master h ∖ {[server_sockfd h]}).
    - rewrite size_union, size_singleton; [done|set_solver].
    - apply leibniz_equiv. set_solver. }
  assert (∀ h2, server_sockfd h2 = server_sockfd h → master h2 = master h ∪ {[fd]} → fdmax h2 = fm →
    num_connection h2 = num_connection h + 1 → num_connection h + 1 ≤ num_clients h2 → conn_inv h2) as Hok.
  { intros h2 E1 E2 E3 E4 E5. split; rewrite ?E1, ?E2, ?E3, ?E4; try done; [set_solver| |lia].
    intros x [Hx|Hx%elem_of_singleton]%elem_of_union; [specialize (Hr x Hx)|]; lia. }
  intros (u1 & h2 & H2 & H3)%bind_inv.
  assert (conn h2 = conn h) as Hc2.
  { revert H2. destruct (_ && _); by intros [= _ <-]. }
  unfold conn in Hc2. injection Hc2 as E1 E3 E4 E5 E6.
  revert H3. msimpl. change (num_clients h1) with (num_clients h).
  change (num_connection h1) with (num_connection h). change (open_fds h1) with (open_fds h).
  change (master h1) with (master h).
  destruct (Z.ltb_spec (num_clients h) (num_connection h + 1)).
  - msimpl. intros [= _ <-]. split; [apply Hok|]; simpl; done || lia.
  - intros [= _ <-]. split; [apply Hok|]; simpl; done || lia.
Qed.

Lemma drop_conn h i u h' :
  conn_inv h → i ∈ master h → i ≠ server_sockfd h → drop_client i h = Ok (u, h') →
  conn_inv h' ∧ server_sockfd h' = server_sockfd h ∧ master h' = master h ∖ {[i]} ∧ fdmax h' = fdmax h ∧
  num_connection h' = num_connection h - 1 ∧ h_buf h' = h_buf h.
Proof.
  intros [Hs Hr Hc Hn] Hi Hne [= _ <-]. split; [|done]. split; simpl; [set_solver| | |unfold id; lia].
  - intros fd Hfd. apply Hr. unfold id in *. set_solver.
  - unfold id. rewrite Hc.
    replace (master h ∖ {[i]} ∖ {[server_sockfd h]}) with ((master h ∖ {[server_sockfd h]}) ∖ {[i]})
      by (apply leibniz_equiv; set_solver).
    rewrite (size_difference (master h ∖ {[server_sockfd h]}) {[i]}), size_singleton by set_solver.
    destruct (size (master h ∖ {[server_sockfd h]})) as [|k] eqn:E; [|lia].
    apply size_empty_inv in E. set_solver.
Qed.

Lemma strncmp_head c lit a n : strncmp_eq a (c :: lit) (S n) = Ok true → head a = Some c.
Proof. destruct a as [|d a]; simpl; [done|]. case_bool_decide; [by subst|done]. Qed.

(** A message leaves the descriptors alone, or takes [i] away. *)
Definition conn_served i h h' : Prop :=
  conn_inv h' ∧ server_sockfd h' = server_sockfd h ∧ master h' ⊆ master h ∧ fdmax h' = fdmax h ∧
  ∀ j, j ≠ i → j ∈ master h → j ∈ master h'.

Lemma conn_served_same i h h' : conn_inv h → conn h' = conn h → conn_served i h h'.
Proof.
  intros HI Hc. split; [by eapply conn_inv_frame|]. unfold conn in Hc. injection Hc as E1 E3 E4 E5 E6.
  rewrite E1, E3, E4. by split_and!.
Qed.

Lemma conn_served_drop i h u h1 h' :
  conn_inv h → i ∈ master h → i ≠ server_sockfd h → drop_client i h = Ok (u, h1) → conn h' = conn h1 → conn_served i h h'.
Proof.
  intros HI Hi Hne Hdrop Hc. destruct (drop_conn h i u h1 HI Hi Hne Hdrop) as (HI1 & F1 & F2 & F3 & _).
  split; [by eapply conn_inv_frame|]. unfold conn in Hc. injection Hc as E1 E3 E4 E5 E6.
  rewrite E1, E3, E4, F1, F2, F3. split_and!; try done; set_solver.
Qed.

Lemma after_call_conn h i buf stop h' :
  conn_inv h → i ∈ master h → i ≠ server_sockfd h → after_call i buf h = Ok (stop, h') → conn_served i h h'.
Proof.
  intros HI Hi Hne Hrun. unfold after_call in Hrun.
  apply bind_inv in Hrun as (load & h1 & [Hload ->]%lift_inv & Hrun).
  apply bind_inv in Hrun as (u & h2 & Hif & Hrun).
  apply bind_inv in Hrun as (ex & h3 & [Hex ->]%lift_inv & Hrun).
  destruct load.
  - assert (ex = false) as ->.
    { apply (strncmp_head x4c) in Hload. destruct ex; [|done]. apply (strncmp_head x45) in Hex. congruence. }
    injection Hrun as _ <-. apply bind_inv in Hif as (u1 & h3 & Hdrop & Hif).
    apply bind_inv in Hif as (u2 & h4 & [= _ <-] & Hif). apply bind_inv in Hif as (n & h4 & [= <- <-] & Hif).
    eapply conn_served_drop; [done..|]. revert Hif. destruct (_ =? 0); by intros [= _ <-].
  - injection Hif as _ <-. destruct ex; [|injection Hrun as _ <-; by apply conn_served_same].
    apply bind_inv in Hrun as (u1 & h3 & Hdrop & Hrun). apply bind_inv in Hrun as (n & h4 & [= <- <-] & Hrun).
    apply bind_inv in Hrun as (u2 & h4 & [= _ <-] & [= _ <-]). by eapply conn_served_drop.
Qed.

Lemma client_message_conn h i data stop h' :
  conn_inv h → i ∈ master h → i ≠ server_sockfd h → client_message i data h = Ok (stop, h') → conn_served i h h'.
Proof.
  intros HI Hi Hne Hrun. unfold client_message in Hrun.
  apply bind_inv in Hrun as (arg & h0 & [= <- <-] & Hrun).
  apply bind_inv in Hrun as (z & h0 & [Hz ->]%lift_inv & Hrun).
  apply bind_inv in Hrun as (u & h0 & [= _ <-] & Hrun).
  case_bool_decide as Hd.
  { apply bind_inv in Hrun as (h0 & h1 & [= <- <-] & Hrun). apply bind_inv in Hrun as (u1 & h1 & [= _ <-] & [= _ <-]).
    split; [destruct HI; by split|by split_and!]. }
  apply bind_inv in Hrun as (b & h0 & [Hb ->]%lift_inv & Hrun).
  apply bind_inv in Hrun as (u1 & h0 & [= _ <-] & Hrun).
  apply bind_inv in Hrun as (h0 & h1 & [= <- <-] & Hrun).
  apply bind_inv in Hrun as (b' & h1 & Hpass & Hrun).
  apply bind_inv in Hrun as (u2 & h2 & [= _ <-] & Hrun).
  apply (keeps_run conn _ _ _ _ (conn_in_dispatch _)) in Hpass.
  assert (conn (set_buf b' h1) = conn h) as Hc by exact Hpass.
  pose proof Hc as Hc'. unfold conn in Hc'. injection Hc' as E1 E3 E4 E5 E6.
  destruct (after_call_conn (set_buf b' h1) i b' stop h') as (H1 & H2 & H3 & H4 & H5); simpl in *; try congruence.
  { by eapply conn_inv_frame. }
  split; [done|]. rewrite H2, H4, <-E3, E1, E4. by split_and!.
Qed.
End connections.

(** ** The scan of the descriptors *)
Section scan.
Context `{Platform}.
Implicit Types (h : host) (i : Z) (ready : gset Z).

(** [accept] returns a descriptor that is not in use. *)
Definition fresh_accept h (inp : Z → input) : Prop :=
  ∀ fd, inp (server_sockfd h) = IAccept fd → fd = -1 ∨ (0 ≤ fd ∧ fd ∉ master h).

Lemma scan_conn fuel ready inp h0 i h h' :
  fresh_accept h0 inp → server_sockfd h = server_sockfd h0 →
  (i ≤ server_sockfd h → master h ⊆ master h0) →
  (∀ j, i ≤ j → j ∈ ready → j ∈ master h) →
  conn_inv h → scan fuel ready inp i h = Ok (tt, h') →
  conn_inv h' ∧ server_sockfd h' = server_sockfd h0.
Proof.
  intros Hfresh. revert i h. induction fuel as [|fuel IH]; intros i h Hsrv Hsub Hready HI Hrun.
  - simpl in Hrun. apply bind_inv in Hrun as (m & h1 & [= <- <-] & Hrun).
    destruct (i <=? fdmax h); [done|]. by injection Hrun as <-.
  - cbn [scan] in Hrun. apply bind_inv in Hrun as (m & h1 & [= <- <-] & Hrun).
    destruct (i <=? fdmax h); [|by injection Hrun as <-].
    apply bind_inv in Hrun as (stop & h1 & Hfd & Hrun). unfold serve_fd in Hfd.
    case_bool_decide as Hin.
    + apply bind_inv in Hfd as (h2 & h3 & [= <- <-] & Hfd).
      destruct (Z.eqb_spec i (server_sockfd h)) as [->|Hne].
      * apply bind_inv in Hfd as (u & h2 & Hacc & [= <- <-]).
        edestruct (accept_conn h) as (HI2 & E1 & E2 & _); [done| |exact Hacc|].
        { destruct (inp (server_sockfd h)) as [fd|] eqn:Ei; [|by left].
          rewrite Hsrv in Ei. destruct (Hfresh fd Ei) as [->|[? ?]]; [by left|].
          right. split; [done|]. intros Hfd. specialize (Hsub ltac:(lia)). set_solver. }
        apply (IH (server_sockfd h + 1) h2); [congruence| | |done|done].
        -- rewrite E1. lia.
        -- intros j Hj Hr. rewrite E2. apply elem_of_union_l, Hready; [lia|done].
      * edestruct (client_message_conn h i) as (HI1 & E1 & E2 & E3 & E4);
          [done|apply Hready; [lia|done]|done|exact Hfd|].
        destruct stop; [by injection Hrun as <-; split; [|congruence]|].
        apply (IH (i + 1) h1); [congruence| | |done|done].
        -- rewrite E1. intros. etransitivity; [done|]. apply Hsub. lia.
        -- intros j Hj Hr. apply E4; [lia|]. apply Hready; [lia|done].
    + injection Hfd as <- <-. apply (IH (i + 1) h); [done| | |done|done].
      * intros. apply Hsub. lia.
      * intros j Hj Hr. apply Hready; [lia|done].
Qed.

Lemma server_round_conn ready inp h fin h' :
  fresh_accept h inp → conn_inv h → server_round ready inp h = Ok (fin, h') → conn_inv h'.
Proof.
  intros Hfresh HI Hrun. unfold server_round in Hrun.
  apply bind_inv in Hrun as (h0 & h1 & [= <- <-] & Hrun). unfold id in Hrun.
  case_bool_decide as Hopen; [|done].
  apply bind_inv in Hrun as ([] & h1 & Hscan & Hrun).
  edestruct (scan_conn FD_SETSIZE (ready ∩ master h) inp h 0 h h1 Hfresh) as [HI1 _]; try done.
  { intros j _ [_ Hj]%elem_of_intersection. done. }
  apply bind_inv in Hrun as (h2 & h3 & [= <- <-] & Hrun).
  apply bind_inv in Hrun as (ex & h2 & [_ ->]%lift_inv & Hrun).
  destruct (_ && _) in Hrun.
  - apply bind_inv in Hrun as (u & h2 & [= _ <-] & [= _ <-]).
    by apply (conn_inv_frame h1).
  - by injection Hrun as _ <-.
Qed.

(** Descriptors that are not ready are passed over. *)
Lemma scan_skip k fuel ready inp i h :
  (∀ j, i ≤ j < i + Z.of_nat k → j ∉ ready) → i + Z.of_nat k ≤ fdmax h + 1 →
  scan (k + fuel) ready inp i h = scan fuel ready inp (i + Z.of_nat k) h.
Proof.
  revert i. induction k as [|k IH]; intros i Hno Hle; [by rewrite Z.add_0_r|].
  cbn [Nat.add scan]. msimpl. rewrite (proj2 (Z.leb_le i (fdmax h))) by lia.
  rewrite (bind_ok _ _ _ false h).
  - rewrite IH; [f_equal; lia| |lia]. intros j Hj. apply Hno. lia.
  - unfold serve_fd. rewrite bool_decide_false; [done|]. apply Hno. lia.
Qed.

(** The scan when one client is ready. *)
Lemma scan_one ready inp i h b h' :
  0 ≤ i ≤ fdmax h → fdmax h < Z.of_nat FD_SETSIZE → i ≠ server_sockfd h →
  (∀ j, j ∈ ready ↔ j = i) →
  client_message i (match inp i with IRead data => data | IAccept _ => [] end) h = Ok (b, h') →
  fdmax h' = fdmax h →
  scan FD_SETSIZE ready inp 0 h = Ok (tt, h').
Proof.
  intros Hi Hmax Hne Hready Hmsg Hfm.
  replace FD_SETSIZE with (Z.to_nat i + S (FD_SETSIZE - S (Z.to_nat i)))%nat by lia.
  rewrite scan_skip; [|intros j Hj; rewrite Hready; lia|lia].
  rewrite Z.add_0_l, Z2Nat.id by lia. cbn [scan]. msimpl.
  rewrite (proj2 (Z.leb_le i (fdmax h))) by lia.
  rewrite (bind_ok _ _ _ b h').
  2:{ unfold serve_fd. rewrite bool_decide_true by (by apply Hready). msimpl.
      unfold id. by rewrite (proj2 (Z.eqb_neq _ _) Hne). }
  destruct b; [done|]. set (fuel := (FD_SETSIZE - S (Z.to_nat i))%nat).
  replace fuel with (Z.to_nat (fdmax h - i) + (fuel - Z.to_nat (fdmax h - i)))%nat by lia.
  rewrite scan_skip; [|intros j Hj; rewrite Hready; lia|lia].
  destruct (fuel - Z.to_nat (fdmax h - i))%nat; simpl; msimpl.
  - by rewrite (proj2 (Z.leb_gt _ _)) by lia.
  - by rewrite (proj2 (Z.leb_gt _ _)) by lia.
Qed.
End scan.

(** A round in which one client is ready: its message and the test at the end. *)
Section round.
Context `{Platform}.

Lemma round_of_one ready inp h i b h' :
  master h ⊆ open_fds h → i ∈ ready → i ∈ master h → (∀ j, j ∈ ready → j = i) → i ≠ server_sockfd h →
  0 ≤ i ≤ fdmax h → fdmax h < Z.of_nat FD_SETSIZE →
  client_message i (match inp i with IRead data => data | IAccept _ => [] end) h = Ok (b, h') → fdmax h' = fdmax h →
  server_round ready inp h =
  (h ← gets id;
   ex ← lift (strncmp_eq (h_buf h) (str "EXIT") 4);
   if (ex : bool) && (num_connection h =? 0) then modify (say "Client request is END");; mret true
   else mret false) h'.
Proof.
  intros Hopen Hr Hm Honly Hne Hi Hfd Hrun Hmax. unfold server_round. msimpl. unfold id at 1.
  rewrite bool_decide_true by done.
  assert (∀ j, j ∈ ready ∩ master h ↔ j = i) as Hset by set_solver.
  by rewrite (bind_ok _ _ _ _ _ (scan_one (ready ∩ master h) inp i h b h' Hi Hfd Hne Hset Hrun Hmax)).
Qed.
End round.

(** ** Answers *)

(** Every answer can be written to its socket. *)
Definition writes_ok `{Platform} : Prop := ∀ n, 0 < sys_write n.

Lemma written_ok `{Platform} n msgs open : writes_ok → written n msgs open = open.
Proof.
  intros Hw. revert n open. induction msgs as [|[sock b] msgs IH]; intros n open; [done|]. simpl. rewrite IH.
  unfold ocall_message_return. by rewrite (proj2 (Z.leb_gt _ _) (Hw n)).
Qed.

Lemma in_dispatch_ok `{Platform} {A} (m : D A) h a d :
  writes_ok → m (h_disp h) = Ok (a, d) → in_dispatch m h = Ok (a, set_disp d h).
Proof. intros Hw Hm. unfold in_dispatch. by rewrite Hm, written_ok. Qed.

(** ** The end of the server *)
Section ending.
Context `{Platform} (Hwr : writes_ok).
Implicit Types (h : host) (i : Z).

(** The enclave threads were started with the configuration of the host. *)
Definition wired h : Prop :=
  let s := d_enclave (h_disp h) in
  arg_enclave s = h_arg h ∧ blen (queue (h_disp h)) = num_threads (h_arg h).

(** The buffer [main] reads a message into. *)
Lemma read_buffer n data :
  0 < blen data ≤ n → ∃ z, zalloc n = Ok z ∧ write_at z 0 data = Ok (data ++ zeros (n - blen data)).
Proof.
  intros Hd. exists (zeros n). split; [by apply zalloc_ok; lia|].
  replace n with (blen data + (n - blen data)) at 1 by lia. rewrite zeros_app by lia.
  apply (write_at_app [] (zeros (blen data)) data); [done|]. apply blen_zeros. lia.
Qed.

(** The messages of a client up to the call of the enclave, and what follows it. *)
Lemma client_message_pass h i data d' buf :
  0 < blen data ≤ max_buf_size (h_arg h) →
  enclave_message_pass (mkEcallParams (data ++ zeros (max_buf_size (h_arg h) - blen data)) i (num_clients h)) (h_disp h)
    = Ok (buf, d') →
  client_message i data h = after_call i buf (set_buf buf (set_disp d' h)).
Proof.
  intros Hd Hpass. destruct (read_buffer _ data Hd) as (z & Hz & Hw).
  unfold client_message. msimpl. rewrite (bind_lift _ _ _ _ Hz). msimpl.
  rewrite take_ge by (unfold blen in Hd; lia).
  rewrite bool_decide_false by (intros ->; unfold blen in Hd; simpl in Hd; lia).
  rewrite (bind_lift _ _ _ _ Hw), bind_modify, bind_gets.
  match goal with |- (in_dispatch _ ≫= _) ?h1 = _ =>
    rewrite (bind_ok _ _ _ buf (set_disp d' h1)) by (by apply in_dispatch_ok)
  end.
  done.
Qed.

Lemma client_message_exit h i data upper :
  wired h → (∃ rest, data = str (if upper : bool then "EXIT" else "exit") ++ rest) →
  blen data ≤ max_buf_size (h_arg h) → (exit_count (h_disp h) + 1 = num_clients h → manned (h_disp h)) →
  ∃ d', (let d := h_disp h in
      let buf := data ++ zeros (max_buf_size (h_arg h) - blen data) in
      let d1 := set_exit_count (exit_count d + 1) (add_sent (i, buf) d) in
      d' = if exit_count d + 1 =? num_clients h
           then push_everywhere (the_quit_job (max_buf_size (h_arg h)))
                  (set_enclave (add_out "All threads are finished" (d_enclave d)) d1)
           else d1) ∧
    exit_count d' = exit_count (h_disp h) + 1 ∧
    sent d' = sent (h_disp h) ++ [(i, data ++ zeros (max_buf_size (h_arg h) - blen data))] ∧
    client_message i data h =
    if upper then
      Ok (true, mkHost (h_arg h) (server_sockfd h) (open_fds h ∖ {[i]}) (master h ∖ {[i]}) (fdmax h)
                  (num_connection h - 1) (num_clients h) (run_phase h)
                  (data ++ zeros (max_buf_size (h_arg h) - blen data)) d'
                  (h_out h ++ ["num_connection: " +:+ pretty.pretty (num_connection h - 1) +:+ " remained"]))
    else
      Ok (false, mkHost (h_arg h) (server_sockfd h) (open_fds h) (master h) (fdmax h)
                   (num_connection h) (num_clients h) (run_phase h)
                   (data ++ zeros (max_buf_size (h_arg h) - blen data)) d' (h_out h)).
Proof.
  intros [Harg Hq] (rest & Hdata) Hlen Hman. set (n := max_buf_size (h_arg h)) in *.
  assert (4 ≤ blen data) as H4.
  { rewrite Hdata, blen_app. pose proof (blen_nonneg rest). destruct upper; unfold blen at 1; simpl; lia. }
  set (b := data ++ zeros (n - blen data)) in *.
  assert (blen b = n) as Hb by (unfold b; rewrite blen_app, blen_zeros; lia).
  assert (has_cmd b "EXIT" "exit") as Hcmd.
  { exists (rest ++ zeros (n - blen data)). unfold b. rewrite Hdata. destruct upper; [left|right]; by rewrite app_assoc. }
  pose proof (pass_exit_run (h_disp h) (mkEcallParams b i (num_clients h))) as Hpass.
  cbn [ep_buf ep_client_sock ep_num_clients] in Hpass. rewrite Harg in Hpass.
  specialize (Hpass Hcmd Hb Hq Hman).
  match type of Hpass with _ = Ok (_, ?x) => set (d' := x) in Hpass end. exists d'.
  assert (exit_count d' = exit_count (h_disp h) + 1 ∧ sent d' = sent (h_disp h) ++ [(i, b)]) as [E1 E2].
  { unfold d'. destruct (_ =? _); done. }
  split; [done|]. split; [done|]. split; [done|].
  rewrite (client_message_pass h i data d' b ltac:(fold n; lia) Hpass). unfold after_call.
  rewrite (bind_lift _ _ _ false) by (unfold b; rewrite Hdata; by destruct upper). msimpl.
  rewrite (bind_lift _ _ _ upper) by (unfold b; rewrite Hdata; by destruct upper). by destruct upper.
Qed.

(** A request is queued and its client waits. *)
Lemma client_message_request h i b r :
  wired h → threads_ok (d_enclave (h_disp h)) → has_header (h_disp h) → manned (h_disp h) → encodes b r → buffer_ok (d_enclave (h_disp h)) b → 0 < blen b →
  ∃ j q buf, queue (h_disp h) !! j = Some q ∧ strncmp_eq buf (str "EXIT") 4 = Ok false ∧
    client_message i b h =
    Ok (false, set_buf buf (set_disp (log_push (Z.of_nat j, mkJob i b)
                                        (set_queue (<[j := q ++ [mkJob i b]]> (queue (h_disp h))) (h_disp h))) h)).
Proof.
  intros [Harg Hq] Ht Hhd Hman Henc Hbuf Hpos. pose proof Hbuf as [Hlen _]. rewrite Harg in Hlen.
  set (p := mkEcallParams b i (num_clients h)).
  destruct (pass_request_run (h_disp h) p (req_key r)) as (j & q & buf & _ & Hj & Htk & Hrun);
    [done|done|done|unfold blen in Hq; rewrite Harg; lia|eauto|done|].
  exists j, q, buf. split; [done|].
  assert (∃ c buf', buf = c :: buf' ∧ c ≠ x45 ∧ c ≠ x4c) as (c & buf' & -> & Hc1 & Hc2).
  { clear -Htk Henc. cbn [ep_buf p] in Htk.
    assert (∃ c b', b = c :: b' ∧ c ≠ x45 ∧ c ≠ x4c) as (c & b' & -> & Hc).
    { destruct r; destruct Henc as [(rest & [->| ->]) _]; by eexists _, _. }
    destruct buf as [|c' buf']; [done|]. injection Htk as -> _. by eexists _, _. }
  assert (∀ c0 l n, c ≠ c0 → strncmp_eq (c :: buf') (c0 :: l) (S n) = Ok false) as Hcmp.
  { intros c0 l n Hne. simpl. by rewrite bool_decide_false. }
  split; [by apply Hcmp|].
  erewrite client_message_pass; [unfold after_call|lia|].
  2:{ rewrite Hlen, Z.sub_diag. change (zeros 0) with (@nil byte). rewrite app_nil_r. exact Hrun. }
  rewrite (bind_lift _ _ _ false) by (by apply Hcmp). msimpl.
  by rewrite (bind_lift _ _ _ false) by (by apply Hcmp).
Qed.

Lemma drop_client_run h i :
  drop_client i h =
  Ok (tt, upd_conn (open_fds h ∖ {[i]}) (master h ∖ {[i]}) (fdmax h) (num_connection h - 1) (num_clients h) h).
Proof. done. Qed.

(** The final message of a load client. *)
Lemma client_message_load h i :
  wired h → 9 ≤ max_buf_size (h_arg h) →
  let data := str "LOADDONE" ++ [NUL] in
  let buf := data ++ zeros (max_buf_size (h_arg h) - blen data) in
  ∃ o, client_message i data h =
    Ok (false, mkHost (h_arg h) (server_sockfd h) (open_fds h ∖ {[i]}) (master h ∖ {[i]}) (fdmax h)
                 (num_connection h - 1) (num_clients h) true buf
                 (add_sent (i, buf) (set_enclave (add_out "Load process is done" (d_enclave (h_disp h))) (h_disp h))) o).
Proof.
  intros [Harg Hq] Hn data buf. assert (blen data = 9) as Hd by done.
  erewrite client_message_pass; [unfold after_call|lia|].
  2:{ apply (pass_load_run _ _ ([NUL] ++ zeros (max_buf_size (h_arg h) - blen data))); [by cbn [ep_buf]; unfold data; rewrite <-app_assoc|].
      rewrite Harg. cbn [ep_buf]. rewrite blen_app, blen_zeros; lia. }
  cbn [ep_buf ep_client_sock]. fold buf. rewrite (bind_lift _ _ _ true) by done.
  exists (h_out h ++ if num_connection h - 1 =? 0 then ["Waiting for running clients"] else []).
  set (h1 := set_buf buf _). set (h2 := set_run (upd_conn (open_fds h1 ∖ {[i]}) (master h1 ∖ {[i]}) (fdmax h1) (num_connection h1 - 1) (num_clients h1) h1)).
  destruct (num_connection h - 1 =? 0) eqn:E.
  - rewrite (bind_ok _ _ _ tt (say "Waiting for running clients" h2)); [by rewrite (bind_lift _ _ _ false)|].
    rewrite (bind_ok _ _ _ tt _ (drop_client_run h1 i)). do 2 msimpl. simpl. by rewrite E.
  - rewrite (bind_ok _ _ _ tt h2).
    + rewrite (bind_lift _ _ _ false) by done. unfold h2, set_run, upd_conn. simpl. by rewrite app_nil_r.
    + rewrite (bind_ok _ _ _ tt _ (drop_client_run h1 i)). do 2 msimpl. simpl. by rewrite E.
Qed.

(** A client that closes its connection without an exit message. *)
Lemma client_message_eof h i :
  0 ≤ max_buf_size (h_arg h) →
  client_message i [] h = Ok (true, set_open (open_fds h ∖ {[i]}) (set_buf (zeros (max_buf_size (h_arg h))) h)).
Proof.
  intros Hn. unfold client_message. msimpl. rewrite (bind_lift _ _ _ _ (zalloc_ok _ Hn)). msimpl.
  rewrite bool_decide_true; [done|]. by rewrite take_nil.
Qed.
End ending.
