(* ===== verification/Client.v ===== *)
(** * Clients, [client/client_load.c] and [client/client_run.c]

    Both clients read a trace file into memory, one slice per thread, and every thread
    sends its slice over its own connection, one request at a time, then a final message:
    "LOADDONE" from the load client, "EXIT" from the run client.  The files differ in the
    names of the size option, the trace file and the final message. *)

From S2P Require Import Prelude CString CLib.

Definition MAX_IP_ADDR : Z := 12.

(** [struct argument]; [inst_size] is [load_inst_size] or [run_inst_size]. *)
Record cArg := mkCArg {
  ipaddr : bytes;
  c_port_num : Z;
  c_num_threads : Z;
  max_key_size : Z;
  max_val_size : Z;
  c_max_buf_size : Z;
  inst_size : Z;
  workload : byte;
}.

(** ** Reading lines *)

(** The bytes of the next line with its newline, at most [n]. *)
Fixpoint line_prefix (n : nat) (file : bytes) : bytes :=
  match n, file with
  | S n', c :: file' => if bool_decide (c = x0a) then [c] else c :: line_prefix n' file'
  | _, _ => []
  end.

(** [fgets(buf, n, fp)]: the buffer and the rest of the file; [None] at the end of the
    file. *)
Definition fgets (buf : bytes) (n : Z) (file : bytes) : res (option (bytes * bytes)) :=
  let l := line_prefix (Z.to_nat (n - 1)) file in
  if bool_decide (l = []) then Ok None
  else b ← write_at buf 0 (l ++ [NUL]); Ok (Some (b, drop (length l) file)).

(** ** [file_to_memory] *)

(** The globals [inst] and [count], and the position in the file. *)
Record trace := mkTrace {
  inst : list (list bytes);
  count : list Z;
  t_file : bytes;
}.

Abbreviation T := (M trace).

Definition set_trace (i : list (list bytes)) (c : list Z) (t : trace) : trace := mkTrace i c (t_file t).
Definition set_file (f : bytes) (t : trace) : trace := mkTrace (inst t) (count t) f.

(** [memcpy(inst[thread_id][count[thread_id]++], buf, arg.max_buf_size)] *)
Definition store_line (thread_id : Z) (buf : bytes) (n : Z) : T unit :=
  t ← gets id;
  c ← lift (zlookup (count t) thread_id);
  count' ← lift (zupdate (count t) thread_id (c + 1));
  slots ← lift (zlookup (inst t) thread_id);
  old ← lift (zlookup slots c);
  new ← lift (memcpy old 0 buf 0 n);
  slots' ← lift (zupdate slots c new);
  inst' ← lift (zupdate (inst t) thread_id slots');
  modify (set_trace inst' count').

(** One iteration of the loop: one line of the trace; returns [thread_id]. *)
Definition read_inst (arg : cArg) (set_count thread_id : Z) : T Z :=
  slice ← lift (zdiv (inst_size arg) (c_num_threads arg));
  r ← lift (zrem set_count slice);
  let thread_id := if (r =? 0) && negb (set_count =? 0) then thread_id + 1 else thread_id in
  z ← lift (zalloc (c_max_buf_size arg));
  f ← gets t_file;
  l ← lift (fgets z (c_max_buf_size arg) f);
  match l with
  | None => raise Exited
  | Some (buf, rest) =>
      modify (set_file rest);;
      len ← lift (strlen buf);
      buf ← lift (zupdate buf (len - 1) NUL);
      store_line thread_id buf (c_max_buf_size arg);;
      mret thread_id
  end.

(** The slices before the loop: [inst_size / num_threads] buffers per thread.  The
    contents of the buffers are indeterminate, written as zeros. *)
Definition trace_alloc (arg : cArg) (file : bytes) : res trace :=
  slice ← zdiv (inst_size arg) (c_num_threads arg);
  Ok (mkTrace
        (replicate (Z.to_nat (c_num_threads arg))
           (replicate (Z.to_nat slice) (zeros (c_max_buf_size arg))))
        (replicate (Z.to_nat (c_num_threads arg)) 0) file).

Definition file_to_memory (arg : cArg) (file : bytes) : res trace :=
  t ← trace_alloc arg file;
  r ← for_each (seqZ 0 (inst_size arg)) (λ set_count thread_id, read_inst arg set_count thread_id) 0 t;
  Ok (snd r).

(** ** [client_worker] *)

(** [strncpy(dst, src, n)] into a buffer of [n] zeros: the string, cut or padded. *)
Definition strncpy (src : bytes) (n : Z) : res bytes :=
  match cstr_opt src with
  | Some s => if blen s <? n then Ok (s ++ zeros (n - blen s)) else read_at s 0 n
  | None => read_at src 0 n
  end.

(** What a thread writes: the requests of its slice, each answered before the next, and
    the final message with its NUL. *)
Definition client_worker (last : string) (arg : cArg) (t : trace) (thread_id : Z) : res (list bytes) :=
  slots ← zlookup (inst t) thread_id;
  slice ← zdiv (inst_size arg) (c_num_threads arg);
  msgs ← foldr (λ i r,
           ms ← r; s ← zlookup slots i; m ← strncpy s (c_max_buf_size arg); Ok (m :: ms))
         (Ok []) (seqZ 0 slice);
  Ok (msgs ++ [str last ++ [NUL]]).

Definition load_worker := client_worker "LOADDONE".
Definition run_worker := client_worker "EXIT".

(** ** Options *)
Definition client_configuration_init : cArg :=
  {| ipaddr := str "127.0.0.1" ++ zeros 3; c_port_num := 1234; max_key_size := 16; max_val_size := 16;
     c_max_buf_size := 64; c_num_threads := 4; workload := x61; inst_size := 500 |}.

Definition client_help : list string :=
  [ "-h : help"; "-i <server ip address>"; "-p <server port number>"; "-k <maximum key size>";
    "-v <maximum value size>"; "-b <maximum buffer size>"; "-t <number of threads>";
    "-w <workload name>"; "-n <number of operations>" ].

(** The option string ["hi:p:k:v:b:t:w:n:"] *)
Definition client_opts : list (byte * bool) :=
  [ (x68, false); (x69, true); (x70, true); (x6b, true); (x76, true); (x62, true); (x74, true);
    (x77, true); (x6e, true) ].

(** One iteration of the option loop; the [assert] of [-b] is compiled in. *)
Definition client_option (arg : cArg) (o : byte * bytes) : res cArg :=
  let '(opt, optarg) := o in
  let n := atoi optarg in
  let upd ip port th ks vs bs sz w := mkCArg ip port th ks vs bs sz w in
  match opt with
  | x69 =>
      ip ← memcpy (ipaddr arg) 0 optarg 0 (blen optarg);
      Ok (upd ip (c_port_num arg) (c_num_threads arg) (max_key_size arg) (max_val_size arg)
            (c_max_buf_size arg) (inst_size arg) (workload arg))
  | x70 => Ok (upd (ipaddr arg) n (c_num_threads arg) (max_key_size arg) (max_val_size arg)
                 (c_max_buf_size arg) (inst_size arg) (workload arg))
  | x6b => Ok (upd (ipaddr arg) (c_port_num arg) (c_num_threads arg) n (max_val_size arg)
                 (c_max_buf_size arg) (inst_size arg) (workload arg))
  | x76 =>
      let bs := if n =? 16 then 64 else if n =? 128 then 192 else if n =? 512 then 576
                else s32 (max_key_size arg + n + 10) in
      Ok (upd (ipaddr arg) (c_port_num arg) (c_num_threads arg) (max_key_size arg) n bs
            (inst_size arg) (workload arg))
  | x62 =>
      if max_key_size arg + max_val_size arg + 10 <=? n
      then Ok (upd (ipaddr arg) (c_port_num arg) (c_num_threads arg) (max_key_size arg) (max_val_size arg)
                 n (inst_size arg) (workload arg))
      else Fault Assert_failed
  | x74 => Ok (upd (ipaddr arg) (c_port_num arg) n (max_key_size arg) (max_val_size arg)
                 (c_max_buf_size arg) (inst_size arg) (workload arg))
  | x77 => Ok (upd (ipaddr arg) (c_port_num arg) (c_num_threads arg) (max_key_size arg) (max_val_size arg)
                 (c_max_buf_size arg) (inst_size arg) (hd NUL optarg))
  | x6e => Ok (upd (ipaddr arg) (c_port_num arg) (c_num_threads arg) (max_key_size arg) (max_val_size arg)
                 (c_max_buf_size arg) n (workload arg))
  | _ => Ok arg
  end.

Definition client_options (argv : list bytes) : res cArg :=
  fold_left (λ r o, a ← r; client_option a o) (getopt client_opts argv) (Ok client_configuration_init).

(** [main]: options, trace, one worker per thread; the messages of every thread. *)
Definition client_main (last : string) (argv : list bytes) (file : bytes) : res (list (list bytes)) :=
  arg ← client_options argv;
  t ← file_to_memory arg file;
  foldr (λ i r, ms ← r; m ← client_worker last arg t i; Ok (m :: ms)) (Ok []) (seqZ 0 (c_num_threads arg)).

(** ** The two programs *)

(** [client_load.c] *)
Module Load.
Definition client_worker := load_worker.
Definition main := client_main "LOADDONE".
End Load.

(** [client_run.c]: the same functions with the run trace and EXIT. *)
Module Run.
Definition Arg := cArg.
Definition file_to_memory := file_to_memory.
Definition client_worker := run_worker.
Definition configuration_init := client_configuration_init.
Definition help := client_help.
Definition options := client_options.
Definition main := client_main "EXIT".
End Run.
