(* ===== verification/ClientProofs.v ===== *)
(** * Clients: the trace is shared out line by line *)

From S2P Require Import Prelude CString CLib Client.

Definition NL : byte := x0a.

(** A line of the trace that fits the buffer of [n] bytes. *)
Definition line_ok (n : Z) (l : bytes) : Prop := nonul l ∧ NL ∉ l ∧ blen l + 2 ≤ n.

(** The line as it is kept and sent: without its newline, padded with zeros. *)
Definition padded (n : Z) (l : bytes) : bytes := l ++ zeros (n - blen l).

Lemma line_prefix_line n l rest :
  NL ∉ l → (length l < n)%nat → line_prefix n (l ++ NL :: rest) = l ++ [NL].
Proof.
  revert n. induction l as [|c l IH]; intros n Hnl Hn; destruct n as [|n]; simpl in *; try lia.
  - done.
  - rewrite bool_decide_false by (unfold NL in *; set_solver). rewrite IH; [done|set_solver|lia].
Qed.

Lemma zeros_cons n : 0 < n → x00 :: zeros (n - 1) = zeros n.
Proof.
  intros. unfold zeros. replace (Z.to_nat n) with (S (Z.to_nat (n - 1))) by lia. done.
Qed.

(** Reading one line. *)
Lemma fgets_line n l rest :
  line_ok n l →
  fgets (zeros n) n (l ++ NL :: rest) = Ok (Some (l ++ NL :: zeros (n - blen l - 1), rest)).
Proof.
  intros (Hn & Hnl & Hlen). pose proof (blen_nonneg l). unfold fgets.
  rewrite line_prefix_line by (done || unfold blen in *; lia).
  rewrite bool_decide_false by (by destruct l).
  replace n with ((blen l + 2) + (n - blen l - 2)) at 1 by lia.
  unfold zeros at 1. rewrite Z2Nat.inj_add, replicate_add by lia. fold (zeros (blen l + 2)).
  fold (zeros (n - blen l - 2)).
  pose proof (write_at_app [] (zeros (blen l + 2)) ((l ++ [NL]) ++ [NUL]) (zeros (n - blen l - 2)) 0
    eq_refl) as W.
  assert (drop (length (l ++ [NL])) (l ++ NL :: rest) = rest) as Hd.
  { replace (l ++ NL :: rest) with ((l ++ [NL]) ++ rest) by (by rewrite <-app_assoc).
    apply drop_app_length. }
  assert (((l ++ [NL]) ++ [NUL]) ++ zeros (n - blen l - 2) = l ++ NL :: zeros (n - blen l - 1)) as Hb.
  { rewrite <-!app_assoc, <-(zeros_cons (n - blen l - 1)) by lia.
    by replace (n - blen l - 1 - 1) with (n - blen l - 2) by lia. }
  rewrite !app_nil_l in W. unfold mbind, res_bind. rewrite W; [by rewrite Hd, Hb|].
  rewrite blen_zeros by lia. rewrite !blen_app, !blen_cons, !blen_nil. lia.
Qed.

(** Lines, one after another. *)
Definition file_of (ls : list bytes) : bytes := concat ((λ l, l ++ [NL]) <$> ls).

(** Reading a line into a buffer that is in use: what is behind its NUL stays. *)
Lemma fgets_over n buf l rest :
  blen buf = n → NL ∉ l → blen l + 2 ≤ n →
  ∃ r, fgets buf n (l ++ NL :: rest) = Ok (Some (l ++ NL :: NUL :: r, rest)) ∧ blen (l ++ NL :: NUL :: r) = n.
Proof.
  intros Hb Hnl Hlen. pose proof (blen_nonneg l). unfold fgets, mbind, res_bind.
  rewrite line_prefix_line by (done || unfold blen in *; lia). rewrite bool_decide_false by by destruct l.
  set (w := (l ++ [NL]) ++ [NUL]). assert (blen w = blen l + 2) as Hw by (unfold w; by blen).
  assert (buf = [] ++ take (Z.to_nat (blen w)) buf ++ drop (Z.to_nat (blen w)) buf) as Hsplit by by rewrite app_nil_l, take_drop.
  assert (write_at buf 0 w = Ok (w ++ drop (Z.to_nat (blen w)) buf)) as ->.
  { rewrite Hsplit at 1. rewrite write_at_app with (y := w); [done|done|].
    pose proof (blen_nonneg w). rewrite blen_take by lia. done. }
  assert (w ++ drop (Z.to_nat (blen w)) buf = l ++ NL :: NUL :: drop (Z.to_nat (blen w)) buf) as ->.
  { unfold w. by rewrite <-!app_assoc. }
  eexists. split.
  - do 4 f_equal. rewrite length_app. simpl. rewrite cons_middle, app_assoc.
    by rewrite <-(length_app l [NL] : _ = (length l + 1)%nat), drop_app_length.
  - rewrite blen_app, !blen_cons, blen_drop; lia.
Qed.

Lemma fmap_seq_const {A} (f : nat → A) a k n : (∀ i, f i = a) → f <$> seq k n = replicate n a.
Proof. intros Hf. revert k. induction n as [|n IH]; intros k; [done|]. simpl. by rewrite Hf, IH. Qed.

(** Cutting the newline. *)
Lemma cut_newline n l :
  line_ok n l →
  strlen (l ++ NL :: zeros (n - blen l - 1)) = Ok (blen l + 1) ∧
  zupdate (l ++ NL :: zeros (n - blen l - 1)) (blen l + 1 - 1) NUL = Ok (padded n l).
Proof.
  intros (Hn & Hnl & Hlen). pose proof (blen_nonneg l). split.
  - unfold strlen, mbind, res_bind.
    rewrite <-(zeros_cons (n - blen l - 1)) by lia.
    replace (l ++ NL :: x00 :: zeros (n - blen l - 1 - 1))
      with ((l ++ [NL]) ++ NUL :: zeros (n - blen l - 1 - 1)) by (by rewrite <-app_assoc).
    rewrite cstr_app; [by rewrite blen_app|]. unfold nonul, NL in *. set_solver.
  - replace (blen l + 1 - 1) with (Z.of_nat (length l)) by (unfold blen; lia).
    rewrite zupdate_nat by (rewrite length_app; simpl; lia).
    rewrite insert_app_r_alt, Nat.sub_diag by lia. simpl. unfold padded.
    rewrite <-(zeros_cons (n - blen l)) by lia. done.
Qed.

(** ** The loop of [file_to_memory] *)
Section slices.
Context (arg : cArg) (lines : list bytes) (slice t extra : nat).
Context (Hsize : inst_size arg = Z.of_nat (t * slice + extra)) (Hthr : c_num_threads arg = Z.of_nat t).
Context (Ht : (0 < t)%nat) (Hslice : (0 < slice)%nat) (Hextra : (extra < t)%nat).
Context (Hlen : length lines = (t * slice + extra)%nat).
Context (Hlines : Forall (line_ok (c_max_buf_size arg)) lines).

Abbreviation N := (c_max_buf_size arg).

(** The buffer of line [x] after [k] lines. *)
Definition cell_at (k x : nat) : bytes :=
  if decide (x < k)%nat then padded N (nth x lines []) else zeros N.
Definition inst_at (k : nat) : list (list bytes) :=
  (λ i, (λ j, cell_at k (i * slice + j)) <$> seq 0 slice) <$> seq 0 t.
Definition count_at (k : nat) : list Z :=
  (λ i, Z.of_nat (min slice (k - i * slice))) <$> seq 0 t.

Lemma inst_at_lookup k i :
  (i < t)%nat → inst_at k !! i = Some ((λ j, cell_at k (i * slice + j)) <$> seq 0 slice).
Proof. intros Hi. unfold inst_at. rewrite list_lookup_fmap, lookup_seq_lt by lia. done. Qed.

Lemma count_at_lookup k i : (i < t)%nat → count_at k !! i = Some (Z.of_nat (min slice (k - i * slice))).
Proof. intros Hi. unfold count_at. rewrite list_lookup_fmap, lookup_seq_lt by lia. done. Qed.

Lemma slice_quot : zdiv (inst_size arg) (c_num_threads arg) = Ok (Z.of_nat slice).
Proof.
  unfold zdiv. rewrite Hsize, Hthr, (proj2 (Z.eqb_neq _ _)) by lia. f_equal.
  rewrite Z.quot_div_nonneg by lia. symmetry. apply (Z.div_unique_pos _ _ _ (Z.of_nat extra)); lia.
Qed.

(** Line [k] goes to slot [k mod slice] of thread [k / slice]. *)
Lemma inst_at_step k q r :
  (k = q * slice + r)%nat → (r < slice)%nat → (q < t)%nat →
  <[q := <[r := padded N (nth k lines [])]> ((λ j, cell_at k (q * slice + j)) <$> seq 0 slice)]> (inst_at k) =
  inst_at (S k).
Proof.
  intros Hk Hr Hq. apply list_eq. intros i. destruct (decide (i = q)) as [->|Hne].
  - rewrite list_lookup_insert_eq by (unfold inst_at; rewrite length_fmap, length_seq; lia).
    rewrite inst_at_lookup by lia. f_equal. apply list_eq. intros j.
    destruct (decide (j = r)) as [->|Hnej].
    + rewrite list_lookup_insert_eq by (rewrite length_fmap, length_seq; lia).
      rewrite list_lookup_fmap, lookup_seq_lt by lia. simpl. unfold cell_at.
      rewrite decide_True by lia. by rewrite <-Hk.
    + rewrite list_lookup_insert_ne by done. rewrite !list_lookup_fmap.
      destruct (seq 0 slice !! j) as [x|] eqn:E; [|done]. apply lookup_seq in E as [-> Hj]. simpl.
      f_equal. unfold cell_at. destruct (decide (q * slice + j < k)%nat), (decide (q * slice + j < S k)%nat);
        try done; lia.
  - rewrite list_lookup_insert_ne by done. destruct (decide (i < t)%nat).
    + rewrite !inst_at_lookup by lia. f_equal. apply list_fmap_ext. intros j x Hx.
      apply lookup_seq in Hx as [-> Hj]. unfold cell_at.
      assert ((i * slice + j)%nat ≠ k) by nia.
      destruct (decide (i * slice + (0 + j) < k)%nat), (decide (i * slice + (0 + j) < S k)%nat); try done; lia.
    + rewrite !lookup_ge_None_2; [done|unfold inst_at; rewrite length_fmap, length_seq; lia..].
Qed.

Lemma count_at_step k q r :
  (k = q * slice + r)%nat → (r < slice)%nat → (q < t)%nat →
  <[q := Z.of_nat r + 1]> (count_at k) = count_at (S k).
Proof.
  intros Hk Hr Hq. apply list_eq. intros i. destruct (decide (i = q)) as [->|Hne].
  - rewrite list_lookup_insert_eq by (unfold count_at; rewrite length_fmap, length_seq; lia).
    rewrite count_at_lookup by lia. f_equal. lia.
  - rewrite list_lookup_insert_ne by done. destruct (decide (i < t)%nat).
    + rewrite !count_at_lookup by lia. do 2 f_equal. nia.
    + rewrite !lookup_ge_None_2; [done|unfold count_at; rewrite length_fmap, length_seq; lia..].
Qed.

Lemma store_line_step k q r file :
  (k = q * slice + r)%nat → (r < slice)%nat → (q < t)%nat →
  line_ok N (nth k lines []) →
  store_line (Z.of_nat q) (padded N (nth k lines [])) N (mkTrace (inst_at k) (count_at k) file) =
  Ok (tt, mkTrace (inst_at (S k)) (count_at (S k)) file).
Proof.
  intros Hk Hr Hq (_ & _ & Hl). set (l := nth k lines []) in *. pose proof (blen_nonneg l).
  assert (blen (padded N l) = N) as Hpl by (unfold padded; rewrite blen_app, blen_zeros; lia).
  assert (count_at k !! q = Some (Z.of_nat r)) as Hc
    by (rewrite count_at_lookup by lia; do 2 f_equal; lia).
  set (slots := (λ j, cell_at k (q * slice + j)) <$> seq 0 slice).
  assert (slots !! r = Some (zeros N)) as Hs.
  { unfold slots. rewrite list_lookup_fmap, lookup_seq_lt by lia. simpl. unfold cell_at.
    by rewrite decide_False by lia. }
  unfold store_line. rewrite bind_gets. unfold id. cbn [inst count].
  rewrite (bind_lift _ _ _ _ (zlookup_nat _ _ _ Hc)).
  rewrite (bind_lift _ _ _ _ (zupdate_nat _ _ _ (lookup_lt_Some _ _ _ Hc))).
  rewrite (bind_lift _ _ _ _ (zlookup_nat _ _ _ (inst_at_lookup k q Hq))). fold slots.
  rewrite (bind_lift _ _ _ _ (zlookup_nat _ _ _ Hs)).
  rewrite (bind_lift _ _ _ (padded N l)).
  2:{ unfold memcpy, mbind, res_bind. rewrite read_at_all by done. apply write_at_all.
      rewrite blen_zeros by lia. done. }
  rewrite (bind_lift _ _ _ _ (zupdate_nat _ _ _ (lookup_lt_Some _ _ _ Hs))).
  rewrite (bind_lift _ _ _ _ (zupdate_nat _ _ _ (lookup_lt_Some _ _ _ (inst_at_lookup k q Hq)))).
  rewrite (count_at_step k q r Hk Hr Hq). unfold slots, l. by rewrite (inst_at_step k q r Hk Hr Hq).
Qed.
(** The file from line [k] on. *)
Definition file_at (k : nat) (rest : bytes) : bytes := concat ((λ l, l ++ [NL]) <$> drop k lines) ++ rest.

(** The thread before line [k] is read. *)
Definition tid_at (k : nat) : Z := Z.of_nat ((k - 1) / slice).

Lemma tid_step k q r :
  (k = q * slice + r)%nat → (r < slice)%nat →
  (if (Z.rem (Z.of_nat k) (Z.of_nat slice) =? 0) && negb (Z.of_nat k =? 0) then tid_at k + 1 else tid_at k) =
  Z.of_nat q.
Proof.
  intros Hk Hr. rewrite Z.rem_mod_nonneg by lia.
  assert (Z.of_nat k mod Z.of_nat slice = Z.of_nat r) as ->.
  { symmetry. apply (Z.mod_unique_pos _ _ (Z.of_nat q)); lia. }
  unfold tid_at. destruct (Z.eqb_spec (Z.of_nat r) 0), (Z.eqb_spec (Z.of_nat k) 0); simpl.
  - assert (q = 0%nat) as -> by nia. rewrite Nat.div_small by lia. done.
  - destruct q as [|q]; [lia|]. replace ((k - 1) / slice)%nat with q; [lia|].
    apply (Nat.div_unique _ _ _ (slice - 1)); [lia|]. rewrite Nat.mul_succ_l in Hk. lia.
  - lia.
  - f_equal. symmetry. apply (Nat.div_unique _ _ _ (r - 1)); lia.
Qed.

Lemma read_inst_step k q r rest :
  (k = q * slice + r)%nat → (r < slice)%nat → (q < t)%nat →
  read_inst arg (Z.of_nat k) (tid_at k) (mkTrace (inst_at k) (count_at k) (file_at k rest)) =
  Ok (Z.of_nat q, mkTrace (inst_at (S k)) (count_at (S k)) (file_at (S k) rest)).
Proof.
  intros Hk Hr Hq. assert (k < length lines)%nat as Hkl by (rewrite Hlen; nia).
  destruct (lookup_lt_is_Some_2 lines k Hkl) as [l Hl].
  assert (nth k lines [] = l) as Hnth by (by rewrite nth_lookup, Hl).
  pose proof (Forall_lookup_1 _ _ _ _ Hlines Hl) as Hok. pose proof Hok as (_ & _ & Hfit).
  pose proof (blen_nonneg l).
  assert (file_at k rest = l ++ NL :: file_at (S k) rest) as Hfile.
  { unfold file_at. rewrite (drop_S _ _ _ Hl), fmap_cons. cbn [concat]. by rewrite <-!app_assoc. }
  unfold read_inst.
  rewrite (bind_lift _ _ _ _ slice_quot).
  rewrite (bind_lift _ _ _ (Z.rem (Z.of_nat k) (Z.of_nat slice))).
  2:{ unfold zrem. by rewrite (proj2 (Z.eqb_neq _ _)) by lia. }
  rewrite (tid_step k q r Hk Hr).
  rewrite (bind_lift _ _ _ (zeros N)) by (unfold zalloc; by rewrite (proj2 (Z.ltb_ge _ _)) by lia).
  rewrite bind_gets. cbn [t_file]. rewrite Hfile.
  rewrite (bind_lift _ _ _ _ (fgets_line N l (file_at (S k) rest) Hok)). cbv beta iota.
  rewrite bind_modify. destruct (cut_newline N l Hok) as [Hs Hz].
  rewrite (bind_lift _ _ _ _ Hs), (bind_lift _ _ _ _ Hz).
  unfold set_file. cbn [inst count]. rewrite <-Hnth at 1.
  rewrite (bind_ok _ _ _ _ _ (store_line_step k q r _ Hk Hr Hq ltac:(by rewrite Hnth))).
  done.
Qed.

Lemma read_loop m k rest :
  (k + m = t * slice)%nat →
  ∃ tid, for_each (seqZ (Z.of_nat k) (Z.of_nat m)) (λ c tid, read_inst arg c tid) (tid_at k)
    (mkTrace (inst_at k) (count_at k) (file_at k rest)) =
  Ok (tid, mkTrace (inst_at (t * slice)) (count_at (t * slice)) (file_at (t * slice) rest)) ∧
  tid = tid_at (t * slice).
Proof.
  revert k. induction m as [|m IH]; intros k Hkm.
  - replace k with (t * slice)%nat by lia. eexists. done.
  - rewrite seqZ_cons by lia. replace (Z.pred (Z.of_nat (S m))) with (Z.of_nat m) by lia.
    replace (Z.succ (Z.of_nat k)) with (Z.of_nat (S k)) by lia. cbn [for_each].
    pose proof (Nat.div_mod k slice ltac:(lia)) as Hdm.
    pose proof (Nat.mod_upper_bound k slice ltac:(lia)) as Hr.
    set (q := (k / slice)%nat) in *. set (r := (k mod slice)%nat) in *.
    rewrite (bind_ok _ _ _ _ _ (read_inst_step k q r rest ltac:(lia) Hr ltac:(nia))).
    replace (Z.of_nat q) with (tid_at (S k)); [apply IH; lia|].
    unfold tid_at, q. do 2 f_equal. lia.
Qed.

(** The trace in memory: [inst[i][j]] is line [i * slice + j]. *)
Lemma trace_alloc_ok file : trace_alloc arg file = Ok (mkTrace (inst_at 0) (count_at 0) file).
Proof.
  unfold trace_alloc, mbind, res_bind. rewrite slice_quot, Hthr, !Nat2Z.id. f_equal. f_equal.
  - symmetry. apply fmap_seq_const. intros i. apply fmap_seq_const. intros j. unfold cell_at.
    by rewrite decide_False by lia.
  - symmetry. apply fmap_seq_const. intros i. simpl. lia.
Qed.

Lemma file_to_memory_loop rest m :
  (extra = m)%nat →
  ∃ tid, file_to_memory arg (file_at 0 rest) =
    (r ← for_each (seqZ (Z.of_nat (t * slice)) (Z.of_nat m)) (λ c tid, read_inst arg c tid) tid
           (mkTrace (inst_at (t * slice)) (count_at (t * slice)) (file_at (t * slice) rest));
     Ok (snd r)) ∧ tid = tid_at (t * slice).
Proof.
  intros <-. destruct (read_loop (t * slice) 0 rest eq_refl) as (tid & Hrun & Htid).
  replace (tid_at 0) with 0 in Hrun by (unfold tid_at; by rewrite Nat.div_small by lia).
  exists tid. split; [|done]. unfold file_to_memory. rewrite trace_alloc_ok, Hsize.
  rewrite Nat2Z.inj_add, seqZ_app by lia. change (Z.of_nat 0) with 0 in Hrun.
  unfold mbind at 1, res_bind at 1.
  rewrite (for_each_app _ _ _ _ _ _ _ Hrun). by rewrite Z.add_0_l.
Qed.

Lemma file_to_memory_ok rest :
  extra = 0%nat →
  file_to_memory arg (file_at 0 rest) =
  Ok (mkTrace (inst_at (t * slice)) (count_at (t * slice)) rest).
Proof.
  intros He. destruct (file_to_memory_loop rest extra eq_refl) as (tid & -> & _). rewrite He. simpl.
  unfold file_at. by rewrite drop_ge by lia.
Qed.

(** A remainder is written behind the last slice. *)
Lemma read_inst_oob rest :
  (0 < extra)%nat →
  read_inst arg (Z.of_nat (t * slice)) (tid_at (t * slice))
    (mkTrace (inst_at (t * slice)) (count_at (t * slice)) (file_at (t * slice) rest)) = Fault Out_of_bounds.
Proof.
  intros He. set (k := (t * slice)%nat). assert (k < length lines)%nat as Hkl by (rewrite Hlen; lia).
  destruct (lookup_lt_is_Some_2 lines k Hkl) as [l Hl].
  pose proof (Forall_lookup_1 _ _ _ _ Hlines Hl) as Hok. pose proof Hok as (_ & _ & Hfit).
  pose proof (blen_nonneg l).
  assert (file_at k rest = l ++ NL :: file_at (S k) rest) as Hfile.
  { unfold file_at. rewrite (drop_S _ _ _ Hl), fmap_cons. cbn [concat]. by rewrite <-!app_assoc. }
  unfold read_inst. rewrite (bind_lift _ _ _ _ slice_quot).
  rewrite (bind_lift _ _ _ (Z.rem (Z.of_nat k) (Z.of_nat slice))).
  2:{ unfold zrem. by rewrite (proj2 (Z.eqb_neq _ _)) by lia. }
  rewrite (tid_step k t 0 ltac:(lia) Hslice).
  rewrite (bind_lift _ _ _ (zeros N)) by (unfold zalloc; by rewrite (proj2 (Z.ltb_ge _ _)) by lia).
  rewrite bind_gets. cbn [t_file]. rewrite Hfile.
  rewrite (bind_lift _ _ _ _ (fgets_line N l (file_at (S k) rest) Hok)). cbv beta iota.
  rewrite bind_modify. destruct (cut_newline N l Hok) as [Hs Hz].
  rewrite (bind_lift _ _ _ _ Hs), (bind_lift _ _ _ _ Hz). apply bind_fault.
  unfold store_line. rewrite bind_gets. apply bind_fault. unfold lift, id. cbn [count set_file].
  rewrite zlookup_oob; [done|]. unfold count_at, blen. rewrite length_fmap, length_seq. lia.
Qed.

Lemma file_to_memory_oob rest :
  (0 < extra)%nat → file_to_memory arg (file_at 0 rest) = Fault Out_of_bounds.
Proof.
  intros He. destruct (file_to_memory_loop rest extra eq_refl) as (tid & -> & ->).
  rewrite seqZ_cons by lia. cbn [for_each].
  by rewrite (bind_fault _ _ _ _ (read_inst_oob rest He)).
Qed.

(** What thread [i] sends. *)
Lemma client_worker_ok last i rest :
  (i < t)%nat →
  client_worker last arg (mkTrace (inst_at (t * slice)) (count_at (t * slice)) rest) (Z.of_nat i) =
  Ok ((padded N <$> take slice (drop (i * slice) lines)) ++ [str last ++ [NUL]]).
Proof.
  intros Hi. unfold client_worker, mbind, res_bind. cbn [inst].
  rewrite (zlookup_nat _ _ _ (inst_at_lookup (t * slice) i Hi)).
  rewrite slice_quot. set (slots := _ <$> seq 0 slice).
  assert (∀ m k, (k + m = slice)%nat →
    foldr (λ i r, match r with Ok ms => match zlookup slots i with
        | Ok s => match strncpy s N with Ok x => Ok (x :: ms) | Fault f => Fault f end
        | Fault f => Fault f end | Fault f => Fault f end) (Ok []) (seqZ (Z.of_nat k) (Z.of_nat m)) =
    Ok (padded N <$> take m (drop (i * slice + k) lines))) as Hfold.
  { induction m as [|m IH]; intros k Hkm; [done|].
    rewrite seqZ_cons by lia. replace (Z.pred (Z.of_nat (S m))) with (Z.of_nat m) by lia.
    replace (Z.succ (Z.of_nat k)) with (Z.of_nat (S k)) by lia. cbn [foldr]. rewrite IH by lia.
    assert (i * slice + k < length lines)%nat as Hkl by (rewrite Hlen; nia).
    destruct (lookup_lt_is_Some_2 lines _ Hkl) as [l Hl].
    rewrite (zlookup_nat _ _ (padded N l)).
    2:{ unfold slots. rewrite list_lookup_fmap, lookup_seq_lt by lia. simpl. unfold cell_at.
        rewrite decide_True by nia. by rewrite nth_lookup, Hl. }
    pose proof (Forall_lookup_1 _ _ _ _ Hlines Hl) as (Hn & _ & Hfit). pose proof (blen_nonneg l).
    assert (strncpy (padded N l) N = Ok (padded N l)) as ->.
    { unfold strncpy, padded. rewrite <-(zeros_cons (N - blen l)) by lia.
      rewrite (cstr_opt_app l _ Hn). rewrite (proj2 (Z.ltb_lt _ _)) by lia.
      by rewrite <-(zeros_cons (N - blen l)) by lia. }
    rewrite (drop_S _ _ _ Hl). cbn [take]. rewrite fmap_cons.
    by replace (S (i * slice + k))%nat with (i * slice + S k)%nat by lia. }
  pose proof (Hfold slice 0%nat eq_refl) as H0. rewrite Nat.add_0_r in H0.
  change (Z.of_nat 0) with 0 in H0. by rewrite H0.
Qed.

(** Together the threads send every line of the trace once, in order. *)
Lemma slices_concat :
  extra = 0%nat → concat ((λ i, take slice (drop (i * slice) lines)) <$> seq 0 t) = lines.
Proof.
  intros He. rewrite He, Nat.add_0_r in Hlen. clear He Hsize Hthr Hlines Ht Hextra. revert lines Hlen.
  induction t as [|t' IH]; intros ls Hl.
  - apply nil_length_inv in Hl. done.
  - cbn [seq fmap list_fmap concat]. rewrite drop_0. rewrite <-(take_drop slice ls) at 2. f_equal.
    rewrite <-(IH (drop slice ls)) at 1 by (rewrite length_drop; lia).
    rewrite <-seq_shift, <-list_fmap_compose. f_equal. apply list_fmap_ext. intros j x _. simpl.
    by rewrite drop_drop.
Qed.
End slices.
