(* ===== verification/Session.v ===== *)
(** * A thread of a client at its connection

    [client_worker] of [client/client_load.c] and [client/client_run.c] with what [Client] leaves
    out: the connection, the answers it reads, and the lines it prints.  VALIDATION is not
    defined, as in the files.  A thread that can connect, and whose last answer is a string that
    ends in its buffer, sends exactly what [Client.client_worker] says, whatever the other
    answers are. *)

From stdpp Require Import pretty.
From S2P Require Import Prelude CString CLib Client.

(** ** Calls on the socket *)

(** What the system does with one request: the value of [write], and the bytes [read] gets,
    [None] if it fails. *)
Record answer := mkAnswer {
  wrote : Z;
  got : option bytes;
}.

(** The message on [stderr] after a call that returned [e]. *)
Definition errno_line (e : Z) : list string := if e =? -1 then ["Error errno: -1"] else [].

(** [memset(buf_out, 0, n); errno = read(client_sockfd, buf_out, n)] *)
Definition read_answer (n : Z) (a : answer) : res (bytes * list string) :=
  z ← zalloc n;
  match got a with
  | None => Ok (z, errno_line (-1))
  | Some data => b ← write_at z 0 (take (Z.to_nat n) data); Ok (b, [])
  end.

(** One iteration of the loop: the message sent and the lines printed. *)
Definition session_request (arg : cArg) (slots : list bytes) (i : Z) (a : answer) : res (bytes * list string) :=
  s ← zlookup slots i;
  m ← strncpy s (c_max_buf_size arg);
  '(_, out) ← read_answer (c_max_buf_size arg) a;
  Ok (m, (if Z.rem i 100000 =? 0 then ["count = " +:+ pretty i] else []) ++ errno_line (wrote a) ++ out).

(** After the loop. [shows]: [client_load.c] prints the last answer in any case. *)
Definition session_end (phase : string) (shows : bool) (n : Z) (a : answer) : res (list string) :=
  '(b, out) ← read_answer n a;
  shown ← (if shows then s ← cstr b; Ok [String.string_of_list_byte s] else Ok []);
  ex ← strncmp_eq b (str "EXIT") 4;
  bye ← (if (ex : bool) then s ← cstr b; Ok ["Exit message: " +:+ String.string_of_list_byte s] else Ok []);
  Ok ([phase +:+ " COMPLETE"] ++ errno_line (wrote a) ++ shown ++ out ++ bye).

(** [answers i] belongs to the request [i], the last one to the final message. *)
Definition session (phase last : string) (shows : bool) (arg : cArg) (t : trace) (thread_id : Z)
  (connected : bool) (answers : Z → answer) : res (list bytes * list string) :=
  if connected then
    slots ← zlookup (inst t) thread_id;
    slice ← zdiv (inst_size arg) (c_num_threads arg);
    '(ms, out) ← foldr (λ i r, '(ms, out) ← (r : res (list bytes * list string));
                        '(m, o) ← session_request arg slots i (answers i); Ok (m :: ms, o ++ out))
                   (Ok ([], [])) (seqZ 0 slice);
    fin ← session_end phase shows (c_max_buf_size arg) (answers slice);
    Ok (ms ++ [str last ++ [NUL]], ["thread_id = " +:+ pretty thread_id] ++ out ++ fin)
  else Fault Exited.

Module Load.
Definition session := session "LOAD" "LOADDONE" true.
End Load.

Module Run.
Definition session := session "RUN" "EXIT" false.
End Run.

(** ** A thread sends its slice *)

(** The bytes are a string within the buffer. *)
Definition answer_ok (n : Z) (a : answer) : Prop :=
  match got a with None => 0 < n | Some d => NUL ∈ take (Z.to_nat n) d ∨ blen d < n end.

Lemma cstr_in b : NUL ∈ b → ∃ s, cstr b = Ok s.
Proof.
  unfold cstr. induction b as [|c b IH]; intros Hin; simpl; [by apply elem_of_nil in Hin|].
  case_bool_decide as Hc; [by eexists|].
  apply elem_of_cons in Hin as [?|Hin]; [congruence|].
  destruct (IH Hin) as [s Hs]. destruct (cstr_opt b); simpl; [by eexists|done].
Qed.

Lemma strncmp_eq_in b lit n : NUL ∈ b → ∃ r, strncmp_eq b lit n = Ok r.
Proof.
  revert b lit. induction n as [|n IH]; intros b lit Hin; simpl; [by eexists|].
  destruct b as [|c b]; [by apply elem_of_nil in Hin|]. destruct lit as [|d lit]; [by eexists|].
  case_bool_decide; [|by eexists]. case_bool_decide; [by eexists|].
  apply elem_of_cons in Hin as [?|Hin]; [congruence|]. by apply IH.
Qed.

(** An answer never leaves its buffer. *)
Lemma read_answer_ok n a : 0 ≤ n → ∃ b out, read_answer n a = Ok (b, out) ∧ (answer_ok n a → NUL ∈ b).
Proof.
  intros Hn. unfold read_answer, answer_ok, zalloc, mbind, res_bind. rewrite (proj2 (Z.ltb_ge _ _)) by done.
  destruct (got a) as [d|].
  - set (x := take (Z.to_nat n) d).
    assert (blen x ≤ n) as Hx by (unfold x, blen; rewrite length_take; lia).
    unfold write_at. rewrite blen_zeros by done. rewrite (proj2 (Z.leb_le (0 + blen x) n)) by lia. simpl.
    eexists _, _. split; [done|]. intros [Hin|Hlt]; rewrite elem_of_app; [by left|right].
    assert (blen x < n) by (unfold x, blen in *; rewrite length_take; lia).
    unfold zeros. rewrite drop_replicate. apply elem_of_replicate. unfold blen in *. split; [done|lia].
  - eexists _, _. split; [done|]. intros ?. apply elem_of_replicate. split; [done|lia].
Qed.

Lemma session_end_ok phase shows n a :
  0 ≤ n → answer_ok n a → ∃ out, session_end phase shows n a = Ok out.
Proof.
  intros Hn Ha. destruct (read_answer_ok n a Hn) as (b & out & Hr & Hb). specialize (Hb Ha).
  destruct (cstr_in b Hb) as [s Hs], (strncmp_eq_in b (str "EXIT") 4 Hb) as [ex Hex].
  unfold session_end, mbind, res_bind. rewrite Hr, Hex.
  destruct shows; rewrite ?Hs; destruct ex; rewrite ?Hs; by eexists.
Qed.

(** A thread that can connect sends the messages of [client_worker], whatever it is answered
    before the end. *)
Lemma session_sends phase last shows arg t thread_id answers ms :
  0 ≤ c_max_buf_size arg →
  (∀ slice, zdiv (inst_size arg) (c_num_threads arg) = Ok slice → answer_ok (c_max_buf_size arg) (answers slice)) →
  client_worker last arg t thread_id = Ok ms →
  ∃ out, session phase last shows arg t thread_id true answers = Ok (ms, out).
Proof.
  intros Hn Ha. unfold client_worker, session, mbind, res_bind.
  destruct (zlookup (inst t) thread_id) as [slots|]; [|done].
  destruct (zdiv _ _) as [slice|]; [|done]. specialize (Ha slice eq_refl).
  generalize (seqZ 0 slice) as js.
  assert (∀ js l,
    foldr (λ i r, match r with Ok ms => match zlookup slots i with
        | Ok s => match strncpy s (c_max_buf_size arg) with Ok x => Ok (x :: ms) | Fault f => Fault f end
        | Fault f => Fault f end | Fault f => Fault f end) (Ok []) js = Ok l →
    ∃ out, foldr (λ i r, match (r : res (list bytes * list string)) with Ok (ms, out) =>
        match session_request arg slots i (answers i) with Ok (m, o) => Ok (m :: ms, o ++ out) | Fault f => Fault f end
        | Fault f => Fault f end) (Ok ([], [])) js = Ok (l, out)) as Hloop.
  { induction js as [|j js IH]; intros l; cbn [foldr]; [intros [= <-]; by eexists|].
    destruct (foldr _ (Ok []) js) as [l'|]; [|done]. destruct (IH l' eq_refl) as [out ->].
    unfold session_request, mbind, res_bind.
    destruct (zlookup slots j) as [s|]; [|done]. destruct (strncpy s _) as [x|]; [|done]. intros [= <-].
    destruct (read_answer_ok _ (answers j) Hn) as (b & o & -> & _). by eexists. }
  intros js. destruct (foldr _ (Ok []) js) as [l|] eqn:E; [|done]. intros [= <-].
  destruct (Hloop js l E) as [out ->].
  destruct (session_end_ok phase shows _ _ Hn Ha) as [fin ->]. by eexists.
Qed.
