(* ===== verification/Wire.v ===== *)
(** * Requests on the wire

    What the clients send is what the enclave parses: a line of a trace in the format of
    the YCSB conversion, [SET key value], [GET key] or [APP key value], padded to the size
    of the buffer, encodes the request. *)

From S2P Require Import Prelude CString CLib Common Hash Core Enclave Rep EnclaveProofs Service.
From S2P Require Import EnclaveService Client ClientProofs.

(** The line of a trace for a request. *)
Definition line_of (r : request) : bytes :=
  match r with
  | RGet k => str "GET " ++ k
  | RSet k v => str "SET " ++ k ++ SPACE :: v
  | RApp k v => str "APP " ++ k ++ SPACE :: v
  end.

(** Keys and values that survive the format. *)
Definition key_fits (k : bytes) : Prop := k ≠ [] ∧ nonul k ∧ nospace k.
Definition wire_ok (n : Z) (r : request) : Prop :=
  blen (line_of r) < n ∧
  match r with RGet k => key_fits k | RSet k v | RApp k v => key_fits k ∧ nonul v end.

#[global] Instance key_fits_dec k : Decision (key_fits k).
Proof. unfold key_fits, nonul, nospace. apply _. Defined.
#[global] Instance wire_ok_dec n r : Decision (wire_ok n r).
Proof. unfold wire_ok, nonul. destruct r; apply _. Defined.

(** The buffer of a request. *)
Definition wire (n : Z) (r : request) : bytes := padded n (line_of r).

Lemma padded_nul n l : blen l < n → padded n l = l ++ NUL :: zeros (n - blen l - 1).
Proof. intros Hl. unfold padded. rewrite <-(zeros_cons (n - blen l)) by lia. done. Qed.

Lemma wire_len n r : wire_ok n r → blen (wire n r) = n.
Proof. intros [Hl _]. unfold wire, padded. rewrite blen_app, blen_zeros by lia. lia. Qed.

Lemma set_request_line pre k v n :
  blen (str pre) = 4 → key_fits k → nonul v → blen (str pre ++ k ++ SPACE :: v) < n →
  set_request (padded n (str pre ++ k ++ SPACE :: v)) k v.
Proof.
  intros Hp (Hne & Hk & Hs) Hv Hl. exists (str pre), [], (zeros (n - blen (str pre ++ k ++ SPACE :: v) - 1)).
  rewrite padded_nul by done. split; [|done]. rewrite <-!app_assoc. done.
Qed.

Lemma wire_encodes n r : wire_ok n r → encodes (wire n r) r.
Proof.
  intros [Hl Hr]. destruct r as [k|k v|k v]; unfold wire; cbn [encodes line_of] in *.
  - split; [eexists; left; unfold padded; by rewrite <-!app_assoc|]. destruct Hr as (Hne & Hk & Hs).
    exists (str "GET "), [], NUL, (zeros (n - blen (str "GET " ++ k) - 1)).
    rewrite padded_nul by done. rewrite <-!app_assoc. split; [done|]. split; [by left|done].
  - destruct Hr as [Hk Hv]. split; [eexists; left; unfold padded; by rewrite <-!app_assoc|].
    by apply set_request_line.
  - destruct Hr as [Hk Hv]. split; [eexists; left; unfold padded; by rewrite <-!app_assoc|].
    by apply set_request_line.
Qed.
