(* ===== verification/ClientClaims.v ===== *)
(** * Theorems on the clients

    The trace is shared out to the threads without loss, what is sent is what the enclave
    parses, and the limits the options and the trace do not check. *)

From S2P Require Import Prelude CString CLib Common Hash Core Enclave Rep EnclaveProofs Service.
From S2P Require Import EnclaveService Client ClientProofs Wire.

Section trace.
Context (arg : cArg) (t slice extra : nat).
Context (Hsize : inst_size arg = Z.of_nat (t * slice + extra)) (Hthr : c_num_threads arg = Z.of_nat t).
Context (Ht : (0 < t)%nat) (Hslice : (0 < slice)%nat) (Hextra : (extra < t)%nat).

Lemma lines_sent lines rest last :
  extra = 0%nat → length lines = (t * slice)%nat → Forall (line_ok (c_max_buf_size arg)) lines →
  ∃ tr, file_to_memory arg (file_of lines ++ rest) = Ok tr ∧
    (∀ i, (i < t)%nat → client_worker last arg tr (Z.of_nat i) =
       Ok ((padded (c_max_buf_size arg) <$> take slice (drop (i * slice) lines)) ++ [str last ++ [NUL]])) ∧
    concat ((λ i, take slice (drop (i * slice) lines)) <$> seq 0 t) = lines.
Proof.
  intros He Hlen Hl. rewrite He, Nat.add_0_r in *.
  assert (length lines = (t * slice + 0)%nat) as Hlen' by lia.
  eexists. split; [|split].
  - refine (file_to_memory_ok arg lines slice t 0 _ Hthr Ht Hslice _ Hlen' Hl rest eq_refl); [|lia].
    by rewrite Nat.add_0_r.
  - intros i Hi. refine (client_worker_ok arg lines slice t 0 _ Hthr Ht Hslice _ Hlen' Hl last i rest Hi); [|lia].
    by rewrite Nat.add_0_r.
  - by apply (slices_concat lines slice t 0).
Qed.

(** Every line of the trace is sent once, in order.  If the number of operations is a
    multiple of the number of threads, [file_to_memory] reads the trace without a fault,
    thread [i] sends the lines of the [i]-th slice padded with zeros to the buffer size,
    then its final message, and the slices together are the trace. *)
Theorem every_line_is_sent lines rest last :
  extra = 0%nat → length lines = (t * slice)%nat → Forall (line_ok (c_max_buf_size arg)) lines →
  ∃ tr, file_to_memory arg (file_of lines ++ rest) = Ok tr ∧
    (∀ i, (i < t)%nat → client_worker last arg tr (Z.of_nat i) =
       Ok ((padded (c_max_buf_size arg) <$> take slice (drop (i * slice) lines)) ++ [str last ++ [NUL]])) ∧
    concat ((λ i, take slice (drop (i * slice) lines)) <$> seq 0 t) = lines.
Proof. apply lines_sent. Qed.

(** A request whose line is one line of a trace file. *)
Definition trace_ok (n : Z) (r : request) : Prop := wire_ok n r ∧ line_ok n (line_of r).

(** C23. What the clients send is what the enclave parses.  If the trace is one of requests in
    the format of the workloads, with keys without spaces, short enough for the buffer,
    every message a thread sends before its final one has the size of the buffer and
    encodes the request of its line, so the theorems on the store apply to it. *)
Theorem client_messages_are_requests rs rest last :
  extra = 0%nat → length rs = (t * slice)%nat → Forall (trace_ok (c_max_buf_size arg)) rs →
  ∃ tr, file_to_memory arg (file_of (line_of <$> rs) ++ rest) = Ok tr ∧
    ∀ i, (i < t)%nat → ∃ msgs, client_worker last arg tr (Z.of_nat i) = Ok (msgs ++ [str last ++ [NUL]]) ∧
      Forall2 encodes msgs (take slice (drop (i * slice) rs)) ∧ Forall (λ m, blen m = c_max_buf_size arg) msgs.
Proof.
  intros He Hlen Hrs.
  destruct (lines_sent (line_of <$> rs) rest last He) as (tr & Htr & Hw & _).
  - by rewrite length_fmap.
  - apply Forall_fmap. eapply Forall_impl; [done|]. by intros r [_ H].
  - exists tr. split; [done|]. intros i Hi. specialize (Hw i Hi). rewrite <-fmap_drop, <-fmap_take in Hw.
    set (l := take slice (drop (i * slice) rs)) in *.
    assert (Forall (trace_ok (c_max_buf_size arg)) l) as Hl by (apply Forall_take, Forall_drop, Hrs).
    eexists. split; [exact Hw|]. rewrite <-list_fmap_compose. split.
    + apply Forall2_fmap_l, Forall_Forall2_diag. eapply Forall_impl; [done|]. intros r [H _]. by apply wire_encodes.
    + apply Forall_fmap. eapply Forall_impl; [done|]. intros r [H _]. by apply wire_len.
Qed.

(** C29. An uneven trace overflows the slices.  If the number of operations is not a multiple of
    the number of threads, the lines after the last full slice belong to a thread number
    that does not exist, and reading the trace writes out of bounds. *)
Theorem uneven_trace_overflows lines rest :
  (0 < extra)%nat → length lines = (t * slice + extra)%nat → Forall (line_ok (c_max_buf_size arg)) lines →
  file_to_memory arg (file_of lines ++ rest) = Fault Out_of_bounds.
Proof.
  intros He Hlen Hl. exact (file_to_memory_oob arg lines slice t extra Hsize Hthr Ht Hslice Hextra Hlen Hl rest He).
Qed.
End trace.

(** The address option is copied without its end and without a bound.  The copy of [-i]
    overwrites a prefix of the 12 bytes of the default address 127.0.0.1: a shorter address
    keeps the tail of the previous one, and an address of more than 12 characters is
    written out of bounds. *)
Theorem address_option_is_cut_badly arg ip :
  blen (ipaddr arg) = MAX_IP_ADDR →
  if bool_decide (blen ip ≤ MAX_IP_ADDR)
  then ∃ arg', client_option arg (x69, ip) = Ok arg' ∧ ipaddr arg' = ip ++ drop (length ip) (ipaddr arg)
  else client_option arg (x69, ip) = Fault Out_of_bounds.
Proof.
  intros Hlen. unfold client_option, memcpy, mbind, res_bind. rewrite read_at_all by done.
  unfold write_at. rewrite Hlen. case_bool_decide as Hb.
  - destruct (Z.leb_spec (0 + blen ip) MAX_IP_ADDR); [|lia]. eexists. split; [done|]. simpl.
    unfold blen. by replace (Z.to_nat (0 + Z.of_nat (length ip))) with (length ip) by lia.
  - destruct (Z.leb_spec (0 + blen ip) MAX_IP_ADDR); [lia|done].
Qed.

(** ** Two threads and a trace of four requests *)
Definition demo_client : cArg :=
  mkCArg (str "127.0.0.1" ++ zeros 3) 1234 2 16 16 64 4 x61.
Definition demo_trace : list request :=
  [RSet (str "user1") (str "one"); RSet (str "user2") (str "two"); RGet (str "user1"); RApp (str "user2") (str "!")].

Lemma demo_trace_ok : Forall (trace_ok 64) demo_trace.
Proof. repeat constructor; by_compute. Qed.
Lemma demo_lines_ok : Forall (line_ok 64) (line_of <$> demo_trace).
Proof. apply Forall_fmap. eapply Forall_impl; [apply demo_trace_ok|]. by intros r [_ H]. Qed.

Lemma every_line_is_sent_witness :
  ∃ tr, file_to_memory demo_client (file_of (line_of <$> demo_trace) ++ []) = Ok tr ∧
    (∀ i, (i < 2)%nat → client_worker "LOADDONE" demo_client tr (Z.of_nat i) =
       Ok ((padded 64 <$> take 2 (drop (i * 2) (line_of <$> demo_trace))) ++ [str "LOADDONE" ++ [NUL]])) ∧
    concat ((λ i, take 2 (drop (i * 2) (line_of <$> demo_trace))) <$> seq 0 2) = line_of <$> demo_trace.
Proof. apply (every_line_is_sent demo_client 2 2 0); [done|done|lia|lia|lia|done|done|apply demo_lines_ok]. Defined.

Lemma client_messages_are_requests_witness :
  ∃ tr, file_to_memory demo_client (file_of (line_of <$> demo_trace) ++ []) = Ok tr ∧
    ∀ i, (i < 2)%nat → ∃ msgs, client_worker "EXIT" demo_client tr (Z.of_nat i) = Ok (msgs ++ [str "EXIT" ++ [NUL]]) ∧
      Forall2 encodes msgs (take 2 (drop (i * 2) demo_trace)) ∧ Forall (λ m, blen m = 64) msgs.
Proof. apply (client_messages_are_requests demo_client 2 2 0); [done|done|lia|lia|lia|done|done|apply demo_trace_ok]. Defined.

(** Three threads for four requests. *)
Definition demo_uneven : cArg := mkCArg (str "127.0.0.1" ++ zeros 3) 1234 3 16 16 64 4 x61.

Lemma uneven_trace_overflows_witness :
  file_to_memory demo_uneven (file_of (line_of <$> demo_trace) ++ []) = Fault Out_of_bounds.
Proof. apply (uneven_trace_overflows demo_uneven 3 1 1); [done|done|lia|lia|lia|lia|done|apply demo_lines_ok]. Defined.

(** [-i 10.0.0.1] over the default address. *)
Lemma address_option_is_cut_badly_witness :
  ∃ arg', client_option client_configuration_init (x69, str "10.0.0.1") = Ok arg' ∧
    cstr (ipaddr arg') = Ok (str "10.0.0.11").
Proof.
  destruct (address_option_is_cut_badly client_configuration_init (str "10.0.0.1") eq_refl) as (arg' & Hopt & Hip).
  exists arg'. split; [exact Hopt|]. rewrite Hip. reflexivity.
Defined.
