(* ===== verification/Demo.v ===== *)
(** * A small store to run

    A configuration with eight buckets, four roots and two workers on the platform of
    [ToyPlatform], for the theorems to be applied at. *)

From S2P Require Import Prelude CString CLib Common Hash Core HashTable Enclave ToyPlatform Rep.
From S2P Require Import CoreProofs HashTableProofs StoreProofs.
From S2P Require Import EnclaveProofs Service EnclaveService Dispatch Server ServerProofs Client.
From S2P Require Import ClientProofs Wire.

Lemma toy_outside : outside_ok.
Proof. by left. Qed.

(** The two optimisations are options; [buckets] and [roots] the sizes of the table. *)
Definition demo_arg (ko mo : bool) (buckets roots threads : Z) : Arg :=
  {| port_num := 1234; num_threads := threads; max_buf_size := 64; bucket_size := buckets;
     tree_root_size := roots; key_opt := ko; mac_opt := mo |}.

Definition demo_ht (buckets : Z) : hashtable := mkHashtable buckets (replicate (Z.to_nat buckets) None).
Definition demo_bufs (buckets : Z) : list MACentry := macbuffer_create (λ _, zeros 480) buckets.

Definition demo_init (ko mo : bool) (buckets roots threads : Z) : enclave :=
  mkEnclave (demo_ht buckets) ∅ (demo_bufs buckets) (replicate (Z.to_nat roots) (zeros MAC_SIZE))
    (demo_arg ko mo buckets roots threads) (buckets / roots) 0 [].

Lemma demo_holds {P : Platform} {Hok : PlatformOk} ko mo buckets roots threads :
  1 ≤ buckets ≤ INT_MAX → 0 < roots → buckets `mod` roots = 0 →
  holds (demo_init ko mo buckets roots threads) ∅.
Proof.
  intros Hb Hr Hmod. apply (init_holds (demo_arg ko mo buckets roots threads) true true (λ _, zeros 480) (demo_ht buckets)).
  - unfold ht_create. simpl. destruct (Z.ltb_spec buckets 1); [lia|]. done.
  - simpl. lia.
  - done.
  - done.
  - intros _. done.
  - unfold enclave_init_values, demo_init. simpl. unfold zdiv. destruct (Z.eqb_spec roots 0); [lia|].
    simpl. unfold zdiv. rewrite Z.quot_div_nonneg by lia. done.
Qed.

(** The state after some requests. *)
Definition demo_run (s : enclave) (rs : list request) : option enclave :=
  match kv_run (wire 64 <$> rs) s with Ok (_, s') => Some s' | Fault _ => None end.

(** ** Requests that are within the limits *)
Definition withinb `{Platform} (arg : Arg) (size : Z) (m : kvmap) (r : request) : bool :=
  match r with
  | RGet k => match m !! k with Some v => blen v + 1 <=? max_buf_size arg | None => true end
  | RSet k v =>
      match m !! k with
      | Some _ => true
      | None =>
          (MAC_SIZE * (Z.of_nat (base.size m) + 1) <=? INT_MAX) &&
          (negb (mac_opt arg) || (blen (keys_in size (bucket_of size k) m) <? MAC_SLOTS)) &&
          (NDEBUG || bool_decide (keys_in size (bucket_of size k) m = []))
      end
  | RApp k v =>
      match m !! k with
      | Some v0 =>
          (blen k + blen v0 + blen v + 27 <=? INT_MAX) &&
          (negb (mac_opt arg) || bool_decide (keys_in size (bucket_of size k) m = [k]))
      | None => true
      end
  end.

Lemma withinb_ok `{Platform} arg size m r : withinb arg size m r = true → within arg size m r.
Proof.
  destruct r as [k|k v|k v]; simpl.
  - destruct (m !! k) as [v|]; [|done]. intros H%Z.leb_le v' [= <-]. done.
  - destruct (m !! k) as [v0|]; [done|]. intros [[H1%Z.leb_le H2]%andb_true_iff H3]%andb_true_iff _.
    split; [split; [done|]|].
    + intros Ho. rewrite Ho in H2. simpl in H2. by apply Z.ltb_lt.
    + intros Hd. rewrite Hd in H3. simpl in H3. by apply bool_decide_eq_true in H3.
  - destruct (m !! k) as [v0|]; [|done]. intros [H1%Z.leb_le H2]%andb_true_iff v' [= <-]. split; [done|].
    intros Ho. rewrite Ho in H2. simpl in H2. by apply bool_decide_eq_true in H2.
Qed.

Definition admitsb (s : enclave) (m : kvmap) (r : request) : bool :=
  (max_buf_size (arg_enclave s) =? 64) && bool_decide (wire_ok 64 r) &&
  withinb (arg_enclave s) (ht_size (ht_enclave s)) m r.

Lemma admitsb_ok s m r : admitsb s m r = true → kv_admits s m (wire 64 r) r.
Proof.
  intros [[Hn%Z.eqb_eq Hw%bool_decide_eq_true]%andb_true_iff Hin]%andb_true_iff.
  split; [|by apply withinb_ok]. by split; rewrite wire_len by done.
Qed.

Fixpoint admits_run (s : enclave) (m : kvmap) (rs : list request) : bool :=
  match rs with
  | [] => true
  | r :: rs' =>
      admitsb s m r &&
      match worker_job (wire 64 r) s with
      | Ok (_, s') => admits_run s' (fst (spec_step m r)) rs'
      | Fault _ => false
      end
  end.

Lemma admits_run_ok s m rs : admits_run s m rs = true → kv_admits_all s m (wire 64 <$> rs) rs.
Proof.
  revert s m. induction rs as [|r rs IH]; intros s m; [done|].
  cbn [admits_run fmap list_fmap kv_admits_all]. intros [H1 H2]%andb_true_iff. split.
  { unfold admitsb in H1. apply andb_true_iff in H1 as [[_ Hw%bool_decide_eq_true]%andb_true_iff _]. by apply wire_encodes. }
  split; [by apply admitsb_ok|].
  intros v s' Hrun. simpl in Hrun. rewrite Hrun in H2. by apply IH.
Qed.

(** A run from a store that holds a map leads to a store that holds the map of the run. *)
Lemma demo_run_holds s m rs s' :
  holds s m → admits_run s m rs = true → demo_run s rs = Some s' → holds s' (spec_run m rs).
Proof.
  intros Hm Hadm Hrun. pose proof (enclave_service_ok toy_outside toy_mem_avail) as Hok.
  destruct (kv_run_refines (St := enclave) (KvService0 := enclave_service) s m (wire 64 <$> rs) rs Hm (admits_run_ok s m rs Hadm)) as (vs & s1 & Hr & Hrep & _).
  unfold demo_run in Hrun. rewrite Hr in Hrun. injection Hrun as <-. exact Hrep.
Qed.

(** The state of a run from the empty store. *)
Definition demo_state (ko mo : bool) (buckets roots threads : Z) (rs : list request) : enclave :=
  default (demo_init ko mo buckets roots threads) (demo_run (demo_init ko mo buckets roots threads) rs).

Definition runs (ko mo : bool) (buckets roots threads : Z) (rs : list request) : Prop :=
  1 ≤ buckets ≤ INT_MAX ∧ 0 < roots ∧ buckets `mod` roots = 0 ∧
  admits_run (demo_init ko mo buckets roots threads) ∅ rs = true ∧
  is_Some (demo_run (demo_init ko mo buckets roots threads) rs).

Lemma demo_state_holds ko mo buckets roots threads rs :
  runs ko mo buckets roots threads rs → holds (demo_state ko mo buckets roots threads rs) (spec_run ∅ rs).
Proof.
  intros (H1 & H2 & H3 & H5 & s' & H6). unfold demo_state. rewrite H6. simpl.
  eapply demo_run_holds; [by apply demo_holds|done|done].
Qed.


(** A key of the store and its entry. *)
Lemma demo_cell s m k v :
  holds s m → m !! k = Some v →
  ∃ B b1 c b2, inv s B ∧ abs B = m ∧ B !! bin_of s k = Some (b1 ++ c :: b2) ∧ c_key c = k ∧ entry_ok k v (c_ent c).
Proof.
  intros (B & Hinv & <-) Hk. destruct (shape_lookup s B k v (inv_shape _ _ Hinv) Hk) as (b1 & c & b2 & Hb & Hck & _ & He).
  by exists B, b1, c, b2.
Qed.

Definition demo_requests : list request :=
  [RSet (str "alpha") (str "1"); RSet (str "beta") (str "22"); RSet (str "gamma") (str "333");
   RSet (str "alpha") (str "4444")].

Lemma demo_runs ko mo : runs ko mo 8 4 2 demo_requests.
Proof.
  split; [done|]. split; [done|]. split; [done|].
  split; [by destruct ko, mo; vm_compute|]. destruct ko, mo; vm_compute; eauto.
Qed.

(** A request to the small store is parsed and fits its buffer. *)
Lemma demo_request ko mo b r t rs q :
  wire_ok 64 q → (∃ s', demo_run (demo_init ko mo b r t) rs = Some s' ∧ max_buf_size (arg_enclave s') = 64) →
  encodes (wire 64 q) q ∧ buffer_ok (demo_state ko mo b r t rs) (wire 64 q).
Proof.
  intros Hq (s' & Hs & Hn). split; [by apply wire_encodes|]. unfold demo_state. rewrite Hs. simpl.
  split; rewrite wire_len by done; [by rewrite Hn|done].
Qed.

(** The same platform without memory for new entries. *)
Definition poor_platform : Platform := {|
  sgx_aes_ctr_encrypt := toy_ctr;
  sgx_aes_ctr_decrypt := toy_ctr;
  sgx_rijndael128_cmac_msg := toy_cmac;
  sgx_read_rand := λ call n, replicate (Z.to_nat n) (byte_of_Z (Z.of_nat call + 1));
  sgx_is_outside_enclave := λ _ _, true;
  ocall_tc_malloc := λ _ _, None;
  ocall_tc_realloc := λ _ _ _, false;
  NDEBUG := true;
  sys_write := λ _, 1;
|}.

Lemma poor_platform_ok : @PlatformOk poor_platform.
Proof.
  destruct toy_platform_ok as [H1 H2 H3 H4 _]. by split.
Qed.

(** The stores are evaluated by [vm_compute] only. *)
#[global] Opaque demo_state.
