(* ===== verification/StoreClaims.v ===== *)
(** * Theorems on the request handlers

    The enclave as a key-value store: its jobs refine a finite map, job by job and over
    runs; what the capacities and the options of the build change. *)

From S2P Require Import Prelude CString CLib Common Hash Core HashTable Enclave Config.
From S2P Require Import ToyPlatform Rep CoreProofs RootProofs HashTableProofs StoreProofs.
From S2P Require Import EnclaveProofs AppendProofs Service EnclaveService Client ClientProofs.
From S2P Require Import Wire Demo.

(** ** The store is a map *)

(** A request that leaves the value of the key alone. *)
Definition keeps_key (k : bytes) (r : request) : Prop :=
  match r with RGet _ => True | RSet k' _ | RApp k' _ => k' ≠ k end.
#[global] Instance keeps_key_dec k r : Decision (keeps_key k r).
Proof. destruct r; simpl; apply _. Defined.

Lemma spec_run_keeps m k v rs : m !! k = Some v → Forall (keeps_key k) rs → spec_run m rs !! k = Some v.
Proof.
  unfold spec_run. revert m. induction rs as [|r rs IH]; intros m Hm; [done|].
  intros [Hr Hrs]%Forall_cons. apply IH; [|done].
  destruct r as [k'|k' v'|k' v']; simpl in *; [done| |destruct (m !! k')]; simpl; by rewrite ?lookup_insert_ne.
Qed.

Lemma spec_answers_last n m vs rs r :
  spec_answers n m vs (rs ++ [r]) →
  ∃ vs1 buf, vs = vs1 ++ [Reply buf] ∧ answers n buf (snd (spec_step (spec_run m rs) r)).
Proof.
  revert m vs. induction rs as [|q rs IH]; intros m vs.
  - destruct vs as [|[buf| |] [|v vs]]; simpl; try naive_solver.
    + intros [Hb _]. by exists [], buf.
    + intros [_ Hv]. by destruct v.
  - destruct vs as [|[buf| |] vs]; simpl; try done. intros [_ Hr].
    destruct (IH _ _ Hr) as (vs1 & buf' & -> & Ha). by exists (Reply buf :: vs1), buf'.
Qed.

Section store.
Context `{Platform} `{!PlatformOk} (Hside : outside_ok) (Hmem : ∀ s, mem_avail s).

Lemma run_refines s m cs rs :
  holds s m → kv_admits_all s m cs rs →
  ∃ vs s', kv_run cs s = Ok (vs, s') ∧ holds s' (spec_run m rs) ∧
    spec_answers (max_buf_size (arg_enclave s)) m vs rs.
Proof.
  intros Hm Hadm. pose proof (enclave_service_ok Hside Hmem) as Hok.
  destruct (kv_run_refines (St := enclave) (KvService0 := enclave_service) s m cs rs Hm Hadm)
    as (vs & s' & Hrun & Hrep & _ & Hans). by exists vs, s'.
Qed.

(** C1. The enclave refines a finite map.  From a state that represents the map [m], with
    entries encrypted in untrusted memory and roots over their MACs, a worker answers any
    sequence of GET, SET and APPEND requests that are within the capacities, and in a
    build with assertions put no second key into a bucket, without a fault: every answer is the one of the map, and the state after the run represents the
    map after the run. *)
Theorem store_refines_map s m cs rs :
  holds s m → kv_admits_all s m cs rs →
  ∃ vs s', kv_run cs s = Ok (vs, s') ∧ holds s' (spec_run m rs) ∧
    spec_answers (max_buf_size (arg_enclave s)) m vs rs.
Proof. apply run_refines. Qed.

(** C2. Reads return the last write: after a SET of a key and any requests that do not
    write the key, a GET of the key answers with exactly the value that was set,
    NUL-terminated and padded to the size of the buffer. *)
Theorem get_returns_last_set s m c1 k v cs rs c2 :
  holds s m → kv_admits_all s m (c1 :: cs ++ [c2]) (RSet k v :: rs ++ [RGet k]) →
  Forall (keeps_key k) rs →
  ∃ vs s', kv_run (c1 :: cs ++ [c2]) s =
    Ok (vs ++ [Reply (dup_str v ++ zeros (max_buf_size (arg_enclave s) - (blen v + 1)))], s').
Proof.
  intros Hm Hadm Hk. destruct (run_refines _ _ _ _ Hm Hadm) as (vs & s' & Hrun & _ & Hans).
  rewrite app_comm_cons in Hans. destruct (spec_answers_last _ _ _ (RSet k v :: rs) _ Hans) as (vs1 & buf & -> & Ha).
  exists vs1, s'. rewrite Hrun. do 4 f_equal. rewrite (Ha v), dup_str_len; [done|].
  unfold spec_run. simpl. apply (spec_run_keeps (<[k := v]> m)); [by rewrite lookup_insert_eq|done].
Qed.

(** C14. GET on every branch: the value of a present key is sent back and nothing in the
    state changes; a missing key is reported on the console, nothing else changes, and what goes
    back is the buffer of the request itself, in which only the byte after the key has become
    a NUL. *)
Theorem get_job s m cipher k :
  holds s m → has_cmd cipher "GET" "get" → get_request cipher k → buffer_ok s cipher →
  within (arg_enclave s) (ht_size (ht_enclave s)) m (RGet k) →
  match m !! k with
  | Some v => worker_job cipher s =
      Ok (Reply (dup_str v ++ zeros (max_buf_size (arg_enclave s) - (blen v + 1))), s)
  | None => ∃ buf, key_cut cipher k buf ∧
      worker_job cipher s = Ok (Reply buf, add_out "GET FAILED: No data in database" s)
  end.
Proof.
  intros Hm Hcmd Hreq Hbuf Hw. destruct (holds_get Hside s m cipher k Hm Hreq Hbuf Hw)
    as (buf & s' & Hrun & _ & Hlen & Hans & Hcut & ->). rewrite worker_job_get by done.
  destruct (m !! k) as [v|]; [|by exists buf; split; [apply Hcut|apply fmap_run]].
  rewrite (fmap_run _ _ _ _ _ Hrun), (Hans v eq_refl), dup_str_len. done.
Qed.

(** C13. SET on both branches: whether the key is present (the entry is decrypted, checked,
    resized and encrypted again in place) or not (a new entry is pushed to its bucket),
    the key is sent back and the state represents the map with the new binding. *)
Theorem set_job s m cipher k v :
  holds s m → has_cmd cipher "SET" "set" → set_request cipher k v → buffer_ok s cipher →
  within (arg_enclave s) (ht_size (ht_enclave s)) m (RSet k v) →
  ∃ s', worker_job cipher s =
      Ok (Reply (dup_str k ++ zeros (max_buf_size (arg_enclave s) - (blen k + 1))), s') ∧
    holds s' (<[k := v]> m) ∧ out s' = out s.
Proof.
  intros Hm Hcmd Hreq Hbuf Hw. destruct (holds_set Hside Hmem s m cipher k v Hm Hreq Hbuf Hw)
    as (s' & Hrun & Hm' & _ & Hout). exists s'. rewrite worker_job_set by done.
  rewrite (fmap_run _ _ _ _ _ Hrun). unfold reply. by rewrite dup_str_len.
Qed.

(** C15. APPEND on both branches: the value of a present key becomes the concatenation and
    the key is sent back; for a missing key nothing is stored and the console gets a
    message. *)
Theorem append_job s m cipher k v :
  holds s m → has_cmd cipher "APP" "app" → set_request cipher k v → buffer_ok s cipher →
  within (arg_enclave s) (ht_size (ht_enclave s)) m (RApp k v) →
  ∃ buf s', worker_job cipher s = Ok (Reply buf, s') ∧ blen buf = max_buf_size (arg_enclave s) ∧
    match m !! k with
    | Some v0 => buf = dup_str k ++ zeros (max_buf_size (arg_enclave s) - (blen k + 1)) ∧
        holds s' (<[k := v0 ++ v]> m) ∧ out s' = out s
    | None => holds s' m ∧ out s' = out s ++ ["There's no data in the database"]
    end.
Proof.
  intros Hm Hcmd Hreq Hbuf Hw. destruct (holds_append Hside Hmem s m cipher k v Hm Hreq Hbuf Hw)
    as (buf & s' & Hrun & Hm' & Hlen & Hans & Hout). exists buf, s'. rewrite worker_job_app by done.
  rewrite (fmap_run _ _ _ _ _ Hrun). split; [done|]. split; [done|]. simpl in Hm', Hans.
  destruct (m !! k) as [v0|]; [|done]. split; [|done]. by rewrite (Hans k eq_refl), dup_str_len.
Qed.
End store.

(** ** Runs of a small store *)

(** Requests on the store of [demo_requests], in which alpha is 4444, beta 22, gamma 333. *)
Definition demo_more : list request :=
  [RGet (str "beta"); RApp (str "alpha") (str "56"); RGet (str "delta"); RSet (str "delta") (str "9");
   RApp (str "omega") (str "1"); RGet (str "alpha")].

Abbreviation demo := (demo_state true false 8 4 2 demo_requests).
Abbreviation demo_map := (spec_run ∅ demo_requests).

Lemma demo_ok : holds demo demo_map.
Proof. apply demo_state_holds, demo_runs. Qed.

Lemma store_refines_map_witness :
  (∃ vs s', kv_run (wire 64 <$> demo_more) demo = Ok (vs, s') ∧ holds s' (spec_run demo_map demo_more) ∧
    spec_answers 64 demo_map vs demo_more) ∧
  spec_run demo_map demo_more !! str "alpha" = Some (str "444456").
Proof.
  split; [|by vm_compute].
  apply (store_refines_map toy_outside toy_mem_avail demo demo_map (wire 64 <$> demo_more) demo_more demo_ok).
  apply admits_run_ok. by vm_compute.
Defined.

Lemma get_returns_last_set_witness :
  ∃ vs s', kv_run (wire 64 (RSet (str "beta") (str "xyz")) :: (wire 64 <$> [RApp (str "alpha") (str "5")]) ++
      [wire 64 (RGet (str "beta"))]) demo =
    Ok (vs ++ [Reply (dup_str (str "xyz") ++ zeros 60)], s').
Proof.
  apply (get_returns_last_set toy_outside toy_mem_avail demo demo_map _ (str "beta") (str "xyz") _
    [RApp (str "alpha") (str "5")] _ demo_ok).
  - apply (admits_run_ok demo demo_map
      [RSet (str "beta") (str "xyz"); RApp (str "alpha") (str "5"); RGet (str "beta")]). by vm_compute.
  - apply Forall_cons. split; [by_compute|constructor].
Defined.

Lemma get_job_witness :
  worker_job (wire 64 (RGet (str "alpha"))) demo = Ok (Reply (dup_str (str "4444") ++ zeros 59), demo) ∧
  ∃ buf, key_cut (wire 64 (RGet (str "delta"))) (str "delta") buf ∧
    worker_job (wire 64 (RGet (str "delta"))) demo =
    Ok (Reply buf, add_out "GET FAILED: No data in database" demo).
Proof.
  assert (∀ k, wire_ok 64 (RGet k) → encodes (wire 64 (RGet k)) (RGet k) ∧ buffer_ok demo (wire 64 (RGet k))) as Hr.
  { intros k Hk. apply demo_request; [done|]. eexists. by vm_compute. }
  split.
  - destruct (Hr (str "alpha")) as [[H1 H2] H3]; [by_compute|].
    refine (get_job toy_outside demo demo_map _ (str "alpha") demo_ok H1 H2 H3 _). by apply withinb_ok; vm_compute.
  - destruct (Hr (str "delta")) as [[H1 H2] H3]; [by_compute|].
    refine (get_job toy_outside demo demo_map _ (str "delta") demo_ok H1 H2 H3 _). by apply withinb_ok; vm_compute.
Defined.

Lemma set_job_witness :
  (∃ s', worker_job (wire 64 (RSet (str "alpha") (str "7"))) demo =
      Ok (Reply (dup_str (str "alpha") ++ zeros 58), s') ∧
    holds s' (<[str "alpha" := str "7"]> demo_map) ∧ out s' = out demo) ∧
  (∃ s', worker_job (wire 64 (RSet (str "delta") (str "8"))) demo =
      Ok (Reply (dup_str (str "delta") ++ zeros 58), s') ∧
    holds s' (<[str "delta" := str "8"]> demo_map) ∧ out s' = out demo).
Proof.
  assert (∀ k v, wire_ok 64 (RSet k v) →
    encodes (wire 64 (RSet k v)) (RSet k v) ∧ buffer_ok demo (wire 64 (RSet k v))) as Hr.
  { intros k v Hk. apply demo_request; [done|]. eexists. by vm_compute. }
  split.
  - destruct (Hr (str "alpha") (str "7")) as [[H1 H2] H3]; [by_compute|].
    refine (set_job toy_outside toy_mem_avail demo demo_map _ _ _ demo_ok H1 H2 H3 _). by apply withinb_ok; vm_compute.
  - destruct (Hr (str "delta") (str "8")) as [[H1 H2] H3]; [by_compute|].
    refine (set_job toy_outside toy_mem_avail demo demo_map _ _ _ demo_ok H1 H2 H3 _). by apply withinb_ok; vm_compute.
Defined.

Lemma append_job_witness :
  ∃ buf s', worker_job (wire 64 (RApp (str "alpha") (str "7"))) demo = Ok (Reply buf, s') ∧ blen buf = 64 ∧
    buf = dup_str (str "alpha") ++ zeros 58 ∧ holds s' (<[str "alpha" := str "4444" ++ str "7"]> demo_map) ∧
    out s' = out demo.
Proof.
  destruct (demo_request true false 8 4 2 demo_requests (RApp (str "alpha") (str "7"))) as [[H1 H2] H3];
    [by_compute|by eexists; vm_compute|].
  refine (append_job toy_outside toy_mem_avail demo demo_map _ _ _ demo_ok H1 H2 H3 _). by apply withinb_ok; vm_compute.
Defined.
