(* ===== verification/ResponderClaims.v ===== *)
(** * A hot call of the main thread is one message pass

    [main] posts every message with [HotCall_requestCall].  Under every interleaving of the
    three kinds of threads the call is one [enclave_message_pass] between two steps of the
    workers, so the server loop may be read with the call as one operation. *)

From S2P Require Import Prelude CString ToyPlatform Common Enclave Dispatch HotCalls.
From S2P Require Import HotCallsProofs.
From S2P Require Import Responder ResponderProofs Service Wire Demo.

Section call.
Context `{Platform}.

(** C12. A hot call is one message pass.  Let [main] be between two calls, fill [ecallParams]
    and enter [HotCall_requestCall].  However the steps of [main], of the responder and of
    the workers interleave: when the call has returned, it has returned 0, and the state of
    the enclave threads is reached by some of the steps of the workers, one run of
    [enclave_message_pass] on the posted message, and the remaining steps of the workers;
    [ecallParams] has the buffer the callback left and is otherwise unchanged. *)
Theorem hot_call_is_message_pass w c p0 p d s0 ms s' rq ret t :
  reachable numEntries 1 w → w_callers w = [c] → free_caller c = true →
  post_message p (mkSystem w p0 d) = Some s0 → system_run ms s0 = Ok s' →
  w_callers (sy_world s') = [RqReturn rq ret t] →
  ret = 0 ∧ ∃ evs1 evs2 d1 buf d2, worker_events ms = evs1 ++ evs2 ∧ dsteps d evs1 d1 ∧
    enclave_message_pass p d1 = Ok (buf, d2) ∧ dsteps d2 evs2 (sy_disp s') ∧
    sy_params s' = mkEcallParams buf (ep_client_sock p) (ep_num_clients p).
Proof.
  intros Hr Hc Hf Hpost Hrun Hret.
  destruct (hot_call_one w c p0 p d ms s0 s' Hr Hc Hf Hpost Hrun) as [Hret' Hm]; [by eauto|].
  rewrite Hret in Hret'. injection Hret' as _ -> _. split; [done|].
  destruct (mixed_one _ _ _ _ _ _ Hm) as (evs1 & evs2 & d1 & d2 & Hevs & H1 & Hcb & H2).
  apply (bind_inv (enclave_message_pass p)) in Hcb as (buf & d2' & Hpass & Heq).
  injection Heq as <- <-. by exists evs1, evs2, d1, buf, d2'.
Qed.
End call.

(** ** A message and two workers *)
Definition demo_call : EcallParams := mkEcallParams (wire 64 (RSet (str "alpha") (str "1"))) 5 1.

(** A worker that starts. *)
Definition starts (k : nat) : event := EStart (demo_ht 8) (demo_bufs 8) k.

(** The workers start while the call is under way, and one works before it returns; the copy of
    the header is that of the second. *)
Definition demo_moves : list move :=
  replicate 5 MHost ++ [MWorker (starts 1)] ++ replicate 3 MHost ++ [MWorker (starts 1)] ++ replicate 9 MResponder ++
  replicate 2 MResponder ++ [MWorker (EWorker 0); MWorker (EWorker 1)] ++ replicate 4 MHost.

Lemma hot_call_is_message_pass_witness :
  ∃ s0 s', post_message demo_call (mkSystem (world_init 1) demo_call (init_queues (demo_init true false 8 4 2))) = Some s0 ∧
    system_run demo_moves s0 = Ok s' ∧
    ∃ evs1 evs2 d1 buf d2, [starts 1; starts 1; EWorker 0; EWorker 1] = evs1 ++ evs2 ∧
      dsteps (init_queues (demo_init true false 8 4 2)) evs1 d1 ∧
      enclave_message_pass demo_call d1 = Ok (buf, d2) ∧ dsteps d2 evs2 (sy_disp s') ∧
      sy_params s' = mkEcallParams buf 5 1.
Proof.
  destruct (post_message demo_call (mkSystem (world_init 1) demo_call (init_queues (demo_init true false 8 4 2))))
    as [s0|] eqn:Hp; [|by vm_compute in Hp].
  exists s0. destruct (system_run demo_moves s0) as [s'|f] eqn:Hr.
  - exists s'. split; [done|]. split; [done|].
    refine (proj2 (hot_call_is_message_pass (world_init 1) CIdle demo_call demo_call _ s0 demo_moves s' the_call 0 (Some 0%nat)
      (reach_init _ _) eq_refl eq_refl Hp Hr _)).
    vm_compute in Hp. injection Hp as <-. vm_compute in Hr. injection Hr as <-. done.
  - vm_compute in Hp. injection Hp as <-. by vm_compute in Hr.
Defined.
