(* ===== verification/SecurityProofs.v ===== *)
(** * What an attacker on the untrusted memory can do

    Helper lemmas on states whose untrusted memory was changed behind the enclave's back:
    a root accepts a change of the MACs below it only if the MACs collide; with MAC buckets
    the roots do not see the entries at all. *)

From S2P Require Import Prelude CString Common Hash Core HashTable Enclave Rep CoreProofs.
From S2P Require Import RootProofs HashTableProofs StoreProofs EnclaveProofs Service.
From S2P Require Import EnclaveService.

(** ** Roots *)
Section roots.
Context `{Platform} `{!PlatformOk}.
Implicit Types (s : enclave) (B : list bucket).

(** The enclave's own memory is the same. *)
Definition same_enclave s s' : Prop :=
  MACTable s' = MACTable s ∧ arg_enclave s' = arg_enclave s ∧
  ratio_root_per_buckets s' = ratio_root_per_buckets s ∧ ht_size (ht_enclave s') = ht_size (ht_enclave s).

Lemma accepted_macs s B s' B' h :
  inv s B → same_enclave s s' → layout s' B' → 0 ≤ h < ht_size (ht_enclave s) →
  let q := h / ratio_root_per_buckets s in
  root_macs s B q ≠ [] → root_macs s' B' q ≠ [] →
  enclave_verify_tree_root h s' = Ok (SGX_SUCCESS, s') ↔
  sgx_rijndael128_cmac_msg gsk (concat (root_macs s' B' q)) =
  sgx_rijndael128_cmac_msg gsk (concat (root_macs s B q)).
Proof.
  intros Hinv (HM & Harg & Hratio & Hsize) HL' Hh q Hne Hne'.
  pose proof (sh_layout _ _ (inv_shape _ _ Hinv)) as HL.
  destruct (root_facts s h (ly_cfg _ _ HL) Hh) as (_ & _ & Hq & _).
  destruct (inv_roots _ _ Hinv q Hq Hne) as (m & Hm & Hml & ->).
  pose proof (verify_tree_root_spec s' B' h m HL') as Hver. rewrite Hsize, Hratio, HM in Hver.
  rewrite (Hver Hh Hne' Hm Hml). case_bool_decide as Hc; fold q in Hc |- *; [by rewrite Hc|].
  split; [done|]. intros Hc'. contradiction.
Qed.
End roots.

(** ** Enclave code that does not read the entries *)
Section frame.
Context `{Platform}.
Implicit Types (s : enclave) (h : gmap loc entry).

(** From [s] the code changes nothing and does not depend on the memory of the entries. *)
Definition blind s h {A} (m : E A) : Prop :=
  ∀ a s1, m s = Ok (a, s1) → s1 = s ∧ m (set_heap h s) = Ok (a, set_heap h s).

Lemma blind_lift {A} s h (r : res A) : blind s h (lift r).
Proof. intros a s1. unfold lift. destruct r; [|done]. by intros [= <- <-]. Qed.
Lemma blind_ret {A} s h (a : A) : blind s h (mret a).
Proof. by intros b s1 [= <- <-]. Qed.
Lemma blind_gets {A} s h (f : enclave → A) : f (set_heap h s) = f s → blind s h (gets f).
Proof. intros Hf a s1 [= <- <-]. split; [done|]. unfold gets. by rewrite Hf. Qed.
Lemma blind_bind {A C} s h (m : E A) (k : A → E C) :
  blind s h m → (∀ a, m s = Ok (a, s) → blind s h (k a)) → blind s h (m ≫= k).
Proof.
  intros Hm Hk c s2. unfold mbind, M_bind. destruct (m s) as [[a s1]|] eqn:E; [|done].
  destruct (Hm _ _ E) as [-> ->]. by apply Hk.
Qed.
Lemma blind_for_each {A} s h l (f : Z → A → E A) a : (∀ i a, blind s h (f i a)) → blind s h (for_each l f a).
Proof.
  intros Hf. revert a. induction l as [|i l IH]; intros a; [apply blind_ret|].
  apply blind_bind; [apply Hf|]. intros a' _. apply IH.
Qed.
Lemma blind_macbuf_get s h i : blind s h (macbuf_get i).
Proof. apply blind_bind; [by apply blind_gets|]. intros. apply blind_lift. Qed.
Lemma blind_macbuf_copy s h r agg : blind s h (macbuf_copy r agg).
Proof.
  apply blind_for_each. intros i [a x]. apply blind_bind; [apply blind_macbuf_get|]. intros b _.
  apply blind_bind; [apply blind_lift|]. intros. apply blind_ret.
Qed.
Lemma blind_root_of s h i : blind s h (root_of i).
Proof. apply blind_bind; [by apply blind_gets|]. intros. apply blind_lift. Qed.
Lemma blind_assert_success s h r : blind s h (assert_success r).
Proof.
  unfold assert_success, assert_. repeat case_match; try apply blind_ret. by intros a s1.
Qed.

(** The check of a root over MAC buckets. *)
Lemma blind_verify_tree_root s h i :
  mac_opt (arg_enclave s) = true → blind s h (enclave_verify_tree_root i).
Proof.
  intros Ho. apply blind_bind.
  - apply blind_bind.
    { apply blind_bind; [by apply blind_gets|]. intros r _. apply blind_bind; [apply blind_root_of|]. intros.
      apply blind_ret. }
    intros range _. apply blind_bind; [by apply blind_gets|]. intros arg [= <-]. rewrite Ho. apply blind_bind.
    + apply blind_bind.
      { apply blind_for_each. intros j c. apply blind_bind; [apply blind_macbuf_get|]. intros. apply blind_ret. }
      intros count _. apply blind_bind; [apply blind_lift|]. intros agg _.
      apply blind_bind; [apply blind_macbuf_copy|]. intros [agg' x] _. apply blind_ret.
    + intros [agg count] _. apply blind_bind; [apply blind_lift|]. intros src _.
      destruct (sgx_rijndael128_cmac_msg gsk src) as [ret m].
      apply blind_bind; [apply blind_assert_success|]. intros. apply blind_lift.
  - intros cur _. apply blind_bind; [apply blind_root_of|]. intros root _.
    apply blind_bind; [by apply blind_gets|]. intros t _. apply blind_bind; [apply blind_lift|]. intros stored _.
    apply blind_bind; [apply blind_lift|]. intros [] _; apply blind_ret.
Qed.
End frame.

(** ** An old entry put back *)
Section replay.
Context `{Platform} `{!PlatformOk} (Hside : outside_ok).
Implicit Types (s : enclave) (B : list bucket) (k v : bytes).

(** The entry of the key [k] replaced by an older one: any entry that was ever made for
    the key. *)
Definition replayed s (c : cell) (old : entry) : enclave :=
  set_heap (<[c_loc c := set_next old (next (c_ent c))]> (heap s)) s.

Lemma entry_ok_next k v e p : entry_ok k v e → entry_ok k v (set_next e p).
Proof. by intros [? ? ? ? ? ? ? ? Hc]. Qed.

Lemma replayed_lookup s B k b1 c b2 old v' :
  shape s B → nonul k → B !! bin_of s k = Some (b1 ++ c :: b2) → c_key c = k → entry_ok k v' old →
  ∃ ctr, ht_get_o (dup_str k) (blen k + 1) (replayed s c old) =
    Ok ((Some (Found (c_loc c) (dup_str k ++ dup_str v') ctr), blen b1), replayed s c old).
Proof.
  intros HS Hk Hb Hck Hold. pose proof (sh_layout _ _ HS) as HL.
  set (s' := replayed s c old). set (c' := Cell (c_loc c) (set_next old (next (c_ent c))) k v').
  destruct (bin_range s B k HL) as [Hr Hbin].
  destruct (table_get_ok s B HL _ _ Hb) as (p & Hp & Hc). rewrite Hbin in Hp.
  pose proof (chain_fuel_enough s B HL _ _ p Hb Hc) as Hfuel.
  pose proof (nodup_bucket c_loc _ _ _ Hb (ly_locs _ _ HL)) as Hnd1.
  pose proof (nodup_bucket c_key _ _ _ Hb (sh_keys _ _ HS)) as Hnd2.
  assert (chain (heap s') p (b1 ++ c' :: b2)) as Hc' by (by apply (chain_update _ _ b1 c c')).
  assert (heap s !! c_loc c = Some (c_ent c)) as Hl by (eapply chain_lookup; [done|set_solver]).
  assert (size (heap s') = size (heap s)) as Hsz.
  { unfold s', replayed. simpl. apply map_size_insert_Some. by eexists. }
  assert (table_get (bucket_of (ht_size (ht_enclave s)) k) s' = Ok (p, s')) as Hp'.
  { revert Hp. unfold table_get. msimpl. unfold lift. simpl. by destruct (zlookup _ _) as [q|]; [intros [= <-]|]. }
  pose proof (shape_entries s B _ _ HS Hb) as Hents.
  assert (entries_ok (b1 ++ c' :: b2)) as Hents'.
  { apply Forall_app in Hents as [H1 [_ H2]%Forall_cons]. apply Forall_app. split; [done|]. constructor; [|done].
    by apply entry_ok_next. }
  assert (k ∉ c_key <$> b1) as Hnin.
  { rewrite fmap_app, fmap_cons in Hnd2. apply NoDup_app in Hnd2 as (_ & Hd & _). intros Hin.
    apply (Hd k Hin). rewrite Hck. set_solver. }
  assert (blen k + 1 < 2 ^ 32) as Hkl.
  { pose proof (eo_bound _ _ _ Hold). pose proof (blen_nonneg v'). unfold INT_MAX in *. lia. }
  assert (∀ hint, hint_ok k hint → ∃ ctr,
    ht_get_loop (S (size (heap s'))) (dup_str k) (blen k + 1) hint p 0 s' =
    Ok ((Some (Found (c_loc c) (dup_str k ++ dup_str v') ctr), blen b1), s')) as Hloop.
  { intros hint Hh. destruct (ht_get_loop_found Hside s' k hint p b1 c' b2 (S (size (heap s'))) 0) as (ctr & _ & Hrun);
      try done; [by rewrite Hsz, length_app in *|].
    exists ctr. by rewrite Hrun. }
  unfold ht_get_o. rewrite (bind_ok _ _ _ _ _ (ht_hash_dup s' k Hk (co_size _ (ly_cfg _ _ HL)))).
  unfold chain_fuel. msimpl. change (arg_enclave s') with (arg_enclave s). destruct (key_opt (arg_enclave s)).
  - rewrite (bind_lift _ _ _ _ (key_hash_dup k Hk)), (bind_ok _ _ _ _ _ Hp'). apply Hloop. by right.
  - rewrite (bind_ok _ _ _ _ _ Hp'). apply Hloop. by left.
Qed.

Lemma replayed_get s B cipher k v0 v' old :
  inv s B → mac_opt (arg_enclave s) = true → get_request cipher k → buffer_ok s cipher →
  abs B !! k = Some v0 → entry_ok k v' old → blen v' + 1 ≤ max_buf_size (arg_enclave s) →
  ∃ c, c ∈ concat B ∧ c_key c = k ∧
    enclave_get cipher (replayed s c old) = Ok (reply s (dup_str v'), replayed s c old).
Proof.
  intros Hinv Ho Hreq [Hmax Hbuf] Hk0 Hold Hfit. unfold INT_MAX in *.
  pose proof (inv_shape _ _ Hinv) as HS. pose proof (sh_layout _ _ HS) as HL.
  destruct (shape_lookup s B k v0 HS Hk0) as (b1 & c & b2 & Hb & Hkey & Hval & He).
  exists c. split; [eapply elem_of_bucket; [done|set_solver]|]. split; [done|].
  set (s' := replayed s c old). set (e' := set_next old (next (c_ent c))).
  destruct (parse_get s' cipher k Hreq ltac:(lia)) as (t & Hpk & Htl & _).
  destruct Hreq as (_ & _ & _ & _ & _ & _ & _ & _ & _ & Hk & _).
  destruct (bin_root s B k HL) as (Hh & Hbin & Hi & Hq).
  pose proof (blen_nonneg k). pose proof (blen_nonneg v').
  destruct (replayed_lookup s B k b1 c b2 old v' HS Hk Hb Hkey Hold) as (ctr & Hget).
  destruct (range_macs_update (mac_opt (arg_enclave s)) B _ _ (bin_of s k) b1 c c b2 Hb Hi)
    as (pre & post & Hms & _).
  assert (root_macs s B (bucket_of (ht_size (ht_enclave s)) k / ratio_root_per_buckets s) ≠ []) as Hne.
  { unfold root_macs. rewrite Hms. by destruct pre. }
  destruct (inv_roots _ _ Hinv _ Hq Hne) as (m & Hm & Hml & Hcm).
  pose proof (verify_tree_root_spec s B _ m HL Hh Hne Hm Hml) as Hver.
  rewrite bool_decide_true in Hver by done.
  destruct (blind_verify_tree_root s (heap s') _ Ho _ _ Hver) as [_ Hver'].
  change (set_heap (heap s') s) with s' in Hver'.
  assert (heap s' !! c_loc c = Some e') as Hl by (unfold s', replayed; simpl; by rewrite lookup_insert_eq).
  assert (entry_ok k v' e') as He' by by apply entry_ok_next.
  unfold enclave_get. rewrite (bind_ok _ _ _ _ _ Hpk). cbv beta iota.
  rewrite (bind_ok _ _ _ _ _ Hget). cbv beta iota. cbn [f_entry f_plain].
  rewrite (bind_ok _ _ _ _ _ (ht_hash_dup s' k Hk (co_size _ (ly_cfg _ _ HL)))).
  rewrite (bind_ok _ _ _ _ _ (load_ok _ _ _ Hl)).
  rewrite (bind_ok _ _ _ _ _ (verify_entry_ok s' k v' _ He')), (bind_ok _ _ _ _ _ Hver').
  rewrite (bind_ok _ _ _ _ _ (check_tree_ok s')).
  rewrite (eo_ksize _ _ _ He'), (eo_vsize _ _ _ He'). unfold reply.
  rewrite <-(app_nil_r (dup_str v')) at 1.
  change (arg_enclave s) with (arg_enclave s') in *. apply respond_ok; rewrite ?dup_str_len; lia.
Qed.
End replay.
