(* ===== verification/SecurityClaims.v ===== *)
(** * Theorems on the protection of the entries

    What the roots and the MACs of the entries detect and what they do not, and how the
    capacities the code does not check end a request. *)

From S2P Require Import Prelude CString CLib Common Hash Core HashTable Enclave Config.
From S2P Require Import ToyPlatform Rep CoreProofs RootProofs HashTableProofs StoreProofs.
From S2P Require Import EnclaveProofs AppendProofs Service EnclaveService Client ClientProofs.
From S2P Require Import Wire Demo SecurityProofs.

Section integrity.
Context `{Platform} `{!PlatformOk}.

(** C6. The roots protect the MACs of the entries.  Let the untrusted memory be replaced by any
    other entries and MAC buckets, while the roots and the configuration in the enclave stay,
    such that the new memory is laid out like a store: every bucket is a finite chain that
    shares no entry with another one, with the MAC option every MAC bucket holds the MACs of
    its chain, and there are entries below the root before and after.  Then the check of the
    root accepts exactly when the CMAC over the MACs that are now below the root is the CMAC
    over the MACs the store left there: an accepted change of these MACs is a collision of
    the CMAC.  Memory in which MAC buckets and chains disagree is not covered. *)
Theorem root_accepts_only_its_macs s B s' B' h :
  inv s B → same_enclave s s' → layout s' B' → 0 ≤ h < ht_size (ht_enclave s) →
  root_macs s B (h / ratio_root_per_buckets s) ≠ [] → root_macs s' B' (h / ratio_root_per_buckets s) ≠ [] →
  enclave_verify_tree_root h s' = Ok (SGX_SUCCESS, s') ↔
  sgx_rijndael128_cmac_msg gsk (concat (root_macs s' B' (h / ratio_root_per_buckets s))) =
  sgx_rijndael128_cmac_msg gsk (concat (root_macs s B (h / ratio_root_per_buckets s))).
Proof. intros. by apply accepted_macs. Qed.

(** C30. The check of an entry reports, it does not reject: for every MAC stored with the
    entry, right or wrong, [enclave_verification] returns the status of the CMAC
    computation, which is success; a wrong MAC only adds a line on the console. *)
Theorem entry_check_only_reports s cipher key_idx key_len val_len nac_ mac_ :
  0 ≤ key_len → 0 ≤ val_len → key_len + val_len + 25 ≤ INT_MAX →
  blen cipher = key_len + val_len → blen nac_ = NAC_SIZE → blen mac_ = MAC_SIZE →
  ∃ m, sgx_rijndael128_cmac_msg gsk
         (cipher ++ nac_ ++ [byte_of_Z key_idx] ++ le32 key_len ++ le32 val_len) = (SGX_SUCCESS, m) ∧
    enclave_verification cipher key_idx key_len val_len nac_ mac_ s =
    Ok (SGX_SUCCESS, if bool_decide (m = mac_) then s else add_out "MAC matching failed" s).
Proof.
  intros Hk Hv Hb Hc Hn Hm. pose proof (mac_message_ok cipher key_idx key_len val_len nac_ Hk Hv Hb Hc Hn) as Hmsg.
  set (msg := cipher ++ _) in *. destruct (cmac_ok gsk msg) as (m & Hcm & Hml).
  { unfold msg, NAC_SIZE, INT_MAX in *. autorewrite with blen. lia. }
  exists m. split; [done|]. unfold enclave_verification.
  rewrite (bind_lift _ _ _ nac_) by (by apply read_at_all).
  rewrite (bind_lift _ _ _ _ Hmsg), Hcm, (bind_lift _ _ _ _ (memcmp_eq_all m mac_ MAC_SIZE (eq_sym Hml) (eq_sym Hm))).
  by case_bool_decide.
Qed.

(** C24. Encryption and decryption of an entry are inverse: what [enclave_encrypt] makes of a
    key and a value, [enclave_decrypt] turns back into the key and the value, and the MAC
    of the first passes the check of the second. *)
Theorem decrypt_encrypt s k v key_idx nac_ plain :
  blen k + blen v + 27 ≤ INT_MAX → blen nac_ = NAC_SIZE → blen plain = blen k + blen v + 2 →
  ∃ cipher mac_,
    enclave_encrypt (dup_str k ++ dup_str v) (dup_str k ++ dup_str v) key_idx (blen k + 1) (blen v + 1) nac_ s =
      Ok ((cipher, mac_), s) ∧
    enclave_decrypt cipher plain key_idx (blen k + 1) (blen v + 1) nac_ mac_ s =
      Ok (dup_str k ++ dup_str v, s).
Proof.
  intros Hb Hn Hp. pose proof (blen_nonneg k). pose proof (blen_nonneg v).
  destruct (enclave_encrypt_ok s k v key_idx nac_ Hb Hn) as (cipher & msg & m & ctr & Henc & Hcl & Hml & Hdec & _ & Hmsg & Hcm).
  exists cipher, m. split; [done|]. unfold enclave_decrypt.
  rewrite (bind_lift _ _ _ nac_) by (by apply read_at_all).
  rewrite (bind_lift _ _ _ _ Hmsg), Hcm, (bind_ok _ _ _ _ _ (assert_success_ok s)).
  rewrite (bind_lift _ _ _ _ (memcmp_eq_all m m MAC_SIZE (eq_sym Hml) (eq_sym Hml))), bool_decide_true by done.
  rewrite u32_small by (unfold INT_MAX in *; lia). rewrite (bind_lift _ _ _ cipher) by (by apply read_at_all).
  rewrite Hdec. unfold lift. rewrite write_at_all; [done|].
  rewrite blen_app, !dup_str_len. lia.
Qed.
End integrity.

Section limits.
Context `{Platform} `{!PlatformOk} (Hside : outside_ok).

(** C31. With MAC buckets a replay goes unnoticed.  The roots are computed over the MAC
    buckets and nothing compares an entry with its MAC bucket: if the entry of a key is
    replaced by any older entry of the key, GET answers with the old value and prints no
    message. *)
Theorem mac_bucket_replay s B cipher k v0 v' old :
  inv s B → mac_opt (arg_enclave s) = true → get_request cipher k → buffer_ok s cipher →
  abs B !! k = Some v0 → entry_ok k v' old → blen v' + 1 ≤ max_buf_size (arg_enclave s) →
  ∃ c, c ∈ concat B ∧ c_key c = k ∧
    enclave_get cipher (replayed s c old) = Ok (reply s (dup_str v'), replayed s c old).
Proof. by apply replayed_get. Qed.

(** C32. A value that became too long is a buffer overflow: APPEND does not bound the value,
    and GET copies it into the buffer of the request, so once the value and its NUL do not
    fit the buffer every GET of the key writes out of bounds. *)
Theorem get_long_value_overflows s m cipher k v :
  holds s m → get_request cipher k → buffer_ok s cipher → m !! k = Some v →
  max_buf_size (arg_enclave s) < blen v + 1 →
  enclave_get cipher s = Fault Out_of_bounds.
Proof.
  intros (B & Hinv & <-) Hreq Hbuf Hk0 Hlong. pose proof Hbuf as [Hmax _].
  destruct (enclave_get_respond Hside s B cipher k v Hinv Hreq Hbuf Hk0) as (buf & Hlen & ->).
  rewrite <-(app_nil_r (dup_str v)). apply respond_oob; rewrite ?dup_str_len; lia.
Qed.
(** The write of a MAC behind the last slot of its bucket. *)
Lemma macbuf_full s i m x n :
  MACbuf_enclave s !! i = Some m → blen (me_mac m) = MAC_SIZE * MAC_SLOTS → blen x = MAC_SIZE → MAC_SLOTS ≤ n →
  (b ← macbuf_get (Z.of_nat i);
   macbuf_set (Z.of_nat i) (mkMACentry (me_size b + 1) (me_mac b));;
   macbuf_write (Z.of_nat i) n x) s = Fault Out_of_bounds.
Proof.
  intros Hm Hml Hx Hn. pose proof (lookup_lt_Some _ _ _ Hm) as Hlt.
  assert (∀ s1 m1, MACbuf_enclave s1 !! i = Some m1 → macbuf_get (Z.of_nat i) s1 = Ok (m1, s1)) as Hget.
  { intros s1 m1 Hl. unfold macbuf_get. msimpl. unfold lift. by rewrite (zlookup_nat _ _ m1). }
  rewrite (bind_ok _ _ _ _ _ (Hget s m Hm)). set (m1 := mkMACentry (me_size m + 1) (me_mac m)).
  rewrite (bind_ok _ _ _ tt (set_macbuf (<[i := m1]> (MACbuf_enclave s)) s)).
  2:{ unfold macbuf_set. msimpl. by rewrite (bind_lift _ _ _ _ (zupdate_nat _ _ _ Hlt)). }
  unfold macbuf_write. rewrite (bind_ok _ _ _ m1 (set_macbuf (<[i := m1]> (MACbuf_enclave s)) s)).
  2:{ apply Hget. simpl. by apply list_lookup_insert_eq. }
  apply bind_fault. unfold lift, memcpy, mbind, res_bind. rewrite read_at_all by done.
  unfold write_at, m1. cbn [me_mac]. rewrite Hml, Hx. unfold MAC_SIZE, MAC_SLOTS in *.
  destruct (Z.leb_spec (16 * n + 16) (16 * 30)); [lia|]. by rewrite andb_false_r.
Qed.

(** A SET of a missing key at the point where the entry is put into its bucket. *)
Lemma set_fault s B cipher k v f :
  inv s B → set_request cipher k v → buffer_ok s cipher → abs B !! k = None →
  let sr := set_rand (S (rand_calls s)) s in
  (∀ b kv nac_ mac_, B !! bin_of s k = Some b → blen kv = blen k + 1 + (blen v + 1) →
     blen nac_ = NAC_SIZE → blen mac_ = MAC_SIZE →
     ht_set_o None (dup_str k) kv nac_ mac_ (blen k + 1) (blen v + 1) (blen b) sr = Fault f) →
  enclave_set cipher s = Fault f.
Proof.
  intros Hinv Hreq Hbuf Hk0 sr Hset.
  destruct (enclave_set_missing s B cipher k v (inv_shape _ _ Hinv) Hreq Hbuf Hk0) as (t & b & kv & msg & mac_ & ctr' &
    Hb & _ & Hkvl & Hml & _ & _ & _ & _ & ->).
  apply bind_fault, Hset; try done. by apply rand_ok.
Qed.

(** Without memory for a new entry a SET ends the enclave: [ht_newpair] returns NULL, the
    failure is printed, and the NULL pointer is then dereferenced. *)
Theorem set_without_memory_crashes s m cipher k v :
  holds s m → set_request cipher k v → buffer_ok s cipher → m !! k = None →
  ocall_tc_malloc (heap s) sizeof_entry = None →
  enclave_set cipher s = Fault Null_deref.
Proof.
  intros (B & Hinv & <-) Hreq Hbuf Hk0 Hmal.
  apply (set_fault s B cipher k v); try done. set (sr := set_rand _ s).
  intros b kv nac_ mac_ Hb Hkvl Hn Hm.
  pose proof (sh_layout _ _ (inv_shape _ _ Hinv)) as HL. destruct (bin_range s B k HL) as [_ Hbin].
  destruct Hreq as (_ & _ & _ & _ & _ & _ & _ & Hk & _).
  destruct (table_get_ok s B HL _ _ Hb) as (head & Hhead & _).
  unfold ht_set_o. rewrite (bind_ok _ _ _ _ _ (ht_hash_dup sr k Hk (co_size _ (ly_cfg _ _ HL)))).
  rewrite (bind_lift _ _ _ _ (key_hash_dup k Hk)). msimpl.
  rewrite (bind_ok _ _ _ None sr) by (unfold ht_newpair; msimpl; simpl; by rewrite Hmal).
  rewrite bool_decide_true by done. unfold print. rewrite bind_modify.
  change (ht_size (ht_enclave sr)) with (ht_size (ht_enclave s)). rewrite <-Hbin.
  rewrite (bind_ok _ _ _ head (add_out "new pair problem" sr)); [done|].
  unfold table_get in *. unfold gets, lift, mbind, M_bind, res_bind, compose in *. simpl in *.
  destruct (zlookup _ _); naive_solver.
Qed.

(** C33. A MAC bucket has room for [MAC_SLOTS] = 30 MACs and nothing checks it: with MAC
    buckets, the SET of a new key whose bucket of the table already has 30 keys writes
    beyond the MAC bucket. *)
Theorem mac_bucket_overflows s m cipher k v :
  (∀ s, mem_avail s) →
  holds s m → mac_opt (arg_enclave s) = true → set_request cipher k v → buffer_ok s cipher → m !! k = None →
  MAC_SLOTS ≤ blen (keys_in (ht_size (ht_enclave s)) (bucket_of (ht_size (ht_enclave s)) k) m) →
  enclave_set cipher s = Fault Out_of_bounds.
Proof.
  intros Hmem (B & Hinv & <-) Ho Hreq Hbuf Hk0 Hfull.
  pose proof (inv_shape _ _ Hinv) as HS. pose proof (sh_layout _ _ HS) as HL.
  apply (set_fault s B cipher k v); try done. set (sr := set_rand _ s).
  intros b kv nac_ mac_ Hb Hkvl Hn Hm. destruct (bin_range s B k HL) as [_ Hbin].
  pose proof (keys_in_bucket s B _ b HS Hb) as HP. apply Permutation_length in HP. rewrite length_fmap, Hbin in HP.
  unfold blen in Hfull. rewrite <-HP in Hfull. fold (blen b) in Hfull.
  destruct (parse_set s cipher k v Hreq) as [Hlen _]; [destruct Hbuf; unfold INT_MAX in *; lia|].
  destruct Hreq as (_ & _ & _ & _ & _ & _ & _ & Hk & _ & Hv). destruct Hbuf as [Hmax Hbuf]. unfold INT_MAX in *.
  pose proof (blen_nonneg k). pose proof (blen_nonneg v).
  destruct (macbuf_get_ok s B HL _ _ Ho Hb) as (m & _ & Hmb & Hmok). destruct Hmok as (_ & Hml & _).
  assert (shape sr B) as HSr by apply (inv_shape _ _ (inv_set_rand s B (S (rand_calls s)) Hinv)).
  destruct (ht_set_o_push sr B k b kv nac_ mac_ (blen v + 1) (blen b) (Hmem sr) HSr Hk Hb) as (l & head & _ & _ & ->);
    [lia..|done|done|]. change (arg_enclave sr) with (arg_enclave s). rewrite Ho.
  by apply (macbuf_full _ (bin_of s k) m).
Qed.
(** The state with the key-hint option set to [ko]. *)
Definition with_key_opt (ko : bool) s : enclave :=
  let a := arg_enclave s in
  mkEnclave (ht_enclave s) (heap s) (MACbuf_enclave s) (MACTable s)
    (mkArg (port_num a) (num_threads a) (max_buf_size a) (bucket_size a) (tree_root_size a) ko (mac_opt a))
    (ratio_root_per_buckets s) (rand_calls s) (out s).

Lemma shape_key_opt s B ko : shape s B → shape (with_key_opt ko s) B.
Proof.
  intros [HL ? ?]. split; [|done|done]. destruct HL as [Hc ? ? ? ? ? ?]. split; try done. by destruct Hc.
Qed.

(** C18. The search in the table is exact, with and without key hints: [ht_get_o] finds the
    entry of a key exactly when the key is stored, and returns its decrypted key and value;
    the one-byte hint only skips entries that hold other keys. *)
Theorem search_is_exact s B k ko :
  shape s B → nonul k → blen k + 1 < 2 ^ 32 →
  match abs B !! k with
  | Some v => ∃ f pos, ht_get_o (dup_str k) (blen k + 1) (with_key_opt ko s) =
      Ok ((Some f, pos), with_key_opt ko s) ∧ f_plain f = dup_str k ++ dup_str v
  | None => ∃ pos, ht_get_o (dup_str k) (blen k + 1) (with_key_opt ko s) = Ok ((None, pos), with_key_opt ko s)
  end.
Proof.
  intros HS Hk Hkl. pose proof (shape_key_opt s B ko HS) as HS'. destruct (abs B !! k) as [v|] eqn:Hm.
  - destruct (shape_lookup _ B k v HS' Hm) as (b1 & c & b2 & Hb & Hck & Hcv & _).
    destruct (ht_get_o_found Hside _ B k b1 c b2 HS' Hk Hkl Hb Hck) as (ctr & _ & ->).
    eexists _, _. split; [done|]. by rewrite <-Hcv.
  - destruct (shape_missing _ B k HS' Hm) as (b & Hb & Hnin).
    rewrite (ht_get_o_none _ B k b HS' Hk Hkl Hb Hnin). by eexists.
Qed.
End limits.

(** ** APPEND with MAC buckets *)

(** The answers of a run and what it prints. *)
Definition outcome (rs : list request) (s : enclave) : option (list verdict * list string) :=
  match kv_run (wire 64 <$> rs) s with Ok (vs, s') => Some (vs, out s') | Fault _ => None end.

(** An example of the damage that APPEND does with MAC buckets.  It writes the MAC of the entry
    into slot [kv_pos] instead of [size - kv_pos - 1]; in a bucket of two keys that is the slot
    of the other key.  Without any attack the update of the root then fails, the failure is
    only printed, and the next GET of either key reports a failed verification. *)
Example append_breaks_mac_bucket :
  outcome [RApp (str "b") (str "3"); RGet (str "a"); RGet (str "b")]
    (demo_state false true 1 1 1 [RSet (str "a") (str "1"); RSet (str "b") (str "2")]) =
  Some ([Reply (dup_str (str "b") ++ zeros 62); Reply (dup_str (str "1") ++ zeros 62);
         Reply (dup_str (str "23") ++ zeros 61)],
        ["Previous MAC compare failed"; "Tree verification failed";
         "Tree verification failed"; "Tree verification failed"]).
Proof. by vm_compute. Qed.

(** ** The theorems at concrete stores *)

Lemma demo_holds_run ko mo rs : runs ko mo 8 4 2 rs → holds (demo_state ko mo 8 4 2 rs) (spec_run ∅ rs).
Proof. apply demo_state_holds. Qed.

(** An entry whose MAC was overwritten with zeros. *)
Definition forged (c : cell) : cell :=
  Cell (c_loc c)
    (mkEntry (key_size (c_ent c)) (val_size (c_ent c)) (key_hash (c_ent c)) (key_val (c_ent c)) (nac (c_ent c))
       (zeros MAC_SIZE) (next (c_ent c))) (c_key c) (c_val c).

Abbreviation sdemo := (demo_state true false 8 4 2 demo_requests).

(** The store with a forged entry. *)
Definition forge (s : enclave) (c : cell) : enclave :=
  with_mem (<[c_loc c := c_ent (forged c)]> (heap s)) (MACbuf_enclave s) s.

Lemma forge_same s c : same_enclave s (forge s c).
Proof. by repeat split. Qed.

Lemma forge_layout s B i b1 c b2 :
  layout s B → mac_opt (arg_enclave s) = false → B !! i = Some (b1 ++ c :: b2) →
  layout (forge s c) (<[i := b1 ++ forged c :: b2]> B).
Proof. intros HL Ho Hb. apply (layout_update s B i b1 c (forged c) b2); try done. by rewrite Ho. Qed.

Lemma root_macs_cell s B i b1 c b2 :
  layout s B → B !! i = Some (b1 ++ c :: b2) →
  root_macs s B (Z.of_nat i / ratio_root_per_buckets s) ≠ [].
Proof.
  intros HL Hb. apply lookup_lt_Some in Hb as Hlt.
  assert (0 ≤ Z.of_nat i < ht_size (ht_enclave s)) as Hh.
  { rewrite <-(ly_size _ _ HL). unfold blen. lia. }
  destruct (root_range_nat s B (Z.of_nat i) HL Hh) as (_ & _ & Hi). rewrite Nat2Z.id in Hi.
  destruct (range_macs_update (mac_opt (arg_enclave s)) B _ _ i b1 c c b2 Hb Hi) as (pre & post & Hms & _).
  unfold root_macs. rewrite Hms. by destruct pre.
Qed.

Lemma root_accepts_only_its_macs_witness :
  ∃ B B' c, inv sdemo B ∧ c ∈ concat B ∧ c_key c = str "beta" ∧ layout (forge sdemo c) B' ∧
  (enclave_verify_tree_root 3 (forge sdemo c) = Ok (SGX_SUCCESS, forge sdemo c) ↔
   sgx_rijndael128_cmac_msg gsk (concat (root_macs (forge sdemo c) B' (3 / ratio_root_per_buckets sdemo))) =
   sgx_rijndael128_cmac_msg gsk (concat (root_macs sdemo B (3 / ratio_root_per_buckets sdemo)))).
Proof.
  destruct (demo_cell sdemo _ (str "beta") (str "22") (demo_holds_run true false demo_requests (demo_runs _ _)))
    as (B & b1 & c & b2 & Hinv & _ & Hb & Hck & He); [vm_compute; reflexivity|].
  pose proof (sh_layout _ _ (inv_shape _ _ Hinv)) as HL. assert (bin_of sdemo (str "beta") = 3%nat) as Hbin by (vm_compute; reflexivity).
  rewrite Hbin in Hb. assert (mac_opt (arg_enclave sdemo) = false) as Ho by (vm_compute; reflexivity).
  assert (ht_size (ht_enclave sdemo) = 8) as Hsz by (vm_compute; reflexivity).
  assert (0 ≤ 3 < ht_size (ht_enclave sdemo)) as Hr by (rewrite Hsz; split; [discriminate|reflexivity]).
  pose proof (forge_layout sdemo B 3 b1 c b2 HL Ho Hb) as HL'.
  exists B, (<[3%nat := b1 ++ forged c :: b2]> B), c. split; [exact Hinv|].
  split; [eapply elem_of_bucket; [exact Hb|apply elem_of_app; right; by apply list_elem_of_here]|]. split; [exact Hck|]. split; [exact HL'|].
  refine (root_accepts_only_its_macs sdemo B (forge sdemo c) _ 3 Hinv (forge_same _ _) HL' Hr _ _).
  - exact (root_macs_cell sdemo B 3 b1 c b2 HL Hb).
  - refine (root_macs_cell (forge sdemo c) _ 3 b1 (forged c) b2 HL' _).
    apply list_lookup_insert_eq. by eapply lookup_lt_Some.
Defined.

Lemma entry_check_only_reports_witness :
  ∃ m, sgx_rijndael128_cmac_msg gsk
         (str "ciphertext" ++ zeros 16 ++ [byte_of_Z 7] ++ le32 4 ++ le32 6) = (SGX_SUCCESS, m) ∧
    enclave_verification (str "ciphertext") 7 4 6 (zeros 16) (zeros 16) sdemo =
    Ok (SGX_SUCCESS, if bool_decide (m = zeros 16) then sdemo else add_out "MAC matching failed" sdemo).
Proof. by apply (entry_check_only_reports sdemo (str "ciphertext") 7 4 6 (zeros 16) (zeros 16)). Defined.

Lemma decrypt_encrypt_witness :
  ∃ cipher mac_,
    enclave_encrypt (dup_str (str "key") ++ dup_str (str "value")) (dup_str (str "key") ++ dup_str (str "value"))
      9 4 6 (zeros 16) sdemo = Ok ((cipher, mac_), sdemo) ∧
    enclave_decrypt cipher (zeros 10) 9 4 6 (zeros 16) mac_ sdemo =
      Ok (dup_str (str "key") ++ dup_str (str "value"), sdemo).
Proof. by apply (decrypt_encrypt sdemo (str "key") (str "value") 9 (zeros 16) (zeros 10)). Defined.

(** A store with MAC buckets before and after a second SET of a key. *)
Definition before_set : list request := [RSet (str "alpha") (str "old")].
Definition after_set : list request := [RSet (str "alpha") (str "old"); RSet (str "alpha") (str "new")].

Lemma set_runs : runs false true 8 4 2 before_set ∧ runs false true 8 4 2 after_set.
Proof. split; (split; [done|]; split; [done|]; split; [done|]; split; [by vm_compute|vm_compute; eauto]). Qed.

Lemma mac_bucket_replay_witness :
  let s := demo_state false true 8 4 2 after_set in
  ∃ B old c, inv s B ∧ abs B !! str "alpha" = Some (str "new") ∧ entry_ok (str "alpha") (str "old") old ∧
    c ∈ concat B ∧ c_key c = str "alpha" ∧
    enclave_get (wire 64 (RGet (str "alpha"))) (replayed s c old) =
    Ok (reply s (dup_str (str "old")), replayed s c old).
Proof.
  intros s.
  destruct (demo_cell (demo_state false true 8 4 2 before_set) _ (str "alpha") (str "old")
    (demo_holds_run false true before_set (proj1 set_runs))) as (B0 & _ & c0 & _ & _ & _ & _ & _ & Hold); [vm_compute; reflexivity|].
  destruct (demo_cell s _ (str "alpha") (str "new") (demo_holds_run false true after_set (proj2 set_runs)))
    as (B & _ & _ & _ & Hinv & Habs & _); [vm_compute; reflexivity|].
  assert (abs B !! str "alpha" = Some (str "new")) as Hnew by (rewrite Habs; vm_compute; reflexivity).
  destruct (demo_request false true 8 4 2 after_set (RGet (str "alpha"))) as [[_ Hreq] Hbuf];
    [by_compute|by eexists; vm_compute|].
  destruct (mac_bucket_replay toy_outside s B _ (str "alpha") _ (str "old") (c_ent c0) Hinv
    ltac:(vm_compute; reflexivity) Hreq Hbuf Hnew Hold ltac:(vm_compute; discriminate)) as (c & Hc & Hck & Hrun).
  exists B, (c_ent c0), c. split_and!; assumption.
Defined.

(** A key with a value longer than the buffer, by two requests that fit it. *)
Definition long_value : bytes := replicate 50 x61.
Definition grown : list request := [RSet (str "k") long_value; RApp (str "k") long_value].

Lemma grown_runs : runs true false 8 4 2 grown.
Proof. split; [done|]; split; [done|]; split; [done|]; split; [by vm_compute|vm_compute; eauto]. Qed.

Lemma get_long_value_overflows_witness :
  enclave_get (wire 64 (RGet (str "k"))) (demo_state true false 8 4 2 grown) = Fault Out_of_bounds.
Proof.
  destruct (demo_request true false 8 4 2 grown (RGet (str "k"))) as [[_ Hreq] Hbuf];
    [by_compute|eexists; vm_compute; done|].
  apply (get_long_value_overflows toy_outside _ (spec_run ∅ grown) _ (str "k") (long_value ++ long_value)
    (demo_holds_run true false grown grown_runs) Hreq Hbuf); vm_compute; reflexivity.
Defined.

Lemma set_without_memory_crashes_witness :
  enclave_set (H := poor_platform) (wire 64 (RSet (str "alpha") (str "1"))) (demo_init true false 8 4 2) =
  Fault Null_deref.
Proof.
  destruct (wire_encodes 64 (RSet (str "alpha") (str "1")) ltac:(by_compute)) as [_ Hreq].
  apply (@set_without_memory_crashes poor_platform poor_platform_ok (demo_init true false 8 4 2) ∅ _
    (str "alpha") (str "1")); [|exact Hreq|by vm_compute|done|done].
  apply (@demo_holds poor_platform poor_platform_ok); done.
Defined.

(** Thirty keys in one bucket. *)
Definition thirty : list request :=
  (λ i, RSet [byte_of_Z (65 + Z.of_nat i)] (str "v")) <$> seq 0 30.

Lemma thirty_runs : runs true true 1 1 1 thirty.
Proof. split; [done|]; split; [done|]; split; [done|]; split; [by vm_compute|vm_compute; eauto]. Qed.

Lemma mac_bucket_overflows_witness :
  enclave_set (wire 64 (RSet (str "next") (str "v"))) (demo_state true true 1 1 1 thirty) = Fault Out_of_bounds.
Proof.
  destruct (demo_request true true 1 1 1 thirty (RSet (str "next") (str "v"))) as [[_ Hreq] Hbuf];
    [by_compute|eexists; vm_compute; done|].
  apply (mac_bucket_overflows _ (spec_run ∅ thirty) _ (str "next") (str "v") toy_mem_avail
    (demo_state_holds _ _ _ _ _ _ thirty_runs)); [vm_compute; reflexivity|exact Hreq|exact Hbuf|vm_compute; reflexivity|].
  vm_compute. discriminate.
Defined.

Lemma search_is_exact_witness :
  ∃ f pos, ht_get_o (dup_str (str "beta")) 5 (with_key_opt false sdemo) =
      Ok ((Some f, pos), with_key_opt false sdemo) ∧ f_plain f = dup_str (str "beta") ++ dup_str (str "22").
Proof.
  destruct (demo_cell sdemo _ (str "beta") (str "22") (demo_holds_run true false demo_requests (demo_runs _ _)))
    as (B & _ & _ & _ & Hinv & Habs & _); [vm_compute; reflexivity|].
  pose proof (search_is_exact toy_outside sdemo B (str "beta") false (inv_shape _ _ Hinv)) as Hs.
  rewrite Habs in Hs. assert (spec_run ∅ demo_requests !! str "beta" = Some (str "22")) as Hv by (vm_compute; reflexivity).
  rewrite Hv in Hs. apply Hs; [by_compute|vm_compute; reflexivity].
Defined.
