(* ===== verification/AssertClaims.v ===== *)
(** * Builds with assertions

    The Makefile compiles the enclave with the flags of tcmalloc, and so with NDEBUG: the
    assertions in the enclave are not checked in it.  The theorems on the store hold for builds with
    and without NDEBUG, where [within] keeps new keys alone in their buckets in a build with
    assertions.  Here is what the assertion on [kv_pos] would do otherwise. *)

From S2P Require Import Prelude CString Common Hash Core HashTable Enclave ToyPlatform Rep.
From S2P Require Import CoreProofs RootProofs.
From S2P Require Import HashTableProofs StoreProofs EnclaveProofs Service EnclaveService Wire.
From S2P Require Import Demo.

Section asserts.
Context `{Platform} `{!PlatformOk}.

(** A SET of a new key into a bucket that has keys, with assertions. *)
Lemma set_asserts s B cipher k v :
  NDEBUG = false → inv s B → mem_avail (set_rand (S (rand_calls s)) s) → set_request cipher k v → buffer_ok s cipher →
  room s B k → abs B !! k = None → B !! bin_of s k ≠ Some [] →
  enclave_set cipher s = Fault Assert_failed.
Proof.
  intros Hd Hinv Hmem Hreq Hbuf Hroom Hk0 Hne.
  destruct (enclave_set_linked s B cipher k v (inv_shape _ _ Hinv) Hmem Hreq Hbuf Hroom Hk0)
    as (HSr & t & b & l & head & mb & kv & mac_ & msg & ctr' & Hpush & _ & ->).
  destruct (pushed_shape _ _ _ _ _ _ _ _ _ _ _ _ _ HSr Hpush) as (_ & HS1 & Hb' & _).
  destruct (bin_root _ B k (sh_layout _ _ HSr)) as (Hh & _).
  apply bind_fault. eapply rebuild_tree_root_asserts; [done| |apply HS1|exact Hh|exact Hb'].
  pose proof (pu_bucket _ _ _ _ _ _ _ _ _ _ _ _ _ Hpush) as Hb.
  destruct b as [|c b]; [done|]. rewrite blen_cons. pose proof (blen_nonneg b). lia.
Qed.

(** With assertions a bucket would take one key.  In a build without NDEBUG the SET of a new key
    works if no other key is in its bucket, and ends the enclave with a failed assertion if one
    is, although the code around the assertion handles that case: [kv_pos] is the number of
    keys in the bucket. *)
Theorem assertion_allows_one_key s m cipher k v :
  NDEBUG = false → (∀ s, mem_avail s) → holds s m → set_request cipher k v → buffer_ok s cipher → m !! k = None →
  capacity (arg_enclave s) (ht_size (ht_enclave s)) m k →
  if bool_decide (keys_in (ht_size (ht_enclave s)) (bucket_of (ht_size (ht_enclave s)) k) m = [])
  then ∃ s', enclave_set cipher s = Ok (reply s (dup_str k), s') ∧ holds s' (<[k := v]> m) ∧ arg_enclave s' = arg_enclave s
  else enclave_set cipher s = Fault Assert_failed.
Proof.
  intros Hd Hmem (B & Hinv & <-) Hreq Hbuf Hk0 Hw.
  pose proof (inv_shape _ _ Hinv) as HS.
  pose proof (capacity_room s B k HS Hw) as Hroom. case_bool_decide as Hnil.
  - apply (empty_bucket s B k HS) in Hnil as Hb.
    destruct (enclave_set_insert s B cipher k v (or_intror Hb) Hinv (Hmem s) Hreq Hbuf Hroom Hk0)
      as (s' & B' & Hrun & Hinv' & Habs & Harg & _).
    exists s'. split; [done|]. split; [by exists B'|done].
  - eapply set_asserts; try done. by rewrite <-(empty_bucket s B k HS).
Qed.
End asserts.

(** The small platform in a build with assertions. *)
Definition debug_platform : Platform := {|
  sgx_aes_ctr_encrypt := toy_ctr;
  sgx_aes_ctr_decrypt := toy_ctr;
  sgx_rijndael128_cmac_msg := toy_cmac;
  sgx_read_rand := λ call n, replicate (Z.to_nat n) (byte_of_Z (Z.of_nat call + 1));
  sgx_is_outside_enclave := λ _ _, true;
  ocall_tc_malloc := λ h _, Some (fresh (dom h));
  ocall_tc_realloc := λ _ _ _, true;
  NDEBUG := false;
  sys_write := λ _, 1;
|}.

Lemma debug_platform_ok : @PlatformOk debug_platform.
Proof. destruct toy_platform_ok as [H1 H2 H3 H4 H5]. by split. Qed.

Lemma debug_mem_avail s : @mem_avail debug_platform s.
Proof. split; [intros; simpl; eauto|done]. Qed.

(** Two keys and one bucket. *)
Lemma assertion_allows_one_key_witness :
  ∃ s', enclave_set (H := debug_platform) (wire 64 (RSet (str "one") (str "1"))) (demo_init true false 1 1 1) =
      Ok (reply (demo_init true false 1 1 1) (dup_str (str "one")), s') ∧
    enclave_set (H := debug_platform) (wire 64 (RSet (str "two") (str "2"))) s' = Fault Assert_failed.
Proof.
  destruct (wire_encodes 64 (RSet (str "one") (str "1")) ltac:(by_compute)) as [_ Hreq1].
  destruct (wire_encodes 64 (RSet (str "two") (str "2")) ltac:(by_compute)) as [_ Hreq2].
  pose proof (@assertion_allows_one_key debug_platform debug_platform_ok (demo_init true false 1 1 1) ∅ _ (str "one") (str "1")
    eq_refl debug_mem_avail (@demo_holds debug_platform debug_platform_ok true false 1 1 1 ltac:(done) ltac:(done) ltac:(done))
    Hreq1 ltac:(by vm_compute) ltac:(done)) as Hone.
  destruct Hone as (s' & Hrun & Hm' & Harg); [by split|].
  exists s'. split; [exact Hrun|].
  assert (s' = match enclave_set (H := debug_platform) (wire 64 (RSet (str "one") (str "1"))) (demo_init true false 1 1 1) with
    Ok (_, x) => x | Fault _ => s' end) as Hs' by by rewrite Hrun.
  assert (ht_size (ht_enclave s') = 1) as Hsz by (rewrite Hs'; vm_compute; reflexivity).
  assert (max_buf_size (arg_enclave s') = 64) as Hmax by by rewrite Harg.
  pose proof (@assertion_allows_one_key debug_platform debug_platform_ok s' _ _ (str "two") (str "2")
    eq_refl debug_mem_avail Hm' Hreq2) as Htwo. rewrite Hsz in Htwo.
  apply Htwo; [split; [by rewrite Hmax|by vm_compute]|by vm_compute|].
  rewrite Harg. split; [by vm_compute|done].
Defined.
