(* ===== verification/DispatchClaims.v ===== *)
(** * Theorems on the dispatcher and the workers

    Order and completeness of the jobs under every interleaving, ownership of the roots, what
    depends on the workers that have started or left, progress of a worker, and the end of
    the workers. *)

From S2P Require Import Prelude CString CLib Common Hash Core HashTable Enclave Config.
From S2P Require Import ToyPlatform Rep CoreProofs RootProofs HashTableProofs StoreProofs.
From S2P Require Import EnclaveProofs Service EnclaveService Dispatch.
From S2P Require Import Isolation DispatchProofs Client ClientProofs Wire Demo.

Section order.
Context `{Platform}.

(** C9. Jobs are neither lost, nor repeated, nor reordered.  After every interleaving of
    starting workers, messages and steps of workers, and for every worker: the jobs put
    into its queue are, in order, the jobs it has run followed by the ones that still wait
    (a job that was answered but is not yet popped does not count as waiting). *)
Theorem jobs_in_order s evs d i q :
  dsteps (init_queues s) evs d → queue d !! i = Some q →
  jobs_of i (pushed d) = jobs_of i (ran d) ++ pending (workers d !! i) q.
Proof. intros Hs. apply (ff_order _ (fifo_reachable s evs d Hs)). Qed.

(** The part of the worker [w] in a memory laid out as [B]: its buckets with their entries, their
    roots, and the block that the allocator gives next. *)
Definition worker_part s (B : list bucket) (w : Z) : part :=
  let own (j : nat) := Z.of_nat j / per_worker s = w in
  mkPart own (λ r, ∃ j, own j ∧ Z.of_nat r = Z.of_nat j / ratio_root_per_buckets s)
    (λ l, (∃ j b, own j ∧ B !! j = Some b ∧ l ∈ c_loc <$> b) ∨ ocall_tc_malloc (heap s) sizeof_entry = Some l).

(** The allocator answers the same in both memories. *)
Definition same_allocator s t : Prop :=
  (∀ n, ocall_tc_malloc (heap t) n = ocall_tc_malloc (heap s) n) ∧
  (∀ l n, ocall_tc_realloc (heap t) l n = ocall_tc_realloc (heap s) l n).

Lemma worker_part_closed `{!PlatformOk} s B w : layout s B → closed (worker_part s B w) s.
Proof.
  intros HL. assert (∀ j p, ht_table (ht_enclave s) !! j = Some p → ∃ b, B !! j = Some b ∧ chain (heap s) p b) as Hch.
  { intros j p Hp. destruct (Forall2_lookup_l _ _ _ _ _ (ly_chains _ _ HL) Hp) as (b & Hb & Hc). by exists b. }
  split.
  - intros j p Hj Hp l ->. destruct (Hch j _ Hp) as ([|c b] & Hb & Hc); [done|]. destruct Hc as [[= ->] _].
    left. exists j, (c :: b). split; [done|]. split; [done|]. set_solver.
  - intros l e [(j & b & Hj & Hb & Hl)|Hnew%malloc_ok] He l' Hn; [|congruence].
    destruct (table_get_ok s B HL j b Hb) as (p & _ & Hc). left. exists j, b. split; [done|]. split; [done|].
    by eapply chain_next.
Qed.

(** C17. A worker sees and changes only its part of the store.  Let the job of a worker [w] return
    [v] from [s], whose memory is laid out as [B], and let [t] agree with [s] on the buckets,
    MAC buckets, roots and entries of [w].  Outside of them [t] may hold anything: the other
    workers may be at any point of a job, their chains, MACs and roots half written.  Then
    the job returns the same from [t], the part of [w] is again the same in both, and
    nothing outside of it is changed.  (The allocator and the random numbers, which
    the workers share, must answer the same, and no entry may be freed.) *)
Theorem workers_do_not_interfere `{!PlatformOk} s t B cipher r w v s' :
  threads_ok s → shape s B → encodes cipher r → buffer_ok s cipher →
  thread_of (dup_str (req_key r)) s = Ok (w, s) → worker_job cipher s = Ok (v, s') →
  same_setup s t → same_part (worker_part s B w) s t → dom (heap s) ⊆ dom (heap t) →
  same_allocator s t → rand_calls t = rand_calls s →
  ∃ t', worker_job cipher t = Ok (v, t') ∧
    same_part (worker_part s B w) s' t' ∧ same_rest (worker_part s B w) t t'.
Proof.
  intros Ht HS Henc [_ Hbuf] Hw Hrun Hsetup Hpart Hdom [Hmal Hre] Hrand. pose proof (encodes_nonul _ _ Henc) as Hk.
  pose proof (sh_layout _ _ HS) as HL. destruct (bin_range s B (req_key r) HL) as [_ Hi].
  pose proof (per_worker_pos s Ht) as Hp. pose proof (co_ratio _ (ly_cfg _ _ HL)) as Hr.
  rewrite (thread_of_run s (req_key r) Hk (to_size _ Ht) (to_pos _ Ht) Hp), <-Hi in Hw. injection Hw as <-.
  assert (blen cipher < 2 ^ 32) as Hlt by (unfold INT_MAX in *; lia).
  destruct (sim_job (worker_part s B _) s t Hmal Hre (λ l Hl, or_intror Hl) (bin_of s (req_key r)) Hr
    (λ j, same_root_same_worker s _ j Ht) (ex_intro _ _ (conj eq_refl (Z2Nat.id _ (Z.div_pos _ _ (Zle_0_nat _) Hr))))
    (req_key r) Hk (to_size _ Ht) Hi cipher r eq_refl Henc Hlt s t v s')
    as (b & t' & Ht' & Hag & <-); [|exact Hrun|].
  - split; [by split; [apply same_setup_refl|]|done|done|by apply worker_part_closed|done|done|apply same_part_refl].
  - exists t'. split; [done|]. split; [apply (ag_part _ _ _ _ _ _ Hag)|apply (ag_rest _ _ _ _ _ _ Hag)].
Qed.

(** C16. A GET, SET or APPEND that arrives is put at the end of the queue of the worker that
    owns the bucket of its key, with the socket of its client and an unchanged copy of the
    message; nothing else in the state changes.  (Every worker has started and none has quit, and
    the worker whose copy of the header is in use has not returned.) *)
Theorem request_is_queued d p r :
  threads_ok (d_enclave d) → has_header d → manned d → length (queue d) = Z.to_nat (num_threads (arg_enclave (d_enclave d))) →
  encodes (ep_buf p) r → buffer_ok (d_enclave d) (ep_buf p) →
  ∃ i q buf, thread_of (dup_str (req_key r)) (d_enclave d) = Ok (Z.of_nat i, d_enclave d) ∧ queue d !! i = Some q ∧
    enclave_message_pass p d =
    Ok (buf, log_push (Z.of_nat i, mkJob (ep_client_sock p) (ep_buf p))
               (set_queue (<[i := q ++ [mkJob (ep_client_sock p) (ep_buf p)]]> (queue d)) d)).
Proof.
  intros Ht Hhd Hman Hl He Hb.
  destruct (pass_request_run d p (req_key r)) as (i & q & buf & H1 & H2 & _ & H3); eauto 10.
Qed.

(** C34. An uneven configuration is out of bounds.  The number of threads is not checked
    against the number of buckets; when a key's bucket lies behind the last full share, the
    index of its worker is not below the number of threads and, once a worker has started, the
    message pushes to a queue that does not exist. *)
Theorem uneven_threads_overflow d p r :
  0 < ht_size (ht_enclave (d_enclave d)) ≤ INT_MAX → 0 < num_threads (arg_enclave (d_enclave d)) →
  0 < per_worker (d_enclave d) → has_header d →
  length (queue d) = Z.to_nat (num_threads (arg_enclave (d_enclave d))) →
  encodes (ep_buf p) r → buffer_ok (d_enclave d) (ep_buf p) →
  num_threads (arg_enclave (d_enclave d)) ≤
    bucket_of (ht_size (ht_enclave (d_enclave d))) (req_key r) / per_worker (d_enclave d) →
  enclave_message_pass p d = Fault Out_of_bounds.
Proof. intros Hs Hn Hp Hhd Hl He Hb. apply (pass_request_oob d p (req_key r)); eauto. Qed.

(** C8. A message that comes before its worker uses what is not there.  Nothing makes the main
    thread wait for the workers.  A request that is passed while no worker has started reads
    the table header that [enclave_init_values] has left dangling; a request that is passed
    when some workers have started, but not the one that owns the bucket of its key, locks
    a mutex that nothing has initialised. *)
Theorem message_before_worker d p r i :
  thread_of (dup_str (req_key r)) (d_enclave d) = Ok (Z.of_nat i, d_enclave d) → (i < length (queue d))%nat →
  encodes (ep_buf p) r → buffer_ok (d_enclave d) (ep_buf p) → workers d !! i = None →
  (header d = None → enclave_message_pass p d = Fault Bad_ptr) ∧
  (has_header d → enclave_message_pass p d = Fault Uninit).
Proof.
  intros Hi Hlt He Hb Hw. split.
  - intros Hn. apply (pass_request_dangling d p (req_key r)); [|by eauto|done]. unfold use_header. msimpl.
    unfold id. by rewrite Hn.
  - intros Hhd. apply (pass_request_unmanned d p (req_key r) i); eauto.
Qed.


(** C28. EXIT and exit are counted, and the last one ends the workers: the message goes back
    to its client, and when the count reaches the number of clients, and every queue then has
    its worker, one quit job is put at the end of every queue, behind all requests that are
    still waiting. *)
Theorem last_exit_stops_workers d p :
  has_cmd (ep_buf p) "EXIT" "exit" → blen (ep_buf p) = max_buf_size (arg_enclave (d_enclave d)) →
  blen (queue d) = num_threads (arg_enclave (d_enclave d)) → (exit_count d + 1 = ep_num_clients p → manned d) →
  let d1 := set_exit_count (exit_count d + 1) (add_sent (ep_client_sock p, ep_buf p) d) in
  enclave_message_pass p d =
  Ok (ep_buf p,
      if exit_count d + 1 =? ep_num_clients p
      then push_everywhere (the_quit_job (max_buf_size (arg_enclave (d_enclave d))))
             (set_enclave (add_out "All threads are finished" (d_enclave d)) d1)
      else d1).
Proof. apply pass_exit_run. Qed.
End order.

Section store.
Context `{Platform} `{!PlatformOk} (Hside : outside_ok) (Hmem : ∀ s, mem_avail s).

Local Instance service_ok : KvServiceOk enclave := enclave_service_ok Hside Hmem.

(** A worker answers everything and then ends.  When the quit job has been put behind the
    requests [js] in the queue of a worker at the top of its loop, the worker, left alone for
    three steps per request and two more, answers every request, in order, each to the client
    that sent it and with the answer of the map, and then leaves its loop with an empty
    queue. *)
Theorem worker_answers_then_quits d m i js n rs :
  holds (d_enclave d) m → has_header d → workers d !! i = Some WLoop → queue d !! i = Some (js ++ [the_quit_job n]) →
  kv_admits_all (d_enclave d) m (job_buf <$> js) rs →
  ∃ d' msgs, worker_steps (3 * length js + 2) (Z.of_nat i) d = Ok (tt, d') ∧
    queue d' = <[i := []]> (queue d) ∧ workers d' = <[i := WQuit]> (workers d) ∧
    sent d' = sent d ++ msgs ∧ holds (d_enclave d') (spec_run m rs) ∧
    answered (max_buf_size (arg_enclave (d_enclave d))) m js rs msgs.
Proof.
  intros Hm Hhd Hw Hq Hall.
  destruct (worker_drain (KvService0 := enclave_service) (λ _ _, eq_refl) (λ _, eq_refl) d m i js _ rs Hm Hhd Hw Hq Hall)
    as (d1 & msgs & Hrun & Hq1 & Hw1 & Hs1 & Hm1 & Ha1). apply lookup_lt_Some in Hq as Hlt.
  eexists _, msgs. rewrite (worker_steps_app _ _ _ _ _ _ Hrun).
  rewrite (worker_quits d1 i n []) by (rewrite ?Hw1, ?Hq1; by rewrite ?list_lookup_insert_eq).
  split; [done|]. simpl. by rewrite Hq1, Hw1, list_insert_insert_eq.
Qed.
End store.

(** ** A schedule of two workers *)
Section runs.
Context `{Platform}.

Fixpoint drun (evs : list event) : D unit :=
  match evs with [] => mret tt | ev :: evs' => event_step ev;; drun evs' end.

Lemma drun_dsteps d0 evs0 d1 evs d2 : dsteps d0 evs0 d1 → drun evs d1 = Ok (tt, d2) → dsteps d0 (evs0 ++ evs) d2.
Proof.
  revert evs0 d1. induction evs as [|ev evs IH]; intros evs0 d1 Hs.
  - intros [= <-]. by rewrite app_nil_r.
  - intros ([] & d' & Hev & Hrun)%bind_inv. change (ev :: evs) with ([ev] ++ evs). rewrite app_assoc.
    eapply IH; [|done]. by econstructor.
Qed.
End runs.

Definition demo_msg (sock : Z) (r : request) : event := ERequest (mkEcallParams (wire 64 r) sock 2).
Abbreviation demo_dispatch := (init_queues (demo_init true false 8 4 2)).

(** A worker starts with the tables of the host; the header is then the copy of worker [k]. *)
Definition starts (k : nat) : event := EStart (demo_ht 8) (demo_bufs 8) k.

(** The two workers have started. *)
Definition demo_started : dispatch :=
  match drun [starts 0; starts 0] demo_dispatch with Ok (_, d) => d | Fault _ => demo_dispatch end.

Lemma demo_manned : has_header demo_started ∧ manned demo_started.
Proof.
  split; [by exists 0%nat|]. intros [|[|i]] Hi; [by eexists|by eexists|]. simpl in Hi. lia.
Qed.

(** Two clients, 5 and 6; alpha belongs to worker 0, gamma to worker 1. *)
Definition demo_schedule : list event :=
  [starts 0; starts 0; demo_msg 5 (RSet (str "alpha") (str "1")); EWorker 0; demo_msg 6 (RSet (str "gamma") (str "2"));
   EWorker 1; demo_msg 6 (RGet (str "alpha")); EWorker 1; EWorker 0].

Lemma demo_schedule_runs : ∃ d, drun demo_schedule demo_dispatch = Ok (tt, d).
Proof.
  destruct (drun demo_schedule demo_dispatch) as [[[] d]|] eqn:E; [by exists d|].
  assert (is_ok (drun demo_schedule demo_dispatch) = true) as Hok by (vm_compute; reflexivity). by rewrite E in Hok.
Qed.

Lemma jobs_in_order_witness :
  ∃ d, drun demo_schedule demo_dispatch = Ok (tt, d) ∧
    ∀ i q, queue d !! i = Some q → jobs_of i (pushed d) = jobs_of i (ran d) ++ pending (workers d !! i) q.
Proof.
  destruct demo_schedule_runs as [d Hd]. exists d. split; [exact Hd|]. intros i q.
  apply (jobs_in_order (demo_init true false 8 4 2) demo_schedule d).
  apply (drun_dsteps demo_dispatch [] demo_dispatch); [constructor|exact Hd].
Defined.

(** The small store shares its buckets out evenly. *)
Lemma demo_threads ko mo : threads_ok (demo_init ko mo 8 4 2).
Proof. split; [done|done|done|]. exists 2. by split. Qed.

(** The store of [demo_requests]; worker 0 has the keys alpha and beta, worker 1 has gamma. *)
Abbreviation sfull := (demo_state true true 8 4 2 demo_requests).
Lemma sfull_config :
  arg_enclave sfull = demo_arg true true 8 4 2 ∧ ratio_root_per_buckets sfull = 2 ∧ ht_size (ht_enclave sfull) = 8.
Proof. split_and!; vm_compute; reflexivity. Qed.

(** Worker 1 in the middle of something: the entry at [l], its MAC bucket and its root are junk. *)
Definition half_written (l : loc) (s : enclave) : enclave :=
  set_MACTable (<[3%nat := []]> (MACTable s)) (set_macbuf (<[6%nat := mkMACentry (-1) []]> (MACbuf_enclave s))
    (set_heap (<[l := mkEntry 0 0 0 None [] [] (Some l)]> (heap s)) s)).

Lemma half_written_same s B l b :
  shape s B → ratio_root_per_buckets s = 2 → per_worker s = 4 → B !! 6%nat = Some b → l ∈ c_loc <$> b →
  same_part (worker_part s B 0) s (half_written l s).
Proof.
  intros HS Hr Hp Hb Hl. pose proof (sh_layout _ _ HS) as HL. split; simpl; rewrite ?Hp; try done.
  - intros j Hj. apply list_lookup_insert_ne. intros <-. by compute in Hj.
  - intros r (j & Hj & Hq). apply list_lookup_insert_ne. intros <-. rewrite Hr in Hq.
    pose proof (Z.div_mod (Z.of_nat j) 2 ltac:(lia)). pose proof (Z.div_small_iff (Z.of_nat j) 4 ltac:(lia)).
    pose proof (Z.mod_pos_bound (Z.of_nat j) 2 ltac:(lia)). lia.
  - intros l' Hl'. apply lookup_insert_ne. intros <-. destruct (table_get_ok s B HL 6 b Hb) as (p & _ & Hc).
    apply list_elem_of_fmap in Hl as (c & -> & Hc'). destruct Hl' as [(j & b' & Hj & Hb' & Hin)|Hnew].
    + apply (nodup_buckets c_loc B j 6 b' b c (ly_locs _ _ HL) Hb' Hb); [|done|done].
      intros ->. by compute in Hj.
    + pose proof (malloc_ok (heap s) sizeof_entry _ Hnew) as Hnone. by rewrite (chain_lookup _ _ _ _ Hc Hc') in Hnone.
Qed.

Lemma workers_do_not_interfere_witness :
  ∃ l v s' t', heap (half_written l sfull) !! l ≠ heap sfull !! l ∧
    worker_job (wire 64 (RSet (str "k4") (str "9"))) sfull = Ok (v, s') ∧
    worker_job (wire 64 (RSet (str "k4") (str "9"))) (half_written l sfull) = Ok (v, t').
Proof.
  assert (is_ok (worker_job (wire 64 (RSet (str "k4") (str "9"))) sfull) = true) as Hok by (vm_compute; reflexivity).
  assert (spec_run ∅ demo_requests !! str "gamma" = Some (str "333")) as Hg by (vm_compute; reflexivity).
  generalize Hok sfull_config (demo_state_holds true true 8 4 2 demo_requests (demo_runs _ _)). clear Hok.
  generalize sfull as s. intros s Hok (Ha & Hr & Hs) Hh.
  destruct (demo_cell s _ (str "gamma") (str "333") Hh Hg) as (B & b1 & c & b2 & Hinv & _ & Hb & _ & He).
  pose proof (inv_shape _ _ Hinv) as HS.
  assert (bin_of s (str "gamma") = 6%nat) as Hbin by (unfold bin_of; rewrite Hs; vm_compute; reflexivity). rewrite Hbin in Hb.
  assert (per_worker s = 4) as Hp by (unfold per_worker; by rewrite Ha, Hs).
  assert (threads_ok s) as Ht by (split; rewrite ?Ha, ?Hr, ?Hs, ?Hp; try done; by exists 2).
  assert (c_loc c ∈ c_loc <$> b1 ++ c :: b2) as Hin by (rewrite fmap_app; set_solver).
  destruct (table_get_ok s B (sh_layout _ _ HS) 6 _ Hb) as (p & _ & Hc).
  assert (heap s !! c_loc c = Some (c_ent c)) as Hloc by (eapply chain_lookup; [exact Hc|set_solver]).
  destruct (worker_job (wire 64 (RSet (str "k4") (str "9"))) s) as [[v s']|f] eqn:E; [|done].
  destruct (workers_do_not_interfere s (half_written (c_loc c) s) B (wire 64 (RSet (str "k4") (str "9")))
    (RSet (str "k4") (str "9")) 0 v s') as (t' & Ht' & _).
  - exact Ht.
  - exact HS.
  - apply wire_encodes. by_compute.
  - split; rewrite wire_len by by_compute; rewrite ?Ha; done.
  - rewrite (thread_of_run s); [|by_compute|by rewrite Hs|by rewrite Ha|by rewrite Hp].
    rewrite Hs, Hp. vm_compute. reflexivity.
  - exact E.
  - by split.
  - by apply (half_written_same s B _ (b1 ++ c :: b2)).
  - simpl. rewrite dom_insert. set_solver.
  - assert (dom (heap (half_written (c_loc c) s)) = dom (heap s)) as Hdom by (apply dom_insert_lookup_L; by eexists).
    split; [|done]. intros n. cbn [ocall_tc_malloc toy_platform]. by rewrite Hdom.
  - done.
  - exists (c_loc c), v, s', t'. split; [|by split]. simpl. rewrite lookup_insert_eq, Hloc. intros [= Heq].
    destruct He as [_ _ Hks _ _ _ _ _ _]. rewrite <-Heq in Hks. simpl in Hks. pose proof (blen_nonneg (str "gamma")). lia.
Defined.

Lemma demo_buffer ko mo b t q : wire_ok 64 q → buffer_ok (demo_init ko mo b 4 t) (wire 64 q).
Proof. intros Hq. split; rewrite wire_len by done; done. Qed.

Lemma request_is_queued_witness :
  let p := mkEcallParams (wire 64 (RSet (str "gamma") (str "2"))) 6 2 in
  ∃ i q buf, thread_of (dup_str (str "gamma")) (demo_init true false 8 4 2) = Ok (Z.of_nat i, demo_init true false 8 4 2) ∧
    queue demo_started !! i = Some q ∧
    enclave_message_pass p demo_started =
    Ok (buf, log_push (Z.of_nat i, mkJob 6 (ep_buf p)) (set_queue (<[i := q ++ [mkJob 6 (ep_buf p)]]> (queue demo_started)) demo_started)).
Proof.
  intros p. apply (request_is_queued demo_started p (RSet (str "gamma") (str "2")) (demo_threads _ _)); [apply demo_manned|apply demo_manned|reflexivity| |].
  - apply wire_encodes. by_compute.
  - apply demo_buffer. by_compute.
Defined.

(** gamma belongs to worker 1; no worker has started, or worker 0 only. *)
Lemma message_before_worker_witness :
  let p := mkEcallParams (wire 64 (RSet (str "gamma") (str "2"))) 6 2 in
  enclave_message_pass p demo_dispatch = Fault Bad_ptr ∧
  match drun [starts 0] demo_dispatch with Ok (_, d) => enclave_message_pass p d = Fault Uninit | Fault _ => False end.
Proof.
  assert (encodes (wire 64 (RSet (str "gamma") (str "2"))) (RSet (str "gamma") (str "2"))) as He.
  { apply wire_encodes. by_compute. }
  intros p. split.
  - refine (proj1 (message_before_worker demo_dispatch p (RSet (str "gamma") (str "2")) 1 _ _ He _ _) _);
      [vm_compute; reflexivity|simpl; lia|apply demo_buffer; by_compute|reflexivity|reflexivity].
  - cbv iota beta. cbn [drun event_step].
    refine (proj2 (message_before_worker _ p (RSet (str "gamma") (str "2")) 1 _ _ He _ _) _);
      [vm_compute; reflexivity|simpl; lia|apply demo_buffer; by_compute|reflexivity|by exists 0%nat].
Defined.

(** Eight buckets and three workers: the last two buckets belong to nobody. *)
Lemma uneven_threads_overflow_witness :
  enclave_message_pass (mkEcallParams (wire 64 (RGet (str "gamma"))) 5 1) (set_header (Some 0%nat) (init_queues (demo_init true false 8 4 3))) =
  Fault Out_of_bounds.
Proof.
  apply (uneven_threads_overflow (set_header (Some 0%nat) (init_queues (demo_init true false 8 4 3))) _ (RGet (str "gamma")));
    [split; [reflexivity|vm_compute; discriminate]|reflexivity|reflexivity|by exists 0%nat|reflexivity| | |vm_compute; discriminate].
  - apply wire_encodes. by_compute.
  - apply demo_buffer. by_compute.
Defined.



Lemma last_exit_stops_workers_witness :
  let p := mkEcallParams (str "EXIT" ++ zeros 60) 5 1 in
  ∃ d', enclave_message_pass p demo_started = Ok (ep_buf p, d') ∧
    queue d' = [[the_quit_job 64]; [the_quit_job 64]] ∧ sent d' = [(5, ep_buf p)].
Proof.
  intros p. eexists. split; [|split].
  - refine (last_exit_stops_workers demo_started p _ _ _ _); [eexists; left; reflexivity|reflexivity|reflexivity|intros _; apply demo_manned].
  - reflexivity.
  - reflexivity.
Defined.

(** Worker 0 with two jobs of client 5 in its queue. *)
Definition demo_jobs : list request := [RSet (str "alpha") (str "1"); RGet (str "alpha")].
Definition demo_queue : dispatch :=
  mkDispatch (demo_init true false 8 4 2) [(mkJob 5 <$> (wire 64 <$> demo_jobs)) ++ [the_quit_job 64]; []] 2 0
    [WLoop; WLoop] [] [] [] (Some 1%nat).

Lemma worker_answers_then_quits_witness :
  ∃ d' msgs, worker_steps 8 0 demo_queue = Ok (tt, d') ∧ queue d' = [[]; []] ∧ workers d' = [WQuit; WLoop] ∧
    sent d' = msgs ∧ holds (d_enclave d') (spec_run ∅ demo_jobs) ∧
    answered 64 ∅ (mkJob 5 <$> (wire 64 <$> demo_jobs)) demo_jobs msgs.
Proof.
  assert (holds (d_enclave demo_queue) ∅) as Hm by (apply demo_holds; done).
  assert (kv_admits_all (d_enclave demo_queue) ∅ (wire 64 <$> demo_jobs) demo_jobs) as Hadm.
  { apply (admits_run_ok (demo_init true false 8 4 2) ∅ demo_jobs). vm_compute. reflexivity. }
  destruct (worker_answers_then_quits toy_outside toy_mem_avail demo_queue ∅ 0 (mkJob 5 <$> (wire 64 <$> demo_jobs)) 64
    demo_jobs Hm (ex_intro _ 1%nat (conj eq_refl eq_refl)) eq_refl eq_refl Hadm) as (d' & msgs & H1 & H2 & H3 & H4 & H5 & H6).
  exists d', msgs. split; [exact H1|]. split; [exact H2|]. split; [exact H3|]. split; [exact H4|].
  split; [exact H5|exact H6].
Defined.
