(* ===== verification/HashClaims.v ===== *)
(** * Theorems on the hash functions *)

From S2P Require Import Prelude CString Common Hash ToyPlatform Demo.

(** C25. The bucket of a key is its polynomial hash, computed without overflow trouble: as
    long as no proper prefix of the key evaluates to [ULONG_MAX] (where the loop would
    stop), the loop of [ht_hash] on 64-bit words computes the polynomial of the characters
    with the coefficients 61 and the start 7 modulo 2^64, and its remainder is an index of
    the table; the hint is the polynomial with coefficient 11 in one byte. *)
Theorem ht_hash_is_polynomial s k :
  nonul k → 0 < ht_size (ht_enclave s) ≤ INT_MAX →
  (∀ p c r, k = p ++ c :: r → u64 (poly 61 7 p) ≠ ULONG_MAX ∧ u64 (poly 11 7 p) ≠ ULONG_MAX) →
  ht_hash (dup_str k) s = Ok (u64 (poly 61 7 k) mod ht_size (ht_enclave s), s) ∧
  0 ≤ u64 (poly 61 7 k) mod ht_size (ht_enclave s) < ht_size (ht_enclave s) ∧
  key_hash_func (dup_str k) = Ok (u64 (poly 11 7 k) mod 256).
Proof.
  intros Hk Hs Hp. rewrite ht_hash_dup, bucket_of_mod, key_hash_dup by done. unfold hint_of.
  rewrite !hash_loop_poly; [|lia|done|by intros; eapply Hp|lia|done|by intros; eapply Hp].
  split; [done|]. split; [|done]. apply Z.mod_pos_bound. lia.
Qed.

Lemma ht_hash_is_polynomial_witness :
  ht_hash (dup_str (str "key")) (demo_init true false 8 4 2) =
    Ok (u64 (poly 61 7 (str "key")) mod 8, demo_init true false 8 4 2) ∧
  0 ≤ u64 (poly 61 7 (str "key")) mod 8 < 8 ∧
  key_hash_func (dup_str (str "key")) = Ok (u64 (poly 11 7 (str "key")) mod 256).
Proof.
  apply (ht_hash_is_polynomial (demo_init true false 8 4 2) (str "key")); [by_compute|split; [done|vm_compute; discriminate]|].
  intros p c r Hp. change (str "key") with [x6b; x65; x79] in Hp.
  destruct p as [|a [|b [|d p]]]; inversion Hp; subst; [split; vm_compute; discriminate..|].
  by destruct p.
Defined.
