(* ===== verification/HostClaims.v ===== *)
(** * Theorems on a host that does what it likes

    The table, the entries and the MAC buckets belong to the host, which may write anything there
    between two jobs, and it chooses the table header with which it enters an ecall.  What that
    cannot change, and where it reaches the memory of the enclave. *)

From stdpp Require Import relations.
From S2P Require Import Prelude CString CLib Common Hash Core HashTable Enclave Config Types.
From S2P Require Import ToyPlatform Rep CoreProofs RootProofs HashTableProofs StoreProofs.
From S2P Require Import EnclaveProofs Service EnclaveService Dispatch DispatchProofs Server Wire Demo.

Section host.
Context `{Platform}.
Implicit Types (s : enclave).

(** The host writes to its memory, or starts a worker with another table header; the other
    globals of the enclave are out of its reach. *)
Record host_writes s s' : Prop := {
  hw_memory : memory_typed s';
  hw_roots : MACTable s' = MACTable s;
  hw_arg : arg_enclave s' = arg_enclave s;
  hw_ratio : ratio_root_per_buckets s' = ratio_root_per_buckets s;
  hw_rand : rand_calls s' = rand_calls s;
}.

(** The workers run jobs, whatever their buffers hold, and the host writes in between. *)
Inductive enclave_step : enclave → enclave → Prop :=
  | Step_job cipher v s s' : worker_job cipher s = Ok (v, s') → enclave_step s s'
  | Step_host s s' : host_writes s s' → enclave_step s s'.

(** What the enclave has of its own. *)
Definition trusted s : Arg * Z * Z := (arg_enclave s, ratio_root_per_buckets s, blen (MACTable s)).

Lemma step_typed s s' : enclave_step s s' → typed s → typed s' ∧ trusted s' = trusted s.
Proof.
  intros [cipher v s1 s1' Hrun|s1 s1' [Hm Hr Ha Hq _]] Ht.
  - destruct (job_yields cipher _ _ _ Ht Hrun) as [Ht' _]. split; [done|].
    apply (keeps_run _ _ _ _ _ (keeps_worker_job cipher)) in Hrun. unfold config, trusted in *. congruence.
  - split; [split; [done|rewrite Hr; apply Ht]|unfold trusted; congruence].
Qed.

(** C7. The objects of the enclave keep their types.  Start with the roots [enclave_init_values]
    makes; then let the workers run any buffers as jobs and the host write any values of the
    C types to untrusted memory, in any order.  As long as no access leaves its object, all
    sizes and ranges are those of the C types: entries have 32-bit lengths, an 8-bit hint, 16
    bytes of counter and MAC, MAC buckets 480 bytes.  The options, the number of roots and of
    buckets per root stay, every root is zero or the CMAC of some message under the key of
    the enclave, never bytes of the host's choice, and the answer to a job has the length of its
    buffer. *)
Theorem enclave_keeps_types ht h mb arg s0 s :
  enclave_init_values ht h mb arg = Ok s0 → memory_typed s0 → rtc enclave_step s0 s →
  typed s ∧ arg_enclave s = arg ∧ ratio_root_per_buckets s = Z.quot (ht_size ht) (tree_root_size arg) ∧
  length (MACTable s) = Z.to_nat (tree_root_size arg) ∧
  ∀ cipher buf s', worker_job cipher s = Ok (Reply buf, s') → blen buf = blen cipher.
Proof.
  intros Hinit Hmem Hsteps. unfold enclave_init_values, zdiv, mbind, res_bind in Hinit.
  destruct (_ =? 0); [done|]. injection Hinit as <-. set (s0 := mkEnclave _ _ _ _ _ _ _ _) in *.
  assert (typed s0) as Ht0 by (split; [done|apply Forall_replicate; split; [done|by left]]).
  assert (typed s ∧ trusted s = trusted s0) as [Ht Htr].
  { clear Hmem. induction Hsteps as [s|s s1 s2 Hs _ IH]; [done|].
    destruct (step_typed _ _ Hs Ht0) as [Ht1 Htr1]. destruct (IH Ht1) as [Ht2 Htr2]. split; congruence. }
  unfold trusted in Htr. injection Htr as Ha Hq Hl. split; [done|]. split; [done|]. split; [done|]. split.
  - simpl in Hl. unfold blen in Hl. rewrite length_replicate in Hl. lia.
  - intros cipher buf s' Hrun. by apply (job_yields cipher _ _ _ Ht Hrun).
Qed.

(** A SET of the first key below its root writes that root, wherever it is. *)
Lemma first_key_writes_root `{!PlatformOk} s B cipher k v :
  let q := bucket_of (ht_size (ht_enclave s)) k / ratio_root_per_buckets s in
  mem_avail s → NDEBUG = true ∨ B !! bin_of s k = Some [] →
  shape s B → set_request cipher k v → buffer_ok s cipher → room s B k → abs B !! k = None →
  root_macs s B q = [] → q < blen (MACTable s) →
  ∃ m s', enclave_set cipher s = Ok (reply s (dup_str k), s') ∧ blen m = MAC_SIZE ∧
    MACTable s' = <[Z.to_nat q := m]> (MACTable s).
Proof.
  intros q Hmem Hpass HS Hreq Hbuf Hroom Hk0 Hnone Hq.
  destruct (enclave_set_linked s B cipher k v HS Hmem Hreq Hbuf Hroom Hk0)
    as (HSr & t & b & l & head & mb & kv & mac_ & msg & ctr' & Hpush & Htl & ->).
  destruct (pushed_shape _ _ _ _ _ _ _ _ _ _ _ _ _ HSr Hpush) as (_ & HS1 & Hb' & pre & post & Hold & Hnew & Hpos).
  destruct (bin_root _ B k (sh_layout _ _ HSr)) as (Hh & _).
  pose proof (pu_bucket _ _ _ _ _ _ _ _ _ _ _ _ _ Hpush) as Hb.
  change (bin_of (set_rand _ s) k) with (bin_of s k) in Hb.
  assert (pre ++ post = []) as Hnil by (etrans; [symmetry; exact Hold|exact Hnone]).
  destruct (rebuild_tree_root_ok _ _ _ _ (blen b) true (zeros MAC_SIZE) pre (c_mac _) post ltac:(intros _;
    destruct Hpass as [?|Hb0]; [by left|right; by assert (b = []) as -> by congruence]) (sh_layout _ _ HS1) Hh Hb' Hnew Hpos)
    as (m & _ & Hml & Hrun); [done|exact Hq|intros Hne; by destruct (Hne eq_refl)|].
  eexists m, _. rewrite (bind_ok _ _ _ _ _ Hrun), (bind_ok _ _ _ _ _ (check_tree_ok _)).
  destruct Hbuf as [Hmax Hbuf]. destruct (parse_set s cipher k v Hreq ltac:(unfold INT_MAX in *; lia)) as (Hlen & _).
  pose proof (blen_nonneg v). split.
  - unfold reply. set (s2 := set_MACTable _ _). change (arg_enclave s) with (arg_enclave s2).
    rewrite <-(app_nil_l (dup_str k)), <-(app_nil_r (dup_str k)) at 1.
    apply (respond_ok s2); change (arg_enclave s2) with (arg_enclave s); try done; rewrite ?dup_str_len; lia.
  - split; [exact Hml|reflexivity].
Qed.

(** A SET of a key whose root is beyond [MACTable]. *)
Lemma set_beyond_roots `{!PlatformOk} s B cipher k v :
  let q := bucket_of (ht_size (ht_enclave s)) k / ratio_root_per_buckets s in
  mem_avail s → NDEBUG = true ∨ B !! bin_of s k = Some [] →
  shape s B → set_request cipher k v → buffer_ok s cipher → room s B k → abs B !! k = None →
  blen (MACTable s) ≤ q → enclave_set cipher s = Fault Out_of_bounds.
Proof.
  intros q Hmem Hpass HS Hreq Hbuf Hroom Hk0 Hbeyond.
  destruct (enclave_set_linked s B cipher k v HS Hmem Hreq Hbuf Hroom Hk0)
    as (HSr & t & b & l & head & mb & kv & mac_ & msg & ctr' & Hpush & _ & ->).
  destruct (pushed_shape _ _ _ _ _ _ _ _ _ _ _ _ _ HSr Hpush) as (_ & HS1 & Hb' & pre & post & _ & Hnew & Hpos).
  destruct (bin_root _ B k (sh_layout _ _ HSr)) as (Hh & _).
  pose proof (pu_bucket _ _ _ _ _ _ _ _ _ _ _ _ _ Hpush) as Hb.
  apply bind_fault. eapply rebuild_outside; [|apply HS1|exact Hh|exact Hb'|exact Hnew|exact Hpos|done|exact Hbeyond|done].
  intros _. destruct Hpass as [?|Hnil]; [by left|right]. change (bin_of (set_rand _ s) k) with (bin_of s k) in Hb.
  by assert (b = []) as -> by congruence.
Qed.

(** C27. The number of buckets is the host's word.  The enclave computes the buckets per root
    from the header that the host passes to [enclave_init_values], and later takes over, in
    [enclave_worker_thread], the header the host passes there.  Nothing compares the two.  Let
    the host start a worker with the header [ht_], whatever table [B] it has prepared behind
    it.  If with the new size the root of a new key is beyond [MACTable], the SET of the key
    accesses the memory of the enclave behind [MACTable].  That access is the only one that
    is out of bounds: were [MACTable] an array [roots] that is long enough, the SET of the
    first key below its root would succeed and overwrite the 16 bytes at that place. *)
Theorem host_size_leaves_root_table `{!PlatformOk} d ht_ MACbuf_ i d' B cipher k v :
  let s := d_enclave d in let s1 := d_enclave d' in
  let q := bucket_of (ht_size ht_) k / ratio_root_per_buckets s in
  worker_start ht_ MACbuf_ i d = Ok (tt, d') →
  mem_avail s1 → NDEBUG = true ∨ B !! bin_of s1 k = Some [] →
  shape s1 B → set_request cipher k v → buffer_ok s cipher → room s1 B k → abs B !! k = None →
  blen (MACTable s) ≤ q →
  enclave_set cipher s1 = Fault Out_of_bounds ∧
  (root_macs s1 B q = [] → ∀ roots, q < blen roots → ∃ m s2,
     enclave_set cipher (set_MACTable roots s1) = Ok (reply s (dup_str k), s2) ∧ blen m = MAC_SIZE ∧
     MACTable s2 = <[Z.to_nat q := m]> roots).
Proof.
  intros s s1 q Hstart. assert (s1 = set_tables ht_ MACbuf_ s) as Hs1.
  { unfold worker_start in Hstart. apply bind_inv in Hstart as ([] & d1 & (x & [= <-] & ->)%in_enclave_run & Hstart).
    by minv Hstart. }
  clearbody s1. subst s1. intros Hmem Hpass HS Hreq Hbuf Hroom Hk0 Hbeyond. split.
  - by apply (set_beyond_roots (set_tables ht_ MACbuf_ s) B cipher k v).
  - intros Hnone roots Hq.
    apply (first_key_writes_root (set_MACTable roots (set_tables ht_ MACbuf_ s)) B cipher k v); try done.
    destruct HS as [[[] ? ? ? ? ? ?] ? ?]. repeat (split; simpl; try done).
Qed.
End host.

(** ** The small store *)

(** The host drops all entries after a SET. *)
Lemma enclave_keeps_types_witness :
  ∃ v s1, worker_job (wire 64 (RSet (str "alpha") (str "1"))) (demo_init true true 8 4 2) = Ok (v, s1) ∧
    heap s1 ≠ ∅ ∧ typed (set_heap ∅ s1) ∧ length (MACTable (set_heap ∅ s1)) = 4%nat.
Proof.
  destruct (worker_job (wire 64 (RSet (str "alpha") (str "1"))) (demo_init true true 8 4 2)) as [[v s1]|f] eqn:E.
  2:{ exfalso. assert (is_ok (worker_job (wire 64 (RSet (str "alpha") (str "1"))) (demo_init true true 8 4 2)) = true)
        as Hok by (vm_compute; reflexivity). by rewrite E in Hok. }
  exists v, s1. split; [done|]. split.
  { assert (match worker_job (wire 64 (RSet (str "alpha") (str "1"))) (demo_init true true 8 4 2) with
      | Ok (_, s) => bool_decide (heap s = ∅) | Fault _ => true end = false) as Hne by (vm_compute; reflexivity).
    rewrite E in Hne. intros Hh. by rewrite Hh in Hne. }
  assert (memory_typed (demo_init true true 8 4 2)) as Hmem.
  { split; [by intros l e Hl|]. simpl. unfold demo_bufs, macbuffer_create. apply Forall_fmap, Forall_forall. by intros i _. }
  destruct (step_typed _ _ (Step_job _ _ _ _ E)) as [[[_ Hb] _] _].
  { split; [done|]. by apply Forall_replicate; split; [|left]. }
  destruct (enclave_keeps_types (demo_ht 8) ∅ (demo_bufs 8) (demo_arg true true 8 4 2) (demo_init true true 8 4 2)
    (set_heap ∅ s1)) as (Ht & _ & _ & Hl & _); [reflexivity|exact Hmem| |by split].
  eapply rtc_l; [exact (Step_job _ _ _ _ E)|]. apply rtc_once, Step_host. by split; [split|..].
Defined.

(** The enclave is initialised with eight buckets and four roots; the host starts a worker with a
    header of sixteen. *)
Abbreviation eight := (init_queues (demo_init true true 8 4 2)).
Definition sixteen : enclave := set_tables (demo_ht 16) (demo_bufs 16) (demo_init true true 8 4 2).
Definition far_key : bytes := str "delta".

Lemma sixteen_shape : shape sixteen (replicate 16 []).
Proof.
  apply (empty_shape sixteen 16); [by split|done|done|].
  simpl. unfold demo_bufs, macbuffer_create. apply Forall_fmap, Forall_forall. by intros i _.
Qed.

(** After the start of the worker. *)
Definition sixteen_started : dispatch := mkDispatch sixteen [[]; []] 1 0 [WLoop] [] [] [] (Some 0%nat).

Lemma host_size_leaves_root_table_witness :
  worker_start (demo_ht 16) (demo_bufs 16) 0 eight = Ok (tt, sixteen_started) ∧
  enclave_set (wire 64 (RSet far_key (str "1"))) sixteen = Fault Out_of_bounds ∧
  ∃ m s', enclave_set (wire 64 (RSet far_key (str "1"))) (set_MACTable (replicate 8 (zeros MAC_SIZE)) sixteen) =
      Ok (reply (demo_init true true 8 4 2) (dup_str far_key), s') ∧ blen m = MAC_SIZE ∧
      MACTable s' = <[4%nat := m]> (replicate 8 (zeros MAC_SIZE)).
Proof.
  split; [reflexivity|].
  destruct (host_size_leaves_root_table eight (demo_ht 16) (demo_bufs 16) 0 sixteen_started (replicate 16 [])
    (wire 64 (RSet far_key (str "1"))) far_key (str "1")) as [Hout Hin].
  - reflexivity.
  - apply toy_mem_avail.
  - by left.
  - apply sixteen_shape.
  - apply (wire_encodes 64 (RSet far_key (str "1"))). by_compute.
  - by split.
  - intros _. split; [done|]. intros _ b [-> _]%lookup_replicate. done.
  - reflexivity.
  - vm_compute. discriminate.
  - split; [exact Hout|]. apply Hin; [apply empty_roots|reflexivity].
Defined.
