(* ===== verification/ServerClaims.v ===== *)
(** * Theorems on the host process

    The start of the server, the bookkeeping of connections, how the loop ends and how it
    dies, and the table of error messages. *)

From stdpp Require Import pretty.
From S2P Require Import Prelude CString CLib Common Hash Core HashTable Enclave ToyPlatform Rep.
From S2P Require Import CoreProofs EnclaveProofs Service EnclaveService Dispatch DispatchProofs.
From S2P Require Import Server Results ServerProofs Client ClientProofs Wire Demo.

Section start.
Context `{Platform} `{!PlatformOk}.

(** The server starts as an empty store.  With options whose number of buckets is a
    positive [int] and a multiple of the number of roots, and if the enclave, the memory and
    the listening socket can be had, [main] reaches its loop with a table, MAC buckets and roots that
    represent the empty map (whatever is in the uninitialised MAC buckets), one empty queue
    per thread and the server socket as the only connection. *)
Theorem server_starts_empty argv arg eid updated ofs garbage sock bound listening :
  server_options argv = Ok arg →
  1 ≤ bucket_size arg ≤ INT_MAX → 0 < tree_root_size arg → bucket_size arg `mod` tree_root_size arg = 0 →
  (∀ i, blen (garbage i) = MAC_SIZE * MAC_SLOTS) → 0 ≤ sock → bound ≠ -1 → listening ≠ -1 →
  ∃ h, server_start argv (SGX_SUCCESS, eid, updated) ofs true true garbage sock bound listening = Ok (0, Some h) ∧
    h_arg h = arg ∧ holds (d_enclave (h_disp h)) ∅ ∧ arg_enclave (d_enclave (h_disp h)) = arg ∧
    queue (h_disp h) = replicate (Z.to_nat (num_threads arg)) [] ∧ conn_inv h ∧ master h = {[sock]}.
Proof.
  intros Hopt Hb Hr Hmod Hg Hs Hbd Hli.
  destruct (server_start_run argv arg eid updated ofs garbage sock bound listening) as (s & Hrun & Hm & Ha & _); try done.
  eexists. split; [exact Hrun|]. split; [done|]. split; [done|]. split; [done|]. split; [simpl; by rewrite Ha|].
  split; [by apply host_init_conn|done].
Qed.
End start.

Section loop.
Context `{Platform}.

(** C21. The server keeps count of its clients: in every round of the loop, whatever the
    descriptors deliver, the counter [num_connection] stays the number of client sockets in
    the descriptor set, every descriptor stays below [fdmax + 1], the server socket stays
    in the set, and the maximum [num_clients] stays an upper bound. *)
Theorem connections_are_counted ready inp h fin h' :
  fresh_accept h inp → conn_inv h → server_round ready inp h = Ok (fin, h') → conn_inv h'.
Proof. apply server_round_conn. Qed.

(** C35. A client that disconnects takes the server down.  When [read] on a client's socket
    returns no data, the socket is closed but stays in the descriptor set; the loop goes on,
    and the next [select], whatever is ready, fails and ends the process. *)
Theorem disconnect_ends_server ready inp h i :
  master h ⊆ open_fds h → i ∈ ready → i ∈ master h → (∀ j, j ∈ ready → j = i) → i ≠ server_sockfd h →
  0 ≤ i ≤ fdmax h → fdmax h < Z.of_nat FD_SETSIZE → 4 ≤ max_buf_size (h_arg h) → inp i = IRead [] →
  ∃ h', server_round ready inp h = Ok (false, h') ∧ master h' = master h ∧
    ∀ ready2 inp2, server_round ready2 inp2 h' = Fault Exited.
Proof.
  intros Hopen Hr Hm Honly Hne Hi Hfd Hbuf Hinp.
  set (h1 := set_open (open_fds h ∖ {[i]}) (set_buf (zeros (max_buf_size (h_arg h))) h)).
  exists h1. split; [|split; [done|]].
  - rewrite (round_of_one ready inp h i true h1); try done.
    + msimpl. rewrite (bind_lift _ _ _ false); [done|]. simpl h_buf.
      replace (max_buf_size (h_arg h)) with (1 + (max_buf_size (h_arg h) - 1)) by lia.
      rewrite zeros_app by lia. done.
    + rewrite Hinp. apply client_message_eof. lia.
  - intros ready2 inp2. unfold server_round. msimpl. rewrite bool_decide_false; [done|].
    unfold id, h1. simpl. intros Hsub. apply Hsub in Hm. set_solver.
Qed.

(** The EXIT of the last client ends the loop: it is passed to the enclave and sent back,
    the client is removed, and with no connection left the round reports the end. *)
Theorem last_exit_ends_loop ready inp h i rest :
  writes_ok → (exit_count (h_disp h) + 1 = num_clients h → manned (h_disp h)) → wired h → master h ⊆ open_fds h → i ∈ ready → i ∈ master h → (∀ j, j ∈ ready → j = i) → i ≠ server_sockfd h →
  0 ≤ i ≤ fdmax h → fdmax h < Z.of_nat FD_SETSIZE →
  inp i = IRead (str "EXIT" ++ rest) → blen (str "EXIT" ++ rest) ≤ max_buf_size (h_arg h) → num_connection h = 1 →
  ∃ h', server_round ready inp h = Ok (true, h') ∧ master h' = master h ∖ {[i]} ∧ num_connection h' = 0 ∧
    exit_count (h_disp h') = exit_count (h_disp h) + 1 ∧
    sent (h_disp h') = sent (h_disp h) ++
      [(i, (str "EXIT" ++ rest) ++ zeros (max_buf_size (h_arg h) - blen (str "EXIT" ++ rest)))].
Proof.
  intros Hwr Hman Hw Hopen Hr Hm Honly Hne Hi Hfd Hinp Hlen Hn.
  destruct (client_message_exit Hwr h i (str "EXIT" ++ rest) true Hw) as (d' & _ & Hex & Hsent & Hrun); [by eexists|done|done|].
  cbn iota in Hrun. eexists. split.
  - assert (match inp i with IRead d => d | IAccept _ => [] end = str "EXIT" ++ rest) as Hd by (by rewrite Hinp).
    rewrite <-Hd in Hrun at 1. rewrite (round_of_one _ _ _ _ _ _ Hopen Hr Hm Honly Hne Hi Hfd Hrun eq_refl).
    msimpl. unfold id. cbn [h_buf num_connection]. rewrite (bind_lift _ _ _ true) by done. rewrite Hn. done.
  - simpl. rewrite ?Hn. by rewrite Hex, Hsent.
Qed.

(** A lowercase exit is half handled: the enclave counts it like EXIT and sends it back,
    but the host compares with EXIT only, so the client stays in the descriptor set and in
    the count of connections and the loop cannot end by it. *)
Theorem lowercase_exit_stays ready inp h i rest :
  writes_ok → (exit_count (h_disp h) + 1 = num_clients h → manned (h_disp h)) → wired h → master h ⊆ open_fds h → i ∈ ready → i ∈ master h → (∀ j, j ∈ ready → j = i) → i ≠ server_sockfd h →
  0 ≤ i ≤ fdmax h → fdmax h < Z.of_nat FD_SETSIZE →
  inp i = IRead (str "exit" ++ rest) → blen (str "exit" ++ rest) ≤ max_buf_size (h_arg h) →
  ∃ h', server_round ready inp h = Ok (false, h') ∧ master h' = master h ∧ num_connection h' = num_connection h ∧
    exit_count (h_disp h') = exit_count (h_disp h) + 1.
Proof.
  intros Hwr Hman Hw Hopen Hr Hm Honly Hne Hi Hfd Hinp Hlen.
  destruct (client_message_exit Hwr h i (str "exit" ++ rest) false Hw) as (d' & _ & Hex & Hsent & Hrun); [by eexists|done|done|].
  cbn iota in Hrun. eexists. split.
  - assert (match inp i with IRead d => d | IAccept _ => [] end = str "exit" ++ rest) as Hd by (by rewrite Hinp).
    rewrite <-Hd in Hrun at 1. rewrite (round_of_one _ _ _ _ _ _ Hopen Hr Hm Honly Hne Hi Hfd Hrun eq_refl).
    msimpl. unfold id. cbn [h_buf num_connection]. rewrite (bind_lift _ _ _ false) by done. done.
  - done.
Qed.
End loop.

(** Every status of the SDK other than success has a message of its own:
    [ret_error_support] prints exactly one line, the message the table has for the
    status, and falls back to the general message only for a status without an entry. *)
Theorem every_error_has_a_message ret :
  ret ≠ SGX_SUCCESS → ∃ msg, (ret, msg) ∈ sgx_errlist ∧ ret_error_support ret = ["Error: " +:+ msg].
Proof.
  intros Hret. destruct (errlist_loop_found ret sgx_errlist 0 (errlist_complete ret Hret)) as (i & msg & Hrun & Hi & Hin).
  exists msg. split; [done|]. unfold ret_error_support. rewrite Hrun.
  rewrite (proj2 (Nat.eqb_neq _ _)) by lia. done.
Qed.

(** ** A server with one client *)

(** The options [-s 8 -r 4 -t 2]. *)
Definition demo_argv : list bytes :=
  str <$> ["server"; "-s"; "8"; "-r"; "4"; "-t"; "2"]%string.

Lemma server_starts_empty_witness :
  ∃ h, server_start demo_argv (SGX_SUCCESS, 1, false) true true true (λ _, zeros 480) 3 0 0 = Ok (0, Some h) ∧
    h_arg h = demo_arg false false 8 4 2 ∧ holds (d_enclave (h_disp h)) ∅ ∧
    arg_enclave (d_enclave (h_disp h)) = demo_arg false false 8 4 2 ∧
    queue (h_disp h) = [[]; []] ∧ conn_inv h ∧ master h = {[3]}.
Proof.
  apply (server_starts_empty demo_argv (demo_arg false false 8 4 2) 1 false true (λ _, zeros 480) 3 0 0);
    [vm_compute; reflexivity|split; [done|vm_compute; discriminate]|done|done|done|done|done|done].
Defined.

(** Socket 3 listens, client 5 is connected. *)
Definition demo_host : host :=
  mkHost (demo_arg true false 8 4 2) 3 {[3; 5]} {[3; 5]} 5 1 1 false (zeros 64)
    (init_queues (demo_init true false 8 4 2)) [].

(** The same with two workers. *)
Definition demo_staffed : host :=
  mkHost (demo_arg true false 8 4 2) 3 {[3; 5]} {[3; 5]} 5 1 1 false (zeros 64)
    (mkDispatch (demo_init true false 8 4 2) [[]; []] 2 0 [WLoop; WLoop] [] [] [] (Some 0%nat)) [].

Lemma demo_staffed_manned : manned (h_disp demo_staffed).
Proof. intros [|[|i]] Hi; [by eexists|by eexists|]. simpl in Hi. lia. Qed.

(** One load client, then two run clients: the second moves the start of the measurement, and the
    result file says that loading took less than no time. *)
Definition demo_timed : list (gset Z * (Z → input) * list event * (Z → Z)) :=
  [ ({[5]}, λ _, IRead (str "LOADDONE" ++ [NUL]), [], λ _, 1000000); ({[3]}, λ _, IAccept 5, [], λ _, 2000000);
    ({[3]}, λ _, IAccept 7, [], λ _, 5000000) ].

Lemma loading_time_is_negative :
  (x ← timed_loop demo_timed demo_host (mkClock 500000 0 0); server_finish 9000000 (Some "") x.1.2 x.2) =
  Ok (0, String.concat "" [newline; " Thread: 2 Execution time for Loading : -0.003000"; newline;
                           " Thread: 2 Execution time for Running : 0.007000"]).
Proof. vm_compute. reflexivity. Qed.

(** Client 5 delivers a message. *)
Definition from_5 (data : bytes) : Z → input := λ i, if i =? 5 then IRead data else IAccept (-1).

Lemma disconnect_ends_server_witness :
  ∃ h', server_round {[5]} (from_5 []) demo_host = Ok (false, h') ∧ master h' = {[3; 5]} ∧
    ∀ ready2 inp2, server_round ready2 inp2 h' = Fault Exited.
Proof.
  apply (disconnect_ends_server {[5]} (from_5 []) demo_host 5); [done|by_compute|by_compute| |done|done|done|done|done].
  set_solver.
Defined.

Lemma last_exit_ends_loop_witness :
  ∃ h', server_round {[5]} (from_5 (str "EXIT" ++ [NUL])) demo_staffed = Ok (true, h') ∧
    master h' = {[3; 5]} ∖ {[5]} ∧ num_connection h' = 0 ∧ exit_count (h_disp h') = 1 ∧
    sent (h_disp h') = [(5, (str "EXIT" ++ [NUL]) ++ zeros 59)].
Proof.
  apply (last_exit_ends_loop {[5]} (from_5 (str "EXIT" ++ [NUL])) demo_staffed 5 [NUL]);
    [done|intros _; apply demo_staffed_manned|done|done|by_compute|by_compute| |done|done|done|done|done|done].
  set_solver.
Defined.

Lemma lowercase_exit_stays_witness :
  ∃ h', server_round {[5]} (from_5 (str "exit" ++ [NUL])) demo_staffed = Ok (false, h') ∧
    master h' = {[3; 5]} ∧ num_connection h' = 1 ∧ exit_count (h_disp h') = 1.
Proof.
  apply (lowercase_exit_stays {[5]} (from_5 (str "exit" ++ [NUL])) demo_staffed 5 [NUL]);
    [done|intros _; apply demo_staffed_manned|done|done|by_compute|by_compute| |done|done|done|done|done].
  set_solver.
Defined.

Lemma connections_are_counted_witness :
  ∃ fin h', server_round {[3]} (λ _, IAccept 7) demo_host = Ok (fin, h') ∧ conn_inv h'.
Proof.
  destruct (server_round {[3]} (λ _, IAccept 7) demo_host) as [[fin h']|] eqn:E; [|by vm_compute in E].
  exists fin, h'. split; [done|]. apply (connections_are_counted {[3]} (λ _, IAccept 7) demo_host fin h'); [| |exact E].
  - intros fd [= <-]. right. split; [done|by_compute].
  - split; simpl; [by_compute| |reflexivity|done].
    intros fd. rewrite elem_of_union, !elem_of_singleton. lia.
Defined.

Lemma every_error_has_a_message_witness :
  ∃ msg, (SGX_ERROR_OUT_OF_TCS, msg) ∈ sgx_errlist ∧
    ret_error_support SGX_ERROR_OUT_OF_TCS = ["Error: " +:+ msg].
Proof. by apply (every_error_has_a_message SGX_ERROR_OUT_OF_TCS). Defined.
