(* ===== verification/Fleet.v ===== *)
(** * The whole system: client threads, host and enclave

    The threads of a client ([client_worker] of [client_load.c] and [client_run.c]), the
    main thread of the server, which reads their messages, and the workers, which answer,
    as one machine.  A turn is a step of one thread; a thread that would wait does not move. *)

From S2P Require Import Prelude CString CLib Common Enclave Dispatch Server.

(** A client thread in its loop and the two directions of its connection.  A message of a
    client and an answer of the server are each written and read as a whole. *)
Record client := mkClient {
  cl_todo : list bytes;   (* what it will still write *)
  cl_up : list bytes;     (* written, and not read by the server *)
  cl_down : list bytes;   (* answers it has not read *)
  cl_waits : bool;        (* it is in [read] *)
  cl_got : list bytes;    (* the answers it has read *)
}.

(** After [connect]. *)
Definition client_start (msgs : list bytes) : client := mkClient msgs [] [] false [].

(** [write(client_sockfd, ...)] and then [read(client_sockfd, buf_out, ...)]. *)
Definition client_step (k : client) : client :=
  if cl_waits k then
    match cl_down k with
    | [] => k
    | b :: down => mkClient (cl_todo k) (cl_up k) down false (cl_got k ++ [b])
    end
  else
    match cl_todo k with
    | [] => k
    | m :: todo => mkClient todo (cl_up k ++ [m]) (cl_down k) true (cl_got k)
    end.

(** The host, the clients by the number of their socket on the server, and whether the main
    thread has left its loop. *)
Record fleet := mkFleet {
  y_host : host;
  y_clients : gmap Z client;
  y_over : bool;
}.

Abbreviation Y := (M fleet).
Abbreviation y_disp y := (h_disp (y_host y)).

(** What was written to the sockets arrives at the clients. *)
Definition add_down (b : bytes) (k : client) : client :=
  mkClient (cl_todo k) (cl_up k) (cl_down k ++ [b]) (cl_waits k) (cl_got k).
Definition deliver (msgs : list (Z * bytes)) (cs : gmap Z client) : gmap Z client :=
  foldl (λ cs x, alter (add_down x.2) x.1 cs) cs msgs.

Definition set_up (up : list bytes) (k : client) : client :=
  mkClient (cl_todo k) up (cl_down k) (cl_waits k) (cl_got k).
Definition set_clients (cs : gmap Z client) (y : fleet) : fleet := mkFleet (y_host y) cs (y_over y).
Definition set_over (y : fleet) : fleet := mkFleet (y_host y) (y_clients y) true.

Inductive turn :=
  | TStart (k : nat)    (* a worker starts; the header is then the copy of worker [k] *)
  | TWorker (i : nat)   (* worker [i] makes a step *)
  | TMain (fd : Z)      (* [select] reports the socket [fd] and the main thread serves it *)
  | TClient (fd : Z).   (* the client behind [fd] writes or reads *)

Section fleet.
Context `{Platform}.

(** The messages that could be written, the first by the [n]-th [write] of the server. *)
Fixpoint arrived (n : nat) (msgs : list (Z * bytes)) : list (Z * bytes) :=
  match msgs with
  | [] => []
  | x :: msgs' => (if sys_write n <=? 0 then [] else [x]) ++ arrived (S n) msgs'
  end.

(** A step of a thread of the server. *)
Definition in_host {A} (m : H A) : Y A := λ y,
  match m (y_host y) with
  | Ok (a, h) =>
      let n := length (sent (y_disp y)) in
      Ok (a, mkFleet h (deliver (arrived n (drop n (sent (h_disp h)))) (y_clients y)) (y_over y))
  | Fault f => Fault f
  end.

(** [main] starts [num_threads] workers, all with its table and its MAC buckets; the theorems
    leave open whose copy [k] of the header is in use then. *)
Definition start_turn (k : nat) : Y unit :=
  y ← gets id;
  let s := d_enclave (y_disp y) in
  if num (y_disp y) <? num_threads (h_arg (y_host y))
  then in_host (in_dispatch (worker_start (ht_enclave s) (MACbuf_enclave s) k)) else mret tt.

Definition worker_turn (i : nat) : Y unit :=
  y ← gets id;
  if (i <? length (workers (y_disp y)))%nat then in_host (in_dispatch (worker_step (Z.of_nat i))) else mret tt.

(** One iteration of the main loop with one ready socket. *)
Definition main_turn (fd : Z) : Y unit :=
  y ← gets id;
  match y_clients y !! fd with
  | Some k =>
      match cl_up k with
      | m :: up =>
          if bool_decide (fd ∈ master (y_host y)) && negb (y_over y) then
            modify (set_clients (<[fd := set_up up k]> (y_clients y)));;
            fin ← in_host (server_round {[fd]} (λ _, IRead m));
            if (fin : bool) then modify set_over else mret tt
          else mret tt
      | [] => mret tt
      end
  | None => mret tt
  end.

Definition client_turn (fd : Z) : Y unit :=
  modify (λ y, set_clients (alter client_step fd (y_clients y)) y).

Definition fleet_step (t : turn) : Y unit :=
  match t with
  | TStart k => start_turn k
  | TWorker i => worker_turn i
  | TMain fd => main_turn fd
  | TClient fd => client_turn fd
  end.

Fixpoint fleet_run (ts : list turn) : Y unit :=
  match ts with
  | [] => mret tt
  | t :: ts' => fleet_step t;; fleet_run ts'
  end.

(** The clients connect, one after another. *)
Definition connect (fds : list Z) : H unit := for_each fds (λ fd _, accept_client fd) tt.

End fleet.
