(* ===== verification/FleetJobs.v ===== *)
(** * The jobs that wait, and the work that is left

    The jobs in the queues that no worker has run, as one list up to order, and how the
    steps of the dispatcher change it; sums over the workers and the clients. *)

From S2P Require Import Prelude CString Common Enclave Dispatch DispatchProofs Fleet.

(** ** Lists and sums *)
Section lists.
Context {A : Type}.
Implicit Types (l : list A) (i : nat).

Lemma insert_middle l i x y : l !! i = Some x → ∃ l1 l2, l = l1 ++ x :: l2 ∧ <[i := y]> l = l1 ++ y :: l2.
Proof.
  intros Hi. exists (take i l), (drop (S i) l). split; [by rewrite take_drop_middle|].
  apply insert_take_drop. by eapply lookup_lt_Some.
Qed.

Lemma sum_insert (f : A → nat) l i x y :
  l !! i = Some x → (sum_list_with f (<[i := y]> l) + f x = sum_list_with f l + f y)%nat.
Proof.
  intros Hi. destruct (insert_middle l i x y Hi) as (l1 & l2 & -> & ->).
  rewrite !sum_list_with_app. simpl. lia.
Qed.

Lemma sum_Permutation (f : A → nat) l k : l ≡ₚ k → sum_list_with f l = sum_list_with f k.
Proof. induction 1; simpl; lia. Qed.
End lists.

Lemma concat_at {A} (l : list (list A)) i x y z :
  l !! i = Some x → x ≡ₚ z ++ y → concat l ≡ₚ z ++ concat (<[i := y]> l).
Proof.
  intros Hi Hx. destruct (insert_middle l i x y Hi) as (l1 & l2 & -> & ->).
  rewrite !concat_app. simpl. rewrite Hx. solve_Permutation.
Qed.

(** The sum of [f] over a map. *)
Definition map_sum {A} (f : A → nat) (m : gmap Z A) : nat := sum_list_with f (map_to_list m).*2.

Lemma map_sum_insert_new {A} (f : A → nat) (m : gmap Z A) i x :
  m !! i = None → map_sum f (<[i := x]> m) = (f x + map_sum f m)%nat.
Proof. intros Hi. unfold map_sum. by rewrite (sum_Permutation f _ _ (fmap_Permutation snd _ _ (map_to_list_insert m i x Hi))). Qed.

Lemma map_sum_insert {A} (f : A → nat) (m : gmap Z A) i x y :
  m !! i = Some x → (map_sum f (<[i := y]> m) + f x = map_sum f m + f y)%nat.
Proof.
  intros Hi. rewrite <-(insert_delete_id m i x Hi) at 2. rewrite <-insert_delete_eq.
  rewrite !map_sum_insert_new by apply lookup_delete_eq. lia.
Qed.

Lemma map_sum_fmap {A B} (f : A → nat) (g : B → nat) (k : B → A) (m : gmap Z B) :
  (∀ x, f (k x) = g x) → map_sum f (k <$> m) = map_sum g m.
Proof.
  intros Hfg. unfold map_sum. rewrite map_to_list_fmap.
  induction (map_to_list m) as [|[c x] l IH]; [done|]. rewrite !fmap_cons. simpl. by rewrite Hfg, IH.
Qed.

(** ** The jobs that wait *)
Definition pends (ws : list worker) (qs : list (list job)) : list (list job) :=
  imap (λ i q, pending (ws !! i) q) qs.
Definition waiting (d : dispatch) : list job := concat (pends (workers d) (queue d)).
(** Those of one client. *)
Definition jobs_from (c : Z) (js : list job) : list job := filter (λ j, job_client_sock j = c) js.

#[global] Instance jobs_from_proper c : Proper ((≡ₚ) ==> (≡ₚ)) (jobs_from c).
Proof. intros l k Hl. unfold jobs_from. by rewrite Hl. Qed.

Lemma pends_lookup ws qs i : pends ws qs !! i = pending (ws !! i) <$> qs !! i.
Proof. unfold pends. apply (list_lookup_imap (λ k, pending (ws !! k))). Qed.

Lemma length_pends ws qs : length (pends ws qs) = length qs.
Proof. apply length_imap. Qed.

Lemma pends_ext ws ws' qs : (∀ i q, qs !! i = Some q → pending (ws' !! i) q = pending (ws !! i) q) → pends ws' qs = pends ws qs.
Proof.
  intros Hext. apply list_eq. intros i. rewrite !pends_lookup.
  destruct (qs !! i) as [q|] eqn:Hq; [|done]. simpl. by rewrite Hext.
Qed.

Lemma pends_queue ws qs i q : pends ws (<[i := q]> qs) = <[i := pending (ws !! i) q]> (pends ws qs).
Proof.
  apply list_eq. intros k. rewrite pends_lookup. destruct (decide (i = k)) as [->|Hne].
  - destruct (decide (k < length qs)%nat) as [Hlt|Hge].
    + by rewrite !list_lookup_insert_eq by (by rewrite ?length_pends).
    + by rewrite !list_insert_ge, pends_lookup by (rewrite ?length_pends; lia).
  - by rewrite !list_lookup_insert_ne, pends_lookup by done.
Qed.

Lemma pends_worker ws qs i w w0 q :
  ws !! i = Some w0 → qs !! i = Some q →
  pends (<[i := w]> ws) qs = <[i := pending (Some w) q]> (pends ws qs).
Proof.
  intros Hw Hq. apply list_eq. intros k. rewrite pends_lookup. destruct (decide (i = k)) as [->|Hne].
  - rewrite list_lookup_insert_eq by (by eapply lookup_lt_Some).
    rewrite list_lookup_insert_eq; [by rewrite Hq|]. rewrite length_pends. by eapply lookup_lt_Some.
  - by rewrite !list_lookup_insert_ne, pends_lookup by done.
Qed.

(** A step of worker [i] that leaves its waiting jobs alone. *)
Lemma pends_same ws qs i w w0 q :
  ws !! i = Some w0 → qs !! i = Some q → pending (Some w) q = pending (Some w0) q →
  pends (<[i := w]> ws) qs = pends ws qs.
Proof.
  intros Hw Hq Hp. rewrite (pends_worker ws qs i w w0 q) by done. rewrite Hp.
  apply list_insert_id. by rewrite pends_lookup, Hq, Hw.
Qed.

(** The front of the queue is removed after it was run. *)
Lemma pends_pop ws qs i q :
  ws !! i = Some WPop → qs !! i = Some q → pends (<[i := WLoop]> ws) (<[i := tail q]> qs) = pends ws qs.
Proof.
  intros Hw Hq. apply lookup_lt_Some in Hw as Hlw, Hq as Hlq.
  rewrite pends_queue, list_lookup_insert_eq by done. simpl.
  rewrite (pends_worker ws qs i WLoop WPop q), list_insert_insert_eq by done.
  apply list_insert_id. by rewrite pends_lookup, Hq, Hw.
Qed.

(** The front of the queue is run. *)
Lemma waiting_run ws qs i j q w' :
  ws !! i = Some (WJob j) → qs !! i = Some (j :: q) → pending (Some w') (j :: q) = q →
  concat (pends ws qs) ≡ₚ j :: concat (pends (<[i := w']> ws) qs).
Proof.
  intros Hw Hq Hp. rewrite (pends_worker ws qs i w' (WJob j) (j :: q)), Hp by done.
  apply (concat_at _ i (j :: q) q [j]); [|done]. by rewrite pends_lookup, Hq, Hw.
Qed.

(** A job is put at the end of a queue. *)
Lemma waiting_push ws qs i j q :
  qs !! i = Some q → pending (ws !! i) (q ++ [j]) = pending (ws !! i) q ++ [j] →
  concat (pends ws (<[i := q ++ [j]]> qs)) ≡ₚ j :: concat (pends ws qs).
Proof.
  intros Hq Hp. rewrite pends_queue, Hp.
  assert (pends ws qs !! i = Some (pending (ws !! i) q)) as Hi by (by rewrite pends_lookup, Hq).
  apply lookup_lt_Some in Hi as Hlt.
  rewrite (concat_at _ i (pending (ws !! i) q ++ [j]) (pending (ws !! i) q) [j]).
  - by rewrite list_insert_insert_eq, list_insert_id.
  - by rewrite list_lookup_insert_eq.
  - solve_Permutation.
Qed.

(** A job is put at the end of every queue. *)
Lemma waiting_everywhere ws qs j :
  (∀ i q, qs !! i = Some q → pending (ws !! i) (q ++ [j]) = pending (ws !! i) q ++ [j]) →
  concat (pends ws ((λ q, q ++ [j]) <$> qs)) ≡ₚ replicate (length qs) j ++ concat (pends ws qs).
Proof.
  intros Hp. assert (pends ws ((λ q, q ++ [j]) <$> qs) = (λ q, q ++ [j]) <$> pends ws qs) as ->.
  { apply list_eq. intros i. rewrite list_lookup_fmap, !pends_lookup, list_lookup_fmap.
    destruct (qs !! i) as [q|] eqn:Hq; [|done]. simpl. by rewrite Hp. }
  rewrite <-(length_pends ws qs). induction (pends ws qs) as [|q l IH]; [done|].
  rewrite fmap_cons. simpl. rewrite IH. solve_Permutation.
Qed.
