(* ===== verification/FleetInv.v ===== *)
(** * What holds while clients and server run

    The sequential history against which the clients are judged, and the invariant of the
    whole system: where every client is, which jobs wait, and the map the store holds. *)

From S2P Require Import Prelude CString CLib Common Hash Core HashTable Enclave Config Rep.
From S2P Require Import CoreProofs.
From S2P Require Import EnclaveProofs Service EnclaveService Dispatch DispatchProofs Server.
From S2P Require Import ServerProofs.
From S2P Require Import Client ClientProofs Wire Fleet FleetJobs.

(** ** Histories

    A history is a list of requests, each with the client that made it. *)
Abbreviation history := (list (Z * request)).

Definition of_client {A} (c : Z) (l : list (Z * A)) : list A := (filter (λ x, x.1 = c) l).*2.

(** The answers of the map to the requests of a history, one after another. *)
Fixpoint spec_trace (m : kvmap) (h : history) : list (Z * option bytes) :=
  match h with
  | [] => []
  | (c, r) :: h' => (c, snd (spec_step m r)) :: spec_trace (fst (spec_step m r)) h'
  end.

(** The buffer [buf] carries the answer [x]. *)
Definition reply_ok (n : Z) (buf : bytes) (x : option bytes) : Prop := blen buf = n ∧ answers n buf x.

(** The job of worker [x.1] is the request [y.2] of the client [y.1]. *)
Definition runs_request (n : Z) (x : Z * job) (y : Z * request) : Prop := x.2 = mkJob y.1 (wire n y.2).

(** The jobs of clients in a log; the quit job has the socket -1. *)
Definition client_jobs (l : list (Z * job)) : list (Z * job) := filter (λ x, job_client_sock x.2 ≠ -1) l.

Lemma of_client_snoc {A} c (l : list (Z * A)) c' x :
  of_client c (l ++ [(c', x)]) = of_client c l ++ if decide (c' = c) then [x] else [].
Proof.
  unfold of_client. rewrite filter_app, fmap_app. f_equal. rewrite filter_cons. simpl.
  by destruct (decide (c' = c)).
Qed.

Lemma spec_trace_snoc m h c r :
  spec_trace m (h ++ [(c, r)]) = spec_trace m h ++ [(c, snd (spec_step (spec_run m h.*2) r))].
Proof.
  revert m. induction h as [|[c' r'] h IH]; intros m; [done|]. cbn [spec_trace app]. by rewrite IH.
Qed.

Lemma spec_run_snoc m rs r : spec_run m (rs ++ [r]) = fst (spec_step (spec_run m rs) r).
Proof. unfold spec_run. by rewrite fold_left_app. Qed.

(** ** Clients *)
Section clients.
Context (n : Z) (exits : bool).

(** What a client thread sends for a slice of its trace, [exits]: it is a run client. *)
Definition last_msg : bytes := str (if exits then "EXIT" else "LOADDONE") ++ [NUL].
Definition last_buf : bytes := last_msg ++ zeros (n - blen last_msg).
Definition script (rs : list request) : list bytes := (wire n <$> rs) ++ [last_msg].

(** Where the client [c] with the trace [rs] is, when [e] of its messages are answered: its
    state and its jobs that wait. *)
Inductive at_stage (c : Z) (rs : list request) : client → list job → nat → Prop :=
  | At_ready got :
      at_stage c rs (mkClient (drop (length got) (script rs)) [] [] false got) [] (length got)
  | At_written got m :
      script rs !! length got = Some m →
      at_stage c rs (mkClient (drop (S (length got)) (script rs)) [m] [] true got) [] (length got)
  | At_queued got r :
      rs !! length got = Some r →
      at_stage c rs (mkClient (drop (S (length got)) (script rs)) [] [] true got) [mkJob c (wire n r)] (length got)
  | At_answered got b :
      at_stage c rs (mkClient (drop (S (length got)) (script rs)) [] [b] true got) [] (S (length got)).

(** The client [c] has the answers the history gives it; it is connected until its final
    message is answered. *)
Record client_ok (m0 : kvmap) (h : history) (js : list job) (connected : gset Z)
  (c : Z) (rs : list request) (k : client) (e : nat) : Prop := {
  co_bound : (e ≤ S (length rs))%nat;
  co_stage : at_stage c rs k (jobs_from c js) e;
  co_reqs : of_client c h = take e rs;
  co_replies : ∃ reps, cl_got k ++ cl_down k = reps ++ (if decide (e = S (length rs)) then [last_buf] else []) ∧
    Forall2 (reply_ok n) reps (of_client c (spec_trace m0 h));
  co_connected : c ∈ connected ↔ (e ≤ length rs)%nat;
}.
End clients.

(** ** The system *)
Section inv.
Context `{Platform} `{!PlatformOk}.
Context (arg : Arg) (size : Z) (P : gmap Z (list request)) (exits : bool) (good : kvmap → Prop) (m0 : kvmap).
Context (h0 : host).
Implicit Types (y : fleet) (h : history).

(** What the clients [P], by socket, may ask: requests that fit the buffers and, in whatever
    order they are served, stay within the capacities; [good] describes the maps they lead
    to. *)
Record workload_ok : Prop := {
  wl_buffer : 9 ≤ max_buf_size arg ∧ max_buf_size arg + 27 ≤ INT_MAX;
  wl_sockets c : c ∈ dom P → 0 ≤ c;
  wl_wire c rs : P !! c = Some rs → Forall (wire_ok (max_buf_size arg)) rs;
  wl_within c rs r m : P !! c = Some rs → r ∈ rs → good m → within arg size m r ∧ good (fst (spec_step m r));
}.

(** As many clients as the server has ever had at a time: only then does the last of them
    let the workers quit. *)
Definition all_clients : bool := num_clients h0 =? Z.of_nat (base.size P).

(** All run clients have left, and the quit jobs are out. *)
Definition quitting y : bool := exits && all_clients && (num_connection (y_host y) =? 0).

(** What worker [i], if it has started, has in front of it. *)
Definition worker_ok y (i : nat) (q : list job) : Prop :=
  let w := workers (y_disp y) !! i in
  if quitting y then pending w q = (match w with Some WQuit => [] | _ => [the_quit_job (max_buf_size arg)] end)
  else w ≠ Some WQuit ∧ Forall (λ j, job_client_sock j ∈ dom P) (pending w q).

Record fleet_inv (h : history) y : Prop := {
  (* the dispatcher *)
  fi_fifo : fifo (y_disp y);
  fi_queues : blen (queue (y_disp y)) = num_threads arg;
  fi_arg : arg_enclave (d_enclave (y_disp y)) = arg;
  fi_size : ht_size (ht_enclave (d_enclave (y_disp y))) = size;
  fi_threads : threads_ok (d_enclave (y_disp y));
  fi_left i : workers (y_disp y) !! i ≠ Some WLeft;
  fi_jobs i q : queue (y_disp y) !! i = Some q → worker_ok y i q;
  (* the store *)
  fi_holds : holds (d_enclave (y_disp y)) (spec_run m0 h.*2);
  fi_good : good (spec_run m0 h.*2);
  fi_ran : ∃ l, ran (y_disp y) = ran (h_disp h0) ++ l ∧ Forall2 (runs_request (max_buf_size arg)) (client_jobs l) h;
  (* the host *)
  fi_harg : h_arg (y_host y) = arg;
  fi_conn : conn_inv (y_host y);
  fi_open : master (y_host y) ⊆ open_fds (y_host y);
  fi_fds : fdmax (y_host y) < Z.of_nat FD_SETSIZE;
  fi_master : master (y_host y) ⊆ {[server_sockfd (y_host y)]} ∪ dom P;
  fi_sock : server_sockfd (y_host y) ∉ dom P;
  fi_exits : exits = true → exit_count (y_disp y) + num_connection (y_host y) = Z.of_nat (base.size P);
  fi_loads : exits = false → exit_count (y_disp y) = exit_count (h_disp h0);
  fi_start : server_sockfd (y_host y) = server_sockfd h0 ∧ num_clients (y_host y) = num_clients h0;
  fi_bound : Z.of_nat (base.size P) ≤ num_clients h0;
  fi_over : y_over y = exits && (num_connection (y_host y) =? 0);
  (* the clients *)
  fi_dom : dom (y_clients y) = dom P;
  fi_client c rs k : P !! c = Some rs → y_clients y !! c = Some k →
    ∃ e, client_ok (max_buf_size arg) exits m0 h (waiting (y_disp y)) (master (y_host y)) c rs k e;
}.

(** ** The beginning and the end *)

(** The clients have connected, and the store holds [m0]: nothing waits and nobody has left. *)
Record ready y : Prop := {
  rd_fifo : fifo (y_disp y);
  rd_queues : blen (queue (y_disp y)) = num_threads arg;
  rd_workers i w : workers (y_disp y) !! i = Some w → w = WLoop ∨ w = WPop;
  rd_pending i q : queue (y_disp y) !! i = Some q → pending (workers (y_disp y) !! i) q = [];
  rd_arg : arg_enclave (d_enclave (y_disp y)) = arg;
  rd_size : ht_size (ht_enclave (d_enclave (y_disp y))) = size;
  rd_threads : threads_ok (d_enclave (y_disp y));
  rd_holds : holds (d_enclave (y_disp y)) m0;
  rd_harg : h_arg (y_host y) = arg;
  rd_conn : conn_inv (y_host y);
  rd_open : master (y_host y) ⊆ open_fds (y_host y);
  rd_fds : fdmax (y_host y) < Z.of_nat FD_SETSIZE;
  rd_master : master (y_host y) = {[server_sockfd (y_host y)]} ∪ dom P;
  rd_sock : server_sockfd (y_host y) ∉ dom P;
  rd_count : exit_count (y_disp y) = 0;
  rd_exits : exits = true → P ≠ ∅;
  rd_over : y_over y = false;
  rd_clients : y_clients y = client_start ∘ script (max_buf_size arg) exits <$> P;
}.

(** Every client has read the answer to its last message, every worker has ended ([quit]) or
    waits, and the main thread has no client left. *)
Record finished (quit : bool) y : Prop := {
  fn_clients c k : y_clients y !! c = Some k → cl_todo k = [] ∧ cl_up k = [] ∧ cl_down k = [] ∧ cl_waits k = false;
  fn_workers : workers (y_disp y) = replicate (Z.to_nat (num_threads arg)) (if quit then WQuit else WLoop);
  fn_queues : queue (y_disp y) = replicate (Z.to_nat (num_threads arg)) [];
  fn_master : master (y_host y) = {[server_sockfd (y_host y)]};
  fn_connection : num_connection (y_host y) = 0;
  fn_over : y_over y = exits;
}.

(** What the client [c] with the trace [rs] has got is what the history [h] gives it. *)
Definition served_by h (c : Z) (rs : list request) (k : client) : Prop :=
  of_client c h `prefix_of` rs ∧
  Forall2 (reply_ok (max_buf_size arg)) (take (length rs) (cl_got k))
    (take (length (cl_got k)) (of_client c (spec_trace m0 h))).

(** The client [c] has sent its whole trace [rs] and read all answers. *)
Definition all_answered h (c : Z) (rs : list request) (k : client) : Prop :=
  of_client c h = rs ∧ ∃ reps, cl_got k = reps ++ [last_buf (max_buf_size arg) exits] ∧
    Forall2 (reply_ok (max_buf_size arg)) reps (of_client c (spec_trace m0 h)).

(** All turns of threads that run; a round in which every thread gets a turn, in any order and
    any number of times, and a worker may start. *)
Definition all_turns : list turn :=
  (TWorker <$> seq 0 (Z.to_nat (num_threads arg))) ++
  (TMain <$> elements (dom P)) ++ (TClient <$> elements (dom P)).
Definition round (ts : list turn) : Prop := (∃ k, TStart k ∈ ts) ∧ ∀ t, t ∈ all_turns → t ∈ ts.

(** ** The order of the start

    The main thread can use the queues and the table header when the workers have started.
    [main] does not wait for them; the theorems on the whole system are about the runs in
    which it reads its first message after that. *)

(** How many workers have not started, and what a turn makes of it. *)
Definition missing y : nat := Z.to_nat (num_threads arg) - length (workers (y_disp y)).
Definition missing_after (t : turn) (n : nat) : nat := match t with TStart _ => pred n | _ => n end.

(** With [n] workers missing, no message is read before they have started. *)
Fixpoint workers_first (n : nat) (ts : list turn) : Prop :=
  match ts with
  | [] => True
  | t :: ts' => match t with TMain _ => n = 0%nat | _ => True end ∧ workers_first (missing_after t n) ts'
  end.

Lemma workers_first_all ts : workers_first 0 ts.
Proof. induction ts as [|[] ts IH]; by repeat split. Qed.

(** ** The work that is left *)
Definition client_work (k : client) : nat :=
  8 * length (cl_todo k) + 6 * length (cl_up k) + (if cl_waits k then 1 else 0).
Definition worker_work (w : worker) : nat :=
  match w with WLoop => 1 | WPop => 2 | WJob _ | WQuit | WLeft => 0 end.

Definition work y : nat :=
  4 * Z.to_nat (num_threads arg) * Z.to_nat (num_connection (y_host y)) +
  map_sum client_work (y_clients y) + 4 * length (waiting (y_disp y)) +
  sum_list_with worker_work (workers (y_disp y)) +
  2 * (Z.to_nat (num_threads arg) - length (workers (y_disp y))).
End inv.
