(* ===== verification/FleetProofs.v ===== *)
(** * Clients and server keep the invariant

    Every turn of every thread succeeds and keeps [fleet_inv]; it either changes nothing or
    leaves less work. *)

From S2P Require Import Prelude CString CLib Common Hash Core HashTable Enclave Config Rep.
From S2P Require Import CoreProofs.
From S2P Require Import EnclaveProofs Service EnclaveService Dispatch DispatchProofs Server.
From S2P Require Import ServerProofs.
From S2P Require Import Client ClientProofs Wire Fleet FleetJobs FleetInv.

(** The parts of the invariant. *)
Ltac inv_parts HI :=
  destruct HI as [IFifo IQueues IArg ISize IThr ILeft IJobs IHolds IGood IRan IHarg IConn IOpen IFds IMaster ISock
                  IExits ILoads IStart IBound IOver IDom IClient].

Section jobs.
Implicit Types (c : Z) (js : list job).

Lemma jobs_from_cons c j js :
  jobs_from c (j :: js) = if decide (job_client_sock j = c) then j :: jobs_from c js else jobs_from c js.
Proof. unfold jobs_from. rewrite filter_cons. done. Qed.

Lemma jobs_from_in c j js : j ∈ js → job_client_sock j = c → j ∈ jobs_from c js.
Proof. intros Hj Hc. by apply list_elem_of_filter. Qed.

Lemma client_jobs_app l k : client_jobs (l ++ k) = client_jobs l ++ client_jobs k.
Proof. apply filter_app. Qed.
End jobs.

Section frame.
Context (n : Z) (exits : bool) (m0 : kvmap).

(** What client [c] sees is its own jobs, requests and answers. *)
Lemma client_ok_frame h h' js js' M M' c rs k e :
  client_ok n exits m0 h js M c rs k e → jobs_from c js' ≡ₚ jobs_from c js →
  of_client c h' = of_client c h → of_client c (spec_trace m0 h') = of_client c (spec_trace m0 h) →
  (c ∈ M' ↔ c ∈ M) → client_ok n exits m0 h' js' M' c rs k e.
Proof.
  intros [Hb Hst Hr Hrep Hm] Hj H1 H2 H3. split; [done| |by rewrite H1|by rewrite H2|by rewrite H3].
  destruct Hst.
  - apply Permutation_nil_r in Hj. rewrite Hj. constructor.
  - apply Permutation_nil_r in Hj. rewrite Hj. by constructor.
  - apply Permutation_singleton_r in Hj. rewrite Hj. by constructor.
  - apply Permutation_nil_r in Hj. rewrite Hj. constructor.
Qed.
End frame.

(** Where the clients [P] of a fleet stand. *)
Section turns.
Context `{Platform} `{!PlatformOk} (Hside : outside_ok) (Hmem : ∀ s, mem_avail s) (Hwr : writes_ok).
Context (arg : Arg) (size : Z) (P : gmap Z (list request)) (exits : bool) (good : kvmap → Prop) (m0 : kvmap).
Context (h0 : host).
Context (Hwl : workload_ok arg size P good).
Implicit Types (y : fleet) (h : history) (d : dispatch).

Abbreviation inv := (fleet_inv arg size P exits good m0 h0).
Abbreviation quits := (quitting P exits h0).
Abbreviation effort := (work arg).
Abbreviation left := (missing arg).

(** A turn of a thread succeeds, keeps the invariant, and changes nothing or leaves less work. *)
Definition turn_ok (t : turn) h y : Prop :=
  ∃ y' h', fleet_step t y = Ok (tt, y') ∧ inv (h ++ h') y' ∧ left y' = missing_after t (left y) ∧
    (y' = y ∨ (effort y' < effort y)%nat).

(** A turn of a thread that does not wait. *)
Definition turn_moves (t : turn) h y : Prop :=
  ∃ y' h', fleet_step t y = Ok (tt, y') ∧ inv (h ++ h') y' ∧ left y' = missing_after t (left y) ∧
    (effort y' < effort y)%nat.

Lemma moves_ok t h y : turn_moves t h y → turn_ok t h y.
Proof. intros (y' & h' & Hrun & HI & Hm & Hlt). exists y', h'. eauto 6. Qed.

Lemma turn_idle t h y :
  inv h y → left y = missing_after t (left y) → fleet_step t y = Ok (tt, y) → turn_ok t h y.
Proof. intros HI Hm Hrun. exists y, []. rewrite app_nil_r. eauto 6. Qed.

(** As long as the workers are not told to quit, those that have started are at work. *)
Lemma at_work h y i w : inv h y → quits y = false → workers (y_disp y) !! i = Some w → w ≠ WQuit ∧ w ≠ WLeft.
Proof.
  intros HI Hquit Hw. inv_parts HI. destruct (ff_front _ IFifo i w Hw) as (q & Hq & _).
  pose proof (IJobs i q Hq) as Hok. unfold worker_ok in Hok. rewrite Hquit, Hw in Hok. destruct Hok as [Hne _].
  split; intros ->; [done|by eapply ILeft].
Qed.

Lemma inv_header h y : inv h y → quits y = false → workers (y_disp y) ≠ [] → has_header (y_disp y).
Proof.
  intros HI Hquit Hne. destruct (ff_header _ (fi_fifo _ _ _ _ _ _ _ _ _ HI) Hne) as [k Hk]. exists k. split; [done|].
  destruct (workers (y_disp y) !! k) as [w|] eqn:Hw; [|done].
  destruct (at_work h y k w HI Hquit Hw). by destruct w.
Qed.

(** When all workers have started, every queue has one. *)
Lemma all_started h y :
  inv h y → quits y = false → left y = 0%nat → has_header (y_disp y) ∧ manned (y_disp y).
Proof.
  intros HI Hquit Hleft. pose proof (fi_queues _ _ _ _ _ _ _ _ _ HI) as Hq. pose proof (to_pos _ (fi_threads _ _ _ _ _ _ _ _ _ HI)) as Hp.
  rewrite (fi_arg _ _ _ _ _ _ _ _ _ HI) in Hp. unfold missing in Hleft. unfold blen in Hq. split.
  - apply (inv_header h); [done..|]. intros Hnil. rewrite Hnil in Hleft. simpl in Hleft. lia.
  - intros i Hi. destruct (lookup_lt_is_Some_2 (workers (y_disp y)) i) as [w Hw]; [lia|].
    exists w. split; [done|]. by destruct (at_work h y i w HI Hquit Hw).
Qed.

(** Nothing that is sent is lost. *)
Lemma arrived_ok n msgs : arrived n msgs = msgs.
Proof. revert n. induction msgs as [|x msgs IH]; intros n; [done|]. simpl. rewrite (proj2 (Z.leb_gt _ _) (Hwr n)). by rewrite IH. Qed.

(** A step of the dispatcher that sends nothing. *)
Definition with_disp d y : fleet := mkFleet (set_disp d (y_host y)) (y_clients y) (y_over y).

Lemma silent_step (m : D unit) y d' :
  m (y_disp y) = Ok (tt, d') → sent d' = sent (y_disp y) → in_host (in_dispatch m) y = Ok (tt, with_disp d' y).
Proof. intros Hm Hs. unfold in_host. rewrite (in_dispatch_ok _ _ _ _ Hwr Hm). simpl. by rewrite Hs, drop_all. Qed.

(** A step that runs no request keeps the invariant when the queues are in order. *)
Lemma inv_quiet h y d' l :
  inv h y → fifo d' → blen (queue d') = blen (queue (y_disp y)) → d_enclave d' = d_enclave (y_disp y) →
  exit_count d' = exit_count (y_disp y) → ran d' = ran (y_disp y) ++ l → client_jobs l = [] →
  (∀ c, c ∈ dom P → jobs_from c (waiting d') ≡ₚ jobs_from c (waiting (y_disp y))) →
  (∀ i, workers d' !! i ≠ Some WLeft) →
  (∀ i q, queue d' !! i = Some q → worker_ok arg P exits h0 (with_disp d' y) i q) →
  inv h (with_disp d' y).
Proof.
  intros HI Hf Hq He Hx Hr Hl Hj Hw Hok. inv_parts HI. split; simpl; rewrite ?Hq, ?He, ?Hx; try done.
  - destruct IRan as (l0 & Hl0 & Hh). exists (l0 ++ l). rewrite client_jobs_app, Hl, app_nil_r. split; [|done].
    by rewrite Hr, Hl0, app_assoc.
  - by destruct IConn; split.
  - intros c rs k Hc Hk. destruct (IClient c rs k Hc Hk) as (e & Hce). exists e.
    apply (client_ok_frame _ _ _ h h _ _ (master (y_host y)) (master (y_host y)) _ _ _ _ Hce); [|done..].
    apply Hj. by apply elem_of_dom_2 in Hc.
Qed.

(** ** A worker starts *)
Lemma start_turn_moves k h y : inv h y → num (y_disp y) < num_threads arg → turn_moves (TStart k) h y.
Proof.
  intros HI Hlt'. pose proof HI as HI0. inv_parts HI. pose proof (ff_num _ IFifo) as Hn.
  assert (num (y_disp y) <? num_threads (h_arg (y_host y)) = true) as Hlt by (rewrite IHarg; by apply Z.ltb_lt).
  rewrite Hn, <-IQueues in Hlt'. unfold blen in Hlt'.
  destruct (lookup_lt_is_Some_2 (queue (y_disp y)) (length (workers (y_disp y)))) as [q Hqi]; [lia|].
  pose proof (worker_start_ok _ _ k Hqi Hn) as Hrun. set (d' := set_header _ _) in Hrun.
  assert (∀ q' i, pending (workers d' !! i) q' = pending (workers (y_disp y) !! i) q') as Hp.
  { intros q' i. simpl. rewrite lookup_app. destruct (workers (y_disp y) !! i) as [w|]; [done|]. by destruct (i - _)%nat. }
  assert (waiting d' = waiting (y_disp y)) as Hwait by (unfold waiting; f_equal; apply pends_ext; intros; apply Hp).
  exists (with_disp d' y), []. rewrite app_nil_r. split; [|split; [|split]].
  - unfold fleet_step, start_turn. msimpl. unfold id. rewrite Hlt. by apply silent_step.
  - apply (inv_quiet h y d' []); try done.
    + by apply (fifo_start _ _ _ _ _ _ IFifo Hrun).
    + simpl. by rewrite app_nil_r.
    + intros. by rewrite Hwait.
    + intros i. simpl. intros [Hi|[_ Hi]]%lookup_app_Some; [by eapply ILeft|].
      by apply list_lookup_singleton_Some in Hi as [_ Hi].
    + intros i q' Hi. pose proof (IJobs i q' Hi) as Hok. unfold worker_ok in *. simpl.
      change (quits (with_disp d' y)) with (quits y).
      assert (∀ A (a b : A), match (workers (y_disp y) ++ [WLoop]) !! i with Some WQuit => a | _ => b end =
                            match workers (y_disp y) !! i with Some WQuit => a | _ => b end) as Hm.
      { intros A a b. rewrite lookup_app. destruct (workers (y_disp y) !! i) as [[]|]; try done. by destruct (i - _)%nat. }
      rewrite Hm. pose proof (Hp q' i) as Hpi. simpl in Hpi. rewrite Hpi. destruct (quits y); [done|].
      destruct Hok as [Hne Hall]. split; [|done].
      intros [Hi'|[_ Hi']]%lookup_app_Some; [done|]. by apply list_lookup_singleton_Some in Hi' as [_ Hi'].
  - unfold missing. simpl. rewrite length_app. simpl. lia.
  - unfold work. simpl. rewrite Hwait, sum_list_with_app, length_app. simpl. unfold blen in IQueues. lia.
Qed.

Lemma start_turn_ok k h y : inv h y → turn_ok (TStart k) h y.
Proof.
  intros HI. destruct (Z.ltb_spec (num (y_disp y)) (num_threads arg)) as [Hlt|Hge].
  - by apply moves_ok, start_turn_moves.
  - apply turn_idle; [done| |].
    + simpl. unfold missing. rewrite (ff_num _ (fi_fifo _ _ _ _ _ _ _ _ _ HI)) in Hge. unfold blen in Hge. lia.
    + unfold fleet_step, start_turn. msimpl. unfold id.
      by rewrite (fi_harg _ _ _ _ _ _ _ _ _ HI), (proj2 (Z.ltb_ge _ _)).
Qed.

(** ** A worker makes a step *)
Lemma worker_turn_run i y :
  (i < length (workers (y_disp y)))%nat →
  fleet_step (TWorker i) y = in_host (in_dispatch (worker_step (Z.of_nat i))) y.
Proof. intros Hi%Nat.ltb_lt. unfold fleet_step, worker_turn. msimpl. unfold id. by rewrite Hi. Qed.

(** Worker [i] goes from [w] to [w'] and its queue from [q] to [q']; no request is run. *)
Lemma worker_quiet h y i w w' q q' l d' :
  inv h y → workers (y_disp y) !! i = Some w → queue (y_disp y) !! i = Some q →
  worker_step (Z.of_nat i) (y_disp y) = Ok (tt, d') →
  queue d' = <[i := q']> (queue (y_disp y)) → workers d' = <[i := w']> (workers (y_disp y)) →
  d_enclave d' = d_enclave (y_disp y) → exit_count d' = exit_count (y_disp y) →
  sent d' = sent (y_disp y) → ran d' = ran (y_disp y) ++ l → client_jobs l = [] →
  (∀ c, c ∈ dom P → jobs_from c (waiting d') ≡ₚ jobs_from c (waiting (y_disp y))) →
  w' ≠ WLeft → (worker_ok arg P exits h0 y i q → worker_ok arg P exits h0 (with_disp d' y) i q') →
  fleet_step (TWorker i) y = Ok (tt, with_disp d' y) ∧ inv h (with_disp d' y).
Proof.
  intros HI Hw Hq Hrun Eq Ew Ee Ex Es Er Hl Hj Hw' Hok.
  apply lookup_lt_Some in Hw as Hlw, Hq as Hlq. split.
  { rewrite worker_turn_run by done. by apply silent_step. }
  pose proof (fifo_step i _ _ _ (fi_fifo _ _ _ _ _ _ _ _ _ HI) Hrun) as Hf.
  pose proof (fi_jobs _ _ _ _ _ _ _ _ _ HI) as IJobs. pose proof (fi_left _ _ _ _ _ _ _ _ _ HI) as ILeft.
  apply (inv_quiet h y d' l); try done.
  - by rewrite Eq, blen_insert.
  - intros k. rewrite Ew. destruct (decide (i = k)) as [->|Hne].
    + rewrite list_lookup_insert_eq by done. congruence.
    + by rewrite list_lookup_insert_ne.
  - intros k q1. rewrite Eq. destruct (decide (i = k)) as [->|Hne].
    + rewrite list_lookup_insert_eq by done. intros [= <-]. apply Hok. by apply IJobs.
    + rewrite list_lookup_insert_ne by done. intros Hk. pose proof (IJobs k q1 Hk) as Hko.
      unfold worker_ok in *. simpl. by rewrite Ew, list_lookup_insert_ne.
Qed.

Lemma work_worker y d' i w w' :
  workers (y_disp y) !! i = Some w → workers d' = <[i := w']> (workers (y_disp y)) →
  (4 * length (waiting d') + worker_work w' < 4 * length (waiting (y_disp y)) + worker_work w)%nat →
  (effort (with_disp d' y) < effort y)%nat.
Proof.
  intros Hw Ew Hlt. unfold work. simpl. rewrite Ew, length_insert.
  pose proof (sum_insert worker_work _ _ _ w' Hw). lia.
Qed.

(** A step that leaves the jobs that wait alone. *)
Lemma quiet_turn h y i w w' q q' d' :
  inv h y → workers (y_disp y) !! i = Some w → queue (y_disp y) !! i = Some q →
  worker_step (Z.of_nat i) (y_disp y) = Ok (tt, d') →
  d' = set_workers (num (y_disp y)) (<[i := w']> (workers (y_disp y))) (set_queue (<[i := q']> (queue (y_disp y))) (y_disp y)) →
  pends (workers d') (queue d') = pends (workers (y_disp y)) (queue (y_disp y)) → pending (Some w') q' = pending (Some w) q →
  w ≠ WQuit → w' ≠ WQuit → w' ≠ WLeft → (worker_work w' < worker_work w)%nat → turn_moves (TWorker i) h y.
Proof.
  intros HI Hw Hq Hrun -> Hps Hpi Hwq Hwq' Hwl' Hlt. set (d' := set_workers _ _ _) in *.
  assert (waiting d' = waiting (y_disp y)) as Hwait by (unfold waiting; by f_equal).
  destruct (worker_quiet h y i w w' q q' [] d') as [Hstep Hinv]; try done.
  - simpl. by rewrite app_nil_r.
  - intros. by rewrite Hwait.
  - unfold worker_ok. simpl. rewrite list_lookup_insert_eq, Hw by (by eapply lookup_lt_Some).
    change (quits (with_disp d' y)) with (quits y). rewrite Hpi.
    destruct (quits y); [by destruct w, w'|]. intros [_ Hall]. split; [congruence|done].
  - exists (with_disp d' y), []. rewrite app_nil_r. split; [done|]. split; [done|].
    split; [unfold missing; simpl; by rewrite length_insert|].
    apply (work_worker y d' i w w'); [done|done|]. rewrite Hwait. lia.
Qed.

Lemma take_turn_moves h y i j q :
  inv h y → workers (y_disp y) !! i = Some WLoop → queue (y_disp y) !! i = Some (j :: q) → turn_moves (TWorker i) h y.
Proof.
  intros HI Hw Hq. pose proof (worker_take _ _ _ _ Hw Hq) as Hrun.
  apply (quiet_turn h y i WLoop (WJob j) (j :: q) (j :: q) _ HI Hw Hq Hrun); try done.
  - rewrite (list_insert_id (queue _)) by done. by destruct (y_disp y).
  - by apply (pends_same _ _ _ _ WLoop (j :: q)).
  - simpl. lia.
Qed.

Lemma pop_turn_moves h y i q :
  inv h y → workers (y_disp y) !! i = Some WPop → queue (y_disp y) !! i = Some q → turn_moves (TWorker i) h y.
Proof.
  intros HI Hw Hq. pose proof (worker_pop _ _ _ Hw Hq) as Hrun.
  apply (quiet_turn h y i WPop WLoop q (tail q) _ HI Hw Hq Hrun); try done.
  - by apply pends_pop.
  - simpl. lia.
Qed.

(** The quit job is run. *)
Lemma quit_turn_moves h y i q :
  inv h y → workers (y_disp y) !! i = Some (WJob (the_quit_job (max_buf_size arg))) →
  queue (y_disp y) !! i = Some (the_quit_job (max_buf_size arg) :: q) → quits y = true → turn_moves (TWorker i) h y.
Proof.
  intros HI Hw Hq Hquit. pose proof (worker_quit _ _ _ _ Hw Hq) as Hrun. cbn [tail] in Hrun.
  set (d' := mkDispatch _ _ _ _ _ _ _ _ _) in Hrun. apply lookup_lt_Some in Hw as Hlw, Hq as Hlq.
  assert (waiting (y_disp y) ≡ₚ the_quit_job (max_buf_size arg) :: waiting d') as Hwait.
  { unfold waiting. simpl. rewrite pends_queue, (list_lookup_insert_eq (workers _)) by done. simpl.
    rewrite (pends_worker _ _ i WQuit _ _ Hw Hq), list_insert_insert_eq.
    apply (concat_at _ i _ _ [the_quit_job (max_buf_size arg)]) with (2 := reflexivity _).
    by rewrite pends_lookup, Hq, Hw. }
  destruct (worker_quiet h y i _ WQuit _ q [(Z.of_nat i, the_quit_job (max_buf_size arg))] d' HI Hw Hq Hrun)
    as [Hstep Hinv]; try done.
  - intros c Hc. rewrite Hwait, jobs_from_cons, decide_False; [done|]. simpl.
    apply (wl_sockets _ _ _ _ Hwl) in Hc. lia.
  - unfold worker_ok. simpl. rewrite list_lookup_insert_eq, Hw by done.
    change (quits (with_disp d' y)) with (quits y). rewrite Hquit. by intros [= ->].
  - exists (with_disp d' y), []. rewrite app_nil_r. split; [done|]. split; [done|].
    split; [unfold missing; simpl; by rewrite length_insert|].
    eapply work_worker; [exact Hw|done|]. rewrite Hwait. simpl. lia.
Qed.

(** A job of a client that waits is its request, and the client waits for it. *)
Lemma job_of_client h js M c rs k e j :
  client_ok (max_buf_size arg) exits m0 h js M c rs k e → j ∈ js → job_client_sock j = c →
  ∃ r, rs !! e = Some r ∧ j = mkJob c (wire (max_buf_size arg) r) ∧ jobs_from c js = [j] ∧ length (cl_got k) = e ∧
    k = mkClient (drop (S e) (script (max_buf_size arg) exits rs)) [] [] true (cl_got k).
Proof.
  intros [_ Hst _ _ _] Hj Hc. pose proof (jobs_from_in c j js Hj Hc) as Hin.
  inversion Hst as [got E1 E2 E3|got m Hm E1 E2 E3|got r Hr E1 E2 E3|got b E1 E2 E3]; subst; rewrite <-E2 in Hin;
    try (by apply not_elem_of_nil in Hin).
  apply list_elem_of_singleton in Hin as ->. by exists r.
Qed.

(** The client whose request is run gets the answer of the map; the others see nothing. *)
Lemma answer_client h js js' M c rs k e r buf :
  client_ok (max_buf_size arg) exits m0 h js M c rs k e →
  rs !! e = Some r → jobs_from c js' = [] → length (cl_got k) = e →
  k = mkClient (drop (S e) (script (max_buf_size arg) exits rs)) [] [] true (cl_got k) →
  reply_ok (max_buf_size arg) buf (snd (spec_step (spec_run m0 h.*2) r)) →
  client_ok (max_buf_size arg) exits m0 (h ++ [(c, r)]) js' M c rs (add_down buf k) (S e).
Proof.
  intros [Hb Hst Hr Hrep Hm] Hrs Hj Hlen Hk Hbuf. apply lookup_lt_Some in Hrs as Hlt.
  destruct Hrep as (reps & Hreps & Hans). rewrite decide_False, app_nil_r in Hreps by lia.
  assert (reps = cl_got k) as -> by (rewrite Hk in Hreps; simpl in Hreps; by rewrite app_nil_r in Hreps).
  split; [lia| | | |].
  - rewrite Hj, Hk. unfold add_down. simpl. rewrite <-Hlen. apply At_answered.
  - rewrite of_client_snoc, decide_True by done. by rewrite Hr, (take_S_r _ _ _ Hrs).
  - exists (cl_got k ++ [buf]). rewrite Hk. simpl. rewrite decide_False by lia. rewrite app_nil_r. split; [done|].
    rewrite spec_trace_snoc, of_client_snoc, decide_True by done. apply Forall2_app; [done|]. by constructor.
  - rewrite Hm. lia.
Qed.

Local Instance store_service : KvServiceOk enclave := enclave_service_ok Hside Hmem.

(** Running a request of the client [c]: the step of the worker, the new map and the answer. *)
Lemma run_request h y i c r :
  inv h y → workers (y_disp y) !! i = Some (WJob (mkJob c (wire (max_buf_size arg) r))) →
  wire_ok (max_buf_size arg) r → within arg size (spec_run m0 h.*2) r → has_header (y_disp y) →
  ∃ s' buf, worker_step (Z.of_nat i) (y_disp y) =
      Ok (tt, mkDispatch s' (queue (y_disp y)) (num (y_disp y)) (exit_count (y_disp y))
                (<[i := WPop]> (workers (y_disp y))) (sent (y_disp y) ++ [(c, buf)]) (pushed (y_disp y))
                (ran (y_disp y) ++ [(Z.of_nat i, mkJob c (wire (max_buf_size arg) r))]) (header (y_disp y))) ∧
    holds s' (spec_run m0 (h ++ [(c, r)]).*2) ∧ config s' = config (d_enclave (y_disp y)) ∧
    reply_ok (max_buf_size arg) buf (snd (spec_step (spec_run m0 h.*2) r)).
Proof.
  intros HI Hw Hwire Hin Hhd. inv_parts HI. destruct (wl_buffer _ _ _ _ Hwl) as [_ Hn].
  edestruct (worker_job_run (KvService0 := enclave_service) (λ _ _, eq_refl) (λ _, eq_refl) (y_disp y)
    (spec_run m0 h.*2) i _ r IHolds Hhd Hw) as (s' & buf & Hjob & Hrun & Hrep & _ & Hlen & Hans).
  - by apply wire_encodes.
  - split; [|by rewrite IArg, ISize]. split; cbn [job_buf]; rewrite wire_len by done; by rewrite ?IArg.
  - exists s', buf. split; [done|]. rewrite fmap_app. simpl. rewrite spec_run_snoc. split; [done|].
    split; [by apply (keeps_run _ _ _ _ _ (keeps_worker_job _) Hjob)|]. by rewrite IArg in Hlen, Hans.
Qed.

Lemma config_parts s s' :
  config s' = config s →
  arg_enclave s' = arg_enclave s ∧ ht_size (ht_enclave s') = ht_size (ht_enclave s) ∧ (threads_ok s → threads_ok s').
Proof.
  unfold config. intros [= Ea Er Es _ _ _]. split; [done|]. split; [done|].
  intros [Hs Hp He Hr]. split; unfold per_worker in *; by rewrite ?Ea, ?Es, ?Er.
Qed.

(** The invariant after the request [r] of the client [c] was run. *)
Lemma inv_request h y i c rs k e r q s' buf sn ps :
  inv h y → let j := mkJob c (wire (max_buf_size arg) r) in
  let d' := mkDispatch s' (queue (y_disp y)) (num (y_disp y)) (exit_count (y_disp y))
              (<[i := WPop]> (workers (y_disp y))) sn ps (ran (y_disp y) ++ [(Z.of_nat i, j)]) (header (y_disp y)) in
  workers (y_disp y) !! i = Some (WJob j) → queue (y_disp y) !! i = Some (j :: q) →
  quits y = false → P !! c = Some rs → y_clients y !! c = Some k → rs !! e = Some r →
  client_ok (max_buf_size arg) exits m0 (h ++ [(c, r)]) (waiting d') (master (y_host y)) c rs (add_down buf k) (S e) →
  fifo d' → holds s' (spec_run m0 (h ++ [(c, r)]).*2) → config s' = config (d_enclave (y_disp y)) →
  inv (h ++ [(c, r)]) (mkFleet (set_disp d' (y_host y)) (<[c := add_down buf k]> (y_clients y)) (y_over y)).
Proof.
  intros HI j d' Hw Hq Hquit Hrs Hk Hr Hcl Hf Hm Hcfg. inv_parts HI.
  destruct (config_parts _ _ Hcfg) as (Ea & Es & Et). apply elem_of_dom_2 in Hrs as Hc.
  apply list_elem_of_lookup_2 in Hr as Hin. pose proof (wl_sockets _ _ _ _ Hwl c Hc) as Hpos.
  destruct (wl_within _ _ _ _ Hwl c rs r _ Hrs Hin IGood) as [_ Hg].
  assert (waiting (y_disp y) ≡ₚ j :: waiting d') as Hwait by (by apply (waiting_run _ _ _ _ q)).
  split; simpl; rewrite ?Ea, ?Es; try done.
  - auto.
  - intros k'. destruct (decide (i = k')) as [->|Hne]; [|by rewrite list_lookup_insert_ne].
    by rewrite list_lookup_insert_eq by (by eapply lookup_lt_Some).
  - intros k' q' Hq'. pose proof (IJobs k' q' Hq') as Hok. unfold worker_ok in *. simpl.
    change (quits (mkFleet _ _ _)) with (quits y). rewrite Hquit in *.
    destruct (decide (i = k')) as [->|Hne]; [|by rewrite list_lookup_insert_ne].
    rewrite list_lookup_insert_eq by (by eapply lookup_lt_Some). simpl. split; [done|].
    rewrite Hw in Hok. rewrite Hq in Hq'. injection Hq' as <-. simpl in *. by destruct Hok as [_ [_ Hok]%Forall_cons].
  - rewrite fmap_app. simpl. by rewrite spec_run_snoc.
  - destruct IRan as (l & Hl & Hh). exists (l ++ [(Z.of_nat i, j)]). rewrite client_jobs_app, Hl, app_assoc. split; [done|].
    apply Forall2_app; [done|]. unfold client_jobs. rewrite filter_cons, decide_True by (simpl; lia).
    by repeat constructor.
  - by destruct IConn; split.
  - rewrite dom_insert_L. apply elem_of_dom_2 in Hk. set_solver.
  - intros c' rs' k' Hrs' Hk'. destruct (decide (c = c')) as [<-|Hne].
    + rewrite lookup_insert_eq in Hk'. injection Hk' as <-. rewrite Hrs in Hrs'. injection Hrs' as <-. eauto.
    + rewrite lookup_insert_ne in Hk' by done. destruct (IClient c' rs' k' Hrs' Hk') as (e' & Hce). exists e'.
      eapply client_ok_frame; [exact Hce| | | |done].
      * by rewrite Hwait, jobs_from_cons, decide_False.
      * by rewrite of_client_snoc, decide_False, app_nil_r.
      * by rewrite spec_trace_snoc, of_client_snoc, decide_False, app_nil_r.
Qed.

Lemma run_turn_moves h y i j q :
  inv h y → workers (y_disp y) !! i = Some (WJob j) → queue (y_disp y) !! i = Some (j :: q) →
  quits y = false → turn_moves (TWorker i) h y.
Proof.
  intros HI Hw Hq Hquit. pose proof HI as HI0. inv_parts HI.
  pose proof (IJobs i _ Hq) as Hok. unfold worker_ok in Hok. rewrite Hquit, Hw in Hok. simpl in Hok.
  destruct Hok as [_ [Hc _]%Forall_cons]. set (c := job_client_sock j) in *.
  apply elem_of_dom in Hc as Hrs. destruct Hrs as [rs Hrs]. pose proof Hc as Hk. rewrite <-IDom in Hk.
  apply elem_of_dom in Hk as [k Hk]. destruct (IClient c rs k Hrs Hk) as (e & Hce).
  set (js' := concat (pends (<[i := WPop]> (workers (y_disp y))) (queue (y_disp y)))).
  assert (waiting (y_disp y) ≡ₚ j :: js') as Hwait by (by apply (waiting_run _ _ _ _ q)).
  destruct (job_of_client h _ _ c rs k e j Hce) as (r & Hr & Hj & Hone & Hlen & Hkeq); [by rewrite Hwait; left|done|].
  assert (r ∈ rs) as Hin by (by eapply list_elem_of_lookup_2).
  destruct (wl_within _ _ _ _ Hwl c rs r _ Hrs Hin IGood) as [Hwi _].
  pose proof (wl_wire _ _ _ _ Hwl c rs Hrs) as Hwire. rewrite Forall_forall in Hwire. specialize (Hwire r Hin).
  assert (has_header (y_disp y)) as Hhd by (apply (inv_header h); [done..|]; intros Hnil; by rewrite Hnil in Hw).
  clearbody c. subst j. destruct (run_request h y i c r HI0 Hw Hwire Hwi Hhd) as (s' & buf & Hrun & Hm & Hcfg & Hrep).
  assert (jobs_from c js' = []) as Hnone.
  { apply Permutation_nil_r, (Permutation_cons_inv (a := mkJob c (wire (max_buf_size arg) r))).
    rewrite <-Hone, Hwait, jobs_from_cons, decide_True by done. done. }
  eexists (mkFleet (set_disp _ (y_host y)) (<[c := add_down buf k]> (y_clients y)) (y_over y)), [(c, r)].
  split; [|split; [|split]].
  - rewrite worker_turn_run by (by eapply lookup_lt_Some). unfold in_host. rewrite (in_dispatch_ok _ _ _ _ Hwr Hrun). simpl.
    rewrite arrived_ok, drop_app_length. simpl. rewrite <-(insert_id _ _ _ Hk) at 1. by rewrite alter_insert_eq.
  - eapply inv_request; try done; [|by apply (fifo_step i _ _ _ IFifo Hrun)]. by eapply answer_client.
  - unfold missing. simpl. by rewrite length_insert.
  - unfold work. simpl. change (waiting (mkDispatch _ _ _ _ _ _ _ _ _)) with js'.
    pose proof (sum_insert worker_work _ _ _ WPop Hw). pose proof (map_sum_insert client_work _ _ _ (add_down buf k) Hk).
    rewrite length_insert. rewrite Hwait. simpl in *. change (client_work (add_down buf k)) with (client_work k) in *. lia.
Qed.

(** A worker that waits, has ended or was not started. *)
Lemma worker_turn_idle y i :
  ((i < length (workers (y_disp y)))%nat → worker_step (Z.of_nat i) (y_disp y) = Ok (tt, y_disp y)) →
  fleet_step (TWorker i) y = Ok (tt, y).
Proof.
  intros Hrun. destruct (decide (i < length (workers (y_disp y)))%nat) as [Hlt|Hge].
  - rewrite worker_turn_run, (silent_step _ _ _ (Hrun Hlt) eq_refl) by done. by destruct y as [[]].
  - unfold fleet_step, worker_turn. msimpl. unfold id. by rewrite (proj2 (Nat.ltb_ge _ _)) by lia.
Qed.

Lemma worker_turn_ok h y i : inv h y → turn_ok (TWorker i) h y.
Proof.
  intros HI. destruct (workers (y_disp y) !! i) as [w|] eqn:Hw.
  2:{ apply turn_idle; [done|done|]. apply worker_turn_idle. apply lookup_ge_None in Hw. lia. }
  destruct (ff_front _ (fi_fifo _ _ _ _ _ _ _ _ _ HI) i w Hw) as (q & Hq & Hfr).
  assert (worker_step (Z.of_nat i) (y_disp y) = Ok (tt, y_disp y) → turn_ok (TWorker i) h y) as Hidle.
  { intros Hrun. apply turn_idle; [done|done|]. by apply worker_turn_idle. }
  destruct w as [|j| | |]; simpl in Hfr.
  - destruct q as [|j q]; [|by apply moves_ok, (take_turn_moves h y i j q)]. apply Hidle. by apply worker_waits.
  - destruct q as [|j' q]; [done|]. injection Hfr as ->. pose proof (fi_jobs _ _ _ _ _ _ _ _ _ HI i _ Hq) as Hok.
    destruct (quits y) eqn:Hquit; [|by apply moves_ok, (run_turn_moves h y i j q)].
    unfold worker_ok in Hok. rewrite Hquit, Hw in Hok. simpl in Hok. injection Hok as -> ->. by apply moves_ok, (quit_turn_moves h y i []).
  - by apply moves_ok, (pop_turn_moves h y i q).
  - apply Hidle. by apply worker_ended.
  - by apply (fi_left _ _ _ _ _ _ _ _ _ HI) in Hw.
Qed.

(** ** A client writes or reads *)
Lemma client_step_ok n h js M c rs k e :
  client_ok n exits m0 h js M c rs k e →
  client_step k = k ∨
  (client_ok n exits m0 h js M c rs (client_step k) e ∧ (client_work (client_step k) < client_work k)%nat).
Proof.
  intros [Hb Hst Hr Hrep Hm].
  inversion Hst as [got E1 E2 E3|got m Hsm E1 E2 E3|got r Hrs E1 E2 E3|got b E1 E2 E3]; subst; try by left.
  - destruct (drop (length got) (script n exits rs)) as [|m todo] eqn:Hd; [by left|right]. unfold client_step. simpl.
    assert (script n exits rs !! length got = Some m ∧ todo = drop (S (length got)) (script n exits rs)) as [Hsm ->].
    { split; [by rewrite <-(Nat.add_0_r (length got)), <-lookup_drop, Hd|].
      replace (S (length got)) with (length got + 1)%nat by lia. by rewrite <-drop_drop, Hd. }
    split; [|unfold client_work; simpl; lia]. split; try done. rewrite <-E2. by constructor.
  - right. unfold client_step. cbn [cl_waits cl_down cl_todo cl_up cl_got]. split; [|unfold client_work; simpl; lia].
    split; try done.
    + rewrite <-E2. pose proof (At_ready n exits c rs (got ++ [b])) as HA. by rewrite length_app, Nat.add_1_r in HA.
    + cbn [cl_got cl_down] in *. by rewrite app_nil_r.
Qed.

Lemma client_of h y c k :
  inv h y → y_clients y !! c = Some k →
  ∃ rs e, P !! c = Some rs ∧ client_ok (max_buf_size arg) exits m0 h (waiting (y_disp y)) (master (y_host y)) c rs k e.
Proof.
  intros HI Hk. inv_parts HI. apply elem_of_dom_2 in Hk as Hc. rewrite IDom in Hc.
  apply elem_of_dom in Hc as [rs Hrs]. destruct (IClient c rs k Hrs Hk) as (e & Hce). eauto.
Qed.

Lemma client_turn_run y c k :
  y_clients y !! c = Some k →
  fleet_step (TClient c) y = Ok (tt, set_clients (<[c := client_step k]> (y_clients y)) y).
Proof.
  intros Hk. unfold fleet_step, client_turn, modify. do 3 f_equal.
  rewrite <-(insert_id _ _ _ Hk) at 1. by rewrite alter_insert_eq.
Qed.

Lemma client_turn_moves h y c k :
  inv h y → y_clients y !! c = Some k → client_step k ≠ k → turn_moves (TClient c) h y.
Proof.
  intros HI Hk Hne. destruct (client_of h y c k HI Hk) as (rs & e & Hrs & Hce).
  destruct (client_step_ok _ _ _ _ _ _ _ _ Hce) as [Hid|[Hce' Hlt]]; [done|]. inv_parts HI.
  eexists _, []. rewrite app_nil_r. split; [by apply client_turn_run|]. split; [|split; [done|]].
  - split; simpl; try done.
    + rewrite dom_insert_L. apply elem_of_dom_2 in Hk. set_solver.
    + intros c' rs' k' Hrs' Hk'. destruct (decide (c = c')) as [<-|Hnc].
      * rewrite lookup_insert_eq in Hk'. injection Hk' as <-. rewrite Hrs in Hrs'. injection Hrs' as <-. eauto.
      * rewrite lookup_insert_ne in Hk' by done. by apply IClient.
  - unfold work. simpl. pose proof (map_sum_insert client_work _ _ _ (client_step k) Hk). lia.
Qed.

Lemma client_turn_ok h y c : inv h y → turn_ok (TClient c) h y.
Proof.
  intros HI. destruct (y_clients y !! c) as [k|] eqn:Hk.
  2:{ apply turn_idle; [done|done|]. unfold fleet_step, client_turn, modify, set_clients. rewrite alter_id' by done. by destruct y. }
  destruct (client_of h y c k HI Hk) as (rs & e & Hrs & Hce).
  destruct (client_step_ok _ _ _ _ _ _ _ _ Hce) as [Hid|[_ Hlt]].
  - apply turn_idle; [done|done|]. rewrite (client_turn_run _ _ _ Hk), Hid, (insert_id _ _ _ Hk). by destruct y.
  - apply moves_ok, (client_turn_moves h y c k HI Hk). intros Heq. rewrite Heq in Hlt. lia.
Qed.

(** ** The main thread serves a client *)
Lemma connected_not_quitting h y c :
  inv h y → c ∈ dom P → c ∈ master (y_host y) → c ≠ server_sockfd (y_host y) ∧ 0 < num_connection (y_host y).
Proof.
  intros HI Hc Hm. inv_parts HI. assert (c ≠ server_sockfd (y_host y)) as Hne by (intros ->; done). split; [done|].
  rewrite (ci_count _ IConn). destruct (base.size (master (y_host y) ∖ {[server_sockfd (y_host y)]})) eqn:Hs; [|lia].
  apply size_empty_inv in Hs. set_solver.
Qed.

(** A round of the main loop for the message [m] of the client [c]. *)
Lemma main_turn_run h y c k m up b (h' : host) ex :
  inv h y → c ∈ dom P → y_clients y !! c = Some k → cl_up k = m :: up → c ∈ master (y_host y) →
  client_message c m (y_host y) = Ok (b, h') → fdmax h' = fdmax (y_host y) →
  strncmp_eq (h_buf h') (str "EXIT") 4 = Ok ex →
  let fin := ex && (num_connection h' =? 0) in
  fleet_step (TMain c) y =
  Ok (tt, mkFleet (if fin then say "Client request is END" h' else h')
            (deliver (drop (length (sent (y_disp y))) (sent (h_disp h'))) (<[c := set_up up k]> (y_clients y))) fin).
Proof.
  intros HI Hc Hk Hup Hm Hmsg Hfd Hex fin.
  destruct (connected_not_quitting h y c HI Hc Hm) as [Hne Hpos]. inv_parts HI.
  assert (y_over y = false) as Hover.
  { rewrite IOver. rewrite (proj2 (Z.eqb_neq _ _)) by lia. by rewrite andb_false_r. }
  assert (server_round {[c]} (λ _, IRead m) (y_host y) = Ok (fin, if fin then say "Client request is END" h' else h')) as Hround.
  { rewrite (round_of_one {[c]} (λ _, IRead m) (y_host y) c b h'); try done.
    - msimpl. unfold id. rewrite (bind_lift _ _ _ _ Hex). unfold fin. by destruct (ex && (num_connection h' =? 0)).
    - set_solver.
    - set_solver.
    - by apply (ci_range _ IConn). }
  unfold fleet_step, main_turn. msimpl. unfold id. rewrite Hk, Hup, bool_decide_true, Hover by done. cbn [andb negb]. msimpl.
  match goal with |- (in_host _ ≫= _) ?y1 = _ =>
    assert (in_host (server_round {[c]} (λ _, IRead m)) y1 = Ok (fin, mkFleet (if fin then say "Client request is END" h' else h')
      (deliver (drop (length (sent (y_disp y))) (sent (h_disp h'))) (<[c := set_up up k]> (y_clients y))) false)) as Hin
  end.
  { unfold in_host. cbn [y_host set_clients]. rewrite Hround, <-Hover. simpl. rewrite arrived_ok. by destruct fin. }
  rewrite (bind_ok _ _ _ _ _ Hin). by destruct fin.
Qed.

Lemma written_stage n c rs todo m got js e :
  at_stage n exits c rs (mkClient todo [m] [] true got) js e →
  e = length got ∧ js = [] ∧ todo = drop (S (length got)) (script n exits rs) ∧ script n exits rs !! length got = Some m.
Proof. intros Hst. by inversion Hst. Qed.

(** A request is put into its queue. *)
Lemma request_turn_moves h y c rs e r todo got :
  inv h y → P !! c = Some rs → rs !! e = Some r → c ∈ master (y_host y) →
  let m := wire (max_buf_size arg) r in let k := mkClient todo [m] [] true got in
  y_clients y !! c = Some k →
  client_ok (max_buf_size arg) exits m0 h (waiting (y_disp y)) (master (y_host y)) c rs k e →
  left y = 0%nat → turn_moves (TMain c) h y.
Proof.
  intros HI Hrs Hr Hm m k Hk Hce Hleft. pose proof (elem_of_dom_2 _ _ _ Hrs) as Hc.
  destruct (connected_not_quitting h y c HI Hc Hm) as [Hne Hpos]. pose proof HI as HI0. inv_parts HI.
  assert (quits y = false) as Hquit.
  { unfold quitting. rewrite (proj2 (Z.eqb_neq _ _)) by lia. apply andb_false_r. }
  pose proof (wl_wire _ _ _ _ Hwl c rs Hrs) as Hwire. rewrite Forall_forall in Hwire.
  specialize (Hwire r (list_elem_of_lookup_2 _ _ _ Hr)). pose proof (wl_buffer _ _ _ _ Hwl) as [Hn1 Hn2].
  assert (blen m = max_buf_size arg) as Hlen by (by apply wire_len).
  destruct (all_started h y HI0 Hquit Hleft) as [Hhd Hman].
  destruct (client_message_request Hwr (y_host y) c m r) as (i & q & buf & Hq & Hex & Hrun);
    [split; congruence|done|done|done|by apply wire_encodes|by split; rewrite ?IArg, Hlen|lia|].
  set (d' := log_push _ _) in Hrun. destruct (Hman i (lookup_lt_Some _ _ _ Hq)) as (wi & Hwi & Hwn).
  pose proof (push_ok (y_disp y) i (mkJob c m) q wi Hq Hwi Hwn) as Hpush. fold d' in Hpush.
  assert (pending (workers (y_disp y) !! i) (q ++ [mkJob c m]) = pending (workers (y_disp y) !! i) q ++ [mkJob c m]) as Hp.
  { apply pending_snoc. intros w Hw. destruct (ff_front _ IFifo i w Hw) as (q' & Hq' & Hfr). congruence. }
  assert (waiting d' ≡ₚ mkJob c m :: waiting (y_disp y)) as Hwait by (by apply waiting_push).
  exists (mkFleet (set_buf buf (set_disp d' (y_host y))) (<[c := set_up [] k]> (y_clients y)) false), [].
  rewrite app_nil_r. split; [|split; [|split; [done|]]].
  - rewrite (main_turn_run h y c k m [] false _ false HI0 Hc Hk eq_refl Hm Hrun eq_refl Hex). cbn [andb h_disp set_buf set_disp].
    change (sent d') with (sent (y_disp y)). by rewrite drop_all.
  - split; simpl; rewrite ?blen_insert; try done.
    + by apply (fifo_push _ _ _ _ _ IFifo Hpush).
    + intros i' q'. unfold worker_ok. simpl. change (quits (mkFleet _ _ _)) with (quits y). rewrite Hquit.
      destruct (decide (i = i')) as [<-|Hni].
      * rewrite list_lookup_insert_eq by (by eapply lookup_lt_Some). intros [= <-].
        pose proof (IJobs i q Hq) as Hok. unfold worker_ok in Hok. rewrite Hquit in Hok. destruct Hok as [Hwq Hall].
        split; [done|]. rewrite Hp. apply Forall_app. split; [done|]. by constructor.
      * rewrite list_lookup_insert_ne by done. intros Hq'. pose proof (IJobs i' q' Hq') as Hok.
        unfold worker_ok in Hok. by rewrite Hquit in Hok.
    + by destruct IConn; split.
    + by rewrite (proj2 (Z.eqb_neq _ _)), andb_false_r by lia.
    + rewrite dom_insert_L. apply elem_of_dom_2 in Hk. set_solver.
    + intros c' rs' k' Hrs' Hk'. destruct (decide (c = c')) as [<-|Hnc].
      * rewrite lookup_insert_eq in Hk'. injection Hk' as <-. rewrite Hrs in Hrs'. injection Hrs' as <-. exists e.
        destruct Hce as [Hb Hst Hreq Hrep Hcon]. split; try done.
        apply written_stage in Hst as (-> & Hnone & -> & _).
        assert (jobs_from c (waiting d') = [mkJob c m]) as ->.
        { apply Permutation_singleton_r. by rewrite Hwait, jobs_from_cons, decide_True, Hnone by done. }
        by constructor.
      * rewrite lookup_insert_ne in Hk' by done. destruct (IClient c' rs' k' Hrs' Hk') as (e' & Hce'). exists e'.
        eapply client_ok_frame; [exact Hce'| |done|done|done]. by rewrite Hwait, jobs_from_cons, decide_False.
  - unfold work. simpl. rewrite Hwait. pose proof (map_sum_insert client_work _ _ _ (set_up [] k) Hk) as Hsum.
    unfold client_work in Hsum at 2 4. simpl in *. lia.
Qed.

(** ** The final message of a client *)

(** What the dispatcher does with it: the message goes back, and the last run client lets
    the quit job be put into every queue. *)
Record last_served (c : Z) (n left : Z) d d' : Prop := {
  ls_fifo : fifo d';
  ls_enclave : d_enclave d' = d_enclave d ∨ ∃ x, d_enclave d' = add_out x (d_enclave d);
  ls_workers : workers d' = workers d;
  ls_queue : queue d' = if exits && all_clients P h0 && (left =? 0) then (λ q, q ++ [the_quit_job n]) <$> queue d else queue d;
  ls_exits : exit_count d' = exit_count d + (if exits then 1 else 0);
  ls_sent : sent d' = sent d ++ [(c, last_buf n exits)];
  ls_ran : ran d' = ran d;
}.

Lemma push_pending h y i q j :
  inv h y → queue (y_disp y) !! i = Some q →
  pending (workers (y_disp y) !! i) (q ++ [j]) = pending (workers (y_disp y) !! i) q ++ [j].
Proof.
  intros HI Hq. apply pending_snoc. intros w Hw.
  destruct (ff_front _ (fi_fifo _ _ _ _ _ _ _ _ _ HI) i w Hw) as (q' & Hq' & Hfr). congruence.
Qed.

(** The jobs that wait afterwards: quit jobs and those from before. *)
Lemma last_waiting h y c n left d' :
  inv h y → last_served c n left (y_disp y) d' →
  ∃ k, waiting d' ≡ₚ replicate k (the_quit_job n) ++ waiting (y_disp y) ∧ (k ≤ length (queue (y_disp y)))%nat.
Proof.
  intros HI [_ _ Hw Hq _ _ _]. unfold waiting. rewrite Hw, Hq. destruct (exits && all_clients P h0 && (left =? 0)).
  - eexists. split; [|reflexivity]. apply waiting_everywhere. intros i q Hi. by apply (push_pending h).
  - exists 0%nat. split; [done|lia].
Qed.

Lemma last_jobs_from n c k js : c ∈ dom P → jobs_from c (replicate k (the_quit_job n) ++ js) = jobs_from c js.
Proof.
  intros Hc%(wl_sockets _ _ _ _ Hwl). induction k as [|k IH]; [done|]. simpl. rewrite jobs_from_cons, decide_False; [done|].
  simpl. lia.
Qed.

Lemma script_length n rs : length (script n exits rs) = S (length rs).
Proof. unfold script. rewrite length_app, length_fmap. simpl. lia. Qed.

(** A client whose messages are all answered. *)
Lemma ended_stage n c rs k js :
  at_stage n exits c rs k js (S (length rs)) →
  js = [] ∧ cl_todo k = [] ∧ cl_up k = [] ∧ length (cl_got k ++ cl_down k) = S (length rs).
Proof.
  pose proof (script_length n rs) as Hlen.
  inversion 1 as [got E1 E2 E3|got m Hm E1 E2 E3|got r Hr E1 E2 E3|got b E1 E2 E3]; simpl.
  - rewrite E3, app_nil_r, drop_ge by lia. done.
  - apply lookup_lt_Some in Hm. lia.
  - apply lookup_lt_Some in Hr. lia.
  - rewrite drop_ge, length_app by lia. simpl. split_and!; [done..|lia].
Qed.

(** Without jobs of clients the queues of workers that have not quit are empty. *)
Lemma none_waiting h y i q :
  inv h y → quits y = false → (∀ c, c ∈ dom P → jobs_from c (waiting (y_disp y)) = []) →
  queue (y_disp y) !! i = Some q → pending (workers (y_disp y) !! i) q = [].
Proof.
  intros HI Hquit Hnone Hq. pose proof (fi_jobs _ _ _ _ _ _ _ _ _ HI i q Hq) as Hok. unfold worker_ok in Hok.
  rewrite Hquit in Hok. destruct Hok as [_ Hall]. destruct (pending _ q) as [|j l] eqn:Hp; [done|exfalso].
  apply Forall_cons in Hall as [Hj _]. pose proof (Hnone _ Hj) as Hno.
  assert (j ∈ waiting (y_disp y)) as Hin.
  { apply (elem_of_bucket _ i (j :: l)); [|left]. by rewrite pends_lookup, Hq, <-Hp. }
  pose proof (jobs_from_in _ _ _ Hin eq_refl) as Hj'. rewrite Hno in Hj'.
  by apply not_elem_of_nil in Hj'.
Qed.

(** When the last client is served, all others have their answers. *)
Lemma last_client_alone h y c rs k got :
  inv h y → P !! c = Some rs → c ∈ master (y_host y) → num_connection (y_host y) = 1 →
  y_clients y !! c = Some k → (∃ todo m, k = mkClient todo [m] [] true got) →
  ∀ c', c' ∈ dom P → jobs_from c' (waiting (y_disp y)) = [].
Proof.
  intros HI Hrs Hm Hone Hk (todo & m & ->) c' Hc'. destruct (connected_not_quitting h y c HI (elem_of_dom_2 _ _ _ Hrs) Hm) as [Hne _].
  inv_parts HI. apply elem_of_dom in Hc' as Hrs'. destruct Hrs' as [rs' Hrs'].
  assert (c' ∈ dom (y_clients y)) as [k' Hk']%elem_of_dom by (by rewrite IDom).
  destruct (IClient c' rs' k' Hrs' Hk') as (e & [Hb Hst _ _ Hcon]). destruct (decide (c = c')) as [<-|Hnc].
  - rewrite Hk in Hk'. injection Hk' as <-. by apply written_stage in Hst as (_ & -> & _).
  - assert (c' ∉ master (y_host y)) as Hnm.
    { intros Hm'. apply Hnc. assert (c' ≠ server_sockfd (y_host y)) by (intros ->; done).
      rewrite (ci_count _ IConn) in Hone.
      apply (size_singleton_inv (master (y_host y) ∖ {[server_sockfd (y_host y)]}) c c'); [lia|set_solver|set_solver]. }
    assert (e = S (length rs')) as -> by (rewrite Hcon in Hnm; lia). by apply ended_stage in Hst as [? _].
Qed.

(** The client whose final message is served. *)
Lemma last_client h js js' M c rs k todo got :
  client_ok (max_buf_size arg) exits m0 h js M c rs k (length rs) →
  k = mkClient todo [last_msg exits] [] true got → jobs_from c js' = [] →
  client_ok (max_buf_size arg) exits m0 h js' (M ∖ {[c]}) c rs
    (add_down (last_buf (max_buf_size arg) exits) (set_up [] k)) (S (length rs)).
Proof.
  intros [_ Hst Hr Hrep _] -> Hnone. apply written_stage in Hst as (Hlen & _ & -> & _).
  destruct Hrep as (reps & Hreps & Hans). rewrite decide_False in Hreps by lia. simpl in Hreps. rewrite !app_nil_r in Hreps.
  subst reps. split; [done| | | |].
  - rewrite Hnone, Hlen. unfold add_down. simpl. constructor.
  - by rewrite Hr, !take_ge by lia.
  - exists got. by rewrite decide_True.
  - split; [set_solver|lia].
Qed.

Lemma inv_last h y c rs k todo got (h' : host) :
  inv h y → P !! c = Some rs → y_clients y !! c = Some k → k = mkClient todo [last_msg exits] [] true got →
  c ∈ master (y_host y) →
  client_ok (max_buf_size arg) exits m0 h (waiting (y_disp y)) (master (y_host y)) c rs k (length rs) →
  last_served c (max_buf_size arg) (num_connection (y_host y) - 1) (y_disp y) (h_disp h') → conn_inv h' → h_arg h' = arg →
  server_sockfd h' = server_sockfd (y_host y) → open_fds h' = open_fds (y_host y) ∖ {[c]} →
  master h' = master (y_host y) ∖ {[c]} → fdmax h' = fdmax (y_host y) →
  num_connection h' = num_connection (y_host y) - 1 → num_clients h' = num_clients (y_host y) →
  inv h (mkFleet h' (<[c := add_down (last_buf (max_buf_size arg) exits) (set_up [] k)]> (y_clients y))
           (exits && (num_connection h' =? 0))).
Proof.
  intros HI Hrs Hk Hkeq Hm Hce Hls Hconn Ha Es Eo Em Ef Ec En. pose proof (elem_of_dom_2 _ _ _ Hrs) as Hc.
  destruct (last_waiting _ _ _ _ _ _ HI Hls) as (n & Hwait & _).
  destruct (connected_not_quitting h y c HI Hc Hm) as [Hne Hpos]. pose proof HI as HI0. inv_parts HI.
  assert (quits y = false) as Hquit.
  { unfold quitting. rewrite (proj2 (Z.eqb_neq _ _)) by lia. apply andb_false_r. }
  destruct Hls as [Lf Le Lw Lq Lx _ Lr].
  assert (arg_enclave (d_enclave (h_disp h')) = arg_enclave (d_enclave (y_disp y)) ∧
    ht_size (ht_enclave (d_enclave (h_disp h'))) = ht_size (ht_enclave (d_enclave (y_disp y))) ∧
    (threads_ok (d_enclave (y_disp y)) → threads_ok (d_enclave (h_disp h')))) as (E1 & E2 & E3).
  { apply config_parts. by destruct Le as [->|[x ->]]. }
  split; simpl; rewrite ?E1, ?E2, ?Lw, ?Lr, ?Es, ?Em, ?Eo, ?Ef; try done.
  - rewrite Lq. unfold blen in *. set (b := exits && _ && _). destruct b; by rewrite ?length_fmap.
  - auto.
  - intros i q Hq. unfold worker_ok, quitting. simpl. rewrite Lw, Ec. rewrite Lq in Hq.
    destruct (exits && all_clients P h0 && (num_connection (y_host y) - 1 =? 0)) eqn:Hlast.
    + apply andb_true_iff in Hlast as [_ Hone%Z.eqb_eq]. apply list_lookup_fmap_Some in Hq as (q0 & -> & Hq0).
      rewrite (push_pending h) by done. rewrite (none_waiting h) by (try done; eapply last_client_alone; eauto; lia).
      pose proof (IJobs i q0 Hq0) as Hok. unfold worker_ok in Hok. rewrite Hquit in Hok. destruct Hok as [Hnq _].
      by destruct (workers (y_disp y) !! i) as [[]|].
    + pose proof (IJobs i q Hq) as Hok. unfold worker_ok in Hok. by rewrite Hquit in Hok.
  - destruct Le as [->|[x ->]]; [done|]. by apply holds_add_out.
  - set_solver.
  - set_solver.
  - intros Hx. rewrite Lx, Ec, Hx. rewrite <-(IExits Hx). lia.
  - intros Hx. rewrite Lx, Hx, (ILoads Hx). lia.
  - by rewrite En.
  - rewrite dom_insert_L. apply elem_of_dom_2 in Hk. set_solver.
  - intros c' rs' k' Hrs' Hk'. destruct (decide (c = c')) as [<-|Hnc].
    + rewrite lookup_insert_eq in Hk'. injection Hk' as <-. rewrite Hrs in Hrs'. injection Hrs' as <-.
      exists (S (length rs)). eapply last_client; [exact Hce|exact Hkeq|].
      apply Permutation_nil_r. rewrite Hwait, last_jobs_from by done. destruct Hce as [_ Hst _ _ _]. rewrite Hkeq in Hst.
      by apply written_stage in Hst as (_ & -> & _).
    + rewrite lookup_insert_ne in Hk' by done. destruct (IClient c' rs' k' Hrs' Hk') as (e' & Hce'). exists e'.
      eapply client_ok_frame; [exact Hce'| |done|done|set_solver].
      rewrite Hwait, last_jobs_from; [done|]. by apply elem_of_dom_2 in Hrs'.
Qed.

(** What the host does with a final message. *)
Lemma last_message_run h y c :
  inv h y → 0 < num_connection (y_host y) → left y = 0%nat →
  ∃ b (h' : host), client_message c (last_msg exits) (y_host y) = Ok (b, h') ∧
    last_served c (max_buf_size arg) (num_connection (y_host y) - 1) (y_disp y) (h_disp h') ∧
    strncmp_eq (h_buf h') (str "EXIT") 4 = Ok exits ∧ h_arg h' = arg ∧
    server_sockfd h' = server_sockfd (y_host y) ∧ open_fds h' = open_fds (y_host y) ∖ {[c]} ∧
    master h' = master (y_host y) ∖ {[c]} ∧ fdmax h' = fdmax (y_host y) ∧
    num_connection h' = num_connection (y_host y) - 1 ∧ num_clients h' = num_clients (y_host y).
Proof.
  intros HI Hpos Hleft. assert (manned (y_disp y)) as Hman.
  { apply (all_started h y HI); [|done]. unfold quitting. rewrite (proj2 (Z.eqb_neq _ _)) by lia. apply andb_false_r. }
  inv_parts HI. destruct (wl_buffer _ _ _ _ Hwl) as [Hn _].
  assert (wired (y_host y)) as Hwired by (split; congruence).
  assert (blen (last_buf (max_buf_size arg) exits) = max_buf_size arg) as Hlen.
  { unfold last_buf. assert (blen (last_msg exits) ≤ 9) by (by destruct exits). rewrite blen_app, blen_zeros; lia. }
  set (p := mkEcallParams (last_buf (max_buf_size arg) exits) c (num_clients (y_host y))).
  destruct exits eqn:Hex.
  - destruct (client_message_exit Hwr (y_host y) c (last_msg true) true Hwired) as (d' & Hd' & Hx & Hs & Hrun);
      [by eexists|by rewrite IHarg; vm_compute blen; lia|done|].
    cbv zeta in Hd'. rewrite IHarg in Hd', Hs, Hrun. eexists _, _. split; [exact Hrun|]. cbn iota. simpl. split; [|done].
    pose proof (pass_exit_run (y_disp y) p) as Hpass. cbv zeta in Hpass. rewrite IArg in Hpass.
    specialize (Hpass ltac:(by eexists; left; cbn [ep_buf p]; unfold last_buf, last_msg; rewrite <-app_assoc) Hlen IQueues (λ _, Hman)).
    cbn [ep_buf ep_client_sock ep_num_clients p] in Hpass. unfold last_buf in Hpass. rewrite <-Hd' in Hpass.
    assert ((exit_count (y_disp y) + 1 =? num_clients (y_host y)) = all_clients P h0 && (num_connection (y_host y) - 1 =? 0)) as Hiff.
    { unfold all_clients. specialize (IExits eq_refl). destruct IStart as [_ ->].
      destruct (Z.eqb_spec (num_clients h0) (Z.of_nat (base.size P))), (Z.eqb_spec (num_connection (y_host y) - 1) 0);
        simpl; apply Z.eqb_eq || apply Z.eqb_neq; lia. }
    rewrite Hiff in Hd'. split; rewrite ?Hex; try done.
    + by apply (fifo_request _ _ _ _ IFifo Hpass).
    + rewrite Hd'. destruct (all_clients P h0 && _); simpl; eauto.
    + rewrite Hd'. cbn [andb]. by destruct (all_clients P h0 && _).
    + rewrite Hd'. cbn [andb]. by destruct (all_clients P h0 && _).
    + rewrite Hd'. cbn [andb]. by destruct (all_clients P h0 && _).
  - destruct (client_message_load Hwr (y_host y) c Hwired) as [o Hrun]; [by rewrite IHarg|]. rewrite IHarg in Hrun.
    eexists _, _. split; [exact Hrun|]. simpl. split; [|done].
    pose proof (pass_load_run (y_disp y) p) as Hpass. cbv zeta in Hpass. rewrite IArg in Hpass.
    specialize (Hpass _ ltac:(cbn [ep_buf p]; unfold last_buf, last_msg; by rewrite <-app_assoc) Hlen).
    split; rewrite ?Hex; try done.
    + by apply (fifo_request _ _ _ _ IFifo Hpass).
    + simpl. eauto.
    + simpl. lia.
Qed.

Lemma last_turn_moves h y c rs k todo got :
  inv h y → P !! c = Some rs → y_clients y !! c = Some k → k = mkClient todo [last_msg exits] [] true got →
  c ∈ master (y_host y) →
  client_ok (max_buf_size arg) exits m0 h (waiting (y_disp y)) (master (y_host y)) c rs k (length rs) →
  left y = 0%nat → turn_moves (TMain c) h y.
Proof.
  intros HI Hrs Hk Hkeq Hm Hce Hleft. pose proof (elem_of_dom_2 _ _ _ Hrs) as Hc.
  destruct (connected_not_quitting h y c HI Hc Hm) as [Hne Hpos].
  destruct (last_message_run h y c HI Hpos Hleft) as (b & h' & Hrun & Hls & Hex & Ea & Es & Eo & Em & Ef & Ec & En).
  destruct (client_message_conn (y_host y) c _ b h' (fi_conn _ _ _ _ _ _ _ _ _ HI) Hm Hne Hrun) as (Hconn & _).
  assert (cl_up k = [last_msg exits]) as Hup by (by rewrite Hkeq).
  pose proof (main_turn_run h y c k _ [] b h' exits HI Hc Hk Hup Hm Hrun Ef Hex) as Hstep. cbv zeta in Hstep.
  rewrite (ls_sent _ _ _ _ _ Hls), drop_app_length in Hstep. unfold deliver in Hstep. simpl in Hstep.
  rewrite alter_insert_eq in Hstep.
  set (h2 := if exits && (num_connection h' =? 0) then say "Client request is END" h' else h') in Hstep.
  assert (h_disp h2 = h_disp h' ∧ conn h2 = conn h' ∧ h_arg h2 = h_arg h' ∧ open_fds h2 = open_fds h') as (Gd & Gc & Ga & Go)
    by (unfold h2; by destruct (_ && _)).
  assert (conn_inv h2) as Hconn2 by (by apply (conn_inv_frame h')).
  unfold conn in Gc. injection Gc as G1 G2 G3 G4 G5. rewrite <-G4 in Hstep.
  eexists _, []. rewrite app_nil_r. split; [exact Hstep|]. split; [|split].
  - eapply inv_last; try done; congruence.
  - unfold missing. simpl. by rewrite Gd, (ls_workers _ _ _ _ _ Hls).
  - destruct (last_waiting _ _ _ _ _ _ HI Hls) as (n & Hwait & Hn). unfold work. simpl.
    rewrite Gd, (ls_workers _ _ _ _ _ Hls), Hwait, length_app, length_replicate, G4, Ec.
    pose proof (map_sum_insert client_work _ _ _ (add_down (last_buf (max_buf_size arg) exits) (set_up [] k)) Hk) as Hsum.
    pose proof (fi_queues _ _ _ _ _ _ _ _ _ HI) as Hq. unfold blen in Hq.
    assert (Z.to_nat (num_connection (y_host y)) = S (Z.to_nat (num_connection (y_host y) - 1))) as -> by lia.
    assert (client_work k = client_work (add_down (last_buf (max_buf_size arg) exits) (set_up [] k)) + 6)%nat as Hwk.
    { rewrite Hkeq. unfold client_work. simpl. lia. }
    nia.
Qed.

(** A client that has written is connected and is served. *)
Lemma main_turn_moves h y c rs k e :
  inv h y → P !! c = Some rs → y_clients y !! c = Some k →
  client_ok (max_buf_size arg) exits m0 h (waiting (y_disp y)) (master (y_host y)) c rs k e →
  cl_up k ≠ [] → left y = 0%nat → turn_moves (TMain c) h y.
Proof.
  intros HI Hrs Hk Hce Hup Hleft. pose proof (co_connected _ _ _ _ _ _ _ _ _ _ Hce) as Hcon.
  pose proof (co_stage _ _ _ _ _ _ _ _ _ _ Hce) as Hst.
  inversion Hst as [got E1 E2 E3|got m Hsm E1 E2 E3|got r Hr E1 E2 E3|got b E1 E2 E3]; subst; try done.
  destruct (decide (length got < length rs)%nat) as [Hlt|Hge].
  - destruct (lookup_lt_is_Some_2 rs (length got) Hlt) as [r Hr].
    assert (m = wire (max_buf_size arg) r) as ->.
    { unfold script in Hsm. rewrite lookup_app_l, list_lookup_fmap, Hr in Hsm by (by rewrite length_fmap). by injection Hsm. }
    eapply request_turn_moves; try done. apply Hcon. lia.
  - apply lookup_lt_Some in Hsm as Hlt. rewrite script_length in Hlt. assert (length got = length rs) as Hlen by lia.
    rewrite Hlen in Hsm. assert (m = last_msg exits) as ->.
    { unfold script in Hsm. rewrite lookup_app_r, length_fmap, Nat.sub_diag in Hsm by (by rewrite length_fmap). by injection Hsm. }
    eapply last_turn_moves; try done; [apply Hcon; lia|by rewrite <-Hlen].
Qed.

Lemma main_turn_ok h y c : inv h y → left y = 0%nat → turn_ok (TMain c) h y.
Proof.
  intros HI Hleft. destruct (y_clients y !! c) as [k|] eqn:Hk.
  2:{ apply turn_idle; [done|done|]. unfold fleet_step, main_turn. msimpl. unfold id. by rewrite Hk. }
  destruct (cl_up k) as [|m up] eqn:Hup.
  { apply turn_idle; [done|done|]. unfold fleet_step, main_turn. msimpl. unfold id. by rewrite Hk, Hup. }
  destruct (client_of h y c k HI Hk) as (rs & e & Hrs & Hce). eapply moves_ok, main_turn_moves; try done. by rewrite Hup.
Qed.

(** Every turn of every thread. *)
Lemma every_turn_ok t h y :
  inv h y → match t with TMain _ => left y = 0%nat | _ => True end → turn_ok t h y.
Proof.
  intros HI Hleft. destruct t; [by apply start_turn_ok|by apply worker_turn_ok|by apply main_turn_ok|by apply client_turn_ok].
Qed.
End turns.
