(* ===== verification/FleetRuns.v ===== *)
(** * Schedules of clients and server

    Whatever the order of the turns once the workers have started, the system runs on; a state in which no thread can move
    is finished, and enough rounds lead there. *)

From S2P Require Import Prelude CString CLib Common Hash Core HashTable Enclave Config Rep.
From S2P Require Import CoreProofs.
From S2P Require Import EnclaveProofs Service EnclaveService Dispatch DispatchProofs Server.
From S2P Require Import ServerProofs.
From S2P Require Import Client ClientProofs Wire Fleet FleetJobs FleetInv FleetProofs.

Lemma fleet_run_app `{Platform} ts ts' y y' :
  fleet_run ts y = Ok (tt, y') → fleet_run (ts ++ ts') y = fleet_run ts' y'.
Proof.
  revert y. induction ts as [|t ts IH]; intros y; simpl; [by intros [= ->]|].
  intros ([] & y1 & Ht & Hrun)%bind_inv. rewrite (bind_ok _ _ _ _ _ Ht). by apply IH.
Qed.

Section runs.
Context `{Platform} `{!PlatformOk} (Hside : outside_ok) (Hmem : ∀ s, mem_avail s) (Hwr : writes_ok).
Context (arg : Arg) (size : Z) (P : gmap Z (list request)) (exits : bool) (good : kvmap → Prop) (m0 : kvmap).
Context (h0 : host).
Context (Hwl : workload_ok arg size P good).
Implicit Types (y : fleet) (h : history).

Abbreviation quits := (quitting P exits h0).
Abbreviation quit := (exits && all_clients P h0).
Abbreviation inv := (fleet_inv arg size P exits good m0 h0).

(** ** Any schedule *)
Lemma run_ok ts more h y :
  inv h y → workers_first (missing arg y) (ts ++ more) →
  ∃ y' h', fleet_run ts y = Ok (tt, y') ∧ inv (h ++ h') y' ∧ workers_first (missing arg y') more ∧
    ((work arg y' < work arg y)%nat ∨ (y' = y ∧ ∀ t, t ∈ ts → fleet_step t y = Ok (tt, y))).
Proof.
  revert h y. induction ts as [|t ts IH]; intros h y HI Hfirst.
  - exists y, []. rewrite app_nil_r. do 3 (split; [done|]). right. split; [done|]. by intros t ?%not_elem_of_nil.
  - destruct Hfirst as [Hturn Hfirst].
    destruct (every_turn_ok Hside Hmem Hwr arg size P exits good m0 h0 Hwl t h y HI) as (y1 & h1 & Hrun & HI1 & Hm1 & Hc1);
      [by destruct t|]. rewrite <-Hm1 in Hfirst.
    destruct (IH _ _ HI1 Hfirst) as (y2 & h2 & Hrun2 & HI2 & Hf2 & Hc2). rewrite <-app_assoc in HI2.
    exists y2, (h1 ++ h2). cbn [fleet_run]. rewrite (bind_ok _ _ _ _ _ Hrun). do 3 (split; [done|]).
    destruct Hc1 as [->|Hlt]; [|left; destruct Hc2 as [?|[-> _]]; lia].
    destruct Hc2 as [?|[-> Hidle]]; [by left|right]. split; [done|].
    intros t' [->|Ht]%elem_of_cons; [done|by apply Hidle].
Qed.

(** ** A state in which nobody moves *)
Section idle.
Context (h : history) (y : fleet) (HI : inv h y).
Context (Hstart : ∃ k, fleet_step (TStart k) y = Ok (tt, y)).
Context (Hidle : ∀ t, t ∈ all_turns arg P → fleet_step t y = Ok (tt, y)).

Lemma no_moves t : t ∈ all_turns arg P → ¬ turn_moves arg size P exits good m0 h0 t h y.
Proof. intros Ht (y' & h' & Hrun & _ & _ & Hlt). rewrite (Hidle t Ht) in Hrun. injection Hrun as <-. lia. Qed.

Lemma idle_started : length (workers (y_disp y)) = Z.to_nat (num_threads arg).
Proof.
  inv_parts HI. pose proof (ff_num _ IFifo) as Hn. pose proof (ff_bound _ IFifo) as Hb. rewrite IQueues in Hb.
  destruct (decide (num (y_disp y) < num_threads arg)) as [Hlt|Hge]; [|unfold blen in *; lia].
  exfalso. destruct Hstart as [k Hk]. destruct (start_turn_moves Hwr arg size P exits good m0 h0 k h y HI Hlt) as (y' & h' & Hrun & _ & _ & Hw).
  rewrite Hk in Hrun. injection Hrun as <-. lia.
Qed.

Lemma idle_none_missing : missing arg y = 0%nat.
Proof. unfold missing. rewrite idle_started. lia. Qed.

Lemma idle_worker i w :
  workers (y_disp y) !! i = Some w →
  ∃ q, queue (y_disp y) !! i = Some q ∧ pending (Some w) q = [] ∧ (w = WLoop ∧ q = [] ∨ w = WQuit).
Proof.
  intros Hw. assert (TWorker i ∈ all_turns arg P) as Hin.
  { unfold all_turns. apply elem_of_app. left. apply list_elem_of_fmap_2. apply elem_of_seq.
    apply lookup_lt_Some in Hw. rewrite idle_started in Hw. lia. }
  destruct (ff_front _ (fi_fifo _ _ _ _ _ _ _ _ _ HI) i w Hw) as (q & Hq & Hfr). exists q. split; [done|].
  destruct w as [|j| | |]; simpl in Hfr.
  - destruct q as [|j q]; [by auto|]. exfalso. by eapply no_moves, take_turn_moves.
  - exfalso. destruct q as [|j' q]; [done|]. injection Hfr as ->.
    destruct (quits y) eqn:Hquit; [|by eapply no_moves, run_turn_moves].
    pose proof (fi_jobs _ _ _ _ _ _ _ _ _ HI i _ Hq) as Hok. unfold worker_ok in Hok. rewrite Hquit, Hw in Hok.
    injection Hok as -> ->. by eapply no_moves, quit_turn_moves.
  - exfalso. by eapply no_moves, pop_turn_moves.
  - split; [|by right]. pose proof (fi_jobs _ _ _ _ _ _ _ _ _ HI i _ Hq) as Hok. unfold worker_ok in Hok.
    rewrite Hw in Hok. by destruct (quits y); [|destruct Hok].
  - by apply (fi_left _ _ _ _ _ _ _ _ _ HI) in Hw.
Qed.

Lemma idle_waiting : waiting (y_disp y) = [].
Proof.
  unfold waiting. apply concat_nil_Forall, Forall_lookup. intros i l. rewrite pends_lookup.
  intros (q & Hq & ->)%fmap_Some. destruct (lookup_lt_is_Some_2 (workers (y_disp y)) i) as [w Hw].
  - rewrite idle_started. apply lookup_lt_Some in Hq. pose proof (fi_queues _ _ _ _ _ _ _ _ _ HI). unfold blen in *. lia.
  - destruct (idle_worker i w Hw) as (q' & Hq' & Hp & _). rewrite Hw. congruence.
Qed.

Lemma idle_client c rs k :
  P !! c = Some rs → y_clients y !! c = Some k →
  client_ok (max_buf_size arg) exits m0 h [] (master (y_host y)) c rs k (S (length rs)) ∧
  k = mkClient [] [] [] false (cl_got k).
Proof.
  intros Hrs Hk. destruct (fi_client _ _ _ _ _ _ _ _ _ HI c rs k Hrs Hk) as (e & Hce).
  assert (TMain c ∈ all_turns arg P ∧ TClient c ∈ all_turns arg P) as [Hmain Hclient].
  { apply elem_of_dom_2 in Hrs. unfold all_turns.
    split; apply elem_of_app; right; apply elem_of_app; [left|right]; by apply list_elem_of_fmap_2, elem_of_elements. }
  assert (client_step k = k) as Hstep.
  { destruct (client_step_ok exits m0 _ _ _ _ _ _ _ _ Hce) as [?|[_ Hlt]]; [done|]. exfalso.
    eapply no_moves, client_turn_moves; try done. intros Heq. rewrite Heq in Hlt. lia. }
  pose proof (co_stage _ _ _ _ _ _ _ _ _ _ Hce) as Hst. pose proof (co_bound _ _ _ _ _ _ _ _ _ _ Hce) as Hb.
  rewrite idle_waiting in Hce, Hst.
  inversion Hst as [got E1 E2 E3|got m Hsm E1 E2 E3|got r Hr E1 E2 E3|got b E1 E2 E3]; subst k.
  - unfold client_step in Hstep. cbn [cl_waits cl_todo cl_up cl_down cl_got] in Hstep |- *.
    destruct (drop (length got) (script (max_buf_size arg) exits rs)) as [|m todo] eqn:Hd; [|done].
    apply (f_equal length) in Hd. rewrite length_drop, script_length in Hd. simpl in Hd.
    assert (e = S (length rs)) as -> by lia. done.
  - exfalso. destruct (fi_client _ _ _ _ _ _ _ _ _ HI c rs _ Hrs Hk) as (e' & Hce').
    eapply no_moves, main_turn_moves; try done. apply idle_none_missing.
  - by apply (f_equal cl_waits) in Hstep.
Qed.

Lemma idle_connections : num_connection (y_host y) = 0 ∧ master (y_host y) = {[server_sockfd (y_host y)]}.
Proof.
  inv_parts HI. assert (master (y_host y) = {[server_sockfd (y_host y)]}) as Hm.
  { apply leibniz_equiv. intros c. rewrite elem_of_singleton. split; [|intros ->; apply (ci_server _ IConn)].
    intros Hc. apply IMaster in Hc as Hc'. apply elem_of_union in Hc' as [Hc'%elem_of_singleton|Hc']; [done|].
    exfalso. apply elem_of_dom in Hc' as Hrs. destruct Hrs as [rs Hrs]. rewrite <-IDom in Hc'.
    apply elem_of_dom in Hc' as [k Hk]. destruct (idle_client c rs k Hrs Hk) as [Hce _].
    apply (co_connected _ _ _ _ _ _ _ _ _ _ Hce) in Hc. lia. }
  split; [|done]. rewrite (ci_count _ IConn), Hm, difference_diag_L. done.
Qed.

Lemma idle_finished : finished arg exits quit y.
Proof.
  destruct idle_connections as [Hc Hm]. pose proof idle_started as Hlen.
  assert (quits y = quit) as Hquit by (unfold quitting; rewrite Hc; apply andb_true_r).
  assert (∀ i w, workers (y_disp y) !! i = Some w → w = (if quit then WQuit else WLoop) ∧ queue (y_disp y) !! i = Some []) as Hall.
  { intros i w Hw. destruct (idle_worker i w Hw) as (q & Hq & Hp & Hwq).
    pose proof (fi_jobs _ _ _ _ _ _ _ _ _ HI i q Hq) as Hok. unfold worker_ok in Hok. rewrite Hquit, Hw in Hok.
    destruct Hwq as [[-> ->]| ->]; destruct quit; try done; [|by destruct Hok]. simpl in Hp. by rewrite Hp in Hq. }
  split; try done.
  - intros c k Hk. destruct (client_of arg size P exits good m0 h0 h y c k HI Hk) as (rs & e & Hrs & _).
    destruct (idle_client c rs k Hrs Hk) as [_ ->]. done.
  - symmetry. apply replicate_as_Forall. split; [done|]. apply Forall_lookup. intros i w Hw. by destruct (Hall i w Hw).
  - symmetry. apply replicate_as_Forall. pose proof (fi_queues _ _ _ _ _ _ _ _ _ HI) as Hq. unfold blen in Hq.
    split; [lia|]. apply Forall_lookup. intros i q Hqi. destruct (lookup_lt_is_Some_2 (workers (y_disp y)) i) as [w Hw].
    { apply lookup_lt_Some in Hqi. lia. }
    destruct (Hall i w Hw) as [_ Hq']. congruence.
  - rewrite (fi_over _ _ _ _ _ _ _ _ _ HI), Hc. apply andb_true_r.
Qed.
End idle.

(** ** The clients during a run *)
Lemma spec_trace_length m c h : length (of_client c (spec_trace m h)) = length (of_client c h).
Proof.
  revert m. induction h as [|[c' r] h IH]; intros m; [done|]. cbn [spec_trace]. unfold of_client in *.
  rewrite !filter_cons. simpl. destruct (decide (c' = c)); simpl; by rewrite IH.
Qed.

Lemma client_served h js M c rs k e :
  client_ok (max_buf_size arg) exits m0 h js M c rs k e → served_by arg m0 h c rs k.
Proof.
  intros [Hb _ Hr (reps & Hreps & Hall) _]. split; [rewrite Hr; apply prefix_take|].
  pose proof (Forall2_length _ _ _ Hall) as Hlen. rewrite spec_trace_length, Hr, length_take in Hlen.
  assert (take (length rs) (cl_got k) = take (length (cl_got k)) reps) as ->; [|by apply Forall2_take].
  transitivity (take (length (cl_got k)) (take (length rs) (cl_got k ++ cl_down k))).
  - by rewrite take_take, Nat.min_comm, <-take_take, take_app_length.
  - f_equal. rewrite Hreps. destruct (decide (e = S (length rs))) as [->|Hne].
    + rewrite take_app_le by lia. by rewrite take_ge by lia.
    + rewrite app_nil_r. by rewrite take_ge by lia.
Qed.

(** ** The beginning *)
Lemma ready_inv y :
  ready arg size P exits m0 y → good m0 → h0 = y_host y → inv [] y.
Proof.
  intros [RFifo RQueues RWorkers RPending RArg RSize RThr RHolds RHarg RConn ROpen RFds RMaster RSock RCount RExits ROver RClients]
    Hgood ->.
  assert (num_connection (y_host y) = Z.of_nat (base.size P)) as Hc.
  { rewrite (ci_count _ RConn), RMaster, <-(size_dom P). f_equal. f_equal. set_solver. }
  assert (exits && (num_connection (y_host y) =? 0) = false) as Hsome.
  { destruct exits; [|done]. apply Z.eqb_neq. rewrite Hc. specialize (RExits eq_refl).
    intros Hz. apply RExits, map_size_empty_inv. lia. }
  assert (quitting P exits (y_host y) y = false) as Hquit.
  { unfold quitting. by rewrite (andb_comm exits), <-andb_assoc, Hsome, andb_false_r. }
  assert (waiting (y_disp y) = []) as Hnone.
  { unfold waiting. apply concat_nil_Forall, Forall_lookup. intros i l. rewrite pends_lookup.
    intros (q & Hq & ->)%fmap_Some. by apply RPending. }
  split; try done.
  - intros i Hi. by destruct (RWorkers i _ Hi).
  - intros i q Hq. unfold worker_ok. rewrite Hquit, (RPending i q Hq). split; [|done].
    intros Hi. by destruct (RWorkers i _ Hi).
  - exists []. rewrite app_nil_r. by repeat constructor.
  - by rewrite RMaster.
  - intros _. rewrite RCount, Hc. lia.
  - rewrite <-Hc. apply (ci_clients _ RConn).
  - by rewrite ROver, Hsome.
  - by rewrite RClients, dom_fmap_L.
  - intros c rs k Hrs Hk. exists 0%nat. rewrite RClients, lookup_fmap, Hrs in Hk. injection Hk as <-.
    split; [lia| |done| |].
    + rewrite Hnone. apply (At_ready _ _ c rs []).
    + exists []. by repeat constructor.
    + rewrite RMaster. apply elem_of_dom_2 in Hrs. split; [lia|set_solver].
Qed.

(** ** Rounds *)

(** Nothing happens in a finished state. *)
Lemma finished_idle h y t : inv h y → finished arg exits quit y → fleet_step t y = Ok (tt, y).
Proof.
  intros HI [Fc Fw Fq Fm Fn Fo]. destruct t as [k|i|c|c].
  - unfold fleet_step, start_turn. msimpl. unfold id. rewrite (proj2 (Z.ltb_ge _ _)); [done|].
    rewrite (ff_num _ (fi_fifo _ _ _ _ _ _ _ _ _ HI)), Fw, (fi_harg _ _ _ _ _ _ _ _ _ HI). unfold blen.
    rewrite length_replicate. lia.
  - apply worker_turn_idle; [done|]. intros Hlt. destruct (lookup_lt_is_Some_2 _ _ Hlt) as [w Hw].
    rewrite Fw in Hw. apply lookup_replicate in Hw as Hw'. destruct Hw' as [-> Hi]. rewrite <-Fw in Hw.
    destruct quit; [by apply worker_ended|]. apply worker_waits; [done|]. rewrite Fq. by apply lookup_replicate.
  - unfold fleet_step, main_turn. msimpl. unfold id. destruct (y_clients y !! c) as [k|] eqn:Hk; [|done].
    by destruct (Fc c k Hk) as (_ & -> & _).
  - unfold fleet_step, client_turn, modify, set_clients. rewrite alter_id; [by destruct y|].
    intros k Hk. destruct (Fc c k Hk) as (Ht & Hu & Hd & Hwt). unfold client_step. by rewrite Hwt, Ht.
Qed.

Lemma finished_stays ts h y : inv h y → finished arg exits quit y → fleet_run ts y = Ok (tt, y).
Proof.
  intros HI HF. induction ts as [|t ts IH]; [done|]. cbn [fleet_run].
  by rewrite (bind_ok _ _ _ _ _ (finished_idle h y t HI HF)).
Qed.

(** The answers of finished clients. *)
Lemma finished_clients h y c rs k :
  inv h y → (∃ k, fleet_step (TStart k) y = Ok (tt, y)) → (∀ t, t ∈ all_turns arg P → fleet_step t y = Ok (tt, y)) →
  P !! c = Some rs → y_clients y !! c = Some k →
  all_answered arg exits m0 h c rs k.
Proof.
  intros HI Hstart Hidle Hrs Hk. destruct (idle_client h y HI Hstart Hidle c rs k Hrs Hk) as [[_ _ Hr Hrep _] Hkeq].
  rewrite take_ge in Hr by lia. split; [done|]. destruct Hrep as (reps & Hreps & Hall). exists reps.
  assert (cl_down k = []) as Hd by (by rewrite Hkeq). by rewrite decide_True, Hd, app_nil_r in Hreps.
Qed.

Lemma rounds_finish rounds h y :
  inv h y → Forall (round arg P) rounds → workers_first (missing arg y) (concat rounds) → (work arg y < length rounds)%nat →
  ∃ y' h', fleet_run (concat rounds) y = Ok (tt, y') ∧ inv (h ++ h') y' ∧ finished arg exits quit y' ∧
    ∀ c rs k, P !! c = Some rs → y_clients y' !! c = Some k → all_answered arg exits m0 (h ++ h') c rs k.
Proof.
  revert h y. induction rounds as [|ts rounds IH]; intros h y HI Hall Hfirst Hwork; [simpl in Hwork; lia|].
  apply Forall_cons in Hall as [[[k Hk] Hts] Hall]. simpl in Hwork. cbn [concat] in *.
  destruct (run_ok ts _ h y HI Hfirst) as (y1 & h1 & Hrun & HI1 & Hf1 & Hc). rewrite (fleet_run_app _ _ _ _ Hrun).
  destruct Hc as [Hlt|[-> Hidle]].
  - destruct (IH _ _ HI1 Hall Hf1) as (y2 & h2 & Hrun2 & HI2 & HF & Hcl); [lia|]. rewrite <-app_assoc in HI2, Hcl.
    by exists y2, (h1 ++ h2).
  - assert (∃ k, fleet_step (TStart k) y = Ok (tt, y)) as Hstart by eauto.
    assert (∀ t, t ∈ all_turns arg P → fleet_step t y = Ok (tt, y)) as Hidle' by auto.
    pose proof (idle_finished h y HI Hstart Hidle') as HF. exists y, []. rewrite (finished_stays _ h y HI HF), app_nil_r.
    split; [done|]. split; [done|]. split; [done|]. intros. by eapply (finished_clients h y).
Qed.
End runs.
