(* ===== verification/FleetStart.v ===== *)
(** * Connecting

    The clients connect to a server that waits, and the system is ready for them: after the
    start of the server, and again after the load clients have left. *)

From S2P Require Import Prelude CString CLib Common Hash Core HashTable Enclave Config Rep.
From S2P Require Import CoreProofs.
From S2P Require Import EnclaveProofs Service EnclaveService Dispatch DispatchProofs Server.
From S2P Require Import ServerProofs.
From S2P Require Import Client ClientProofs Wire ClientClaims Fleet FleetJobs FleetInv.

Section accept.
Context `{Platform}.
Implicit Types (h : host).

(** A connection is accepted; only what is printed depends on the phase. *)
Lemma accept_run fd h :
  fd ≠ -1 →
  ∃ o, accept_client fd h =
    Ok (tt, mkHost (h_arg h) (server_sockfd h) (open_fds h ∪ {[fd]}) (master h ∪ {[fd]}) (Z.max (fdmax h) fd)
              (num_connection h + 1) (Z.max (num_clients h) (num_connection h + 1)) (run_phase h) (h_buf h) (h_disp h) o).
Proof.
  intros Hfd. unfold accept_client. rewrite (proj2 (Z.eqb_neq _ _)) by done. rewrite bind_modify, bind_gets. unfold id.
  set (h1 := say _ h).
  assert ((if fdmax h1 <? fd then fd else fdmax h1) = Z.max (fdmax h) fd) as ->.
  { simpl. destruct (Z.ltb_spec (fdmax h) fd); lia. }
  assert (∃ o, (if run_phase h1 && (num_connection h1 =? 0) then modify (say "Time check start") else mret tt) h1 =
    Ok (tt, mkHost (h_arg h) (server_sockfd h) (open_fds h) (master h) (fdmax h) (num_connection h) (num_clients h)
              (run_phase h) (h_buf h) (h_disp h) o)) as [o Ho] by (destruct (_ && _); by eexists).
  rewrite (bind_ok _ _ _ _ _ Ho). cbv zeta. rewrite bind_modify. cbn [upd_conn open_fds master num_clients num_connection h1 say].
  destruct (Z.ltb_spec (num_clients h) (num_connection h + 1)).
  - rewrite bind_modify. eexists. unfold modify, say, upd_conn. simpl. do 3 f_equal. lia.
  - eexists. unfold mret, M_ret, upd_conn. simpl. do 3 f_equal. lia.
Qed.

(** The part of the state that [accept] leaves alone. *)
Definition unchanged h h' : Prop :=
  h_arg h' = h_arg h ∧ server_sockfd h' = server_sockfd h ∧ h_disp h' = h_disp h ∧ run_phase h' = run_phase h.

Lemma connect_run fds h :
  NoDup fds → Forall (λ fd, 0 ≤ fd < Z.of_nat FD_SETSIZE ∧ fd ∉ master h) fds → conn_inv h →
  master h ⊆ open_fds h → fdmax h < Z.of_nat FD_SETSIZE →
  ∃ h', connect fds h = Ok (tt, h') ∧ unchanged h h' ∧ conn_inv h' ∧ master h' = master h ∪ list_to_set fds ∧
    master h' ⊆ open_fds h' ∧ fdmax h' < Z.of_nat FD_SETSIZE ∧ num_connection h' = num_connection h + blen fds ∧
    num_clients h' = Z.max (num_clients h) (num_connection h + blen fds).
Proof.
  revert h. induction fds as [|fd fds IH]; intros h Hnd Hfds HI Hopen Hmax.
  { exists h. rewrite blen_nil. pose proof (ci_clients _ HI).
    split; [done|]. split; [done|]. split; [done|]. split; [set_solver|]. split; [done|]. split; [done|]. lia. }
  apply NoDup_cons in Hnd as [Hnew Hnd]. apply Forall_cons in Hfds as [[Hfd Hnm] Hfds].
  destruct (accept_run fd h ltac:(lia)) as [o Hacc]. set (h1 := mkHost _ _ _ _ _ _ _ _ _ _ _) in Hacc.
  destruct (accept_conn h fd tt h1 HI) as (HI1 & _); [right; split; [lia|done]|done|].
  destruct (IH h1) as (h2 & Hrun & Hun & HI2 & Hm & Ho & Hf & Hc & Hn); try done.
  - apply Forall_forall. intros x Hx. rewrite Forall_forall in Hfds. destruct (Hfds x Hx) as [? ?]. split; [done|].
    simpl. rewrite not_elem_of_union, not_elem_of_singleton. split; [done|]. by intros ->.
  - simpl. set_solver.
  - simpl. lia.
  - exists h2. unfold connect. cbn [for_each]. rewrite (bind_ok _ _ _ _ _ Hacc). split; [done|]. split; [done|].
    split; [done|]. split; [rewrite Hm; simpl; set_solver|]. split; [done|]. split; [done|].
    rewrite blen_cons. pose proof (blen_nonneg fds). simpl in Hc, Hn. lia.
Qed.
End accept.

(** What work a fleet can make: rounds that are enough for it. *)
Definition enough_rounds (arg : Arg) (P : gmap Z (list request)) : nat :=
  (4 * Z.to_nat (num_threads arg) * base.size P + map_sum (λ rs, 8 * S (length rs)) P +
     2 * Z.to_nat (num_threads arg))%nat.

Section ready.
Context `{Platform} `{!PlatformOk}.
Context (arg : Arg) (size : Z).
Implicit Types (h : host) (P : gmap Z (list request)).

(** A server that waits for clients: nobody is connected and nothing is in the queues. *)
Record waits_for_clients (m : kvmap) h : Prop := {
  wc_fifo : fifo (h_disp h);
  wc_queues : queue (h_disp h) = replicate (Z.to_nat (num_threads arg)) [];
  wc_workers i w : workers (h_disp h) !! i = Some w → w = WLoop;
  wc_arg : arg_enclave (d_enclave (h_disp h)) = arg;
  wc_size : ht_size (ht_enclave (d_enclave (h_disp h))) = size;
  wc_threads : threads_ok (d_enclave (h_disp h));
  wc_holds : holds (d_enclave (h_disp h)) m;
  wc_harg : h_arg h = arg;
  wc_conn : conn_inv h;
  wc_open : master h ⊆ open_fds h;
  wc_fds : fdmax h < Z.of_nat FD_SETSIZE;
  wc_master : master h = {[server_sockfd h]};
  wc_exits : exit_count (h_disp h) = 0;
}.

(** The sockets [accept] gives to the clients of [P], in the order of the connections. *)
Record sockets_ok (fds : list Z) (sock : Z) : Prop := {
  so_fresh : NoDup fds;
  so_range c : c ∈ fds → 0 ≤ c < Z.of_nat FD_SETSIZE ∧ c ≠ sock;
}.

(** The clients of [P] connect, and the system is ready. *)
Lemma connect_ready P fds exits m h :
  waits_for_clients m h → sockets_ok fds (server_sockfd h) → dom P = list_to_set fds →
  (exits = true → fds ≠ []) →
  ∃ h', connect fds h = Ok (tt, h') ∧ server_sockfd h' = server_sockfd h ∧
    num_clients h' = Z.max (num_clients h) (blen fds) ∧ h_disp h' = h_disp h ∧
    ready arg size P exits m (mkFleet h' (client_start ∘ script (max_buf_size arg) exits <$> P) false).
Proof.
  intros [WFifo WQueues WWorkers WArg WSize WThr WHolds WHarg WConn WOpen WFds WMaster WExits] [Hnd Hsock] Hdom Hx.
  assert (num_connection h = 0) as Hc0.
  { rewrite (ci_count _ WConn), WMaster, difference_diag_L. done. }
  destruct (connect_run fds h) as (h' & Hrun & (Ea & Es & Ed & _) & HI & Hm & Ho & Hf & Hc & Hn); try done.
  { apply Forall_forall. intros c Hc. destruct (Hsock c Hc). by rewrite WMaster, not_elem_of_singleton. }
  rewrite Hc0, Z.add_0_l in Hc, Hn. rewrite <-Hdom, WMaster in Hm.
  exists h'. split; [done|]. split; [done|]. split; [done|]. split; [done|].
  split; simpl; rewrite ?Ed, ?Ea, ?Es; try done.
  - rewrite WQueues. unfold blen. rewrite length_replicate. pose proof (to_pos _ WThr) as Hp. rewrite WArg in Hp. lia.
  - intros i w Hw. left. by eapply WWorkers.
  - intros i q. rewrite WQueues. intros [-> _]%lookup_replicate. by destruct (workers (h_disp h) !! i) as [[]|].
  - rewrite Hdom, elem_of_list_to_set. intros Hs. by destruct (Hsock _ Hs).
  - intros Hx'. specialize (Hx Hx'). intros ->. rewrite dom_empty_L in Hdom. destruct fds as [|c fds]; [done|]. set_solver.
Qed.

Lemma work_ready P exits m y : ready arg size P exits m y → (work arg y ≤ enough_rounds arg P)%nat.
Proof.
  intros [RFifo RQueues RWorkers RPending RArg RSize RThr RHolds RHarg RConn ROpen RFds RMaster RSock RCount RExits
    ROver RClients].
  assert (waiting (y_disp y) = []) as Hw.
  { unfold waiting. apply concat_nil_Forall, Forall_lookup. intros i l. rewrite pends_lookup.
    intros (q & Hq & ->)%fmap_Some. by apply RPending. }
  assert (num_connection (y_host y) = Z.of_nat (base.size P)) as Hc.
  { rewrite (ci_count _ RConn), RMaster, <-(size_dom P). f_equal. f_equal. set_solver. }
  assert (map_sum client_work (y_clients y) = map_sum (λ rs, 8 * S (length rs))%nat P) as Hs.
  { rewrite RClients. apply map_sum_fmap. intros rs. unfold client_work, script. simpl.
    rewrite length_app, length_fmap. simpl. lia. }
  assert (sum_list_with worker_work (workers (y_disp y)) ≤ 2 * length (workers (y_disp y)))%nat as Hww.
  { generalize (λ i w (Hi : workers (y_disp y) !! i = Some w), RWorkers i w Hi). clear.
    induction (workers (y_disp y)) as [|w ws IH]; intros Hall; [done|]. simpl.
    assert (worker_work w ≤ 2)%nat by (by destruct (Hall 0%nat w eq_refl) as [->| ->]; simpl; lia).
    specialize (IH (λ i, Hall (S i))). lia. }
  pose proof (ff_bound _ RFifo) as Hb. rewrite RQueues in Hb. unfold blen in Hb.
  unfold work, enough_rounds. rewrite Hw, Hs, Hc, Nat2Z.id. simpl. lia.
Qed.

(** The server after its start. *)
Lemma start_waits sock s m :
  holds s m → arg_enclave s = arg → ht_size (ht_enclave s) = size → threads_ok s → 0 ≤ sock < Z.of_nat FD_SETSIZE →
  waits_for_clients m (host_init arg sock (init_queues s)).
Proof.
  intros Hm Ha Hs Ht Hsock. split; simpl; try done.
  - apply fifo_init.
  - by rewrite Ha.
  - apply host_init_conn. lia.
  - lia.
Qed.

(** The server after its load clients have left. *)
Lemma finished_waits P good m0 h0 (hist : history) y :
  fleet_inv arg size P false good m0 h0 hist y → finished arg false false y → exit_count (h_disp h0) = 0 →
  waits_for_clients (spec_run m0 hist.*2) (y_host y).
Proof.
  intros HI [_ Fw Fq Fm _ _] Hx. pose proof (fi_loads _ _ _ _ _ _ _ _ _ HI eq_refl) as Hl. destruct HI. split; try done.
  - intros i w. rewrite Fw. by intros [-> _]%lookup_replicate.
  - congruence.
Qed.
End ready.

(** ** The client programs

    A client program has one thread per socket; its threads share out the trace evenly. *)
Section programs.

(** The slice of each thread. *)
Definition slices {A} (t slice : nat) (l : list A) : list (list A) := (λ i, take slice (drop (i * slice) l)) <$> seq 0 t.

(** The traces of the threads behind the sockets [fds]. *)
Definition traces (fds : list Z) (slice : nat) (rs : list request) : gmap Z (list request) :=
  list_to_map (zip fds (slices (length fds) slice rs)).

(** The threads, from what [main] of the program lets each of them write. *)
Definition threads (fds : list Z) (msgs : list (list bytes)) : gmap Z client :=
  list_to_map (zip fds (client_start <$> msgs)).

(** A start of a client program: its arguments and their meaning, the requests of its trace
    file and what follows them, the length of a slice, the sockets of its threads, the order in
    which they are accepted, and the schedule from then on, as rounds. *)
Record launch := mkLaunch {
  la_argv : list bytes;
  la_arg : cArg;
  la_trace : list request;
  la_rest : bytes;
  la_slice : nat;
  la_fds : list Z;
  la_order : list Z;
  la_rounds : list (list turn);
}.

Definition la_threads (l : launch) : gmap Z (list request) := traces (la_fds l) (la_slice l) (la_trace l).

(** The options of a program fit the server, and its trace the format of the workloads. *)
Record program_ok (arg : Arg) (l : launch) : Prop := {
  po_options : client_options (la_argv l) = Ok (la_arg l);
  po_buffer : c_max_buf_size (la_arg l) = max_buf_size arg;
  po_count : c_num_threads (la_arg l) = blen (la_fds l);
  po_size : inst_size (la_arg l) = Z.of_nat (length (la_fds l) * la_slice l);
  po_some : (0 < length (la_fds l))%nat ∧ (0 < la_slice l)%nat;
  po_length : length (la_trace l) = (length (la_fds l) * la_slice l)%nat;
  po_trace : Forall (trace_ok (max_buf_size arg)) (la_trace l);
}.

(** Moreover its sockets are free, its requests stay within the capacities of the server, and
    its schedule is fair and long enough. *)
Record launch_ok `{Platform} (arg : Arg) (good : kvmap → Prop) (sock : Z) (l : launch) : Prop := {
  lo_program : program_ok arg l;
  lo_sockets : sockets_ok (la_fds l) sock;
  lo_order : la_order l ≡ₚ la_fds l;
  lo_within r m : r ∈ la_trace l → good m → within arg (bucket_size arg) m r ∧ good (fst (spec_step m r));
  lo_fair : Forall (round arg (la_threads l)) (la_rounds l);
  lo_long : (enough_rounds arg (la_threads l) < length (la_rounds l))%nat;
}.

(** The trace file. *)
Definition la_file (l : launch) : bytes := file_of (line_of <$> la_trace l) ++ la_rest l.

Lemma client_main_ok arg l (exits : bool) :
  program_ok arg l →
  client_main (if exits then "EXIT" else "LOADDONE") (la_argv l) (la_file l) =
  Ok (script (max_buf_size arg) exits <$> slices (length (la_fds l)) (la_slice l) (la_trace l)).
Proof.
  destruct l as [argv carg rs rest slice fds order rounds]. unfold la_file.
  intros [Hopt Hb Ht Hs [Hp1 Hp2] Hl Htr]. cbn [la_argv la_arg la_trace la_rest la_slice la_fds] in *. unfold client_main, mbind, res_bind. rewrite Hopt.
  destruct (lines_sent carg (length fds) slice 0) with (lines := line_of <$> rs) (rest := rest)
    (last := if exits then "EXIT"%string else "LOADDONE"%string) as (tr & -> & Hw & _); try done.
  { by rewrite Nat.add_0_r. }
  { by rewrite length_fmap. }
  { apply Forall_fmap. eapply Forall_impl; [done|]. intros r [_ Hr]. simpl. by rewrite Hb. }
  rewrite Ht. unfold blen, slices. rewrite Hb in Hw.
  assert (∀ k m, (k + m ≤ length fds)%nat →
    foldr (λ i r, match r with Ok ms => match client_worker (if exits then "EXIT" else "LOADDONE") carg tr i with
        | Ok x => Ok (x :: ms) | Fault f => Fault f end | Fault f => Fault f end) (Ok [])
      (seqZ (Z.of_nat k) (Z.of_nat m)) =
    Ok (script (max_buf_size arg) exits <$> ((λ i, take slice (drop (i * slice) rs)) <$> seq k m))) as Hall.
  { intros k m. revert k. induction m as [|m IH]; intros k Hkm; [done|].
    rewrite seqZ_cons by lia. replace (Z.pred (Z.of_nat (S m))) with (Z.of_nat m) by lia.
    replace (Z.succ (Z.of_nat k)) with (Z.of_nat (S k)) by lia. cbn [foldr seq]. rewrite (IH (S k)), Hw by lia.
    rewrite !fmap_cons. do 2 f_equal. unfold script. rewrite <-fmap_drop, <-fmap_take, <-list_fmap_compose.
    unfold last_msg. by destruct exits. }
  apply (Hall 0%nat (length fds)). lia.
Qed.

Lemma length_slices {A} t slice (l : list A) : length (slices t slice l) = t.
Proof. unfold slices. by rewrite length_fmap, length_seq. Qed.

Lemma dom_traces fds slice rs : dom (traces fds slice rs) = list_to_set fds.
Proof. unfold traces. rewrite dom_list_to_map_L, fst_zip by (by rewrite length_slices). done. Qed.

Lemma size_traces fds slice rs : NoDup fds → base.size (traces fds slice rs) = length fds.
Proof. intros Hnd. by rewrite <-size_dom, dom_traces, size_list_to_set. Qed.

Lemma threads_traces n (exits : bool) fds slice rs :
  threads fds (script n exits <$> slices (length fds) slice rs) = client_start ∘ script n exits <$> traces fds slice rs.
Proof.
  unfold threads, traces. rewrite <-list_to_map_fmap. f_equal.
  generalize (slices (length fds) slice rs). induction fds as [|c fds IH]; intros [|x l]; try done.
  rewrite !fmap_cons. simpl. by rewrite IH.
Qed.

(** Every request of a thread is one of the trace. *)
Lemma traces_in fds slice rs c l r : traces fds slice rs !! c = Some l → r ∈ l → r ∈ rs.
Proof.
  intros Hc Hr. apply elem_of_list_to_map_2, elem_of_zip_r in Hc.
  unfold slices in Hc. apply list_elem_of_fmap in Hc as (i & -> & _).
  apply (subseteq_drop (i * slice) rs), (subseteq_take slice). exact Hr.
Qed.
End programs.

(** ** A client program from its start to its end *)

(** The program [l] runs against the waiting server [h0], whose store holds [m]; [y] is the
    end and [hist] the order in which the requests were served. *)
Record session `{Platform} (arg : Arg) (exits : bool) (m : kvmap) (h0 : host) (l : launch) (y : fleet) (hist : history)
  : Prop := {
  se_run : ∃ msgs h1,
    client_main (if exits then "EXIT" else "LOADDONE") (la_argv l) (la_file l) = Ok msgs ∧
    connect (la_order l) h0 = Ok (tt, h1) ∧
    fleet_run (concat (la_rounds l)) (mkFleet h1 (threads (la_fds l) msgs) false) = Ok (tt, y);
  se_map : holds (d_enclave (y_disp y)) (spec_run m hist.*2);
  se_clients c rs k : la_threads l !! c = Some rs → y_clients y !! c = Some k → all_answered arg exits m hist c rs k;
}.

(** What a run of a server needs: sizes that divide each other, buffers that hold the final
    messages, and resources. *)
Record server_ok (argv : list bytes) (arg : Arg) (garbage : nat → bytes) (sock bound listening : Z) : Prop := {
  sv_options : server_options argv = Ok arg;
  sv_buckets : 1 ≤ bucket_size arg ≤ INT_MAX;
  sv_roots : 0 < tree_root_size arg ∧ bucket_size arg `mod` tree_root_size arg = 0;
  sv_threads : 0 < num_threads arg ∧ tree_root_size arg `mod` num_threads arg = 0;
  sv_buffer : 9 ≤ max_buf_size arg ∧ max_buf_size arg + 27 ≤ INT_MAX;
  sv_memory i : blen (garbage i) = MAC_SIZE * MAC_SLOTS;
  sv_socket : 0 ≤ sock < Z.of_nat FD_SETSIZE;
  sv_listens : bound ≠ -1 ∧ listening ≠ -1;
}.

(** The workers get whole groups of a root when their number divides that of the roots. *)
Lemma threads_ok_options arg s :
  arg_enclave s = arg → ht_size (ht_enclave s) = bucket_size arg →
  ratio_root_per_buckets s = bucket_size arg / tree_root_size arg →
  1 ≤ bucket_size arg ≤ INT_MAX → 0 < tree_root_size arg → bucket_size arg `mod` tree_root_size arg = 0 →
  0 < num_threads arg → tree_root_size arg `mod` num_threads arg = 0 → threads_ok s.
Proof.
  intros Ha Hs Hr Hb Hroots Hm1 Ht Hm2.
  pose proof (Z.div_mod (bucket_size arg) (tree_root_size arg) ltac:(lia)) as D1. rewrite Hm1, Z.add_0_r in D1.
  pose proof (Z.div_mod (tree_root_size arg) (num_threads arg) ltac:(lia)) as D2. rewrite Hm2, Z.add_0_r in D2.
  set (ratio := bucket_size arg / tree_root_size arg) in *. set (c := tree_root_size arg / num_threads arg) in *.
  assert (per_worker s = c * ratio) as Hp.
  { unfold per_worker. rewrite Ha, Hs, D1. rewrite D2 at 1. rewrite <-Z.mul_assoc, Z.mul_comm. by apply Z.div_mul; lia. }
  split; rewrite ?Ha, ?Hs; try done.
  - lia.
  - rewrite Hp. nia.
  - exists c. rewrite Hr. split; [done|]. nia.
Qed.

(** ** Workloads with bounded keys

    A workload of GETs and SETs on the keys [K], with values that fit the buffer, stays within
    the capacities in every order, if the keys do. *)
Section bounded.
Context `{Platform} (arg : Arg) (size : Z) (K : list bytes).

Definition bounded (m : kvmap) : Prop := ∀ k v, m !! k = Some v → k ∈ K ∧ blen v + 1 ≤ max_buf_size arg.

Definition bounded_request (r : request) : Prop :=
  match r with
  | RGet k => k ∈ K
  | RSet k v => k ∈ K ∧ blen v + 1 ≤ max_buf_size arg
  | RApp _ _ => False
  end.
#[global] Instance bounded_request_dec r : Decision (bounded_request r).
Proof. destruct r; unfold bounded_request; apply _. Defined.

Record keys_ok : Prop := {
  ko_keys : NoDup K;
  ko_count : MAC_SIZE * blen K ≤ INT_MAX;
  ko_slots b : mac_opt arg = true → blen (filter (λ k, bucket_of size k = b) K) ≤ MAC_SLOTS;
  ko_alone k k' : NDEBUG = false → k ∈ K → k' ∈ K → bucket_of size k = bucket_of size k' → k = k';
}.

Lemma bounded_empty : bounded ∅.
Proof. intros k v Hk. by rewrite lookup_empty in Hk. Qed.

Lemma filter_all {A} (l : list A) : filter (λ _, True) l = l.
Proof. induction l as [|x l IH]; [done|]. by rewrite filter_cons_True, IH. Qed.

(** A new key and the keys of the map are keys of [K], and so in every bucket. *)
Lemma new_key_in (m : kvmap) k (Q : bytes → Prop) `{!∀ x, Decision (Q x)} :
  bounded m → k ∈ K → m !! k = None → filter Q (k :: (map_to_list m).*1) ⊆+ filter Q K.
Proof.
  intros Hm Hk Hnew.
  assert (NoDup (k :: (map_to_list m).*1) ∧ ∀ x, x ∈ k :: (map_to_list m).*1 → x ∈ K) as [Hnd Hin]; [split|].
  - apply NoDup_cons. split; [|apply NoDup_fst_map_to_list].
    intros ([k' v] & -> & Hin%elem_of_map_to_list)%list_elem_of_fmap. simpl in Hnew. congruence.
  - intros x [->|([k' v] & -> & Hin%elem_of_map_to_list)%list_elem_of_fmap]%elem_of_cons; [done|]. by apply (Hm k' v).
  - apply NoDup_submseteq; [by apply NoDup_filter|]. intros x. rewrite !list_elem_of_filter. naive_solver.
Qed.

Lemma bounded_within m r :
  keys_ok → bounded_request r → bounded m → within arg size m r ∧ bounded (fst (spec_step m r)).
Proof.
  intros [Hnd Hcount Hslots Halone] Hr Hm. destruct r as [k|k v|k v]; [|destruct Hr as [Hk Hv]|done]; simpl in *.
  - split; [|done]. intros v Hkv. by apply (Hm k v).
  - split.
    + intros Hnew. split; [split|].
      * pose proof (new_key_in m k (λ _, True) Hm Hk Hnew) as Hsub. rewrite !filter_all in Hsub.
        apply submseteq_length in Hsub. simpl in Hsub. rewrite length_fmap, length_map_to_list in Hsub.
        unfold blen in Hcount. unfold MAC_SIZE in *. lia.
      * intros Ho. specialize (Hslots (bucket_of size k) Ho).
        pose proof (new_key_in m k (λ x, bucket_of size x = bucket_of size k) Hm Hk Hnew) as Hf.
        rewrite filter_cons_True in Hf by done. apply submseteq_length in Hf. simpl in Hf.
        unfold keys_in, blen in *. lia.
      * intros Hd. unfold keys_in. destruct (filter _ _) as [|x l] eqn:E; [done|exfalso].
        assert (x ∈ filter (λ k0, bucket_of size k0 = bucket_of size k) (map_to_list m).*1) as Hx by (rewrite E; left).
        apply list_elem_of_filter in Hx as [Hb Hx]. apply list_elem_of_fmap in Hx as ([k' v'] & -> & Hin%elem_of_map_to_list).
        simpl in *. assert (k' ∈ K) as Hk' by (by apply (Hm k' v')). assert (k' = k) as -> by (by apply Halone). congruence.
    + intros x w. destruct (decide (x = k)) as [->|Hne].
      * rewrite lookup_insert_eq. by intros [= <-].
      * rewrite lookup_insert_ne by done. apply Hm.
Qed.
End bounded.
