(* ===== verification/FleetClaims.v ===== *)
(** * Theorems on the whole system

    What clients observe under every schedule, that every schedule ends, and the life of the
    server from its start over the load clients to the last run client. *)

From S2P Require Import Prelude CString CLib Common Hash Core HashTable Enclave Config.
From S2P Require Import ToyPlatform Rep CoreProofs.
From S2P Require Import EnclaveProofs Service EnclaveService Dispatch DispatchProofs Server.
From S2P Require Import ServerProofs.
From S2P Require Import Client ClientProofs Wire ClientClaims Demo ServerClaims Fleet FleetJobs.
From S2P Require Import FleetInv FleetProofs FleetRuns FleetStart.

Section fleet.
Context `{Platform} `{!PlatformOk} (Hside : outside_ok) (Hmem : ∀ s, mem_avail s) (Hwr : writes_ok).
Context (arg : Arg) (size : Z) (P : gmap Z (list request)) (exits : bool) (good : kvmap → Prop) (m : kvmap).
Context (Hwl : workload_ok arg size P good) (Hgood : good m).

(** C3. All clients see one order.  Let the main thread read its first message after all workers
    have started, and the answers be written.  Whatever the order in which the threads of the
    clients, the main thread and the workers take their turns otherwise, nothing goes wrong,
    and there is one history of requests, the order in which the workers ran them, such that
    the store holds the map after this history, every client's requests are in it in the
    order of its trace, and every answer a client has read is the one the map gives at that
    place of the history. *)
Theorem clients_see_one_order y0 ts :
  ready arg size P exits m y0 → workers_first (missing arg y0) ts →
  ∃ y h, fleet_run ts y0 = Ok (tt, y) ∧
    (∃ l, ran (y_disp y) = ran (y_disp y0) ++ l ∧ Forall2 (runs_request (max_buf_size arg)) (client_jobs l) h) ∧
    holds (d_enclave (y_disp y)) (spec_run m h.*2) ∧
    ∀ c rs k, P !! c = Some rs → y_clients y !! c = Some k → served_by arg m h c rs k.
Proof.
  intros Hr Hfirst. pose proof (ready_inv Hside Hmem Hwr arg size P exits good m (y_host y0) Hwl y0 Hr Hgood eq_refl) as HI.
  destruct (run_ok Hside Hmem Hwr arg size P exits good m _ Hwl ts [] _ _ HI) as (y & h & Hrun & HI' & _);
    [by rewrite app_nil_r|].
  exists y, h. split; [done|]. split; [apply (fi_ran _ _ _ _ _ _ _ _ _ HI')|].
  split; [apply (fi_holds _ _ _ _ _ _ _ _ _ HI')|]. intros c rs k Hrs Hk.
  destruct (fi_client _ _ _ _ _ _ _ _ _ HI' c rs k Hrs Hk) as (e & Hce). by eapply client_served.
Qed.

(** C4. Every fair schedule ends.  A round gives every thread at least one turn, in any order, and
    a worker may start in it; the main thread reads its first message after all workers have
    started.  After [enough_rounds] many, a bound that the number of threads and the lengths
    of the traces give, every client has read the answers to all its requests and to its final
    message, the queues are empty, the main thread has left its loop exactly if these were run
    clients, the workers have ended if they were as many as the server has ever had at a time
    and wait otherwise, and nothing can move any more. *)
Theorem every_schedule_ends y0 rounds :
  ready arg size P exits m y0 → Forall (round arg P) rounds → workers_first (missing arg y0) (concat rounds) →
  (enough_rounds arg P < length rounds)%nat →
  ∃ y h, fleet_run (concat rounds) y0 = Ok (tt, y) ∧ finished arg exits (exits && all_clients P (y_host y0)) y ∧
    holds (d_enclave (y_disp y)) (spec_run m h.*2) ∧ (∀ t, fleet_step t y = Ok (tt, y)) ∧
    ∀ c rs k, P !! c = Some rs → y_clients y !! c = Some k → all_answered arg exits m h c rs k.
Proof.
  intros Hr Hall Hfirst Hlen.
  pose proof (ready_inv Hside Hmem Hwr arg size P exits good m (y_host y0) Hwl y0 Hr Hgood eq_refl) as HI.
  pose proof (work_ready _ _ _ _ _ _ Hr) as Hwork.
  destruct (rounds_finish Hside Hmem Hwr arg size P exits good m _ Hwl rounds _ _ HI Hall Hfirst)
    as (y & h & Hrun & HI' & HF & Hcl); [lia|].
  exists y, h. split; [done|]. split; [done|]. split; [apply (fi_holds _ _ _ _ _ _ _ _ _ HI')|]. split; [|done].
  intros t. by eapply finished_idle.
Qed.

(** C26. Too few run clients hang the server.  When fewer run clients connect than the load
    clients before them were at a time, then after enough rounds of any fair schedule in which
    the workers start before the first message is read, all of them have their answers and
    [main] has left its loop, but every worker still waits for a job and will not get one: no
    turn changes anything, so the [pthread_join] of [main] on the workers never returns. *)
Theorem fewer_run_clients_hang y0 rounds :
  ready arg size P exits m y0 → exits = true → Z.of_nat (base.size P) < num_clients (y_host y0) →
  Forall (round arg P) rounds → workers_first (missing arg y0) (concat rounds) →
  (enough_rounds arg P < length rounds)%nat →
  ∃ y, fleet_run (concat rounds) y0 = Ok (tt, y) ∧ y_over y = true ∧
    (∀ i, (i < Z.to_nat (num_threads arg))%nat → workers (y_disp y) !! i = Some WLoop ∧ queue (y_disp y) !! i = Some []) ∧
    (∀ ts, fleet_run ts y = Ok (tt, y)).
Proof.
  intros Hr Hx Hfew Hall Hfirst Hlen.
  pose proof (ready_inv Hside Hmem Hwr arg size P exits good m (y_host y0) Hwl y0 Hr Hgood eq_refl) as HI.
  pose proof (work_ready _ _ _ _ _ _ Hr) as Hwork.
  destruct (rounds_finish Hside Hmem Hwr arg size P exits good m _ Hwl rounds _ _ HI Hall Hfirst)
    as (y & h & Hrun & HI' & HF & _); [lia|].
  exists y. split; [done|]. split; [by rewrite (fn_over _ _ _ _ HF)|]. split.
  - intros i Hi. rewrite (fn_workers _ _ _ _ HF), (fn_queues _ _ _ _ HF), !lookup_replicate_2 by done.
    unfold all_clients. rewrite (proj2 (Z.eqb_neq _ _)) by lia. by rewrite andb_false_r.
  - intros ts. by eapply finished_stays.
Qed.
End fleet.

(** ** The life of the server *)
Section life.
Context `{Platform} `{!PlatformOk} (Hside : outside_ok) (Hmem : ∀ s, mem_avail s) (Hwr : writes_ok).
Context (arg : Arg) (good : kvmap → Prop).

Lemma launch_workload sock l :
  9 ≤ max_buf_size arg ∧ max_buf_size arg + 27 ≤ INT_MAX → launch_ok arg good sock l → workload_ok arg (bucket_size arg) (la_threads l) good.
Proof.
  intros Hbuf [[_ _ _ _ _ _ Htr] [_ Hso] _ Hin _ _]. split; [done| | |].
  - unfold la_threads. intros c. rewrite dom_traces, elem_of_list_to_set. intros Hc. by apply Hso.
  - intros c rs Hc. apply Forall_forall. intros r Hr. rewrite Forall_forall in Htr.
    by destruct (Htr r (traces_in _ _ _ _ _ _ Hc Hr)).
  - intros c rs r m Hc Hr. apply Hin. by eapply traces_in.
Qed.

(** A client program runs to its end; a load program leaves a server that waits again. *)
Lemma program_session exits m h0 l :
  9 ≤ max_buf_size arg ∧ max_buf_size arg + 27 ≤ INT_MAX → waits_for_clients arg (bucket_size arg) m h0 → good m → launch_ok arg good (server_sockfd h0) l →
  workers_first (Z.to_nat (num_threads arg) - length (workers (h_disp h0))) (concat (la_rounds l)) →
  ∃ y hist, session arg exits m h0 l y hist ∧ good (spec_run m hist.*2) ∧
    finished arg exits (exits && (num_clients (y_host y) =? blen (la_fds l))) y ∧
    server_sockfd (y_host y) = server_sockfd h0 ∧ num_clients (y_host y) = Z.max (num_clients h0) (blen (la_fds l)) ∧
    (exits = false → waits_for_clients arg (bucket_size arg) (spec_run m hist.*2) (y_host y)).
Proof.
  intros Hbuf Hw Hgood Hl Hfirst. pose proof (launch_workload _ _ Hbuf Hl) as Hwl.
  destruct Hl as [Hprog [Hnd Hso] Hord Hin Hfair Hlong].
  pose proof (client_main_ok arg l exits Hprog) as Hmain. destruct (po_some _ _ Hprog) as [Hsome _].
  pose proof (Permutation_length Hord) as Hlen.
  destruct (connect_ready arg (bucket_size arg) (la_threads l) (la_order l) exits m h0 Hw) as (h1 & Hcon & Es & En & Ed & Hr).
  { split; [by rewrite Hord|]. intros c Hc. apply Hso. by rewrite <-Hord. }
  { unfold la_threads. rewrite dom_traces. apply list_to_set_perm_L. by symmetry. }
  { intros _ Hnil. rewrite Hnil in Hlen. simpl in Hlen. lia. }
  unfold blen in En. rewrite Hlen in En. change (Z.of_nat (length (la_fds l))) with (blen (la_fds l)) in En.
  unfold la_threads in Hr at 2. rewrite <-threads_traces in Hr. set (y0 := mkFleet h1 _ false) in Hr.
  pose proof (ready_inv Hside Hmem Hwr arg _ _ exits good m h1 Hwl y0 Hr Hgood eq_refl) as HI.
  pose proof (work_ready _ _ _ _ _ _ Hr) as Hwork.
  assert (workers_first (missing arg y0) (concat (la_rounds l))) as Hfirst' by (unfold missing; simpl; by rewrite Ed).
  destruct (rounds_finish Hside Hmem Hwr arg _ _ exits good m _ Hwl (la_rounds l) _ _ HI Hfair Hfirst')
    as (y & hist & Hrun & HI' & HF & Hcl); [lia|]. rewrite app_nil_l in HI', Hcl.
  destruct (fi_start _ _ _ _ _ _ _ _ _ HI') as [Es' En']. exists y, hist. split.
  { split; [by eexists _, h1|apply (fi_holds _ _ _ _ _ _ _ _ _ HI')|done]. }
  split; [apply (fi_good _ _ _ _ _ _ _ _ _ HI')|].
  unfold all_clients, la_threads in HF. rewrite size_traces, <-En' in HF by done.
  split; [exact HF|]. split; [congruence|]. split; [congruence|].
  intros ->. eapply finished_waits; [exact HI'|done|]. rewrite Ed. apply (wc_exits _ _ _ _ Hw).
Qed.

(** C5. The life of the server.  Start the server, let the load clients connect and run
    their trace file, then run clients theirs, under any fair schedules in which the main thread
    reads the first message of a load client after all workers have started: the start
    succeeds, both client programs end with an answer to every request, the store holds what
    the requests of the load clients and then those of the run clients make of the empty map,
    in two orders that contain the slice of every thread as it is in its file, every answer is
    the one of the map at its place in these orders, the main thread leaves its loop after
    the run clients and not before, and the workers then quit if the run clients are at least
    as many as the load clients. *)
Theorem server_life argv eid updated ofs garbage sock bound listening load run :
  server_ok argv arg garbage sock bound listening → good ∅ →
  launch_ok arg good sock load → launch_ok arg good sock run →
  workers_first (Z.to_nat (num_threads arg)) (concat (la_rounds load)) →
  ∃ h0 y1 hist1 y2 hist2,
    server_start argv (SGX_SUCCESS, eid, updated) ofs true true garbage sock bound listening = Ok (0, Some h0) ∧
    session arg false ∅ h0 load y1 hist1 ∧ finished arg false false y1 ∧
    session arg true (spec_run ∅ hist1.*2) (y_host y1) run y2 hist2 ∧
    finished arg true (blen (la_fds load) <=? blen (la_fds run)) y2.
Proof.
  intros [Hopt Hb [Hr1 Hr2] [Ht1 Ht2] Hbuf Hg Hs [Hbd Hli]] Hgood Hload Hrun Hfirst.
  destruct (server_start_run argv arg eid updated ofs garbage sock bound listening) as (s & Hstart & Hm & Ha & Hsz & Hratio);
    try done; [lia|].
  pose proof (threads_ok_options arg s Ha Hsz Hratio Hb Hr1 Hr2 Ht1 Ht2) as Hthr.
  pose proof (start_waits arg (bucket_size arg) sock s ∅ Hm Ha Hsz Hthr Hs) as Hw.
  destruct (program_session false ∅ _ load Hbuf Hw Hgood Hload) as (y1 & hist1 & Hse1 & Hg1 & HF1 & Es & En & Hw1).
  { simpl. by rewrite Nat.sub_0_r. }
  destruct (program_session true _ (y_host y1) run Hbuf (Hw1 eq_refl) Hg1) as (y2 & hist2 & Hse2 & _ & HF2 & _ & En2 & _).
  { rewrite Es. exact Hrun. }
  { rewrite (fn_workers _ _ _ _ HF1), length_replicate, Nat.sub_diag. apply workers_first_all. }
  eexists _, y1, hist1, y2, hist2. split; [exact Hstart|]. do 3 (split; [done|]).
  rewrite En2, En in HF2. simpl in HF2.
  replace (blen (la_fds load) <=? blen (la_fds run))
    with (Z.max (Z.max 0 (blen (la_fds load))) (blen (la_fds run)) =? blen (la_fds run)); [done|].
  pose proof (blen_nonneg (la_fds load)). apply eq_bool_prop_intro. rewrite !Is_true_true, Z.eqb_eq, Z.leb_le. lia.
Qed.
End life.

(** ** Two clients on the small store *)
Section demo.
Let arg : Arg := demo_arg false false 8 4 2.
Let K : list bytes := [str "alpha"; str "gamma"].

(** Both workers start in the first round; in the others there is none left to start. *)
Definition demo_schedule (threads : gmap Z (list request)) (n : nat) : list (list turn) :=
  let turns := all_turns (demo_arg false false 8 4 2) threads in
  (TStart 0 :: TStart 1 :: turns) :: replicate n (TStart 0 :: turns).

Lemma demo_schedule_first threads n : workers_first 2 (concat (demo_schedule threads n)).
Proof. split; [done|]. split; [done|]. apply workers_first_all. Qed.

(** Two threads share a trace of four requests. *)
Definition demo_slices (rs : list request) (fds : list Z) (order : list Z) : launch :=
  let threads := traces fds 2 rs in
  mkLaunch (str <$> ["client"; "-t"; "2"; "-n"; "4"]%string) demo_client rs [] 2 fds order
    (demo_schedule threads (enough_rounds (demo_arg false false 8 4 2) threads)).

Definition demo_load : launch :=
  demo_slices [RSet (str "alpha") (str "1"); RSet (str "gamma") (str "333"); RSet (str "alpha") (str "4444"); RGet (str "gamma")]
    [5; 6] [6; 5].
Definition demo_runs_trace : list request :=
  [RGet (str "alpha"); RSet (str "gamma") (str "22"); RGet (str "gamma"); RGet (str "alpha")].
Definition demo_rerun : launch := demo_slices demo_runs_trace [5; 7] [5; 7].
Definition demo_threads : gmap Z (list request) := la_threads demo_rerun.

Lemma demo_writes : writes_ok.
Proof. by intros n. Qed.

Lemma demo_keys : keys_ok arg 8 K.
Proof.
  split; [|done|done|done]. apply (bool_decide_unpack _). vm_compute. exact I.
Qed.

Lemma demo_within rs r m :
  Forall (bounded_request arg K) rs → r ∈ rs → bounded arg K m →
  within arg 8 m r ∧ bounded arg K (fst (spec_step m r)).
Proof.
  intros Hall Hr Hm. rewrite Forall_forall in Hall. apply bounded_within; [apply demo_keys|by apply Hall|done].
Qed.

Lemma demo_launch_ok rs fds order :
  sockets_ok fds 3 → order ≡ₚ fds → length fds = 2%nat → length rs = 4%nat →
  Forall (trace_ok 64) rs → Forall (bounded_request arg K) rs → launch_ok arg (bounded arg K) 3 (demo_slices rs fds order).
Proof.
  intros Hso Hord Hfds Hlen Htr Hb. split; simpl; try done.
  - split; simpl; try done; unfold blen; rewrite ?Hfds; try done. lia.
  - intros r m Hr. by apply (demo_within rs).
  - apply Forall_forall. intros ts [->|Hin]%elem_of_cons.
    + split; [exists 0%nat; by left|]. intros t Ht. by do 2 right.
    + apply elem_of_replicate_inv in Hin as ->. split; [exists 0%nat; by left|]. intros t Ht. by right.
  - rewrite length_replicate. apply Nat.lt_succ_diag_r.
Qed.

Lemma demo_load_ok : launch_ok arg (bounded arg K) 3 demo_load.
Proof. apply demo_launch_ok; try done; [|by apply Permutation_swap|repeat constructor; by_compute|by_compute].
  split; [by_compute|]. apply Forall_forall. by_compute. Qed.

(** The same server after it has had [n] clients at a time. *)
Definition demo_wait (n : Z) : host :=
  let h := host_init (demo_arg false false 8 4 2) 3 (init_queues (demo_init false false 8 4 2)) in
  mkHost (h_arg h) (server_sockfd h) (open_fds h) (master h) (fdmax h) (num_connection h) n true (h_buf h) (h_disp h) (h_out h).

(** The two threads connect to it as run clients. *)
Definition demo_fleet (n : Z) : fleet :=
  mkFleet (match connect [5; 7] (demo_wait n) with Ok (_, h) => h | Fault _ => demo_wait n end)
    (client_start ∘ script 64 true <$> demo_threads) false.

Definition demo_rounds : list (list turn) := la_rounds demo_rerun.

Lemma demo_rerun_ok : launch_ok arg (bounded arg K) 3 demo_rerun.
Proof.
  apply demo_launch_ok; try done; [|repeat constructor; by_compute|by_compute].
  split; [by_compute|]. apply Forall_forall. by_compute.
Qed.

Lemma demo_waits n : 0 ≤ n → waits_for_clients arg 8 ∅ (demo_wait n).
Proof.
  intros Hn.
  destruct (start_waits arg 8 3 (demo_init false false 8 4 2) ∅) as [? ? ? ? ? ? ? ? [? ? ? ?] ? ? ? ?]; try done.
  - by apply (demo_holds false false 8 4 2).
  - by apply (threads_ok_options arg).
Qed.

Lemma demo_ready n : 0 ≤ n → ready arg 8 demo_threads true ∅ (demo_fleet n) ∧ num_clients (y_host (demo_fleet n)) = Z.max n 2.
Proof.
  intros Hn. pose proof demo_rerun_ok as [_ Hso _ _ _ _].
  destruct (connect_ready arg 8 demo_threads [5; 7] true ∅ (demo_wait n) (demo_waits n Hn)) as (h & Hrun & _ & Hc & _ & Hr).
  - exact Hso.
  - apply dom_traces.
  - done.
  - unfold demo_fleet. rewrite Hrun. by split.
Qed.

Lemma demo_workload : workload_ok arg 8 demo_threads (bounded arg K).
Proof. apply (launch_workload arg (bounded arg K) 3 demo_rerun); [done|apply demo_rerun_ok]. Qed.

(** The second client writes its first request before the workers start. *)
Definition demo_turns : list turn :=
  [TClient 7; TStart 1; TWorker 0; TStart 1; TMain 7; TWorker 0; TWorker 0; TWorker 1; TClient 5].

Lemma clients_see_one_order_witness :
  ∃ y h, fleet_run demo_turns (demo_fleet 0) = Ok (tt, y) ∧ holds (d_enclave (y_disp y)) (spec_run ∅ h.*2) ∧
    ∀ c rs k, demo_threads !! c = Some rs → y_clients y !! c = Some k → served_by arg ∅ h c rs k.
Proof.
  destruct (clients_see_one_order toy_outside toy_mem_avail demo_writes arg 8 demo_threads true (bounded arg K) ∅ demo_workload
    (bounded_empty arg K) (demo_fleet 0) demo_turns) as (y & h & Hrun & _ & Hm & Hs); [by apply demo_ready|by repeat split|].
  exists y, h. split; [exact Hrun|]. split; [exact Hm|exact Hs].
Defined.

Lemma every_schedule_ends_witness :
  ∃ y h, fleet_run (concat demo_rounds) (demo_fleet 0) = Ok (tt, y) ∧ finished arg true true y ∧
    ∀ c rs k, demo_threads !! c = Some rs → y_clients y !! c = Some k → all_answered arg true ∅ h c rs k.
Proof.
  pose proof demo_rerun_ok as [_ _ _ _ Hfair Hlong].
  destruct (demo_ready 0) as [Hr Hn]; [done|].
  destruct (every_schedule_ends toy_outside toy_mem_avail demo_writes arg 8 demo_threads true (bounded arg K) ∅ demo_workload
    (bounded_empty arg K) (demo_fleet 0) demo_rounds Hr Hfair (demo_schedule_first _ _) Hlong) as (y & h & Hrun & HF & _ & _ & Hall).
  exists y, h. split; [exact Hrun|]. split; [|exact Hall].
  unfold all_clients in HF. rewrite Hn in HF. exact HF.
Defined.

(** Three load clients, two run clients. *)
Lemma fewer_run_clients_hang_witness :
  ∃ y, fleet_run (concat demo_rounds) (demo_fleet 3) = Ok (tt, y) ∧ y_over y = true ∧
    (∀ i, (i < 2)%nat → workers (y_disp y) !! i = Some WLoop ∧ queue (y_disp y) !! i = Some []) ∧
    (∀ ts, fleet_run ts y = Ok (tt, y)).
Proof.
  pose proof demo_rerun_ok as [_ _ _ _ Hfair Hlong].
  destruct (demo_ready 3) as [Hr Hn]; [done|].
  apply (fewer_run_clients_hang toy_outside toy_mem_avail demo_writes arg 8 demo_threads true (bounded arg K) ∅ demo_workload
    (bounded_empty arg K) (demo_fleet 3) demo_rounds Hr eq_refl); [|exact Hfair|apply demo_schedule_first|exact Hlong].
  rewrite Hn. reflexivity.
Defined.

Lemma server_life_witness :
  ∃ h0 y1 hist1 y2 hist2,
    server_start demo_argv (SGX_SUCCESS, 1, false) true true true (λ _, zeros 480) 3 0 0 = Ok (0, Some h0) ∧
    session arg false ∅ h0 demo_load y1 hist1 ∧ finished arg false false y1 ∧
    session arg true (spec_run ∅ hist1.*2) (y_host y1) demo_rerun y2 hist2 ∧ finished arg true true y2.
Proof.
  apply (server_life toy_outside toy_mem_avail demo_writes arg (bounded arg K) demo_argv 1 false true (λ _, zeros 480) 3 0 0 demo_load demo_rerun);
    [|apply bounded_empty|apply demo_load_ok|apply demo_rerun_ok|apply demo_schedule_first].
  by split.
Defined.
End demo.
