(* ===== verification/Switchless.v ===== *)
(** * The switchless variant, [Experiment/Motivation/Switchless]

    The same store with the switchless calls of the SDK in place of hot calls.  The enclave
    ([ht.cpp], [core.cpp], [Enclave.cpp] but for the hot-call responder) and the helpers of
    the host are copies, modelled by the definitions of the original; [main] creates the
    enclave with a switchless configuration, passes a message with an ecall whose status it
    ignores, and starts no responder. *)

From stdpp Require Import pretty.
From S2P Require Import Prelude CString CLib Common Hash Core HashTable Enclave Dispatch Server Results.

Module Switchless.

(** ** Copies of the enclave *)
Section enclave.
Context `{Platform}.

Definition key_hash_func := Hash.key_hash_func.
Definition ht_hash := Hash.ht_hash.
Definition ht_get_o := HashTable.ht_get_o.
Definition ht_newpair := HashTable.ht_newpair.
Definition ht_set_o := HashTable.ht_set_o.
Definition ht_append_o := HashTable.ht_append_o.

Definition gsk := Core.gsk.
Definition decrypt_key_val_and_compare := Core.decrypt_key_val_and_compare.
Definition decrypt_and_get_key := Core.decrypt_and_get_key.
Definition get_chain_mac := Core.get_chain_mac.
Definition enclave_rebuild_tree_root := Core.enclave_rebuild_tree_root.
Definition enclave_verify_tree_root := Core.enclave_verify_tree_root.
Definition enclave_encrypt := Core.enclave_encrypt.
Definition enclave_verification := Core.enclave_verification.
Definition enclave_decrypt := Core.enclave_decrypt.

Definition enclave_init_values := Enclave.enclave_init_values.
Definition enclave_set := Enclave.enclave_set.
Definition enclave_get := Enclave.enclave_get.
Definition enclave_append := Enclave.enclave_append.
Definition init_queues := Dispatch.init_queues.
Definition worker_start := Dispatch.worker_start.
Definition worker_step := Dispatch.worker_step.
Definition enclave_message_pass := Dispatch.enclave_message_pass.
End enclave.

(** ** Copies of the host's helpers *)
Definition ret_error_support := Server.ret_error_support.
Definition help := Server.help.
Definition parse_option := Server.parse_option.
Definition macbuffer_create := Server.macbuffer_create.
Definition ht_create := Server.ht_create.
Definition configuration_init := Server.configuration_init.
Definition server_options := Server.server_options.
Definition setNonblocking := Server.setNonblocking.
Definition sbrk_o := Server.sbrk_o.
Definition ocall_print := Server.ocall_print.
Definition ocall_message_return := Server.ocall_message_return.
Definition accept_clock := Results.accept_clock.
Definition server_results := Results.server_results.

(** ** The enclave with switchless calls *)

(** [sgx_uswitchless_config_t] *)
Record us_config_t := mkUsConfig {
  num_uworkers : Z;
  num_tworkers : Z;
}.
Definition us_config : us_config_t := mkUsConfig 2 2.

Inductive sdk_call :=
  | Call (c : host_call)
  | Create_enclave_ex (cfg : us_config_t).

(** [created] is what [sgx_create_enclave_ex] returns. *)
Definition load_and_initialize_enclave (cfg : us_config_t) (created : sgx_status * Z * bool) (ofs_good : bool)
  (eid : Z) : sgx_status * Z * list sdk_call :=
  let calls := (if negb (eid =? 0) then [Call (Destroy_enclave eid)] else []) ++ [Create_enclave_ex cfg] in
  let '(ret, eid', updated) := created in
  if negb (bool_decide (ret = SGX_SUCCESS)) then (ret, eid', calls)
  else if updated then
    (ret, eid', calls ++ [if ofs_good then Call Save_token
                          else Call (Say ("Warning: Failed to save the launch token to " +:+ dquote
                                            +:+ "Enclave.token" +:+ dquote))])
  else (ret, eid', calls).

(** ** The server loop *)
Section server.
Context `{Platform}.

(** [enclave_message_pass(global_eid, &ecallParams)]: the buffer after the call.  If the SDK
    cannot make the call it returns another status and nothing has happened. *)
Definition ecall_message_pass (status : sgx_status) (p : EcallParams) : D bytes :=
  if bool_decide (status = SGX_SUCCESS) then enclave_message_pass p else mret (ep_buf p).

(** A new client. *)
Definition accept_client (client_sockfd : Z) : H unit :=
  if client_sockfd =? -1 then modify (say "Accept error : ");; raise Exited
  else
    modify (say "Accept() is OK");;
    h ← gets id;
    let fdmax' := if fdmax h <? client_sockfd then client_sockfd else fdmax h in
    (if run_phase h && (num_connection h =? 0) then modify (say "Time check start") else mret tt);;
    let n := num_connection h + 1 in
    modify (upd_conn (open_fds h ∪ {[client_sockfd]}) (master h ∪ {[client_sockfd]}) fdmax' n (num_clients h));;
    if num_clients h <? n then
      modify (upd_conn (open_fds h ∪ {[client_sockfd]}) (master h ∪ {[client_sockfd]}) fdmax' n n);;
      modify (say ("num_clients: " +:+ pretty n))
    else mret tt.

(** What follows the ecall, with the buffer it left. *)
Definition after_call (i : Z) (buf : bytes) : H bool :=
  load ← lift (strncmp_eq buf (str "LOADDONE") 9);
  (if (load : bool) then
     drop_client i;;
     modify set_run;;
     n ← gets num_connection;
     if n =? 0 then modify (say "Waiting for running clients") else mret tt
   else mret tt);;
  ex ← lift (strncmp_eq buf (str "EXIT") 4);
  if (ex : bool) then
    drop_client i;;
    n ← gets num_connection;
    modify (say ("num_connection: " +:+ pretty n +:+ " remained"));;
    mret true
  else mret false.

(** A message of the client [i]; the status of the ecall is not looked at. *)
Definition client_message (status : sgx_status) (i : Z) (data : bytes) : H bool :=
  arg ← gets h_arg;
  z ← lift (zalloc (max_buf_size arg));
  modify (set_buf z);;
  let data := take (Z.to_nat (max_buf_size arg)) data in
  if bool_decide (data = []) then
    h ← gets id;
    modify (set_open (open_fds h ∖ {[i]}));; mret true
  else
    b ← lift (write_at z 0 data);
    modify (set_buf b);;
    h ← gets id;
    b' ← in_dispatch (ecall_message_pass status (mkEcallParams b i (num_clients h)));
    modify (set_buf b');;
    after_call i b'.

(** [status i] is what the ecall for a message of descriptor [i] returns. *)
Definition serve_fd (ready : gset Z) (inp : Z → input) (status : Z → sgx_status) (i : Z) : H bool :=
  if bool_decide (i ∈ ready) then
    h ← gets id;
    if i =? server_sockfd h then
      accept_client (match inp i with IAccept fd => fd | IRead _ => -1 end);; mret false
    else client_message (status i) i (match inp i with IRead data => data | IAccept _ => [] end)
  else mret false.

Fixpoint scan (fuel : nat) (ready : gset Z) (inp : Z → input) (status : Z → sgx_status) (i : Z) : H unit :=
  m ← gets fdmax;
  if i <=? m then
    match fuel with
    | O => raise Out_of_fuel
    | S fuel' =>
        stop ← serve_fd ready inp status i;
        if (stop : bool) then mret tt else scan fuel' ready inp status (i + 1)
    end
  else mret tt.

Definition server_round (ready : gset Z) (inp : Z → input) (status : Z → sgx_status) : H bool :=
  h ← gets id;
  if bool_decide (master h ⊆ open_fds h) then
    scan FD_SETSIZE (ready ∩ master h) inp status 0;;
    h ← gets id;
    ex ← lift (strncmp_eq (h_buf h) (str "EXIT") 4);
    if (ex : bool) && (num_connection h =? 0) then
      modify (say "Client request is END");; mret true
    else mret false
  else raise Exited.

Fixpoint server_loop (rounds : list (gset Z * (Z → input) * (Z → sgx_status) * list event)) : H bool :=
  match rounds with
  | [] => mret false
  | (ready, inp, status, evs) :: rounds' =>
      fin ← server_round ready inp status;
      if (fin : bool) then mret true
      else in_dispatch (foldr (λ ev m, event_step ev;; m) (mret tt) evs);; server_loop rounds'
  end.

(** [main] up to the loop. *)
Definition server_start (argv : list bytes) (created : sgx_status * Z * bool) (ofs_good m1 m2 : bool)
  (garbage : nat → bytes) (sock bound listening : Z) : res (Z * option host) :=
  arg ← server_options argv;
  let '(ret, _, _) := load_and_initialize_enclave us_config created ofs_good 0 in
  if negb (bool_decide (ret = SGX_SUCCESS)) then Ok (-1, None)
  else
    match ht_create m1 m2 (bucket_size arg) with
    | None => Fault Null_deref
    | Some ht =>
        s ← enclave_init_values ht ∅ (macbuffer_create garbage (bucket_size arg)) arg;
        if sock <? 0 then Fault Exited
        else if bound =? -1 then Fault Exited
        else if listening =? -1 then Fault Exited
        else Ok (0, Some (host_init arg sock (init_queues s)))
    end.

Definition server_finish := Results.server_finish.
End server.
End Switchless.
