(* ===== verification/SwitchlessClaims.v ===== *)
(** * Theorems on the switchless variant

    With ecalls that succeed it is the original server; an ecall that fails loses the
    message. *)

From S2P Require Import Prelude CString CLib ToyPlatform Common Enclave Service Dispatch Server.
From S2P Require Import ServerProofs.
From S2P Require Import Client ClientProofs Wire Demo Switchless.

(** A round without the statuses of its ecalls. *)
Definition strip (r : gset Z * (Z → input) * (Z → sgx_status) * list event) : gset Z * (Z → input) * list event :=
  let '(ready, inp, _, evs) := r in (ready, inp, evs).

Section theorems.
Context `{Platform}.
Implicit Types (h : host).

Lemma serve_success ready inp status i :
  status i = SGX_SUCCESS → Switchless.serve_fd ready inp status i = serve_fd ready inp i.
Proof. intros Hst. unfold Switchless.serve_fd. rewrite Hst. reflexivity. Qed.

Lemma scan_success fuel ready inp status i h :
  (∀ j, status j = SGX_SUCCESS) → Switchless.scan fuel ready inp status i h = scan fuel ready inp i h.
Proof.
  intros Hst. revert i h. induction fuel as [|fuel IH]; intros i h; [done|].
  cbn [Switchless.scan scan]. rewrite !bind_gets. destruct (i <=? fdmax h); [|done].
  rewrite serve_success by done. destruct (serve_fd ready inp i h) as [[[] h']|f] eqn:E.
  - by rewrite !(bind_ok _ _ _ _ _ E).
  - rewrite !(bind_ok _ _ _ _ _ E). apply IH.
  - by rewrite !(bind_fault _ _ _ _ E).
Qed.

Lemma round_success ready inp status h :
  (∀ j, status j = SGX_SUCCESS) → Switchless.server_round ready inp status h = server_round ready inp h.
Proof.
  intros Hst. unfold Switchless.server_round, server_round. rewrite !bind_gets. unfold id.
  case_bool_decide; [|done]. pose proof (scan_success FD_SETSIZE (ready ∩ master h) inp status 0 h Hst) as Hs.
  destruct (scan _ _ _ _ h) as [[[] h']|f] eqn:E.
  - by rewrite (bind_ok _ _ _ _ _ Hs), (bind_ok _ _ _ _ _ E).
  - by rewrite (bind_fault _ _ _ _ Hs), (bind_fault _ _ _ _ E).
Qed.

(** The switchless server is the original one.  It starts in the same state or fails in the
    same way, and as long as every ecall succeeds its loop does the same as the loop whose
    messages are passed by hot calls: the same connections, the same messages to the
    enclave, the same end, whatever the clients send and however the workers run between
    two rounds. *)
Lemma switchless_is_the_server argv created ofs m1 m2 garbage sock bound listening rounds h :
  Forall (λ r, ∀ j, r.1.2 j = SGX_SUCCESS) rounds →
  Switchless.server_start argv created ofs m1 m2 garbage sock bound listening =
  server_start argv created ofs m1 m2 garbage sock bound listening ∧
  Switchless.server_loop rounds h = server_loop (strip <$> rounds) h.
Proof.
  intros Hall. split.
  - unfold Switchless.server_start, server_start, mbind, res_bind, Switchless.server_options.
    destruct (server_options argv) as [arg|f]; [|done]. destruct created as [[ret eid] upd].
    unfold Switchless.load_and_initialize_enclave, load_and_initialize_enclave.
    destruct (bool_decide (ret = SGX_SUCCESS)), upd; done.
  - revert h. induction Hall as [|[[[ready inp] status] evs] rounds Hst _ IH]; intros h; [done|].
    rewrite fmap_cons. cbn [Switchless.server_loop server_loop strip].
    pose proof (round_success ready inp status h Hst) as Hr.
    destruct (server_round ready inp h) as [[[] h']|f] eqn:E.
    + by rewrite (bind_ok _ _ _ _ _ Hr), (bind_ok _ _ _ _ _ E).
    + rewrite (bind_ok _ _ _ _ _ Hr), (bind_ok _ _ _ _ _ E).
      destruct (in_dispatch (foldr (λ ev m, event_step ev;; m) (mret tt) evs) h') as [[[] h2]|f] eqn:E2.
      * rewrite !(bind_ok _ _ _ _ _ E2). apply IH.
      * by rewrite !(bind_fault _ _ _ _ E2).
    + by rewrite (bind_fault _ _ _ _ Hr), (bind_fault _ _ _ _ E).
Qed.

(** A failed ecall loses the message.  [main] does not look at the status of the ecall:
    when it fails for a GET, SET or APPEND, the round goes on, nothing is queued for a
    worker and nothing is sent, and the client waits for an answer that never comes. *)
Theorem failed_ecall_loses_message status i data r h :
  status ≠ SGX_SUCCESS → encodes data r → blen data = max_buf_size (h_arg h) → 0 < blen data →
  Switchless.client_message status i data h = Ok (false, set_buf data h).
Proof.
  intros Hst Henc Hlen Hpos. unfold Switchless.client_message. msimpl.
  destruct (read_buffer (max_buf_size (h_arg h)) data) as (z & Hz & Hw); [lia|].
  rewrite (bind_lift _ _ _ _ Hz). msimpl. rewrite take_ge by (unfold blen in Hlen; lia).
  rewrite bool_decide_false by (intros ->; done).
  replace (zeros (max_buf_size (h_arg h) - blen data)) with (@nil byte) in Hw by (rewrite Hlen, Z.sub_diag; done).
  rewrite app_nil_r in Hw. rewrite (bind_lift _ _ _ _ Hw). msimpl.
  msimpl. unfold id. rewrite (bind_ok _ _ _ data (set_buf data (set_buf z h))).
  2:{ unfold in_dispatch, Switchless.ecall_message_pass. rewrite bool_decide_false by done. simpl. rewrite drop_all. by destruct h. }
  msimpl.
  assert (strncmp_eq data (str "LOADDONE") 9 = Ok false ∧ strncmp_eq data (str "EXIT") 4 = Ok false) as [Hl He].
  { destruct r; destruct Henc as [(rest & [->| ->]) _]; done. }
  unfold Switchless.after_call. rewrite (bind_lift _ _ _ _ Hl). msimpl. rewrite (bind_lift _ _ _ _ He). by destruct h.
Qed.
End theorems.

(** ** A small server *)
Definition switchless_host : host :=
  mkHost (demo_arg true false 8 4 2) 3 {[3; 5]} {[3; 5]} 5 1 1 false (zeros 64)
    (init_queues (demo_init true false 8 4 2)) [].

Lemma failed_ecall_loses_message_witness :
  Switchless.client_message SGX_ERROR_ENCLAVE_LOST 5 (wire 64 (RGet (str "alpha"))) switchless_host =
  Ok (false, set_buf (wire 64 (RGet (str "alpha"))) switchless_host).
Proof.
  apply (failed_ecall_loses_message SGX_ERROR_ENCLAVE_LOST 5 (wire 64 (RGet (str "alpha"))) (RGet (str "alpha")));
    [done| |done|done].
  apply wire_encodes. by_compute.
Defined.
