(* ===== verification/PlainTable.v ===== *)
(** * The stores without protection

    [Experiment/Motivation/Unsecure_kvs/server.c] is the same hash table without an
    enclave and in the clear, [Experiment/Motivation/Baseline_kvs] puts that table into an
    enclave.  Their table functions agree except for the creation and the messages; they
    are modelled once, and the two programs in the modules [Unsecure] and [Baseline]. *)

From S2P Require Import Prelude CString CLib Hash Client.

Abbreviation loc := positive.
Abbreviation ptr := (option positive).

(** [struct entry]: the buffers [key] and [val] belong to the entry; NULL is [None]. *)
Record pentry := mkPentry {
  pe_key_size : Z;
  pe_val_size : Z;
  pe_key : option bytes;
  pe_val : option bytes;
  pe_next : ptr;
}.

(** [ht], the memory of its entries, and what is printed.  [p_size] is the modulus of
    the hash: [g_size] in [server.c], [ht->size] in the enclave, the size of the table in
    both. *)
Record plain := mkPlain {
  p_size : Z;
  p_table : list ptr;
  p_heap : gmap loc pentry;
  p_out : list string;
}.

Abbreviation P := (M plain).

Definition p_set_table (t : list ptr) (s : plain) : plain := mkPlain (p_size s) t (p_heap s) (p_out s).
Definition p_set_heap (h : gmap loc pentry) (s : plain) : plain := mkPlain (p_size s) (p_table s) h (p_out s).
Definition p_print (m : string) : P unit :=
  modify (λ s, mkPlain (p_size s) (p_table s) (p_heap s) (p_out s ++ [m])).

Definition p_load (l : loc) : P pentry := λ s,
  match p_heap s !! l with Some e => Ok (e, s) | None => Fault Bad_ptr end.
Definition p_store (l : loc) (e : pentry) : P unit := λ s,
  match p_heap s !! l with
  | Some _ => Ok (tt, p_set_heap (<[l := e]> (p_heap s)) s)
  | None => Fault Bad_ptr
  end.
Definition p_get (i : Z) : P ptr := t ← gets p_table; lift (zlookup t i).
Definition p_set (i : Z) (p : ptr) : P unit :=
  t ← gets p_table; t' ← lift (zupdate t i p); modify (p_set_table t').

(** The allocator: an entry that is not in use, and whether a buffer can be had. *)
Class Malloc := {
  malloc_entry : gmap loc pentry → ptr;
  malloc_buf : Z → bool;
  realloc_buf : Z → bool;
}.
Class MallocOk `{Malloc} : Prop := {
  malloc_entry_fresh h l : malloc_entry h = Some l → h !! l = None;
}.
(** Memory is available. *)
Definition mem_ok `{Malloc} : Prop :=
  (∀ h, is_Some (malloc_entry h)) ∧ (∀ n, malloc_buf n = true) ∧ (∀ n, realloc_buf n = true).

Section table.
Context `{Malloc}.

Definition p_hash (key : bytes) : P Z :=
  s ← lift (cstr key);
  size ← gets p_size;
  if u64 size =? 0 then raise Div_by_zero else mret (bucket_of size s).

(** [ht_newpair]; [on_fail] is what a failed allocation of the entry does. *)
Definition p_newpair (on_fail : P ptr) (key val : bytes) (key_size val_size : Z) : P ptr :=
  h ← gets p_heap;
  match malloc_entry h with
  | None => on_fail
  | Some l =>
      if negb (malloc_buf key_size) then mret None
      else if negb (malloc_buf val_size) then mret None
      else
        k ← lift (read_at key 0 key_size);
        v ← lift (read_at val 0 val_size);
        modify (p_set_heap (<[l := mkPentry key_size val_size (Some k) (Some v) None]> h));;
        mret (Some l)
  end.

(** [while(next != NULL && next->key != NULL && strcmp(key, next->key) != 0)
    { last = next; next = next->next; }] *)
Fixpoint p_find (fuel : nat) (key : bytes) (last next : ptr) : P (ptr * ptr) :=
  match next with
  | None => mret (last, None)
  | Some l =>
      match fuel with
      | O => raise Out_of_fuel
      | S fuel' =>
          e ← p_load l;
          match pe_key e with
          | None => mret (last, Some l)
          | Some k =>
              same ← lift (strcmp_eq key k);
              if (same : bool) then mret (last, Some l) else p_find fuel' key (Some l) (pe_next e)
          end
      end
  end.

(** [next != NULL && next->key != NULL && strcmp(key, next->key) == 0] *)
Definition p_hit (key : bytes) (next : ptr) : P bool :=
  match next with
  | None => mret false
  | Some l =>
      e ← p_load l;
      match pe_key e with None => mret false | Some k => lift (strcmp_eq key k) end
  end.

Definition p_fuel : P nat := gets (λ s, S (size (p_heap s))).

(** The new value of a found entry. *)
Definition p_update (l : loc) (val : bytes) (val_size : Z) : P unit :=
  e ← p_load l;
  buf ← match pe_val e with
        | Some b =>
            if pe_val_size e =? val_size then mret b
            else if realloc_buf val_size
            then mret (take (Z.to_nat val_size) b ++ zeros (val_size - blen b))
            else raise Null_deref
        | None => raise Null_deref
        end;
  v ← lift (memcpy buf 0 val 0 val_size);
  p_store l (mkPentry (pe_key_size e) val_size (pe_key e) (Some v) (pe_next e)).

Definition p_ht_set (on_fail : P ptr) (key val : bytes) (key_size val_size : Z) : P unit :=
  bin ← p_hash key;
  head ← p_get bin;
  fuel ← p_fuel;
  '(last, next) ← p_find fuel key None head;
  hit ← p_hit key next;
  match next, hit with
  | Some l, true => p_update l val val_size
  | _, _ =>
      newpair ← p_newpair on_fail key val key_size val_size;
      head ← p_get bin;
      match newpair with
      | None => raise Null_deref
      | Some n =>
          e ← p_load n;
          if bool_decide (next = head) then
            p_store n (mkPentry (pe_key_size e) (pe_val_size e) (pe_key e) (pe_val e) next);;
            p_set bin (Some n)
          else
            match last with
            | None => raise Null_deref
            | Some l =>
                (if bool_decide (next = None) then mret tt
                 else p_store n (mkPentry (pe_key_size e) (pe_val_size e) (pe_key e) (pe_val e) next));;
                el ← p_load l;
                p_store l (mkPentry (pe_key_size el) (pe_val_size el) (pe_key el) (pe_val el) (Some n))
            end
      end
  end.

Definition p_ht_get (key : bytes) : P ptr :=
  bin ← p_hash key;
  head ← p_get bin;
  fuel ← p_fuel;
  '(_, found) ← p_find fuel key None head;
  hit ← p_hit key found;
  if (hit : bool) then mret found else mret None.

(** [ht_destroy]: the loop frees a bucket only if it is NULL, so the entries stay; the
    table is freed. *)
Definition p_ht_destroy (size : Z) : P unit :=
  for_each (seqZ 0 size) (λ i _,
    p ← p_get i;
    match p with None => mret tt (* free(NULL) *) | Some _ => mret tt end) tt;;
  modify (p_set_table []).
End table.

(** The buffer of a request. *)
Definition BUF_SIZE : Z := 64.

(** [memset(buf, 0, BUF_SIZE); memcpy(buf, inst[i], BUF_SIZE);] *)
Definition get_inst (inst : list bytes) (i : Z) : P bytes :=
  b ← lift (zlookup inst i);
  lift (read_at b 0 BUF_SIZE).

Definition starts_with (buf : bytes) (upper lower : string) : P bool :=
  a ← lift (strncmp_eq buf (str upper) 3);
  if (a : bool) then mret true else lift (strncmp_eq buf (str lower) 3).

(** A copy of all but the last character of a string of [n] bytes, NUL-terminated:
    [p = malloc(n); memset(p, 0, n); memcpy(p, s, n - 1);] with [n = strlen(s)]. *)
Definition dup_cut (s : bytes) : res bytes :=
  z ← zalloc (blen s); memcpy z 0 s 0 (blen s - 1).

(** ** [file_to_memory] of the two programs

    A file of [n] lines is read with [fgets] into a buffer that is not cleared, so a line
    leaves the end of the previous one behind it; the result of [fgets] is not checked, so
    at the end of the file the last line is stored again. *)
Fixpoint read_lines (n : nat) (buf file : bytes) : res (list bytes) :=
  match n with
  | O => Ok []
  | S n' =>
      r ← fgets buf BUF_SIZE file;
      let '(buf, file) := match r with Some (b, f) => (b, f) | None => (buf, file) end in
      x ← read_at buf 0 BUF_SIZE;
      xs ← read_lines n' buf file;
      Ok (x :: xs)
  end.

(** ** [Unsecure_kvs/server.c] *)
Module Unsecure.
Section unsecure.
Context `{Malloc}.

Definition g_size : Z := 1048576.

Definition ht_create (malloc_ht malloc_heads : bool) (size : Z) : res plain :=
  if size <? 1 then Fault Exited
  else if negb malloc_ht then Fault Exited
  else if negb malloc_heads then Fault Exited
  else Ok (mkPlain size (replicate (Z.to_nat size) None) ∅ []).

Definition ht_destroy : P unit := n ← gets p_size; p_ht_destroy n.
Definition ht_hash := p_hash.
(** A failed allocation of the entry ends the process. *)
Definition ht_newpair := p_newpair (raise Exited).
Definition ht_set := p_ht_set (raise Exited).
Definition ht_get := p_ht_get.

(** [strtok_r] of the C library of the host: after the last token the saved pointer is the
    end of the string. *)
Definition host_strtok_r (buf : bytes) (off : Z) : res (option token) :=
  match strtok_r buf off with
  | Ok (Some t) =>
      let rest := match tok_rest t with Some r => r | None => tok_off t + blen (tok t) end in
      Ok (Some (Token (tok_off t) (tok t) (Some rest) (tok_buf t)))
  | r => r
  end.

(** One iteration of the load loop of [main]. *)
Definition load_one (inst : list bytes) (i : Z) : P unit :=
  buf ← get_inst inst i;
  set ← starts_with buf "SET" "set";
  if (set : bool) then
    t ← lift (host_strtok_r buf 4);
    match t with
    | None => raise Null_deref
    | Some t =>
        let key := dup_str (tok t) in
        v ← lift (cstr_at (tok_buf t) (default 0 (tok_rest t)));
        ht_set key (dup_str v) (blen (tok t) + 1) (blen v + 1)
    end
  else p_print "Invalid load command".

(** One iteration of the run loop: [key_size = strlen(tok)], the newline is cut off. *)
Definition run_one (inst2 : list bytes) (i : Z) : P unit :=
  buf ← get_inst inst2 i;
  get ← starts_with buf "GET" "get";
  if (get : bool) then
    t ← lift (host_strtok_r buf 4);
    match t with
    | None => raise Null_deref
    | Some t =>
        key ← lift (dup_cut (tok t));
        ret_entry ← ht_get key;
        if bool_decide (ret_entry = None) then p_print "No data" else mret tt
    end
  else p_print "Invalid run command".

(** The two loops of [main] over the traces in memory. *)
Definition main_loops (inst inst2 : list bytes) : P unit :=
  for_each (seqZ 0 (blen inst)) (λ i _, load_one inst i) tt;;
  p_print "Load Process has done";;
  for_each (seqZ 0 (blen inst2)) (λ i _, run_one inst2 i) tt;;
  p_print "Run Process has done".
End unsecure.
End Unsecure.

(** ** [Baseline_kvs/Enclave/Enclave.cpp] *)
Module Baseline.
Section baseline.
Context `{Malloc}.

(** [ht_create] only reports what goes wrong and goes on. *)
Definition ht_create (malloc_ht malloc_heads : bool) (size : Z) : res plain :=
  let o1 := if size <? 1 then ["Size of hashtable is negative"] else [] in
  if negb malloc_ht then Fault Null_deref
  else
    let o2 := if negb malloc_heads then ["Array of Pointers is not allocated"] else [] in
    if negb malloc_heads && (0 <? size) then Fault Null_deref
    else Ok (mkPlain size (replicate (Z.to_nat size) None) ∅ (o1 ++ o2)).

Definition ht_destroy := p_ht_destroy.
Definition ht_hash := p_hash.
(** A failed allocation of the entry is reported, and NULL is then dereferenced. *)
Definition ht_newpair := p_newpair (p_print "Newpair is not created!";; raise Null_deref).
Definition ht_set := p_ht_set (p_print "Newpair is not created!";; raise Null_deref).
Definition ht_get := p_ht_get.

(** The load loop of [enclave_process]: the value loses its last character, the
    newline. *)
Definition load_one (inst : list bytes) (i : Z) : P unit :=
  buf ← get_inst inst i;
  set ← starts_with buf "SET" "set";
  if (set : bool) then
    t ← lift (strtok_r buf 4);
    match t with
    | None => raise Null_deref
    | Some t =>
        let key := dup_str (tok t) in
        match tok_rest t with
        | None => raise Null_deref
        | Some off =>
            v ← lift (cstr_at (tok_buf t) off);
            val ← lift (dup_cut v);
            ht_set key val (blen (tok t) + 1) (blen v)
        end
    end
  else p_print "Invalid load command".

Definition run_one (inst2 : list bytes) (i : Z) : P unit :=
  buf ← get_inst inst2 i;
  get ← starts_with buf "GET" "get";
  if (get : bool) then
    t ← lift (strtok_r buf 4);
    match t with
    | None => raise Null_deref
    | Some t =>
        key ← lift (dup_cut (tok t));
        ret_entry ← ht_get key;
        if bool_decide (ret_entry = None) then p_print "No data" else mret tt
    end
  else p_print "Invalid run command".

(** [enclave_process(count, inst, count2, inst2)]: the counts are in units of pointers. *)
Definition enclave_process (count : Z) (inst : list bytes) (count2 : Z) (inst2 : list bytes) : P unit :=
  for_each (seqZ 0 (Z.quot count 8)) (λ i _, load_one inst i) tt;;
  p_print "Load Process has done";;
  for_each (seqZ 0 (Z.quot count2 8)) (λ i _, run_one inst2 i) tt;;
  p_print "Run Process has done".
End baseline.
End Baseline.
