(* ===== verification/PlainProofs.v ===== *)
(** * The plain table is a finite map *)

From S2P Require Import Prelude CString CLib Common Hash Rep CoreProofs StoreProofs Client.
From S2P Require Import PlainTable.

(** One entry of a chain with its key and value. *)
Record pcell := PCell {
  pc_loc : positive;
  pc_ent : pentry;
  pc_key : bytes;
  pc_val : bytes;
}.

Fixpoint pchain (h : gmap positive pentry) (p : option positive) (b : list pcell) : Prop :=
  match b with
  | [] => p = None
  | c :: b' => p = Some (pc_loc c) ∧ h !! pc_loc c = Some (pc_ent c) ∧ pchain h (pe_next (pc_ent c)) b'
  end.

(** The entry holds the key and the value of its cell, and is in the bucket of its key. *)
Record pcell_ok (size : Z) (i : nat) (c : pcell) : Prop := {
  po_key : pe_key (pc_ent c) = Some (dup_str (pc_key c));
  po_val : pe_val (pc_ent c) = Some (pc_val c);
  po_size : pe_val_size (pc_ent c) = blen (pc_val c);
  po_nonul : nonul (pc_key c);
  po_bucket : bucket_of size (pc_key c) = Z.of_nat i;
}.

Definition kv (B : list (list pcell)) : list (bytes * bytes) := (λ c, (pc_key c, pc_val c)) <$> concat B.

(** The state holds the buckets [B]. *)
Record prep (s : plain) (B : list (list pcell)) : Prop := {
  pr_size : 0 < p_size s ≤ INT_MAX;
  pr_len : blen B = p_size s;
  pr_chains : Forall2 (pchain (p_heap s)) (p_table s) B;
  pr_locs : NoDup (pc_loc <$> concat B);
  pr_keys : NoDup (kv B).*1;
  pr_cells i b : B !! i = Some b → Forall (pcell_ok (p_size s) i) b;
}.

(** The state holds the map [m]. *)
Definition pholds (s : plain) (m : gmap bytes bytes) : Prop := ∃ B, prep s B ∧ m = list_to_map (kv B).

(** ** Chains *)
Lemma pchain_lookup h p b c : pchain h p b → c ∈ b → h !! pc_loc c = Some (pc_ent c).
Proof.
  revert p. induction b as [|d b IH]; intros p; simpl; [set_solver|].
  intros (_ & Hd & Hc) [->|Hin]%elem_of_cons; [done|by eapply IH].
Qed.

Lemma pchain_frame h h' p b :
  pchain h p b → (∀ c, c ∈ b → h' !! pc_loc c = h !! pc_loc c) → pchain h' p b.
Proof.
  revert p. induction b as [|c b IH]; intros p; simpl; [done|].
  intros (-> & Hc & Hb) Hh. split; [done|]. split.
  - rewrite Hh; [done|set_solver].
  - apply IH; [done|]. intros d Hd. apply Hh. set_solver.
Qed.

Lemma pchain_insert_ne h p b l e : l ∉ pc_loc <$> b → pchain h p b → pchain (<[l := e]> h) p b.
Proof.
  intros Hl Hc. eapply pchain_frame; [done|]. intros c Hin. apply lookup_insert_ne.
  intros ->. apply Hl. by apply list_elem_of_fmap_2.
Qed.

Lemma pchain_size h p b : NoDup (pc_loc <$> b) → pchain h p b → (length b ≤ size h)%nat.
Proof.
  intros Hnd Hc.
  assert (list_to_set (pc_loc <$> b) ⊆ dom h) as Hsub.
  { intros l. rewrite elem_of_list_to_set, list_elem_of_fmap, elem_of_dom.
    intros (c & -> & Hin). eapply pchain_lookup in Hc; [|done]. eauto. }
  apply subseteq_size in Hsub. rewrite size_dom, size_list_to_set, length_fmap in Hsub; done.
Qed.

(** Replacing the entry of one cell, with another successor chain. *)
Lemma pchain_update h p b1 c e' b2 b2' k v :
  NoDup (pc_loc <$> b1 ++ c :: b2) →
  pchain h p (b1 ++ c :: b2) →
  pchain (<[pc_loc c := e']> h) (pe_next e') b2' →
  pchain (<[pc_loc c := e']> h) p (b1 ++ PCell (pc_loc c) e' k v :: b2').
Proof.
  intros Hnd Hc Hb2. revert p Hc. induction b1 as [|d b1 IH]; intros p; simpl.
  - intros (-> & _ & _). split; [done|]. by simplify_map_eq.
  - intros (-> & Hd & Hb). rewrite <-app_comm_cons, fmap_cons, NoDup_cons in Hnd.
    destruct Hnd as [Hnin Hnd]. split; [done|]. split; [|by apply IH].
    rewrite lookup_insert_ne; [done|]. intros Heq. apply Hnin. rewrite <-Heq.
    apply list_elem_of_fmap_2, elem_of_app. right. set_solver.
Qed.

(** ** The search *)
Section find.
Context (s : plain) (size : Z) (i : nat).

Definition last_loc (last : option positive) (b : list pcell) : option positive :=
  match list.last b with Some c => Some (pc_loc c) | None => last end.

Lemma p_load_ok l e : p_heap s !! l = Some e → p_load l s = Ok (e, s).
Proof. unfold p_load. by intros ->. Qed.

Lemma strcmp_dup k k' : nonul k → nonul k' → strcmp_eq (dup_str k) (dup_str k') = Ok (bool_decide (k = k')).
Proof.
  intros H1 H2. unfold strcmp_eq, mbind, res_bind. by rewrite !cstr_dup.
Qed.

Lemma p_find_none k b p last fuel :
  nonul k → Forall (pcell_ok size i) b → k ∉ pc_key <$> b → pchain (p_heap s) p b → (length b ≤ fuel)%nat →
  p_find fuel (dup_str k) last p s = Ok ((last_loc last b, None), s).
Proof.
  intros Hk. revert p last fuel. induction b as [|c b IH]; intros p last fuel Hok Hnin Hc Hf.
  - simpl in Hc. subst p. by destruct fuel.
  - destruct Hc as (-> & Hl & Hb). destruct fuel as [|fuel]; [simpl in Hf; lia|].
    apply Forall_cons in Hok as [Hcok Hok]. rewrite fmap_cons, not_elem_of_cons in Hnin.
    destruct Hnin as [Hne Hnin]. cbn [p_find]. rewrite (bind_ok _ _ _ _ _ (p_load_ok _ _ Hl)).
    rewrite (po_key _ _ _ Hcok), (bind_lift _ _ _ _ (strcmp_dup k _ Hk (po_nonul _ _ _ Hcok))).
    rewrite bool_decide_false by done. rewrite IH; [|done..|simpl in Hf; lia].
    do 3 f_equal. unfold last_loc. rewrite last_cons. by destruct (list.last b).
Qed.

Lemma p_find_hit k b1 c b2 p last fuel :
  nonul k → Forall (pcell_ok size i) (b1 ++ c :: b2) → k ∉ pc_key <$> b1 → pc_key c = k →
  pchain (p_heap s) p (b1 ++ c :: b2) → (length (b1 ++ c :: b2) ≤ fuel)%nat →
  ∃ last', p_find fuel (dup_str k) last p s = Ok ((last', Some (pc_loc c)), s).
Proof.
  intros Hk. revert p last fuel. induction b1 as [|d b1 IH]; intros p last fuel Hok Hnin Hkey Hc Hf.
  - destruct Hc as (-> & Hl & Hb). destruct fuel as [|fuel]; [simpl in Hf; lia|].
    apply Forall_cons in Hok as [Hcok _]. cbn [p_find].
    rewrite (bind_ok _ _ _ _ _ (p_load_ok _ _ Hl)), (po_key _ _ _ Hcok).
    rewrite (bind_lift _ _ _ _ (strcmp_dup k _ Hk (po_nonul _ _ _ Hcok))).
    rewrite bool_decide_true by done. by eexists.
  - destruct Hc as (-> & Hl & Hb). destruct fuel as [|fuel]; [simpl in Hf; lia|].
    rewrite <-app_comm_cons in Hok. apply Forall_cons in Hok as [Hcok Hok].
    rewrite fmap_cons, not_elem_of_cons in Hnin. destruct Hnin as [Hne Hnin]. cbn [p_find].
    rewrite (bind_ok _ _ _ _ _ (p_load_ok _ _ Hl)), (po_key _ _ _ Hcok).
    rewrite (bind_lift _ _ _ _ (strcmp_dup k _ Hk (po_nonul _ _ _ Hcok))).
    rewrite bool_decide_false by done. apply IH; try done. simpl in Hf. lia.
Qed.
End find.

(** ** The map *)
Lemma kv_keys B : (kv B).*1 = pc_key <$> concat B.
Proof. unfold kv. by rewrite <-list_fmap_compose. Qed.

Lemma kv_lookup B k v :
  NoDup (kv B).*1 →
  (list_to_map (kv B) : gmap bytes bytes) !! k = Some v ↔ ∃ c, c ∈ concat B ∧ pc_key c = k ∧ pc_val c = v.
Proof.
  intros Hnd. rewrite <-elem_of_list_to_map by done. unfold kv. rewrite list_elem_of_fmap. naive_solver.
Qed.

Section lookup.
Context (s : plain) (B : list (list pcell)) (Hrep : prep s B).

Definition pbin (k : bytes) : nat := Z.to_nat (bucket_of (p_size s) k).

Lemma pbin_range k : Z.of_nat (pbin k) = bucket_of (p_size s) k ∧ is_Some (B !! pbin k).
Proof.
  pose proof (bucket_of_range (p_size s) k (pr_size _ _ Hrep)) as Hr. unfold pbin. split; [lia|].
  apply lookup_lt_is_Some. pose proof (pr_len _ _ Hrep) as Hl. unfold blen in Hl. lia.
Qed.

Lemma p_hash_ok k : nonul k → p_hash (dup_str k) s = Ok (Z.of_nat (pbin k), s).
Proof.
  intros Hk. unfold p_hash. rewrite (bind_lift _ _ _ _ (cstr_dup k Hk)), bind_gets.
  pose proof (pr_size _ _ Hrep) as Hs. unfold INT_MAX in Hs.
  assert (u64 (p_size s) = p_size s) as -> by (apply Z.mod_small; lia).
  rewrite (proj2 (Z.eqb_neq _ _)) by lia. by rewrite (proj1 (pbin_range k)).
Qed.

Lemma p_get_ok i b : B !! i = Some b → ∃ p, p_get (Z.of_nat i) s = Ok (p, s) ∧ p_table s !! i = Some p ∧
  pchain (p_heap s) p b.
Proof.
  intros Hb. destruct (Forall2_lookup_r _ _ _ _ _ (pr_chains _ _ Hrep) Hb) as (p & Hp & Hc).
  exists p. split; [|done]. unfold p_get. rewrite bind_gets. unfold lift. by rewrite (zlookup_nat _ _ p).
Qed.

Lemma p_fuel_ok i b p : B !! i = Some b → pchain (p_heap s) p b → (length b ≤ S (size (p_heap s)))%nat.
Proof.
  intros Hb Hc. apply Nat.le_le_succ_r. eapply pchain_size; [|done].
  eapply nodup_bucket; [done|apply (pr_locs _ _ Hrep)].
Qed.

(** Where a key is. *)
Lemma kv_bucket k v :
  (list_to_map (kv B) : gmap bytes bytes) !! k = Some v →
  ∃ b1 c b2, B !! pbin k = Some (b1 ++ c :: b2) ∧ pc_key c = k ∧ pc_val c = v ∧ k ∉ pc_key <$> b1.
Proof.
  intros (c & Hc & Hk & Hv)%kv_lookup; [|apply Hrep].
  apply elem_of_concat in Hc as (b & (i & Hi) & Hc).
  pose proof (pr_cells _ _ Hrep _ _ Hi) as Hcs. rewrite Forall_forall in Hcs.
  pose proof (po_bucket _ _ _ (Hcs c Hc)) as Hbk. rewrite Hk in Hbk.
  assert (i = pbin k) as -> by (unfold pbin; lia).
  apply list_elem_of_split in Hc as (b1 & b2 & ->). exists b1, c, b2. split_and!; try done.
  pose proof (pr_keys _ _ Hrep) as Hnd. rewrite kv_keys in Hnd.
  pose proof (nodup_bucket pc_key _ _ _ Hi Hnd) as Hnd'. rewrite fmap_app, fmap_cons in Hnd'.
  apply NoDup_app in Hnd' as (_ & Hd & _). intros Hin. apply (Hd k Hin). rewrite Hk. set_solver.
Qed.

Lemma kv_missing k b :
  (list_to_map (kv B) : gmap bytes bytes) !! k = None → B !! pbin k = Some b → k ∉ pc_key <$> b.
Proof.
  intros Hn Hb (c & -> & Hc)%list_elem_of_fmap. apply not_elem_of_list_to_map in Hn. apply Hn.
  rewrite kv_keys. apply list_elem_of_fmap_2. by eapply elem_of_bucket.
Qed.

Lemma p_ht_get_ok k :
  nonul k →
  ∃ p, p_ht_get (dup_str k) s = Ok (p, s) ∧
    match (list_to_map (kv B) : gmap bytes bytes) !! k with
    | Some v => ∃ l e, p = Some l ∧ p_heap s !! l = Some e ∧ pe_val e = Some v ∧ pe_val_size e = blen v
    | None => p = None
    end.
Proof.
  intros Hk. destruct (pbin_range k) as [Hbin (b & Hb)].
  destruct (p_get_ok _ _ Hb) as (p & Hp & _ & Hc). pose proof (p_fuel_ok _ _ _ Hb Hc) as Hf.
  pose proof (pr_cells _ _ Hrep _ _ Hb) as Hok.
  unfold p_ht_get. rewrite (bind_ok _ _ _ _ _ (p_hash_ok k Hk)), (bind_ok _ _ _ _ _ Hp).
  unfold p_fuel. rewrite bind_gets. destruct (list_to_map (kv B) !! k) as [v|] eqn:Hm.
  - destruct (kv_bucket k v Hm) as (b1 & c & b2 & Hb' & Hck & Hcv & Hnin). rewrite Hb in Hb'. injection Hb' as ->.
    destruct (p_find_hit s (p_size s) (pbin k) k b1 c b2 p None _ Hk Hok Hnin Hck Hc Hf) as (last' & Hfind).
    rewrite (bind_ok _ _ _ _ _ Hfind). cbv beta iota. apply Forall_app in Hok as (_ & (Hcok & _)%Forall_cons).
    assert (p_heap s !! pc_loc c = Some (pc_ent c)) as Hl by (eapply pchain_lookup; [done|set_solver]).
    exists (Some (pc_loc c)). split.
    + unfold p_hit. rewrite (bind_ok _ _ _ true s); [done|].
      rewrite (bind_ok _ _ _ _ _ (p_load_ok _ _ _ Hl)), (po_key _ _ _ Hcok). unfold lift.
      rewrite strcmp_dup by (done || apply Hcok). by rewrite bool_decide_true.
    + exists (pc_loc c), (pc_ent c). rewrite (po_val _ _ _ Hcok), (po_size _ _ _ Hcok), Hcv. done.
  - exists None. split; [|done].
    rewrite (bind_ok _ _ _ _ _ (p_find_none s (p_size s) (pbin k) k b p None _ Hk Hok (kv_missing k b Hm Hb) Hc Hf)).
    done.
Qed.
End lookup.

(** ** Insertion *)
Section buckets.
Implicit Types (s : plain) (B : list (list pcell)) (k v : bytes).

(** One bucket is replaced: the chains of the others do not see the change of memory. *)
Lemma prep_bucket s B i b b' p' h' :
  prep s B → B !! i = Some b → (∃ p, p_table s !! i = Some p) →
  pchain h' p' b' →
  (∀ c, c ∈ concat (take i B) ++ concat (drop (S i) B) → h' !! pc_loc c = p_heap s !! pc_loc c) →
  NoDup (pc_loc <$> concat (<[i := b']> B)) → NoDup (kv (<[i := b']> B)).*1 →
  Forall (pcell_ok (p_size s) i) b' →
  prep (mkPlain (p_size s) (<[i := p']> (p_table s)) h' (p_out s)) (<[i := b']> B).
Proof.
  intros [Hs Hl Hc Hlo Hk Hce] Hb (p & Hp) Hch Hframe H1 H2 H3. apply lookup_lt_Some in Hb as Hlt.
  split; simpl; try done.
  - by rewrite blen_insert.
  - apply Forall2_lookup. intros j. destruct (decide (i = j)) as [<-|Hne].
    + rewrite !list_lookup_insert_eq by (done || by eapply lookup_lt_Some). by constructor.
    + rewrite !list_lookup_insert_ne by done. rewrite Forall2_lookup in Hc. specialize (Hc j).
      destruct (p_table s !! j) as [q|], (B !! j) as [bj|] eqn:Hj; inversion Hc as [? ? Hcj|]; subst; constructor.
      eapply pchain_frame; [done|]. intros c Hin. apply Hframe.
      apply elem_of_app. destruct (decide (j < i)%nat).
      * left. eapply (elem_of_bucket _ j); [|done]. by rewrite lookup_take_lt.
      * right. eapply (elem_of_bucket _ (j - S i)); [|done]. rewrite lookup_drop.
        by replace (S i + (j - S i))%nat with j by lia.
  - intros j bj. destruct (decide (i = j)) as [<-|Hne].
    + rewrite list_lookup_insert_eq by done. by intros [= <-].
    + rewrite list_lookup_insert_ne by done. apply Hce.
Qed.

(** The cells outside of one bucket are other cells. *)
Lemma outside_loc B i b c l :
  NoDup (pc_loc <$> concat B) → B !! i = Some b → l ∈ pc_loc <$> b →
  c ∈ concat (take i B) ++ concat (drop (S i) B) → pc_loc c ≠ l.
Proof.
  intros Hnd Hb Hl Hc <-. rewrite (concat_middle _ _ _ Hb), !fmap_app in Hnd.
  apply NoDup_app in Hnd as (_ & H1 & (_ & H2 & _)%NoDup_app).
  apply elem_of_app in Hc as [Hc|Hc].
  - apply (H1 (pc_loc c)); [by apply list_elem_of_fmap_2|]. set_solver.
  - apply (H2 (pc_loc c)); [done|]. by apply list_elem_of_fmap_2.
Qed.

Lemma kv_insert B i b b' :
  B !! i = Some b →
  kv (<[i := b']> B) = kv [concat (take i B)] ++ kv [b'] ++ kv [concat (drop (S i) B)] ∧
  kv B = kv [concat (take i B)] ++ kv [b] ++ kv [concat (drop (S i) B)].
Proof.
  intros Hb. unfold kv. split.
  - rewrite (concat_insert _ _ _ _ Hb). simpl. by rewrite !app_nil_r, !fmap_app.
  - transitivity ((λ c, (pc_key c, pc_val c)) <$> concat (take i B) ++ b ++ concat (drop (S i) B)).
    + by rewrite <-(concat_middle _ _ _ Hb).
    + simpl. by rewrite !app_nil_r, !fmap_app.
Qed.

(** The tail of a chain is a chain. *)
Lemma pchain_tail h p b1 c b2 : pchain h p (b1 ++ c :: b2) → pchain h (pe_next (pc_ent c)) b2.
Proof.
  revert p. induction b1 as [|d b1 IH]; intros p; simpl; [naive_solver|].
  intros (_ & _ & Hc). by eapply IH.
Qed.

(** The map of a list of pairs with one of them singled out. *)
Lemma list_to_map_middle (x y : list (bytes * bytes)) k v :
  NoDup (x ++ (k, v) :: y).*1 →
  (list_to_map (x ++ (k, v) :: y) : gmap bytes bytes) = <[k := v]> (list_to_map (x ++ y)).
Proof.
  intros Hnd. rewrite (list_to_map_proper _ ((k, v) :: x ++ y)); [done|done|].
  symmetry. apply Permutation_middle.
Qed.

(** The value of one cell changes. *)
Lemma prep_update s B k v b1 c b2 p :
  prep s B → nonul k → B !! pbin s k = Some (b1 ++ c :: b2) → pc_key c = k →
  p_table s !! pbin s k = Some p → pchain (p_heap s) p (b1 ++ c :: b2) →
  let e' := mkPentry (pe_key_size (pc_ent c)) (blen v) (pe_key (pc_ent c)) (Some v) (pe_next (pc_ent c)) in
  let B' := <[pbin s k := b1 ++ PCell (pc_loc c) e' k v :: b2]> B in
  prep (p_set_heap (<[pc_loc c := e']> (p_heap s)) s) B' ∧
  (list_to_map (kv B') : gmap bytes bytes) = <[k := v]> (list_to_map (kv B)).
Proof.
  intros Hrep Hk Hb Hck Htab Hc e' B'. pose proof (pr_cells _ _ Hrep _ _ Hb) as Hok.
  pose proof Hok as [Hok1 [Hcok Hok2]%Forall_cons]%Forall_app.
  pose proof (nodup_bucket pc_loc _ _ _ Hb (pr_locs _ _ Hrep)) as Hndb.
  set (b' := b1 ++ PCell (pc_loc c) e' k v :: b2) in *.
  destruct (kv_insert B (pbin s k) _ b' Hb) as [Hkv' Hkv].
  assert (kv [b'] = kv [b1] ++ (k, v) :: kv [b2] ∧ kv [b1 ++ c :: b2] = kv [b1] ++ (k, pc_val c) :: kv [b2]) as [E1 E2].
  { unfold kv, b'. simpl. rewrite !app_nil_r, !fmap_app, !fmap_cons. simpl. by rewrite Hck. }
  assert ((kv B').*1 = (kv B).*1) as Hkeys.
  { unfold B'. rewrite Hkv', Hkv, E1, E2, !fmap_app, !fmap_cons. done. }
  split.
  - unfold p_set_heap. rewrite <-(list_insert_id _ _ _ Htab) at 1. fold b'.
    apply (prep_bucket s B _ (b1 ++ c :: b2)); [done|done|by eexists| | | |by fold B'; rewrite Hkeys; apply Hrep|].
    + eapply pchain_update; [done|done|]. unfold e'. cbn [pe_next]. apply pchain_insert_ne; [|by eapply pchain_tail].
      rewrite fmap_app, fmap_cons in Hndb. by apply NoDup_app in Hndb as (_ & _ & [? _]%NoDup_cons).
    + intros d Hd. apply lookup_insert_ne, not_eq_sym. eapply outside_loc; [apply Hrep|done| |done].
      rewrite fmap_app, fmap_cons. set_solver.
    + rewrite (concat_insert _ _ _ _ Hb). pose proof (pr_locs _ _ Hrep) as Hlo.
      rewrite (concat_middle _ _ _ Hb) in Hlo. unfold b'. rewrite !fmap_app, !fmap_cons in *. done.
    + unfold b'. apply Forall_app. split; [done|]. constructor; [|done]. split; simpl; try done.
      * by rewrite (po_key _ _ _ Hcok), Hck.
      * symmetry. apply (pbin_range s B Hrep k).
  - pose proof (pr_keys _ _ Hrep) as Hnd. unfold B' in *. rewrite <-Hkeys in Hnd. revert Hnd.
    pose proof (pr_keys _ _ Hrep) as Hnd. revert Hnd.
    rewrite Hkv', Hkv, E1, E2. rewrite <-!app_assoc, <-!app_comm_cons, !app_assoc. intros Hnd Hnd'.
    rewrite !list_to_map_middle by done. by rewrite insert_insert_eq.
Qed.

(** ** A new key joins its chain *)
Lemma prep_append s B k v b b' n p' h' :
  prep s B → nonul k → (list_to_map (kv B) : gmap bytes bytes) !! k = None →
  B !! pbin s k = Some b → p_heap s !! n = None → (∃ p, p_table s !! pbin s k = Some p) →
  pchain h' p' b' → pc_loc <$> b' ≡ₚ n :: (pc_loc <$> b) → kv [b'] ≡ₚ (k, v) :: kv [b] →
  (∀ c, c ∈ concat (take (pbin s k) B) ++ concat (drop (S (pbin s k)) B) → h' !! pc_loc c = p_heap s !! pc_loc c) →
  Forall (pcell_ok (p_size s) (pbin s k)) b' →
  prep (mkPlain (p_size s) (<[pbin s k := p']> (p_table s)) h' (p_out s)) (<[pbin s k := b']> B) ∧
  (list_to_map (kv (<[pbin s k := b']> B)) : gmap bytes bytes) = <[k := v]> (list_to_map (kv B)).
Proof.
  intros Hrep Hk Hm Hb Hfresh Htab Hc Hlocs Hkvb Hframe Hok.
  destruct (kv_insert B (pbin s k) _ b' Hb) as [Hkv' Hkv].
  assert (kv (<[pbin s k := b']> B) ≡ₚ (k, v) :: kv B) as Hperm.
  { rewrite Hkv', Hkv, Hkvb. simpl. symmetry. apply Permutation_middle. }
  assert (NoDup (kv (<[pbin s k := b']> B)).*1) as Hnd.
  { rewrite Hperm, fmap_cons, NoDup_cons. split; [by apply not_elem_of_list_to_map in Hm|apply Hrep]. }
  split; [|rewrite (list_to_map_proper _ _ Hnd Hperm); done].
  apply (prep_bucket s B _ b); try done.
  rewrite (concat_insert _ _ _ _ Hb), !fmap_app, Hlocs.
  assert (n ∉ pc_loc <$> concat B) as Hn.
  { intros (c & -> & (bc & (j & Hj) & Hin)%elem_of_concat)%list_elem_of_fmap.
    destruct (p_get_ok s B Hrep _ _ Hj) as (q & _ & _ & Hq). eapply pchain_lookup in Hq; [|done]. congruence. }
  pose proof (pr_locs _ _ Hrep) as Hlo. rewrite (concat_middle _ _ _ Hb), !fmap_app in Hlo, Hn.
  simpl. rewrite <-Permutation_middle. by apply NoDup_cons.
Qed.

(** The new entry. *)
Definition new_entry k v (next : option positive) : pentry :=
  mkPentry (blen k + 1) (blen v) (Some (dup_str k)) (Some v) next.
Definition new_cell n k v : pcell := PCell n (new_entry k v None) k v.

Lemma new_cell_ok s B n k v : prep s B → nonul k → pcell_ok (p_size s) (pbin s k) (new_cell n k v).
Proof. intros Hrep Hk. split; try done. symmetry. apply (pbin_range s B Hrep k). Qed.

(** The last entry of a chain gets the new one as its successor. *)
Lemma pchain_append s B b c n p k v :
  prep s B → B !! pbin s k = Some (b ++ [c]) → p_heap s !! n = None →
  pchain (p_heap s) p (b ++ [c]) →
  let e' := mkPentry (pe_key_size (pc_ent c)) (pe_val_size (pc_ent c)) (pe_key (pc_ent c)) (pe_val (pc_ent c)) (Some n) in
  pchain (<[pc_loc c := e']> (<[n := new_entry k v None]> (p_heap s))) p
    (b ++ PCell (pc_loc c) e' (pc_key c) (pc_val c) :: [new_cell n k v]).
Proof.
  intros Hrep Hb Hn Hc e'. pose proof (nodup_bucket pc_loc _ _ _ Hb (pr_locs _ _ Hrep)) as Hnd.
  assert (n ∉ pc_loc <$> b ++ [c]) as Hnin.
  { intros (d & -> & Hin)%list_elem_of_fmap. eapply pchain_lookup in Hin; [|done]. congruence. }
  eapply pchain_update; [done|by apply pchain_insert_ne|].
  simpl. split; [done|]. split; [|done]. rewrite lookup_insert_ne, lookup_insert_eq; [done|].
  intros <-. apply Hnin. rewrite fmap_app. set_solver.
Qed.

End buckets.

(** ** The operation *)
Section set.
Context `{Malloc} `{!MallocOk} (Hmem : mem_ok) (on_fail : P (option positive)).
Implicit Types (s : plain) (B : list (list pcell)) (k v : bytes).

(** An entry that is found gets the new value. *)
Lemma p_update_ok s l e v0 v :
  p_heap s !! l = Some e → pe_val e = Some v0 → pe_val_size e = blen v0 →
  p_update l v (blen v) s =
  Ok (tt, p_set_heap (<[l := mkPentry (pe_key_size e) (blen v) (pe_key e) (Some v) (pe_next e)]> (p_heap s)) s).
Proof.
  intros Hl Hv Hs. unfold p_update. rewrite (bind_ok _ _ _ _ _ (p_load_ok _ _ _ Hl)), Hv, Hs.
  set (buf := if blen v0 =? blen v then v0 else take (Z.to_nat (blen v)) v0 ++ zeros (blen v - blen v0)).
  rewrite (bind_ok _ _ _ buf s).
  2:{ unfold buf. destruct (Z.eqb_spec (blen v0) (blen v)); [done|]. destruct Hmem as (_ & _ & Hr). by rewrite Hr. }
  assert (blen buf = blen v) as Hbuf.
  { unfold buf. destruct (Z.eqb_spec (blen v0) (blen v)); [done|].
    unfold blen, zeros in *. rewrite length_app, length_take, length_replicate. lia. }
  rewrite (bind_lift _ _ _ v).
  - unfold p_store. by rewrite Hl.
  - unfold memcpy, mbind, res_bind. rewrite read_at_all by done. by apply write_at_all.
Qed.

Lemma p_ht_set_update s B k v v0 :
  prep s B → nonul k → (list_to_map (kv B) : gmap bytes bytes) !! k = Some v0 →
  ∃ s' B', p_ht_set on_fail (dup_str k) v (blen k + 1) (blen v) s = Ok (tt, s') ∧ prep s' B' ∧
    (list_to_map (kv B') : gmap bytes bytes) = <[k := v]> (list_to_map (kv B)) ∧
    p_size s' = p_size s ∧ p_out s' = p_out s.
Proof.
  intros Hrep Hk Hm. destruct (kv_bucket s B Hrep k v0 Hm) as (b1 & c & b2 & Hb & Hck & Hcv & Hnin).
  destruct (p_get_ok s B Hrep _ _ Hb) as (p & Hp & Htab & Hc).
  pose proof (p_fuel_ok s B Hrep _ _ _ Hb Hc) as Hf. pose proof (pr_cells _ _ Hrep _ _ Hb) as Hok.
  destruct (p_find_hit s (p_size s) (pbin s k) k b1 c b2 p None _ Hk Hok Hnin Hck Hc Hf) as (last' & Hfind).
  pose proof Hok as (_ & (Hcok & _)%Forall_cons)%Forall_app.
  assert (p_heap s !! pc_loc c = Some (pc_ent c)) as Hl by (eapply pchain_lookup; [done|set_solver]).
  destruct (prep_update s B k v b1 c b2 p Hrep Hk Hb Hck Htab Hc) as [Hrep' Hmap].
  eexists _, _. split; [|split; [exact Hrep'|by split; [exact Hmap|]]].
  unfold p_ht_set. rewrite (bind_ok _ _ _ _ _ (p_hash_ok s B Hrep k Hk)), (bind_ok _ _ _ _ _ Hp).
  unfold p_fuel. rewrite bind_gets, (bind_ok _ _ _ _ _ Hfind). cbv beta iota.
  rewrite (bind_ok _ _ _ true s).
  - by rewrite (p_update_ok _ _ _ v0 v Hl); [|rewrite (po_val _ _ _ Hcok), Hcv|rewrite (po_size _ _ _ Hcok), Hcv].
  - unfold p_hit. rewrite (bind_ok _ _ _ _ _ (p_load_ok _ _ _ Hl)), (po_key _ _ _ Hcok). unfold lift.
    rewrite strcmp_dup by (done || apply Hcok). by rewrite bool_decide_true.
Qed.

Lemma p_newpair_ok s k v :
  ∃ n, p_heap s !! n = None ∧
    p_newpair on_fail (dup_str k) v (blen k + 1) (blen v) s =
    Ok (Some n, p_set_heap (<[n := new_entry k v None]> (p_heap s)) s).
Proof.
  destruct Hmem as (He & Hb & _). destruct (He (p_heap s)) as [n Hn].
  exists n. split; [by apply malloc_entry_fresh|]. unfold p_newpair.
  rewrite bind_gets, Hn, !Hb. cbv beta iota delta [negb].
  rewrite (bind_lift _ _ _ (dup_str k)) by by apply read_at_all; rewrite dup_str_len.
  rewrite (bind_lift _ _ _ v) by by apply read_at_all.
  done.
Qed.

(** The new entry is away from those of the other buckets. *)
Lemma p_new_outside s B k b n e c :
  prep s B → B !! pbin s k = Some b → p_heap s !! n = None →
  c ∈ concat (take (pbin s k) B) ++ concat (drop (S (pbin s k)) B) → <[n := e]> (p_heap s) !! pc_loc c = p_heap s !! pc_loc c.
Proof.
  intros Hrep Hb Hn Hin. apply lookup_insert_ne. intros ->.
  assert (c ∈ concat B) as Hin'.
  { rewrite (concat_middle _ _ _ Hb). clear -Hin. set_solver. }
  apply elem_of_concat in Hin' as (bc & (j & Hj) & Hcj).
  destruct (p_get_ok s B Hrep _ _ Hj) as (q & _ & _ & Hq). eapply pchain_lookup in Hq; [|done]. congruence.
Qed.

(** It becomes the head of an empty bucket. *)
Lemma p_prep_first s B k v n :
  prep s B → nonul k → (list_to_map (kv B) : gmap bytes bytes) !! k = None →
  B !! pbin s k = Some [] → p_heap s !! n = None → p_table s !! pbin s k = Some None →
  let B' := <[pbin s k := [new_cell n k v]]> B in
  prep (mkPlain (p_size s) (<[pbin s k := Some n]> (p_table s)) (<[n := new_entry k v None]> (p_heap s)) (p_out s)) B' ∧
  (list_to_map (kv B') : gmap bytes bytes) = <[k := v]> (list_to_map (kv B)).
Proof.
  intros Hrep Hk Hm Hb Hn Htab. apply (prep_append s B k v [] [new_cell n k v] n); try done.
  - by eexists.
  - simpl. split; [done|]. by rewrite lookup_insert_eq.
  - intros c. by eapply p_new_outside.
  - constructor; [by eapply new_cell_ok|done].
Qed.

(** It is hung behind the last entry of its bucket. *)
Lemma p_prep_last s B k v n p b c :
  prep s B → nonul k → (list_to_map (kv B) : gmap bytes bytes) !! k = None →
  B !! pbin s k = Some (b ++ [c]) → p_heap s !! n = None → p_table s !! pbin s k = Some p → pchain (p_heap s) p (b ++ [c]) →
  let e' := mkPentry (pe_key_size (pc_ent c)) (pe_val_size (pc_ent c)) (pe_key (pc_ent c)) (pe_val (pc_ent c)) (Some n) in
  let B' := <[pbin s k := b ++ PCell (pc_loc c) e' (pc_key c) (pc_val c) :: [new_cell n k v]]> B in
  prep (mkPlain (p_size s) (p_table s) (<[pc_loc c := e']> (<[n := new_entry k v None]> (p_heap s))) (p_out s)) B' ∧
  (list_to_map (kv B') : gmap bytes bytes) = <[k := v]> (list_to_map (kv B)).
Proof.
  intros Hrep Hk Hm Hb Hn Htab Hc e' B'. pose proof (pr_cells _ _ Hrep _ _ Hb) as Hok.
  rewrite <-(list_insert_id _ _ _ Htab) at 1.
  apply (prep_append s B k v (b ++ [c]) _ n p); try done.
  - by eexists.
  - by apply (pchain_append s B).
  - rewrite !fmap_app. simpl. rewrite (app_assoc _ [pc_loc c] [n]). symmetry. apply Permutation_cons_append.
  - unfold kv. simpl. rewrite !app_nil_r, !fmap_app. simpl. rewrite (app_assoc _ [(pc_key c, pc_val c)] [(k, v)]). symmetry.
    apply Permutation_cons_append.
  - intros d Hd. rewrite lookup_insert_ne; [by eapply p_new_outside|].
    apply not_eq_sym. eapply outside_loc; [apply Hrep|done| |done]. rewrite fmap_app. set_solver.
  - apply Forall_app in Hok as [Hok1 (Hcok & _)%Forall_cons]. apply Forall_app. split; [done|].
    constructor; [|constructor; [by eapply new_cell_ok|done]]. by destruct Hcok; split.
Qed.

Lemma p_ht_set_insert s B k v :
  prep s B → nonul k → (list_to_map (kv B) : gmap bytes bytes) !! k = None →
  ∃ s' B', p_ht_set on_fail (dup_str k) v (blen k + 1) (blen v) s = Ok (tt, s') ∧ prep s' B' ∧
    (list_to_map (kv B') : gmap bytes bytes) = <[k := v]> (list_to_map (kv B)) ∧
    p_size s' = p_size s ∧ p_out s' = p_out s.
Proof.
  intros Hrep Hk Hm. destruct (pbin_range s B Hrep k) as [Hbin (b & Hb)].
  destruct (p_get_ok s B Hrep _ _ Hb) as (p & Hp & Htab & Hc).
  pose proof (p_fuel_ok s B Hrep _ _ _ Hb Hc) as Hf. pose proof (pr_cells _ _ Hrep _ _ Hb) as Hok.
  pose proof (p_find_none s (p_size s) (pbin s k) k b p None _ Hk Hok (kv_missing s B k b Hm Hb) Hc Hf) as Hfind.
  destruct (p_newpair_ok s k v) as (n & Hn & Hnew).
  unfold p_ht_set. rewrite (bind_ok _ _ _ _ _ (p_hash_ok s B Hrep k Hk)), (bind_ok _ _ _ _ _ Hp).
  unfold p_fuel. rewrite bind_gets, (bind_ok _ _ _ _ _ Hfind). cbv beta iota. rewrite (bind_ok _ _ _ false s) by done.
  rewrite (bind_ok _ _ _ _ _ Hnew). set (s1 := p_set_heap _ s).
  assert (p_get (Z.of_nat (pbin s k)) s1 = Ok (p, s1)) as Hp1.
  { unfold p_get. rewrite bind_gets. unfold lift. by rewrite (zlookup_nat _ _ p). }
  assert (p_load n s1 = Ok (new_entry k v None, s1)) as Hl1.
  { apply p_load_ok. unfold s1. simpl. by rewrite lookup_insert_eq. }
  rewrite (bind_ok _ _ _ _ _ Hp1), (bind_ok _ _ _ _ _ Hl1).
  cbv beta iota. destruct b as [|c b _] using rev_ind.
  - simpl in Hc. subst p. rewrite bool_decide_true by done.
    destruct (p_prep_first s B k v n) as [Hrep' Hmap]; try done.
    eexists _, _. split; [|split; [exact Hrep'|by split; [exact Hmap|]]].
    rewrite (bind_ok _ _ _ tt s1).
    + unfold p_set, s1. rewrite bind_gets. by rewrite (bind_lift _ _ _ _ (zupdate_nat _ _ _ (lookup_lt_Some _ _ _ Htab))).
    + unfold p_store, s1. simpl. rewrite lookup_insert_eq. unfold p_set_heap. simpl. by rewrite insert_insert_eq.
  - destruct (p_prep_last s B k v n p b c) as [Hrep' Hmap]; try done.
    assert (p_heap s !! pc_loc c = Some (pc_ent c)) as Hlc by (eapply pchain_lookup; [done|set_solver]).
    rewrite bool_decide_false by (destruct b, Hc as (-> & _); done).
    unfold last_loc. rewrite last_snoc. rewrite bool_decide_true by done. rewrite (bind_ok _ _ _ tt s1) by done.
    assert (p_heap s1 !! pc_loc c = Some (pc_ent c)) as Hlc1.
    { unfold s1. simpl. rewrite lookup_insert_ne; [done|]. congruence. }
    rewrite (bind_ok _ _ _ _ _ (p_load_ok _ _ _ Hlc1)). unfold p_store. rewrite Hlc1.
    eexists _, _. split; [|split; [exact Hrep'|by split; [exact Hmap|]]]. done.
Qed.

(** [ht_set] writes the map, [ht_get] reads it. *)
Lemma p_ht_set_ok s m k v :
  pholds s m → nonul k →
  ∃ s', p_ht_set on_fail (dup_str k) v (blen k + 1) (blen v) s = Ok (tt, s') ∧ pholds s' (<[k := v]> m) ∧
    p_size s' = p_size s ∧ p_out s' = p_out s.
Proof.
  intros (B & Hrep & ->) Hk. destruct ((list_to_map (kv B) : gmap bytes bytes) !! k) as [v0|] eqn:Hm.
  - destruct (p_ht_set_update s B k v v0 Hrep Hk Hm) as (s' & B' & H1 & H2 & H3 & H4 & H5).
    exists s'. split; [done|]. split; [by exists B'|done].
  - destruct (p_ht_set_insert s B k v Hrep Hk Hm) as (s' & B' & H1 & H2 & H3 & H4 & H5).
    exists s'. split; [done|]. split; [by exists B'|done].
Qed.
End set.

Lemma p_ht_get_holds s m k :
  pholds s m → nonul k →
  ∃ p, p_ht_get (dup_str k) s = Ok (p, s) ∧
    match m !! k with
    | Some v => ∃ l e, p = Some l ∧ p_heap s !! l = Some e ∧ pe_val e = Some v ∧ pe_val_size e = blen v
    | None => p = None
    end.
Proof. intros (B & Hrep & ->) Hk. by apply p_ht_get_ok. Qed.

(** A created table is empty. *)
Lemma prep_create size h out :
  0 < size ≤ INT_MAX →
  prep (mkPlain size (replicate (Z.to_nat size) None) h out) (replicate (Z.to_nat size) []) ∧
  concat (replicate (Z.to_nat size) []) = [] :> list pcell.
Proof.
  intros Hs. assert (concat (replicate (Z.to_nat size) []) = [] :> list pcell) as Hnil by (induction (Z.to_nat size); done).
  split; [|done]. split; simpl; unfold kv; rewrite ?Hnil; try done; try constructor.
  - unfold blen. rewrite length_replicate. lia.
  - apply Forall2_replicate. done.
  - intros i b [-> _]%lookup_replicate. done.
Qed.

Lemma pholds_create size out :
  0 < size ≤ INT_MAX → pholds (mkPlain size (replicate (Z.to_nat size) None) ∅ out) ∅.
Proof.
  intros Hs. destruct (prep_create size ∅ out Hs) as [Hp Hnil].
  exists (replicate (Z.to_nat size) []). split; [done|]. unfold kv. by rewrite Hnil.
Qed.
