(* ===== verification/PlainTrace.v ===== *)
(** * The plain stores on a trace

    What the loops of the two programs over a load trace and a run trace leave in the table
    and what they print. *)

From S2P Require Import Prelude CString CLib Common Hash Rep CoreProofs StoreProofs.
From S2P Require Import EnclaveProofs Service Client ClientProofs PlainTable PlainProofs.

(** A loop over the lines of a trace keeps an invariant of the lines it has handled. *)
Lemma for_each_lines {S A} (l : list A) (f : Z → unit → M S unit) (I : list A → S → Prop) s :
  I [] s →
  (∀ pre x post s, l = pre ++ x :: post → I pre s → ∃ s', f (blen pre) tt s = Ok (tt, s') ∧ I (pre ++ [x]) s') →
  ∃ s', for_each (seqZ 0 (blen l)) f tt s = Ok (tt, s') ∧ I l s'.
Proof.
  intros H0 Hstep.
  assert (∀ post pre s, l = pre ++ post → I pre s →
    ∃ s', for_each (seqZ (blen pre) (blen post)) f tt s = Ok (tt, s') ∧ I l s') as Hall.
  { induction post as [|x post IH]; intros pre s1 -> Hpre.
    - rewrite app_nil_r. by exists s1.
    - destruct (Hstep pre x post s1 eq_refl Hpre) as (s2 & Hrun & Hx).
      rewrite blen_cons, seqZ_cons by (pose proof (blen_nonneg post); lia). cbn [for_each].
      rewrite (bind_ok _ _ _ _ _ Hrun).
      destruct (IH (pre ++ [x]) s2 ltac:(by rewrite <-app_assoc) Hx) as (s3 & Hrun3 & H3).
      rewrite blen_app in Hrun3. replace (blen pre + blen [x]) with (Z.succ (blen pre)) in Hrun3 by done.
      replace (Z.pred (blen post + 1)) with (blen post) by lia.
      replace (Z.pred (1 + blen post)) with (blen post) by lia. by exists s3. }
  apply (Hall l [] s); done.
Qed.

(** ** Lines *)

(** A line of the load trace: the command, a separator, the key, a space and the value. *)
Definition load_line (b k v : bytes) : Prop :=
  blen b = BUF_SIZE ∧ has_cmd b "SET" "set" ∧ set_request b k v.

(** A line of the run trace: the key and one more character, the newline. *)
Definition run_line (b k : bytes) : Prop :=
  blen b = BUF_SIZE ∧ has_cmd b "GET" "get" ∧ ∃ x, get_request b (k ++ [x]).

(** A key and a value as they are written in a trace. *)
Definition word (k : bytes) : Prop := k ≠ [] ∧ nonul k ∧ nospace k ∧ NL ∉ k.
Definition load_text (kv : bytes * bytes) : bytes := str "SET " ++ kv.1 ++ SPACE :: kv.2.
Definition run_text (k : bytes) : bytes := str "GET " ++ k.
Definition load_entry (kv : bytes * bytes) : Prop :=
  word kv.1 ∧ nonul kv.2 ∧ NL ∉ kv.2 ∧ blen (load_text kv) + 2 ≤ BUF_SIZE.
Definition run_entry (k : bytes) : Prop := word k ∧ blen (run_text k) + 2 ≤ BUF_SIZE.

Lemma load_text_line kv r :
  load_entry kv → blen (load_text kv ++ NL :: NUL :: r) = BUF_SIZE →
  load_line (load_text kv ++ NL :: NUL :: r) kv.1 (kv.2 ++ [NL]).
Proof.
  destruct kv as [k v]. intros ((Hne & Hk & Hs & Hnl) & Hv & Hvn & _) Hb. split; [done|]. unfold load_text in *. cbn [fst snd] in *.
  split; [eexists; left; by rewrite <-!app_assoc|]. eexists (str "SET "), [], r. split; [by rewrite <-!app_assoc|].
  split; [done|]. split; [constructor|]. do 3 (split; [done|]). unfold nonul in *.
  rewrite elem_of_app, list_elem_of_singleton. by intros [?|?].
Qed.

Lemma run_text_line k r :
  run_entry k → blen (run_text k ++ NL :: NUL :: r) = BUF_SIZE → run_line (run_text k ++ NL :: NUL :: r) k.
Proof.
  intros ((Hne & Hk & Hs & Hnl) & _) Hb. split; [done|]. unfold run_text in *.
  split; [eexists; left; by rewrite <-!app_assoc|]. exists NL. eexists (str "GET "), [], NUL, r.
  split; [by rewrite <-!app_assoc|]. split; [by left|]. split; [done|]. split; [constructor|].
  split; [by destruct k|]. unfold nonul, nospace in *. set_solver.
Qed.

(** The lines of a file, each over the one before. *)
Lemma read_lines_ok {A} (text : A → bytes) (ok : bytes → A → Prop) xs buf rest :
  (∀ x r, x ∈ xs → blen (text x ++ NL :: NUL :: r) = BUF_SIZE → ok (text x ++ NL :: NUL :: r) x) →
  (∀ x, x ∈ xs → NL ∉ text x ∧ blen (text x) + 2 ≤ BUF_SIZE) → blen buf = BUF_SIZE →
  ∃ bs, read_lines (length xs) buf (file_of (text <$> xs) ++ rest) = Ok bs ∧ Forall2 ok bs xs ∧
    blen (default buf (last bs)) = BUF_SIZE.
Proof.
  revert buf. induction xs as [|x xs IH]; intros buf Hok Hx Hb; [by exists []|].
  destruct (Hx x ltac:(set_solver)) as [Hnl Hlen].
  destruct (fgets_over BUF_SIZE buf (text x) (file_of (text <$> xs) ++ rest) Hb Hnl Hlen) as (r & Hr & Hlr).
  destruct (IH (text x ++ NL :: NUL :: r)) as (bs & Hrun & Hbs & Hlast); [set_solver..|done|].
  exists ((text x ++ NL :: NUL :: r) :: bs). split; [|split].
  - change (length (x :: xs)) with (S (length xs)). cbn [read_lines fmap list_fmap]. unfold file_of. rewrite fmap_cons.
    cbn [concat]. unfold mbind, res_bind. rewrite <-!app_assoc. cbn [app].
    change (concat ((λ l, l ++ [NL]) <$> (text <$> xs))) with (file_of (text <$> xs)). rewrite Hr.
    rewrite read_at_all by done. by rewrite Hrun.
  - constructor; [|done]. apply Hok; [set_solver|done].
  - destruct bs as [|b bs]; [done|]. rewrite last_cons.
    destruct (last (b :: bs)) eqn:E; [done|by apply last_None in E].
Qed.

Lemma set_token b k v :
  set_request b k v →
  ∃ t r, strtok_r b 4 = Ok (Some t) ∧ tok t = k ∧ tok_rest t = Some r ∧ cstr_at (tok_buf t) r = Ok v.
Proof.
  intros (pre & sp & rest & -> & Hpre & Hsp & Hne & Hn & Hs & Hv).
  rewrite (strtok_r_space pre sp k _ 4 (eq_sym Hpre) Hsp Hne Hn Hs). eexists _, _.
  split; [done|]. split; [done|]. split; [done|]. cbn [tok_buf].
  replace (pre ++ sp ++ k ++ NUL :: v ++ NUL :: rest) with ((pre ++ sp ++ k ++ [NUL]) ++ v ++ NUL :: rest).
  2:{ by rewrite <-!app_assoc. }
  apply cstr_at_app; [|done]. rewrite !blen_app, blen_cons, blen_nil. lia.
Qed.

Lemma get_token b k : get_request b k → ∃ t, strtok_r b 4 = Ok (Some t) ∧ tok t = k.
Proof.
  intros (pre & sp & d & rest & -> & [->| ->] & Hpre & Hsp & Hne & Hn & Hs).
  - rewrite (strtok_r_end pre sp k _ 4 (eq_sym Hpre) Hsp Hne Hn Hs). by eexists.
  - rewrite (strtok_r_space pre sp k _ 4 (eq_sym Hpre) Hsp Hne Hn Hs). by eexists.
Qed.

Lemma host_token b t : strtok_r b 4 = Ok (Some t) →
  ∃ t', Unsecure.host_strtok_r b 4 = Ok (Some t') ∧ tok t' = tok t ∧ tok_buf t' = tok_buf t ∧
    (∀ r, tok_rest t = Some r → tok_rest t' = Some r).
Proof.
  intros H. unfold Unsecure.host_strtok_r. rewrite H. eexists. split; [done|]. split; [done|]. split; [done|].
  intros r. simpl. by intros ->.
Qed.

Lemma dup_cut_snoc k x : dup_cut (k ++ [x]) = Ok (dup_str k).
Proof.
  unfold dup_cut, zalloc, mbind, res_bind. pose proof (blen_nonneg k).
  rewrite blen_app. change (blen [x]) with 1. destruct (Z.ltb_spec (blen k + 1) 0); [lia|].
  replace (blen k + 1 - 1) with (blen k) by lia. unfold memcpy, mbind, res_bind.
  assert (read_at (k ++ [x]) 0 (blen k) = Ok k) as ->.
  { apply (read_at_app [] k [x]); [done|]. done. }
  assert (zeros (blen k + 1) = [] ++ zeros (blen k) ++ [NUL]) as ->.
  { unfold zeros. rewrite Z2Nat.inj_add by lia. rewrite replicate_add. done. }
  rewrite (write_at_app [] (zeros (blen k)) k [NUL]); [done|done|]. by rewrite blen_zeros.
Qed.

Lemma starts_with_set b s : has_cmd b "SET" "set" → starts_with b "SET" "set" s = Ok (true, s).
Proof. by intros (r & [->| ->]). Qed.
Lemma starts_with_get b s : has_cmd b "GET" "get" → starts_with b "GET" "get" s = Ok (true, s).
Proof. by intros (r & [->| ->]). Qed.

Lemma get_inst_ok (inst : list bytes) pre b post s :
  inst = pre ++ b :: post → blen b = BUF_SIZE → get_inst inst (blen pre) s = Ok (b, s).
Proof.
  intros -> Hb. unfold get_inst. rewrite (bind_lift _ _ _ b).
  - unfold lift. by rewrite read_at_all.
  - unfold blen. apply zlookup_nat. by rewrite lookup_app_r, Nat.sub_diag.
Qed.

(** ** The loops *)

(** The map after the entries of a load trace, and what a run trace over it prints. *)
Definition load_map (m : gmap bytes bytes) (kvs : list (bytes * bytes)) : gmap bytes bytes :=
  fold_left (λ m '(k, v), <[k := dup_str v]> m) kvs m.
Definition run_out (m : gmap bytes bytes) (ks : list bytes) : list string :=
  concat ((λ k, match m !! k with Some _ => [] | None => ["No data"] end) <$> ks).

Lemma load_map_snoc m kvs k v : load_map m (kvs ++ [(k, v)]) = <[k := dup_str v]> (load_map m kvs).
Proof. unfold load_map. by rewrite fold_left_app. Qed.
Lemma run_out_snoc m ks k :
  run_out m (ks ++ [k]) = run_out m ks ++ match m !! k with Some _ => [] | None => ["No data"] end.
Proof. unfold run_out. rewrite fmap_app, concat_app. simpl. by rewrite app_nil_r. Qed.

Lemma pholds_out s m o : pholds s m → pholds (mkPlain (p_size s) (p_table s) (p_heap s) o) m.
Proof. intros (B & [] & ->). by exists B. Qed.

Section loops.
Context `{Malloc}.
Context (load run : list bytes → Z → P unit) (line : bytes → bytes → bytes → Prop).

(** What one iteration of each loop does. *)
Hypothesis load_ok : ∀ inst pre b post k v s m,
  inst = pre ++ b :: post → line b k v → pholds s m →
  ∃ s', load inst (blen pre) s = Ok (tt, s') ∧ pholds s' (<[k := dup_str v]> m) ∧ p_size s' = p_size s ∧ p_out s' = p_out s.
Hypothesis run_ok : ∀ inst pre b post k s m,
  inst = pre ++ b :: post → run_line b k → pholds s m →
  run inst (blen pre) s =
  Ok (tt, mkPlain (p_size s) (p_table s) (p_heap s)
            (p_out s ++ match m !! k with Some _ => [] | None => ["No data"] end)).

Lemma load_loop inst kvs s m :
  Forall2 (λ b '(k, v), line b k v) inst kvs → pholds s m →
  ∃ s', for_each (seqZ 0 (blen inst)) (λ i _, load inst i) tt s = Ok (tt, s') ∧
    pholds s' (load_map m kvs) ∧ p_size s' = p_size s ∧ p_out s' = p_out s.
Proof.
  intros Hl Hm.
  destruct (for_each_lines inst (λ i _, load inst i) (λ pre s', ∃ ks1, length ks1 = length pre ∧ ks1 `prefix_of` kvs ∧
    pholds s' (load_map m ks1) ∧ p_size s' = p_size s ∧ p_out s' = p_out s) s) as (s' & Hrun & ks1 & Hlen & [ks2 ->] & Hs').
  - exists []. split; [done|]. split; [apply prefix_nil|done].
  - intros pre b post s1 -> (ks1 & Hlen & [ks2 ->] & Hh & Hsz & Ho).
    apply Forall2_app_inv_l in Hl as (k1 & k2 & Hl1 & Hl2 & Heq). apply Forall2_length in Hl1 as Hlen1.
    apply app_inj_1 in Heq as [-> ->]; [|lia]. destruct k2 as [|[k v] k2]; inversion Hl2 as [|? ? ? ? Hb _]; subst.
    destruct (load_ok _ pre b post k v s1 _ eq_refl Hb Hh) as (s2 & Hrun & Hh2 & Hsz2 & Ho2).
    exists s2. split; [done|]. exists (k1 ++ [(k, v)]). split; [rewrite !length_app; simpl; lia|].
    split; [exists k2; by rewrite <-app_assoc|]. rewrite load_map_snoc. split; [done|]. split; congruence.
  - exists s'. split; [done|]. apply Forall2_length in Hl. rewrite length_app in Hl.
    destruct ks2; [by rewrite app_nil_r|simpl in Hl; lia].
Qed.

Lemma run_loop inst ks s m :
  Forall2 run_line inst ks → pholds s m →
  for_each (seqZ 0 (blen inst)) (λ i _, run inst i) tt s =
  Ok (tt, mkPlain (p_size s) (p_table s) (p_heap s) (p_out s ++ run_out m ks)).
Proof.
  intros Hl Hm.
  destruct (for_each_lines inst (λ i _, run inst i) (λ pre s', ∃ ks1, length ks1 = length pre ∧ ks1 `prefix_of` ks ∧
    s' = mkPlain (p_size s) (p_table s) (p_heap s) (p_out s ++ run_out m ks1)) s) as (s' & Hrun & ks1 & Hlen & [ks2 ->] & ->).
  - exists []. split; [done|]. split; [apply prefix_nil|]. unfold run_out. simpl. rewrite app_nil_r. by destruct s.
  - intros pre b post s1 -> (ks1 & Hlen & [ks2 ->] & ->).
    apply Forall2_app_inv_l in Hl as (k1 & k2 & Hl1 & Hl2 & Heq). apply Forall2_length in Hl1 as Hlen1.
    apply app_inj_1 in Heq as [-> ->]; [|lia]. destruct k2 as [|k k2]; inversion Hl2 as [|? ? ? ? Hb _]; subst.
    eexists. split; [apply (run_ok _ pre b post k _ m eq_refl Hb); by apply pholds_out|].
    exists (k1 ++ [k]). split; [rewrite !length_app; simpl; lia|]. split; [exists k2; by rewrite <-app_assoc|].
    simpl. by rewrite run_out_snoc, app_assoc.
  - rewrite Hrun. apply Forall2_length in Hl. rewrite length_app in Hl.
    destruct ks2; [by rewrite app_nil_r|simpl in Hl; lia].
Qed.
End loops.

(** ** The two programs *)
Section programs.
Context `{Malloc} `{!MallocOk} (Hmem : mem_ok).

Lemma p_ht_get_cut b k x s m :
  get_request b (k ++ [x]) → pholds s m →
  ∃ t p, strtok_r b 4 = Ok (Some t) ∧ dup_cut (tok t) = Ok (dup_str k) ∧ p_ht_get (dup_str k) s = Ok (p, s) ∧
    bool_decide (p = None) = bool_decide (m !! k = None).
Proof.
  intros Hreq Hm. destruct (get_token b _ Hreq) as (t & Ht & Htok).
  assert (nonul k) as Hk.
  { destruct Hreq as (? & ? & ? & ? & _ & _ & _ & _ & _ & Hn & _). unfold nonul in *. set_solver. }
  destruct (p_ht_get_holds s m k Hm Hk) as (p & Hp & Hmatch). exists t, p. rewrite Htok. split; [done|].
  split; [apply dup_cut_snoc|]. split; [done|].
  destruct (m !! k) as [v|]; [destruct Hmatch as (l & e & -> & _)|subst p]; done.
Qed.

Lemma unsecure_load_ok inst pre b post k v s m :
  inst = pre ++ b :: post → load_line b k v → pholds s m →
  ∃ s', Unsecure.load_one inst (blen pre) s = Ok (tt, s') ∧ pholds s' (<[k := dup_str v]> m) ∧
    p_size s' = p_size s ∧ p_out s' = p_out s.
Proof.
  intros Hinst (Hb & Hcmd & Hreq) Hm. unfold Unsecure.load_one.
  rewrite (bind_ok _ _ _ _ _ (get_inst_ok _ _ _ _ _ Hinst Hb)), (bind_ok _ _ _ _ _ (starts_with_set b s Hcmd)).
  destruct (set_token b k v Hreq) as (t & r & Ht & Htok & Hrest & Hv).
  destruct (host_token b t Ht) as (t' & Ht' & Htok' & Hbuf' & Hrest').
  rewrite (bind_lift _ _ _ _ Ht'), Htok', Htok, (Hrest' _ Hrest), Hbuf'. cbv zeta. cbn [default id].
  rewrite (bind_lift _ _ _ _ Hv).
  assert (nonul k) as Hk by by destruct Hreq as (? & ? & ? & _ & _ & _ & _ & ? & _).
  destruct (p_ht_set_ok Hmem (raise Exited) s m k (dup_str v) Hm Hk) as (s' & Hrun & Hrest2). 
  rewrite dup_str_len in Hrun. by exists s'.
Qed.

Lemma unsecure_run_ok inst pre b post k s m :
  inst = pre ++ b :: post → run_line b k → pholds s m →
  Unsecure.run_one inst (blen pre) s =
  Ok (tt, mkPlain (p_size s) (p_table s) (p_heap s)
            (p_out s ++ match m !! k with Some _ => [] | None => ["No data"] end)).
Proof.
  intros Hinst (Hb & Hcmd & x & Hreq) Hm. unfold Unsecure.run_one.
  rewrite (bind_ok _ _ _ _ _ (get_inst_ok _ _ _ _ _ Hinst Hb)), (bind_ok _ _ _ _ _ (starts_with_get b s Hcmd)).
  destruct (p_ht_get_cut b k x s m Hreq Hm) as (t & p & Ht & Hcut & Hget & Hp).
  destruct (host_token b t Ht) as (t' & Ht' & Htok' & _).
  rewrite (bind_lift _ _ _ _ Ht'), Htok', (bind_lift _ _ _ _ Hcut). unfold Unsecure.ht_get.
  rewrite (bind_ok _ _ _ _ _ Hget), Hp. destruct (m !! k); [|done]. simpl. rewrite app_nil_r. by destruct s.
Qed.

Lemma baseline_load_ok inst pre b post k v x s m :
  inst = pre ++ b :: post → load_line b k (v ++ [x]) → pholds s m →
  ∃ s', Baseline.load_one inst (blen pre) s = Ok (tt, s') ∧ pholds s' (<[k := dup_str v]> m) ∧
    p_size s' = p_size s ∧ p_out s' = p_out s.
Proof.
  intros Hinst (Hb & Hcmd & Hreq) Hm. unfold Baseline.load_one.
  rewrite (bind_ok _ _ _ _ _ (get_inst_ok _ _ _ _ _ Hinst Hb)), (bind_ok _ _ _ _ _ (starts_with_set b s Hcmd)).
  destruct (set_token b k _ Hreq) as (t & r & Ht & Htok & Hrest & Hv).
  rewrite (bind_lift _ _ _ _ Ht), Hrest, Htok. cbv zeta.
  rewrite (bind_lift _ _ _ _ Hv), (bind_lift _ _ _ _ (dup_cut_snoc v x)).
  assert (nonul k) as Hk by by destruct Hreq as (? & ? & ? & _ & _ & _ & _ & ? & _).
  destruct (p_ht_set_ok Hmem (p_print "Newpair is not created!";; raise Null_deref) s m k (dup_str v) Hm Hk)
    as (s' & Hrun & Hrest2).
  rewrite dup_str_len in Hrun. exists s'. split; [|done].
  rewrite blen_app. exact Hrun.
Qed.

Lemma baseline_run_ok inst pre b post k s m :
  inst = pre ++ b :: post → run_line b k → pholds s m →
  Baseline.run_one inst (blen pre) s =
  Ok (tt, mkPlain (p_size s) (p_table s) (p_heap s)
            (p_out s ++ match m !! k with Some _ => [] | None => ["No data"] end)).
Proof.
  intros Hinst (Hb & Hcmd & x & Hreq) Hm. unfold Baseline.run_one.
  rewrite (bind_ok _ _ _ _ _ (get_inst_ok _ _ _ _ _ Hinst Hb)), (bind_ok _ _ _ _ _ (starts_with_get b s Hcmd)).
  destruct (p_ht_get_cut b k x s m Hreq Hm) as (t & p & Ht & Hcut & Hget & Hp).
  rewrite (bind_lift _ _ _ _ Ht), (bind_lift _ _ _ _ Hcut). unfold Baseline.ht_get.
  rewrite (bind_ok _ _ _ _ _ Hget), Hp. destruct (m !! k); [|done]. simpl. rewrite app_nil_r. by destruct s.
Qed.

(** The table is freed, its entries are not. *)
Lemma p_ht_destroy_ok s m :
  pholds s m → p_ht_destroy (p_size s) s = Ok (tt, mkPlain (p_size s) [] (p_heap s) (p_out s)).
Proof.
  intros (B & Hrep & _). unfold p_ht_destroy.
  assert (blen (p_table s) = p_size s) as Hlen.
  { rewrite <-(pr_len _ _ Hrep). unfold blen. f_equal. eapply Forall2_length, (pr_chains _ _ Hrep). }
  rewrite <-Hlen at 1.
  destruct (for_each_lines (p_table s) (λ i _, p ← p_get i; match p with None => mret tt | Some _ => mret tt end)
    (λ _ s', s' = s) s eq_refl) as (s' & Hrun & ->).
  - intros pre p post s1 Hsp ->. exists s. split; [|done].
    assert (p_get (blen pre) s = Ok (p, s)) as Hp.
    { unfold p_get. rewrite bind_gets. unfold lift, blen. rewrite (zlookup_nat _ _ p); [done|].
      rewrite Hsp. by rewrite lookup_app_r, Nat.sub_diag. }
    rewrite (bind_ok _ _ _ _ _ Hp). by destruct p.
  - rewrite (bind_ok _ _ _ _ _ Hrun). done.
Qed.

(** Every entry of the map is in memory. *)
Lemma pholds_heap s m : pholds s m → (base.size m ≤ base.size (p_heap s))%nat.
Proof.
  intros (B & Hrep & ->).
  assert (list_to_set (pc_loc <$> concat B) ⊆ dom (p_heap s)) as Hsub.
  { intros l. rewrite elem_of_list_to_set, list_elem_of_fmap, elem_of_dom.
    intros (c & -> & (b & (i & Hi) & Hin)%elem_of_concat).
    destruct (p_get_ok s B Hrep i b Hi) as (p & _ & _ & Hc). eapply pchain_lookup in Hc; [|done]. eauto. }
  apply subseteq_size in Hsub. rewrite size_dom, size_list_to_set in Hsub by apply Hrep. rewrite length_fmap in Hsub.
  etransitivity; [|done]. rewrite <-length_map_to_list, map_to_list_to_map by apply Hrep.
  unfold kv. by rewrite length_fmap.
Qed.


(** The loops of the programs on the traces. *)
Lemma unsecure_loops inst kvs inst2 ks s m :
  Forall2 (λ b '(k, v), load_line b k v) inst kvs → Forall2 run_line inst2 ks → pholds s m →
  ∃ s', Unsecure.main_loops inst inst2 s = Ok (tt, s') ∧ pholds s' (load_map m kvs) ∧
    p_out s' = p_out s ++ ["Load Process has done"] ++ run_out (load_map m kvs) ks ++ ["Run Process has done"].
Proof.
  intros Hl Hr Hm. unfold Unsecure.main_loops.
  destruct (load_loop Unsecure.load_one load_line unsecure_load_ok inst kvs s m Hl Hm) as (s1 & Hrun1 & Hm1 & _ & Ho1).
  rewrite (bind_ok _ _ _ _ _ Hrun1). unfold p_print. rewrite bind_modify.
  set (s2 := mkPlain _ _ _ (p_out s1 ++ ["Load Process has done"])).
  assert (pholds s2 (load_map m kvs)) as Hm2 by by apply pholds_out.
  rewrite (bind_ok _ _ _ _ _ (run_loop Unsecure.run_one unsecure_run_ok inst2 ks s2 _ Hr Hm2)).
  eexists. split; [done|]. split; [exact (pholds_out s2 _ _ Hm2)|]. cbn [p_out]. unfold s2. cbn [p_out]. by rewrite Ho1, <-!app_assoc.
Qed.

Lemma baseline_loops inst kvs inst2 ks s m :
  Forall2 (λ b '(k, v), ∃ x, load_line b k (v ++ [x])) inst kvs → Forall2 run_line inst2 ks → pholds s m →
  ∃ s', Baseline.enclave_process (blen inst * 8) inst (blen inst2 * 8) inst2 s = Ok (tt, s') ∧ pholds s' (load_map m kvs) ∧ p_size s' = p_size s ∧
    p_out s' = p_out s ++ ["Load Process has done"] ++ run_out (load_map m kvs) ks ++ ["Run Process has done"].
Proof.
  intros Hl Hr Hm. unfold Baseline.enclave_process. rewrite !Z.quot_mul by lia.
  destruct (load_loop Baseline.load_one (λ b k v, ∃ x, load_line b k (v ++ [x]))) with (inst := inst) (kvs := kvs) (s := s) (m := m)
    as (s1 & Hrun1 & Hm1 & Hsz1 & Ho1); [|done|done|].
  { intros i pre b post k v s1 m1 Hi [x Hline] Hm1. by eapply baseline_load_ok. }
  rewrite (bind_ok _ _ _ _ _ Hrun1). unfold p_print. rewrite bind_modify.
  set (s2 := mkPlain _ _ _ (p_out s1 ++ ["Load Process has done"])).
  assert (pholds s2 (load_map m kvs)) as Hm2 by by apply pholds_out.
  rewrite (bind_ok _ _ _ _ _ (run_loop Baseline.run_one baseline_run_ok inst2 ks s2 _ Hr Hm2)).
  eexists. split; [done|]. split; [exact (pholds_out s2 _ _ Hm2)|]. split; [exact Hsz1|]. cbn [p_out]. unfold s2. cbn [p_out]. by rewrite Ho1, <-!app_assoc.
Qed.
End programs.
