(* ===== verification/PlainMain.v ===== *)
(** * The programs without protection, from [main] to the file of results

    [main] of [Unsecure_kvs/server.c] and of [Baseline_kvs/App/App.cpp]: the table, the traces,
    the loops over them, the line of results and the release of the table. *)

From stdpp Require Import pretty.
From S2P Require Import Prelude CString CLib Common Server Results Client PlainTable.

(** ** [file_to_memory] *)

(** [sprintf] of a name into [char filename[30]]; the argument of the program can be too long. *)
Definition file_name (kind : string) (workload : bytes) : res bytes :=
  let name := str ("../workloads/" +:+ kind +:+ "_") ++ workload ++ str ".txt" in
  if blen name + 1 <=? 30 then Ok name else Fault Out_of_bounds.

Definition set_size (workload : bytes) : Z := s32 (16384 * atoi workload).
Definition set_size2 : Z := 10000000.

(** [files] are the files by their names.  The buffer of the first loop, whose contents are those
    of the last line, is used by the second. *)
Definition file_to_memory (garbage : bytes) (files : bytes → option bytes) (workload : bytes)
  : P (list bytes * list bytes) :=
  p_print (pretty (set_size workload));;
  name ← lift (file_name "load" workload);
  p_print (String.string_of_list_byte name);;
  f ← lift (fopen (files name));
  inst ← lift (read_lines (Z.to_nat (set_size workload)) garbage f);
  name ← lift (file_name "run" workload);
  p_print (String.string_of_list_byte name);;
  f ← lift (fopen (files name));
  inst2 ← lift (read_lines (Z.to_nat set_size2) (default garbage (last inst)) f);
  mret (inst, inst2).

(** What a run of a program leaves: the value of [main], the lines printed, the file of results and
    the entries that are still allocated. *)
Record outcome := mkOutcome {
  code : Z;
  printed : list string;
  results : option string;
  memory : gmap loc pentry;
}.

Definition usage : string := "Usage: ./app [workload] : workload <-- 16, 32, 48, ... , 4096".

(** [argv[1]]; past the arguments there is a NULL. *)
Definition argv_1 (argv : list bytes) : P bytes :=
  match argv !! 1%nat with Some a => mret a | None => raise Null_deref end.

Section mains.
Context `{Malloc}.
Context (malloc_ht malloc_heads : bool) (garbage : bytes) (files : bytes → option bytes) (file : option string).

(** ** [Unsecure_kvs/server.c] *)

(** [mid] and [end_] are the times after the two loops. *)
Definition unsecure_body (mid end_ : Z) (argv : list bytes) : P string :=
  p_print "HT is created!";;
  (if blen argv =? 2 then mret tt else p_print usage);;
  workload ← argv_1 argv;
  '(inst, inst2) ← file_to_memory garbage files workload;
  Unsecure.main_loops inst inst2;;
  f ← lift (append_result file [kvs_result workload end_ mid]);
  Unsecure.ht_destroy;;
  mret f.

Definition unsecure_main (mid end_ : Z) (argv : list bytes) : res outcome :=
  s ← Unsecure.ht_create malloc_ht malloc_heads Unsecure.g_size;
  '(f, s') ← (unsecure_body mid end_ argv s : res (string * plain));
  Ok (mkOutcome 0 (p_out s') (Some f) (p_heap s')).

(** ** [Baseline_kvs/App/App.cpp]

    The helpers are copies. *)
Definition baseline_file_to_memory := file_to_memory.
Definition baseline_load_and_initialize_enclave := load_and_initialize_enclave.
Definition baseline_ret_error_support := ret_error_support.

Definition g_size : Z := 1048576.

(** The end of [main], after the ecall [enclave_process]; [mid1] is set by the ocall [dummy]. *)
Definition baseline_body (process_status : sgx_status) (mid1 end1 : Z) (argv : list bytes) : P string :=
  p_print "HT is created!";;
  (if blen argv =? 2 then mret tt else p_print usage;; raise Exited);;
  workload ← argv_1 argv;
  '(inst, inst2) ← baseline_file_to_memory garbage files workload;
  (if bool_decide (process_status = SGX_SUCCESS)
   then Baseline.enclave_process (blen inst * 8) inst (blen inst2 * 8) inst2 else mret tt);;
  let mid1 := if bool_decide (process_status = SGX_SUCCESS) then mid1 else 0 in
  lift (append_result file [kvs_result workload end1 mid1]).

Definition baseline_main (created : sgx_status * Z * bool) (ofs_good : bool)
  (create_status process_status destroy_status : sgx_status) (mid1 end1 : Z) (argv : list bytes) : res outcome :=
  let '(ret, _, calls) := baseline_load_and_initialize_enclave created ofs_good 0 in
  let said := concat ((λ c, match c with Say m => [m] | _ => [] end) <$> calls) in
  if negb (bool_decide (ret = SGX_SUCCESS)) then Ok (mkOutcome (-1) (said ++ baseline_ret_error_support ret) file ∅)
  else if negb (bool_decide (create_status = SGX_SUCCESS))
  then Ok (mkOutcome (-1) (said ++ baseline_ret_error_support create_status) file ∅)
  else
    s ← Baseline.ht_create malloc_ht malloc_heads g_size;
    '(f, s') ← (baseline_body process_status mid1 end1 argv s : res (string * plain));
    if negb (bool_decide (destroy_status = SGX_SUCCESS))
    then Ok (mkOutcome (-1) (said ++ p_out s' ++ baseline_ret_error_support destroy_status) (Some f) (p_heap s'))
    else
      '(_, s'') ← (Baseline.ht_destroy g_size s' : res (unit * plain));
      Ok (mkOutcome 0 (said ++ p_out s'') (Some f) (p_heap s'')).
End mains.
