(* ===== verification/PlainClaims.v ===== *)
(** * Theorems on the stores without protection

    Both tables are finite maps, what a whole run of either program prints and leaves in
    memory, and that the two programs print the same. *)

From stdpp Require Import pretty.
From S2P Require Import Prelude CString CLib Common Hash Rep CoreProofs StoreProofs.
From S2P Require Import EnclaveProofs Service Client ClientProofs Wire PlainTable PlainProofs.
From S2P Require Import Server Results PlainTrace PlainMain.

(** The lines of a load trace by key. *)
Lemma load_map_dom m kvs k : load_map m kvs !! k = None ↔ m !! k = None ∧ k ∉ kvs.*1.
Proof.
  unfold load_map. revert m. induction kvs as [|[k' v] kvs IH]; intros m; simpl; [set_solver|].
  rewrite IH, lookup_insert_None. set_solver.
Qed.

Lemma run_out_keys m m' ks :
  (∀ k, m !! k = None ↔ m' !! k = None) → run_out m ks = run_out m' ks.
Proof.
  intros Hm. unfold run_out. f_equal. apply list_fmap_ext. intros _ k _. specialize (Hm k).
  destruct (m !! k), (m' !! k); naive_solver.
Qed.

(** The values with their newlines, as the first program keeps them. *)
Definition with_newline (kvs : list (bytes * bytes)) : list (bytes * bytes) := (λ '(k, v), (k, v ++ [NL])) <$> kvs.

Lemma lines_keys kvs : (with_newline kvs).*1 = kvs.*1.
Proof. unfold with_newline. rewrite <-list_fmap_compose. by apply list_fmap_ext; intros _ [k v] _. Qed.

Lemma load_map_same kvs : dom (load_map ∅ (with_newline kvs)) = dom (load_map ∅ kvs).
Proof. apply set_eq. intros k. by rewrite !elem_of_dom, <-!not_eq_None_Some, !load_map_dom, lines_keys. Qed.

Lemma lines_kept inst kvs :
  Forall2 (λ b kv, load_line b kv.1 (kv.2 ++ [NL])) inst kvs →
  Forall2 (λ b '(k, v), load_line b k v) inst (with_newline kvs).
Proof. induction 1 as [|b [k v] inst kvs Hb _ IH]; by constructor. Qed.

Lemma lines_cut inst kvs :
  Forall2 (λ b kv, load_line b kv.1 (kv.2 ++ [NL])) inst kvs →
  Forall2 (λ b '(k, v), ∃ x, load_line b k (v ++ [x])) inst kvs.
Proof. induction 1 as [|b [k v] inst kvs Hb _ IH]; constructor; [by exists NL|done]. Qed.

Section plain.
Context `{Malloc} `{!MallocOk} (Hmem : mem_ok).

(** What the two operations of a table promise. *)
Definition acts_as_map (set : bytes → bytes → Z → Z → P unit) (get : bytes → P ptr) : Prop :=
  ∀ s m k v k', pholds s m → nonul k → nonul k' →
  ∃ s' p, set (dup_str k) v (blen k + 1) (blen v) s = Ok (tt, s') ∧ pholds s' (<[k := v]> m) ∧
    get (dup_str k') s' = Ok (p, s') ∧
    match <[k := v]> m !! k' with
    | Some x => ∃ l e, p = Some l ∧ p_heap s' !! l = Some e ∧ pe_val e = Some x ∧ pe_val_size e = blen x
    | None => p = None
    end.

Lemma p_acts_as_map on_fail : acts_as_map (p_ht_set on_fail) p_ht_get.
Proof.
  intros s m k v k' Hm Hk Hk'. destruct (p_ht_set_ok Hmem on_fail s m k v Hm Hk) as (s' & Hset & Hm' & _).
  destruct (p_ht_get_holds s' _ k' Hm' Hk') as (p & Hget & Hp). by exists s', p.
Qed.

(** C36. The plain tables are finite maps: [ht_set] of both programs, whether it finds the key
    or hangs a new entry behind the last one of its chain, adds the binding to the map the
    chains represent, and [ht_get] then returns the entry with the value of the key, or
    NULL for a key without a binding, and changes nothing. *)
Theorem plain_tables_are_maps :
  acts_as_map Unsecure.ht_set Unsecure.ht_get ∧ acts_as_map Baseline.ht_set Baseline.ht_get.
Proof. split; apply p_acts_as_map. Qed.

(** ** Whole runs *)

(** The two trace files of the workload: as many lines as the programs read, SET lines in the
    first, GET lines in the second. *)
Record traces (files : bytes → option bytes) (w : bytes) (kvs : list (bytes * bytes)) (ks : list bytes) : Prop := {
  tr_name : blen w ≤ 7;
  tr_load : Z.of_nat (length kvs) = Z.max 0 (set_size w);
  tr_run : length ks = Z.to_nat set_size2;
  tr_kvs : Forall load_entry kvs;
  tr_ks : Forall run_entry ks;
  tr_load_file : files (str "../workloads/load_" ++ w ++ str ".txt") = Some (file_of (load_text <$> kvs));
  tr_run_file : files (str "../workloads/run_" ++ w ++ str ".txt") = Some (file_of (run_text <$> ks));
}.

(** What is printed before the loops. *)
Definition heading (w : bytes) : list string :=
  ["HT is created!"; pretty (set_size w);
   String.string_of_list_byte (str "../workloads/load_" ++ w ++ str ".txt");
   String.string_of_list_byte (str "../workloads/run_" ++ w ++ str ".txt")].

Definition say_all (l : list string) (s : plain) : plain := mkPlain (p_size s) (p_table s) (p_heap s) (p_out s ++ l).

Lemma files_ok files w kvs ks garbage s :
  traces files w kvs ks → blen garbage = BUF_SIZE →
  ∃ inst inst2, file_to_memory garbage files w s = Ok ((inst, inst2), say_all (tail (heading w)) s) ∧
    Forall2 (λ b kv, load_line b kv.1 (kv.2 ++ [NL])) inst kvs ∧ Forall2 run_line inst2 ks.
Proof.
  intros [Hw Hn Hn2 Hkvs Hks Hf Hf2] Hg.
  destruct (read_lines_ok load_text (λ b kv, load_line b kv.1 (kv.2 ++ [NL])) kvs garbage []) as (inst & Hr & Hl & Hlast).
  { intros kv r Hin. apply load_text_line. by eapply Forall_forall in Hkvs. }
  { intros kv Hin. eapply Forall_forall in Hkvs as ((_ & _ & _ & Hnl) & _ & Hv & Hlen); [|done]. split; [|done].
    unfold load_text. rewrite elem_of_app, elem_of_app, elem_of_cons. clear -Hnl Hv.
    intros [Hin|[Hin|[Hin|Hin]]]; [by apply (bool_decide_unpack (NL ∉ str "SET ")); [vm_compute|]|done|done|done]. }
  { done. }
  destruct (read_lines_ok run_text run_line ks (default garbage (last inst)) []) as (inst2 & Hr2 & Hl2 & _).
  { intros k r Hin. apply run_text_line. by eapply Forall_forall in Hks. }
  { intros k Hin. eapply Forall_forall in Hks as ((_ & _ & _ & Hnl) & Hlen); [|done]. split; [|done].
    unfold run_text. rewrite elem_of_app. clear -Hnl.
    intros [Hin|Hin]; [by apply (bool_decide_unpack (NL ∉ str "GET ")); [vm_compute|]|done]. }
  { done. }
  rewrite app_nil_r in Hr, Hr2. exists inst, inst2. split; [|done]. unfold file_to_memory, p_print.
  assert (Z.to_nat (set_size w) = length kvs) as -> by lia. rewrite <-Hn2.
  assert (file_name "load" w = Ok (str "../workloads/load_" ++ w ++ str ".txt")) as Hname.
  { unfold file_name. by rewrite (proj2 (Z.leb_le _ _)) by (rewrite !blen_app; unfold blen at 1 3; simpl; lia). }
  assert (file_name "run" w = Ok (str "../workloads/run_" ++ w ++ str ".txt")) as Hname2.
  { unfold file_name. by rewrite (proj2 (Z.leb_le _ _)) by (rewrite !blen_app; unfold blen at 1 3; simpl; lia). }
  rewrite bind_modify, (bind_lift _ _ _ _ Hname), bind_modify, Hf. cbn [fopen].
  rewrite (bind_lift _ _ _ _ eq_refl), (bind_lift _ _ _ _ Hr), (bind_lift _ _ _ _ Hname2), bind_modify, Hf2. cbn [fopen].
  rewrite (bind_lift _ _ _ _ eq_refl), (bind_lift _ _ _ _ Hr2). unfold say_all, heading. cbn [p_out p_size p_table p_heap tail].
  by rewrite <-!app_assoc.
Qed.

Lemma unsecure_runs files w kvs ks garbage old mid end_ name :
  traces files w kvs ks → blen garbage = BUF_SIZE →
  ∃ mem, unsecure_main true true garbage files (Some old) mid end_ [name; w] =
      Ok (mkOutcome 0
            (heading w ++ ["Load Process has done"] ++ run_out (load_map ∅ kvs) ks ++ ["Run Process has done"])
            (Some (old +:+ kvs_result w end_ mid)) mem) ∧
    (base.size (load_map ∅ kvs) ≤ base.size mem)%nat.
Proof.
  intros Htr Hg. unfold unsecure_main.
  assert (Unsecure.ht_create true true Unsecure.g_size = Ok (mkPlain Unsecure.g_size (replicate (Z.to_nat Unsecure.g_size) None) ∅ []))
    as Hc by done.
  unfold mbind at 1, res_bind at 1. rewrite Hc. clear Hc. set (s := mkPlain _ _ _ []).
  assert (pholds s ∅) as Hm by (apply pholds_create; done). assert (p_out s = []) as Ho by done. clearbody s.
  destruct (files_ok files w kvs ks garbage (say_all ["HT is created!"] s) Htr Hg) as (inst & inst2 & Hf & Hl & Hl2).
  destruct (unsecure_loops Hmem inst _ inst2 ks _ ∅ (lines_kept inst kvs Hl) Hl2
    (pholds_out _ _ (p_out s ++ heading w) Hm)) as (s' & Hrun & Hm' & Ho').
  pose proof (p_ht_destroy_ok s' _ Hm') as Hd.
  assert (unsecure_body garbage files (Some old) mid end_ [name; w] s =
    Ok (old +:+ kvs_result w end_ mid, mkPlain (p_size s') [] (p_heap s') (p_out s'))) as Hbody.
  { unfold unsecure_body, p_print. rewrite bind_modify. change (blen [name; w] =? 2) with true. cbv iota.
    rewrite bind_ret. unfold argv_1. cbn [lookup list_lookup]. rewrite bind_ret.
    rewrite (bind_ok _ _ _ _ _ Hf). cbv beta iota. unfold say_all. cbn [p_size p_table p_heap p_out].
    rewrite <-app_assoc. cbn [app]. fold (heading w). rewrite (bind_ok _ _ _ _ _ Hrun).
    rewrite (bind_lift _ _ _ (old +:+ kvs_result w end_ mid)) by done. unfold Unsecure.ht_destroy.
    assert ((n ← gets p_size; p_ht_destroy n) s' = Ok (tt, mkPlain (p_size s') [] (p_heap s') (p_out s'))) as Hd2 by done.
    by rewrite (bind_ok _ _ _ _ _ Hd2). }
  unfold mbind, res_bind. rewrite Hbody. eexists. split; [cbn [p_out p_heap]; rewrite Ho'|].
  - cbn [p_out]. rewrite Ho, app_nil_l. do 4 f_equal. rewrite (run_out_keys _ (load_map ∅ kvs)); [done|].
    intros k. rewrite !load_map_dom. by rewrite lines_keys.
  - etransitivity; [|by apply (pholds_heap s' _ Hm')]. by rewrite <-!size_dom, load_map_same.
Qed.

Lemma baseline_runs files w kvs ks garbage old mid1 end1 name eid updated ofs_good :
  traces files w kvs ks → blen garbage = BUF_SIZE → (updated = true → ofs_good = true) →
  ∃ mem, baseline_main true true garbage files (Some old) (SGX_SUCCESS, eid, updated) ofs_good SGX_SUCCESS SGX_SUCCESS
      SGX_SUCCESS mid1 end1 [name; w] =
    Ok (mkOutcome 0
          (heading w ++ ["Load Process has done"] ++ run_out (load_map ∅ kvs) ks ++ ["Run Process has done"])
          (Some (old +:+ kvs_result w end1 mid1)) mem).
Proof.
  intros Htr Hg Hofs.
  assert (∃ s, Baseline.ht_create true true g_size = Ok s ∧ pholds s ∅ ∧ p_out s = [] ∧ p_size s = g_size)
    as (s & Hs & Hm & Ho & Hsz).
  { assert (0 < g_size ≤ INT_MAX) as Hsize by done.
    assert (Baseline.ht_create true true g_size = Ok (mkPlain g_size (replicate (Z.to_nat g_size) None) ∅ [])) as Hc.
    { unfold Baseline.ht_create. change (g_size <? 1) with false. cbn [negb andb app]. reflexivity. }
    exact (ex_intro _ _ (conj Hc (conj (pholds_create g_size [] Hsize) (conj eq_refl eq_refl)))). }
  destruct (files_ok files w kvs ks garbage (say_all ["HT is created!"] s) Htr Hg) as (inst & inst2 & Hf & Hl & Hl2).
  destruct (baseline_loops Hmem inst kvs inst2 ks _ ∅ (lines_cut inst kvs Hl) Hl2
    (pholds_out _ _ (p_out s ++ heading w) Hm)) as (s' & Hrun & Hm' & Hsz' & Ho').
  pose proof (p_ht_destroy_ok s' _ Hm') as Hd. cbn [p_size] in Hsz'. rewrite Hsz', Hsz in Hd.
  assert (baseline_body garbage files (Some old) SGX_SUCCESS mid1 end1 [name; w] s =
    Ok (old +:+ kvs_result w end1 mid1, s')) as Hbody.
  { unfold baseline_body, p_print. rewrite bind_modify. change (blen [name; w] =? 2) with true. cbv iota.
    rewrite bind_ret. unfold argv_1. cbn [lookup list_lookup]. rewrite bind_ret.
    rewrite (bind_ok _ _ _ _ _ Hf). cbv beta iota. unfold say_all. cbn [p_size p_table p_heap p_out].
    rewrite <-app_assoc. cbn [app]. fold (heading w). rewrite !bool_decide_true by done. by rewrite (bind_ok _ _ _ _ _ Hrun). }
  eexists. unfold baseline_main, baseline_load_and_initialize_enclave, load_and_initialize_enclave. rewrite !bool_decide_true by done. cbn [negb].
  unfold mbind, res_bind.
  assert (∀ c, c = [] ∨ c = [Save_token] → concat ((λ c, match c with Say m => [m] | _ => [] end) <$> c) = @nil string) as Hsaid
    by by intros c [->| ->].
  destruct updated; [rewrite Hofs by done|]; cbv beta iota; rewrite bool_decide_true by done; cbn [negb];
    rewrite Hs, Hbody; unfold Baseline.ht_destroy; rewrite Hd; cbn [p_out]; rewrite Ho'; cbn [p_out]; rewrite Ho;
    by rewrite Hsaid by auto.
Qed.

(** C37. The program without an enclave, from its argument to the file of results: with the two
    traces of the workload in place it prints the size and the names of the traces, that the
    load is done, one line per GET of a key that was not loaded, and that the run is done; it
    appends one line with the time of the run, and when it ends every loaded key still has
    its entry, since the release of the table frees none. *)
Theorem unsecure_program files w kvs ks garbage old mid end_ name :
  traces files w kvs ks → blen garbage = BUF_SIZE →
  ∃ mem, unsecure_main true true garbage files (Some old) mid end_ [name; w] =
      Ok (mkOutcome 0
            (heading w ++ ["Load Process has done"] ++ run_out (load_map ∅ kvs) ks ++ ["Run Process has done"])
            (Some (old +:+ kvs_result w end_ mid)) mem) ∧
    (base.size (load_map ∅ kvs) ≤ base.size mem)%nat.
Proof. by apply unsecure_runs. Qed.

(** C38. The enclave does not change the program: on the same traces the program whose table is in
    an enclave ends as the one without, prints the same lines and writes the same line of
    results for the same times, although one keeps the newlines in its values and the
    other cuts them off. *)
Theorem baseline_is_unsecure files w kvs ks garbage old mid end_ name eid updated ofs_good :
  traces files w kvs ks → blen garbage = BUF_SIZE → (updated = true → ofs_good = true) →
  ∃ o1 o2, unsecure_main true true garbage files (Some old) mid end_ [name; w] = Ok o1 ∧
    baseline_main true true garbage files (Some old) (SGX_SUCCESS, eid, updated) ofs_good SGX_SUCCESS SGX_SUCCESS
      SGX_SUCCESS mid end_ [name; w] = Ok o2 ∧
    code o1 = 0 ∧ code o2 = 0 ∧ printed o1 = printed o2 ∧ results o1 = results o2.
Proof.
  intros Htr Hg Hofs. destruct (unsecure_runs files w kvs ks garbage old mid end_ name Htr Hg) as (mem & Hrun1 & _).
  destruct (baseline_runs files w kvs ks garbage old mid end_ name eid updated ofs_good Htr Hg Hofs) as (mem2 & Hrun2).
  by eexists _, _.
Qed.
End plain.

(** ** A small run *)
#[local] Instance demo_malloc : Malloc := {|
  malloc_entry := λ h, Some (fresh (dom h));
  malloc_buf := λ _, true;
  realloc_buf := λ _, true;
|}.
#[local] Instance demo_malloc_ok : MallocOk.
Proof. split. intros h l [= <-]. apply not_elem_of_dom, is_fresh. Qed.

Lemma demo_mem_ok : mem_ok.
Proof. split; [|done]. intros h. simpl. eauto. Qed.

(** The workload "1": the same SET on every line of the load trace, and GETs of another key. *)
Definition demo_kvs : list (bytes * bytes) := replicate (Z.to_nat 16384) (str "one", str "1").
Definition demo_ks : list bytes := replicate (Z.to_nat set_size2) (str "six").
Definition demo_files (name : bytes) : option bytes :=
  if bool_decide (name = str "../workloads/load_1.txt") then Some (file_of (load_text <$> demo_kvs))
  else if bool_decide (name = str "../workloads/run_1.txt") then Some (file_of (run_text <$> demo_ks)) else None.

Lemma demo_traces : traces demo_files (str "1") demo_kvs demo_ks.
Proof.
  split.
  - done.
  - unfold demo_kvs. rewrite length_replicate. by vm_compute.
  - unfold demo_ks. by rewrite length_replicate.
  - apply Forall_replicate. split; [by_compute|]. split; [by_compute|]. split; [by_compute|by vm_compute].
  - apply Forall_replicate. split; [by_compute|by vm_compute].
  - unfold demo_files. by rewrite bool_decide_true.
  - unfold demo_files. rewrite bool_decide_false by by_compute. by rewrite bool_decide_true.
Qed.

Lemma plain_tables_are_maps_witness :
  acts_as_map Unsecure.ht_set Unsecure.ht_get ∧ acts_as_map Baseline.ht_set Baseline.ht_get.
Proof. apply (plain_tables_are_maps demo_mem_ok). Defined.

Lemma unsecure_program_witness :
  ∃ o, unsecure_main true true (zeros 64) demo_files (Some "") 1 3 [str "app"; str "1"] = Ok o ∧
    results o = Some (kvs_result (str "1") 3 1).
Proof.
  destruct (unsecure_program demo_mem_ok demo_files (str "1") demo_kvs demo_ks (zeros 64) "" 1 3 (str "app") demo_traces
    eq_refl) as (mem & Hrun & _).
  eexists. split; [exact Hrun|reflexivity].
Defined.

Lemma baseline_is_unsecure_witness :
  ∃ o1 o2, unsecure_main true true (zeros 64) demo_files (Some "") 1 3 [str "app"; str "1"] = Ok o1 ∧
    baseline_main true true (zeros 64) demo_files (Some "") (SGX_SUCCESS, 2, false) true SGX_SUCCESS SGX_SUCCESS
      SGX_SUCCESS 1 3 [str "app"; str "1"] = Ok o2 ∧ printed o1 = printed o2.
Proof.
  destruct (baseline_is_unsecure demo_mem_ok demo_files (str "1") demo_kvs demo_ks (zeros 64) "" 1 3 (str "app") 2 false true
    demo_traces eq_refl ltac:(done)) as (o1 & o2 & Hrun1 & Hrun2 & _ & _ & Hp & _).
  exists o1, o2. split; [exact Hrun1|]. split; [exact Hrun2|exact Hp].
Defined.
