(* ===== verification/Eleos.v ===== *)
(** * The store on Eleos,
      [Experiment/eleos_shieldstore/suvm_sgx_kvs/enclave_samples]

    The hash table in the clear, in the secure virtual memory of the Eleos library.  Keys and
    values have fixed sizes, new entries go to the head of their chain, and [THREAD_NUM]
    threads, one in this configuration, run a load trace and a run trace between barriers.

    The library is not part of the repository: [Suvm] is what the code uses of it.  An
    [Aptr] and its [deref] give access to the object at an address; paging may change the
    state of the memory but not what it holds. *)

From stdpp Require Import pretty.
From S2P Require Import Prelude CString CLib Common Hash Client PlainTable Server Results.

(** ** Constants, [Common/common.h] *)
Definition KEY_SIZE : Z := 17.
Definition VAL_SIZE : Z := 4097.
Definition BUF_SIZE : Z := 4125.
Definition THREAD_NUM : Z := 1.

(** [struct entry] of [Enclave.h]; the buffers belong to the entry. *)
Record eentry := mkEentry {
  ee_key : option bytes;
  ee_val : option bytes;
  ee_next : option positive;
}.

(** Secure virtual memory: a state, accesses to entries, and allocation. *)
Class Suvm := {
  suvm : Type;
  suvm_read : suvm → positive → option (eentry * suvm);
  suvm_write : suvm → positive → eentry → option suvm;
  memsys5Malloc_entry : suvm → option (positive * suvm);
  memsys5Malloc_buf : suvm → Z → bool;
}.

(** What the library promises: there is a heap behind the state, accesses see it, an
    allocated entry is new. *)
Class SuvmOk `{Suvm} := {
  view : suvm → gmap positive eentry;
  suvm_read_ok u l e : view u !! l = Some e → ∃ u', suvm_read u l = Some (e, u') ∧ view u' = view u;
  suvm_write_ok u l e0 e : view u !! l = Some e0 → ∃ u', suvm_write u l e = Some u' ∧ view u' = <[l := e]> (view u);
  suvm_malloc_ok u l u' : memsys5Malloc_entry u = Some (l, u') →
    view u !! l = None ∧ ∃ e, view u' = <[l := e]> (view u);
}.

(** [ht], the memory, the globals of [enclave_process] and what is printed. *)
Record eleos `{Suvm} := mkEleos {
  e_size : Z;
  e_table : list (option positive);
  e_mem : suvm;
  e_num : Z;
  e_bars : Z * Z * Z;
  e_out : list string;
}.

Section eleos.
Context `{Suvm}.

Abbreviation L := (M eleos).

Definition set_etable (t : list (option positive)) (s : eleos) : eleos :=
  mkEleos _ (e_size s) t (e_mem s) (e_num s) (e_bars s) (e_out s).
Definition set_mem (u : suvm) (s : eleos) : eleos :=
  mkEleos _ (e_size s) (e_table s) u (e_num s) (e_bars s) (e_out s).
Definition set_num (n : Z) (s : eleos) : eleos :=
  mkEleos _ (e_size s) (e_table s) (e_mem s) n (e_bars s) (e_out s).
Definition set_bars (b : Z * Z * Z) (s : eleos) : eleos :=
  mkEleos _ (e_size s) (e_table s) (e_mem s) (e_num s) b (e_out s).
Definition e_print (m : string) : L unit :=
  modify (λ s, mkEleos _ (e_size s) (e_table s) (e_mem s) (e_num s) (e_bars s) (e_out s ++ [m])).
(** [print(key)] of a C string *)
Definition e_print_key (key : bytes) : L unit :=
  k ← lift (cstr key); e_print (String.string_of_list_byte k).

(** [deref] of an [Aptr<entry>], for reading and for writing. *)
Definition e_load (l : positive) : L eentry := λ s,
  match suvm_read (e_mem s) l with Some (e, u) => Ok (e, set_mem u s) | None => Fault Bad_ptr end.
Definition e_store (l : positive) (e : eentry) : L unit := λ s,
  match suvm_write (e_mem s) l e with Some u => Ok (tt, set_mem u s) | None => Fault Bad_ptr end.
Definition e_get (i : Z) : L (option positive) := t ← gets e_table; lift (zlookup t i).
Definition e_set (i : Z) (p : option positive) : L unit :=
  t ← gets e_table; t' ← lift (zupdate t i p); modify (set_etable t').

(** ** The table *)
Definition ht_create (u : suvm) (malloc_ht malloc_table : bool) (size : Z) : res eleos :=
  let o1 := if size <? 1 then ["Size of hashtable is negative"] else [] in
  if negb malloc_ht then Fault Null_deref
  else
    let o2 := if negb malloc_table then ["Array of Pointers is not allocated"] else [] in
    if negb malloc_table && (0 <? size) then Fault Null_deref
    else Ok (mkEleos _ size (replicate (Z.to_nat size) None) u 0 (0, 0, 0) (o1 ++ o2)).

(** Only the table is freed. *)
Definition ht_destroy (size : Z) : L unit := modify (set_etable []).

Definition ht_hash (key : bytes) : L Z :=
  s ← lift (cstr key);
  size ← gets e_size;
  if u64 size =? 0 then raise Div_by_zero else mret (bucket_of size s).

Definition ASSERT (b : bool) : L unit := if b then mret tt else raise Assert_failed.

Definition ht_newpair (key val : bytes) (key_len val_len : Z) : L positive :=
  ASSERT ((0 <? key_len) && (0 <? val_len));;
  u ← gets e_mem;
  match memsys5Malloc_entry u with
  | None => raise Assert_failed
  | Some (newpair, u') =>
      modify (set_mem u');;
      ASSERT (memsys5Malloc_buf u' key_len);;
      ASSERT (memsys5Malloc_buf u' val_len);;
      k ← lift (read_at key 0 key_len);
      v ← lift (read_at val 0 val_len);
      e_store newpair (mkEentry (Some k) (Some v) None);;
      mret newpair
  end.

(** The two search loops; an entry without a key is looked at again and again. *)
Fixpoint e_find (fuel : nat) (key : bytes) (pair : option positive) : L (option positive) :=
  match pair with
  | None => mret None
  | Some l =>
      match fuel with
      | O => raise Out_of_fuel
      | S fuel' =>
          e ← e_load l;
          match ee_key e with
          | None => e_find fuel' key pair
          | Some k =>
              key_value ← lift (read_at k 0 KEY_SIZE);
              same ← lift (strcmp_eq key key_value);
              if (same : bool) then mret (Some l) else e_find fuel' key (ee_next e)
          end
      end
  end.

(** A bound for the loops; [0] would only cut the search. *)
Definition ht_set (fuel : nat) (key val : bytes) (key_len val_len : Z) : L unit :=
  bin ← ht_hash key;
  head ← e_get bin;
  next ← e_find fuel key head;
  match next with
  | Some l =>
      e ← e_load l;
      match ee_key e with
      | None => mret tt
      | Some k =>
          key_value ← lift (read_at k 0 KEY_SIZE);
          same ← lift (strcmp_eq key key_value);
          if (same : bool) then
            old ← match ee_val e with Some b => mret b | None => raise Null_deref end;
            v ← lift (memcpy old 0 val 0 val_len);
            e_store l (mkEentry (ee_key e) (Some v) (ee_next e))
          else mret tt
      end
  | None =>
      newpair ← ht_newpair key val key_len val_len;
      e ← e_load newpair;
      e_store newpair (mkEentry (ee_key e) (ee_val e) None);;
      head ← e_get bin;
      match head with
      | None => e_set bin (Some newpair)
      | Some _ =>
          e_store newpair (mkEentry (ee_key e) (ee_val e) head);;
          e_set bin (Some newpair)
      end
  end.

Definition ht_get (fuel : nat) (key : bytes) : L (option positive) :=
  bin ← ht_hash key;
  head ← e_get bin;
  pair ← e_find fuel key head;
  match pair with
  | None => e_print_key key;; mret None
  | Some l =>
      e ← e_load l;
      k ← match ee_key e with Some k => mret k | None => raise Null_deref end;
      key_value ← lift (read_at k 0 KEY_SIZE);
      same ← lift (strcmp_eq key key_value);
      (if (same : bool) then mret tt else e_print "GET ERROR");;
      mret (Some l)
  end.

(** ** Requests *)

(** [memset(key, 0, n); memcpy(key, p, n - 1)] of the [n - 1] bytes at [off]. *)
Definition fixed_copy (buf : bytes) (off n : Z) : L bytes :=
  x ← lift (read_at buf off (n - 1)); mret (x ++ [NUL]).

Definition enclave_set (fuel : nat) (cipher : bytes) : L unit :=
  t ← lift (strtok_r cipher 4);
  match t with
  | None => raise Null_deref
  | Some t =>
      key ← fixed_copy (tok_buf t) (tok_off t) KEY_SIZE;
      match tok_rest t with
      | None => raise Null_deref
      | Some off =>
          val ← fixed_copy (tok_buf t) off VAL_SIZE;
          ht_set fuel key val KEY_SIZE VAL_SIZE
      end
  end.

Definition enclave_get (fuel : nat) (cipher : bytes) : L unit :=
  t ← lift (strtok_r cipher 4);
  match t with
  | None => raise Null_deref
  | Some t =>
      key ← fixed_copy (tok_buf t) (tok_off t) KEY_SIZE;
      ret ← ht_get fuel key;
      if bool_decide (ret = None) then e_print "No value correspond to the key" else mret tt
  end.

Definition e_starts_with (buf : bytes) (upper lower : string) : L bool :=
  a ← lift (strncmp_eq buf (str upper) 3);
  if (a : bool) then mret true else lift (strncmp_eq buf (str lower) 3).

(** ** [enclave_process] *)

(** A line of a thread's trace; NULL is [None]. *)
Definition e_line (inst : list (option bytes)) (i : Z) : L bytes :=
  p ← lift (zlookup inst i);
  match p with
  | None => e_print "BIG ERROR";; raise Null_deref
  | Some b => lift (read_at b 0 BUF_SIZE)
  end.

Definition load_one (fuel : nat) (inst : list (option bytes)) (i : Z) : L unit :=
  buf ← e_line inst i;
  set ← e_starts_with buf "SET" "set";
  if (set : bool) then enclave_set fuel buf else e_print "Invalid command
".

Definition run_one (fuel : nat) (inst : list (option bytes)) (i : Z) : L unit :=
  buf ← e_line inst i;
  get ← e_starts_with buf "GET" "get";
  if (get : bool) then enclave_get fuel buf
  else
    set ← e_starts_with buf "SET" "set";
    if (set : bool) then enclave_set fuel buf else e_print "Invalid command
".

(** A barrier: the thread spins until all have arrived; a thread on its own that is not the
    last spins for ever. *)
Definition barrier (arrived : Z) : L unit :=
  if arrived =? THREAD_NUM then mret tt else raise Out_of_fuel.

Definition enclave_process (fuel : nat) (count : list Z) (inst : list (list (option bytes))) (count2 : list Z)
  (inst2 : list (list (option bytes))) : L unit :=
  thread_id ← gets e_num;
  modify (set_num (thread_id + 1));;
  my_counter ← lift (zlookup count thread_id);
  inst_thread ← lift (zlookup inst thread_id);
  '(b1, b2, b3) ← gets e_bars;
  modify (set_bars (b1 + 1, b2, b3));;
  barrier (b1 + 1);;
  for_each (seqZ 0 my_counter) (λ i _, load_one fuel inst_thread i) tt;;
  my_counter2 ← lift (zlookup count2 thread_id);
  inst_thread2 ← lift (zlookup inst2 thread_id);
  modify (set_bars (b1 + 1, b2 + 1, b3));;
  barrier (b2 + 1);;
  (if thread_id =? 0 then e_print "Load Process has done" else mret tt);;
  for_each (seqZ 0 my_counter2) (λ i _, run_one fuel inst_thread2 i) tt;;
  modify (set_bars (b1 + 1, b2 + 1, b3 + 1));;
  barrier (b3 + 1);;
  if thread_id =? 0 then e_print "Run Process has done" else mret tt.

End eleos.

(** ** [App/App.cpp] *)
Definition g_size : Z :=
  if VAL_SIZE =? 513 then 64 * 1024 else if VAL_SIZE =? 1025 then 128 * 1024 else if VAL_SIZE =? 4097 then 32 * 1024
  else 0.

Definition hash (key : bytes) : res Z :=
  s ← cstr key; if u64 g_size =? 0 then Fault Div_by_zero else Ok (bucket_of g_size s).

(** One of the two loops of [file_to_memory]: [n] lines.  The buffer is not cleared and the
    result of [fgets] is not checked; [strtok_r] has cut the line in it.  Returns the traces
    of the threads and the buffer. *)
Fixpoint trace_lines (n : nat) (buf file : bytes) (inst : list (list bytes)) : res (list (list bytes) * bytes) :=
  match n with
  | O => Ok (inst, buf)
  | S n' =>
      r ← fgets buf BUF_SIZE file;
      let '(buf, file) := match r with Some (b, f) => (b, f) | None => (buf, file) end in
      len ← strlen buf;
      buf ← zupdate buf (len - 1) NUL;
      buf2 ← read_at buf 0 BUF_SIZE;
      t ← Unsecure.host_strtok_r buf 4;
      match t with
      | None => Fault Null_deref
      | Some t =>
          key ← memcpy (zeros KEY_SIZE) 0 (tok t) 0 (blen (tok t));
          h ← hash key;
          per ← zdiv g_size THREAD_NUM;
          thread_id ← zdiv h per;
          lines ← zlookup inst thread_id;
          inst' ← zupdate inst thread_id (lines ++ [buf2]);
          trace_lines n' (tok_buf t) file inst'
      end
  end.

Definition set_size : Z := if VAL_SIZE =? 513 then 700000 else if VAL_SIZE =? 1025 then 400000 else 50000.
Definition set_size2 : Z := 10000000.

Definition file_to_memory (garbage : bytes) (load_file run_file : option bytes)
  : res (list (list bytes) * list (list bytes)) :=
  fp ← fopen load_file;
  '(inst, buf) ← trace_lines (Z.to_nat set_size) garbage fp (replicate (Z.to_nat THREAD_NUM) []);
  fp ← fopen run_file;
  '(inst2, _) ← trace_lines (Z.to_nat set_size2) buf fp (replicate (Z.to_nat THREAD_NUM) []);
  Ok (inst, inst2).

(** ** [main] *)
Definition load_and_initialize_enclave := Server.load_and_initialize_enclave.
Definition ret_error_support := Server.ret_error_support.

(** The name of a trace file, a C string. *)
Definition trace_name (workload : byte) (suffix : string) : bytes :=
  default [] (cstr_opt (str ("/home/workloads/eleos_traces/1.5GB/" +:+ pretty (VAL_SIZE - 1) +:+ "/trace") ++
    [workload] ++ str suffix ++ [NUL])).

Section main.
Context `{Suvm}.

(** The answers of the platform: [sgx_create_enclave], the token file, the two calls of the
    Eleos library and the status of the three ecalls; the files; the fresh memory and the
    results of its allocator; the contents of the stack. *)
Context (created : sgx_status * Z * bool) (ofs_good : bool) (initialize_lib cleanup_lib : Z)
  (create_status process_status destroy_status : sgx_status)
  (files : bytes → option bytes) (u : suvm) (malloc_ht malloc_table : bool) (garbage : bytes).

(** [pthread_create] of [load_and_initialize_threads] and [pthread_join]: the status of the ecall is
    not looked at. *)
Definition run_threads (fuel : nat) (inst inst2 : list (list bytes)) : M eleos unit :=
  if negb (bool_decide (process_status = SGX_SUCCESS)) then mret tt
  else
    let lines := λ l : list bytes, Some <$> l in
    enclave_process fuel (blen (A := bytes) <$> inst) (lines <$> inst) (blen (A := bytes) <$> inst2) (lines <$> inst2).

(** The value [main] returns, what is printed and the file of results.  [file] is what
    [fopen("result.txt", "a")] finds; the three times are [start1], [mid1], which the enclave sets
    between the phases by the ocall [dummy], and [end1]. *)
Definition main (fuel : nat) (file : option string) (start1 mid1 end1 : Z) (argv : list bytes)
  : res (Z * list string * option string) :=
  let '(ret, global_eid, _) := load_and_initialize_enclave created ofs_good 0 in
  if negb (bool_decide (ret = SGX_SUCCESS)) then Ok (-1, ret_error_support ret, file)
  else if negb (initialize_lib =? 0) then Ok (-1, ["initialization failed for enclave: " +:+ pretty global_eid], file)
  else if negb (bool_decide (create_status = SGX_SUCCESS)) then Ok (-1, ret_error_support create_status, file)
  else
    s ← ht_create u malloc_ht malloc_table g_size;
    let usage := if blen argv =? 2 then [] else ["Usage: ./app [workload] : workload <-- a,b,c,d,f,g,h,i"] in
    arg ← match argv !! 1%nat with Some a => Ok a | None => Fault Null_deref end;
    let workload := hd NUL arg in
    let load_name := trace_name workload "_load.txt" in
    let run_name := trace_name workload "_run.txt" in
    '(inst, inst2) ← file_to_memory garbage (files load_name) (files run_name);
    '(_, s') ← (run_threads fuel inst inst2 s : res (unit * eleos));
    let before := ["HT is created!"] ++ usage ++
      ["value size : " +:+ pretty VAL_SIZE +:+ " set_size = " +:+ pretty set_size; String.string_of_list_byte load_name;
       String.string_of_list_byte run_name; "Files are loaded into memory!"] in
    let printed := e_out s ++ before ++ drop (length (e_out s)) (e_out s') in
    let mid1 := if bool_decide (process_status = SGX_SUCCESS) then mid1 else 0 in
    f ← append_result file (eleos_results THREAD_NUM workload KEY_SIZE VAL_SIZE end1 mid1 start1);
    if negb (bool_decide (destroy_status = SGX_SUCCESS))
    then Ok (-1, printed ++ ret_error_support destroy_status, Some f)
    else
      '(_, _) ← (ht_destroy g_size s' : res (unit * eleos));
      Ok (0, printed ++ (if cleanup_lib =? 0 then [] else ["cleanup failed for enclave: " +:+ pretty global_eid]), Some f).
End main.
