(* ===== verification/EleosProofs.v ===== *)
(** * The table in Eleos memory is a finite map

    A state is read as a state of the plain table: the heap behind the secure memory, with
    the key buffers cut at their NUL.  The lemmas on chains of the plain table then apply. *)

From S2P Require Import Prelude CString CLib Common Hash Rep CoreProofs StoreProofs.
From S2P Require Import Client PlainTable PlainProofs Eleos.

(** An entry with the buffers of fixed size that [ht_newpair] makes. *)
Definition fixed_entry (e : eentry) : Prop :=
  ∃ kb k v, ee_key e = Some kb ∧ blen kb = KEY_SIZE ∧ cstr kb = Ok k ∧ ee_val e = Some v ∧ blen v = VAL_SIZE.

Definition to_pentry (e : eentry) : pentry :=
  mkPentry 0 (blen (default [] (ee_val e))) ((λ kb, dup_str (default [] (cstr_opt kb))) <$> ee_key e) (ee_val e) (ee_next e).

Section proofs.
Context `{Suvm} `{!SuvmOk}.
Implicit Types (s : eleos) (B : list (list pcell)).

Definition plain_of s : plain := mkPlain (e_size s) (e_table s) (to_pentry <$> view (e_mem s)) [].

Record erep s B : Prop := {
  er_prep : prep (plain_of s) B;
  er_fixed l e : l ∈ pc_loc <$> concat B → view (e_mem s) !! l = Some e → fixed_entry e;
}.

(** The state holds the map [m] from keys to value buffers. *)
Definition eholds s (m : gmap bytes bytes) : Prop := ∃ B, erep s B ∧ m = list_to_map (kv B).

(** Only the table and the memory differ. *)
Definition same_rest s s' : Prop :=
  e_size s' = e_size s ∧ e_num s' = e_num s ∧ e_bars s' = e_bars s ∧ e_out s' = e_out s.

(** There is room for entries and buffers. *)
Definition suvm_room : Prop :=
  (∀ u, is_Some (memsys5Malloc_entry u)) ∧ ∀ u n, memsys5Malloc_buf u n = true.

(** ** Accesses *)
Lemma e_load_ok s l e :
  view (e_mem s) !! l = Some e → ∃ u, view u = view (e_mem s) ∧ e_load l s = Ok (e, set_mem u s).
Proof. intros (u & Hu & Hv)%suvm_read_ok. exists u. split; [done|]. unfold e_load. by rewrite Hu. Qed.

Lemma e_store_ok s l e0 e :
  view (e_mem s) !! l = Some e0 →
  ∃ u, view u = <[l := e]> (view (e_mem s)) ∧ e_store l e s = Ok (tt, set_mem u s).
Proof. intros (u & Hu & Hv)%(suvm_write_ok _ _ _ e). exists u. split; [done|]. unfold e_store. by rewrite Hu. Qed.

(** Paging does not change what the state holds. *)
Lemma erep_paging s u B : view u = view (e_mem s) → erep s B → erep (set_mem u s) B.
Proof. intros Hu [Hp Hf]. split; unfold plain_of, set_mem; cbn [e_mem e_size e_table]; by rewrite Hu. Qed.

Lemma eholds_paging s u m : view u = view (e_mem s) → eholds s m → eholds (set_mem u s) m.
Proof. intros Hu (B & Hrep & ->). exists B. split; [by apply erep_paging|done]. Qed.

(** A cell of a chain as the code sees it. *)
Lemma cell_entry s B i b c :
  erep s B → B !! i = Some b → c ∈ b →
  ∃ e kb, view (e_mem s) !! pc_loc c = Some e ∧ pc_ent c = to_pentry e ∧ ee_key e = Some kb ∧
    blen kb = KEY_SIZE ∧ cstr kb = Ok (pc_key c) ∧ ee_val e = Some (pc_val c) ∧ blen (pc_val c) = VAL_SIZE.
Proof.
  intros [Hrep Hfix] Hb Hc. destruct (p_get_ok _ B Hrep _ _ Hb) as (p & _ & _ & Hch).
  pose proof (pchain_lookup _ _ _ _ Hch Hc) as Hl. simpl in Hl.
  rewrite lookup_fmap_Some in Hl. destruct Hl as (e & He & Hv).
  assert (pc_loc c ∈ pc_loc <$> concat B) as Hin.
  { apply list_elem_of_fmap_2. by eapply elem_of_bucket. }
  destruct (Hfix _ _ Hin Hv) as (kb & k & v & Hkb & Hlen & Hk & Hval & Hvlen).
  pose proof (pr_cells _ _ Hrep _ _ Hb) as Hok. rewrite Forall_forall in Hok. destruct (Hok c Hc) as [Ok1 Ok2 _ _ _].
  rewrite <-He in Ok1, Ok2. simpl in Ok1, Ok2. rewrite Hkb in Ok1. rewrite Hval in Ok2. injection Ok2 as <-.
  exists e, kb. split; [done|]. split; [done|]. split; [done|]. split; [done|]. split; [|by split].
  rewrite Hk. f_equal. unfold cstr in Hk. destruct (cstr_opt kb) as [k'|] eqn:E; [|done]. injection Hk as ->.
  injection Ok1 as Ok1. rewrite E in Ok1. by apply app_inj_tail in Ok1 as [? _].
Qed.

(** A chain is no longer than the map is large. *)
Lemma chain_bound s B i b :
  erep s B → B !! i = Some b → (length b ≤ base.size (list_to_map (kv B) : gmap bytes bytes))%nat.
Proof.
  intros [Hrep _] Hb. rewrite <-length_map_to_list, map_to_list_to_map by apply Hrep.
  unfold kv. rewrite length_fmap, (concat_middle _ _ _ Hb), !length_app. lia.
Qed.

(** ** The search *)
(** The cells of [b] are entries of the memory [h], in a chain that starts at [p]. *)
Fixpoint echain (h : gmap positive eentry) (p : option positive) (b : list pcell) : Prop :=
  match b with
  | [] => p = None
  | c :: b' =>
      p = Some (pc_loc c) ∧ ∃ e kb, h !! pc_loc c = Some e ∧ ee_key e = Some kb ∧ blen kb = KEY_SIZE ∧
        cstr kb = Ok (pc_key c) ∧ echain h (ee_next e) b'
  end.

Lemma echain_of s B i b p : erep s B → B !! i = Some b → pchain (p_heap (plain_of s)) p b → echain (view (e_mem s)) p b.
Proof.
  intros Hrep Hb. assert (∀ c, c ∈ b → c ∈ b) as Hsub by done. revert Hsub. generalize b at 1 3 4.
  intros d. revert p. induction d as [|c d IH]; intros p Hsub; [done|]. intros (-> & _ & Hd).
  destruct (cell_entry s B i b c Hrep Hb (Hsub c ltac:(set_solver))) as (e & kb & Hv & Hent & Hk & Hlen & Hc & _).
  split; [done|]. exists e, kb. split_and!; try done. rewrite Hent in Hd. apply IH; [set_solver|done].
Qed.

Section find.
Context (key k : bytes) (Hkey : cstr key = Ok k).

Lemma strcmp_cell kb k' : cstr kb = Ok k' → strcmp_eq key kb = Ok (bool_decide (k = k')).
Proof. intros Hkb. unfold strcmp_eq, mbind, res_bind. by rewrite Hkey, Hkb. Qed.

Lemma e_find_step s l e kb k' fuel :
  view (e_mem s) !! l = Some e → ee_key e = Some kb → blen kb = KEY_SIZE → cstr kb = Ok k' →
  ∃ u, view u = view (e_mem s) ∧
    e_find (S fuel) key (Some l) s =
    if bool_decide (k = k') then Ok (Some l, set_mem u s) else e_find fuel key (ee_next e) (set_mem u s).
Proof.
  intros Hv Hkb Hlen Hk. destruct (e_load_ok _ _ _ Hv) as (u & Hu & Hl). exists u. split; [done|].
  cbn [e_find]. rewrite (bind_ok _ _ _ _ _ Hl), Hkb.
  rewrite (bind_lift _ _ _ kb) by by apply read_at_all. rewrite (bind_lift _ _ _ _ (strcmp_cell _ _ Hk)).
  by destruct (bool_decide (k = k')).
Qed.

Lemma e_find_none b s p fuel :
  k ∉ pc_key <$> b → echain (view (e_mem s)) p b → (length b ≤ fuel)%nat →
  ∃ u, view u = view (e_mem s) ∧ e_find fuel key p s = Ok (None, set_mem u s).
Proof.
  revert s p fuel. induction b as [|c b IH]; intros s p fuel Hnin Hc Hf.
  - simpl in Hc. subst p. exists (e_mem s). split; [done|]. destruct s. by destruct fuel.
  - destruct Hc as (-> & e & kb & Hv & Hkb & Hlen & Hk & Hb). destruct fuel as [|fuel]; [simpl in Hf; lia|].
    rewrite fmap_cons, not_elem_of_cons in Hnin. destruct Hnin as [Hne Hnin].
    destruct (e_find_step s _ e kb _ fuel Hv Hkb Hlen Hk) as (u & Hu & ->). rewrite bool_decide_false by done.
    simpl in Hf. destruct (IH (set_mem u s) (ee_next e) fuel Hnin) as (u' & Hu' & ->); [cbn [set_mem e_mem]; by rewrite Hu|lia|].
    exists u'. split; [|done]. by rewrite Hu'.
Qed.

Lemma e_find_hit b1 c b2 s p fuel :
  k ∉ pc_key <$> b1 → pc_key c = k → echain (view (e_mem s)) p (b1 ++ c :: b2) → (length (b1 ++ c :: b2) ≤ fuel)%nat →
  ∃ u, view u = view (e_mem s) ∧ e_find fuel key p s = Ok (Some (pc_loc c), set_mem u s).
Proof.
  revert s p fuel. induction b1 as [|d b1 IH]; intros s p fuel Hnin Hck Hc Hf;
    destruct Hc as (-> & e & kb & Hv & Hkb & Hlen & Hk & Hb); (destruct fuel as [|fuel]; [simpl in Hf; lia|]);
    destruct (e_find_step s _ e kb _ fuel Hv Hkb Hlen Hk) as (u & Hu & ->).
  - rewrite bool_decide_true by done. by exists u.
  - rewrite fmap_cons, not_elem_of_cons in Hnin. destruct Hnin as [Hne Hnin]. rewrite bool_decide_false by done.
    simpl in Hf. destruct (IH (set_mem u s) (ee_next e) fuel Hnin Hck) as (u' & Hu' & ->); [cbn [set_mem e_mem]; by rewrite Hu|lia|].
    exists u'. split; [|done]. by rewrite Hu'.
Qed.
End find.

(** ** The operations *)
Abbreviation ebin s k := (pbin (plain_of s) k).

Lemma e_hash_ok s B key k : erep s B → cstr key = Ok k → ht_hash key s = Ok (Z.of_nat (ebin s k), s).
Proof.
  intros [Hrep _] Hk. unfold ht_hash. rewrite (bind_lift _ _ _ _ Hk), bind_gets.
  pose proof (pr_size _ _ Hrep) as Hs. unfold INT_MAX in Hs. simpl in Hs.
  assert (u64 (e_size s) = e_size s) as -> by (apply Z.mod_small; lia).
  rewrite (proj2 (Z.eqb_neq _ _)) by lia. by rewrite (proj1 (pbin_range _ B Hrep k)).
Qed.

Lemma e_get_ok s B i b : erep s B → B !! i = Some b →
  ∃ p, e_get (Z.of_nat i) s = Ok (p, s) ∧ e_table s !! i = Some p ∧ pchain (p_heap (plain_of s)) p b.
Proof.
  intros [Hrep _] Hb. destruct (p_get_ok _ B Hrep _ _ Hb) as (p & _ & Hp & Hc). exists p.
  split; [|done]. unfold e_get. rewrite bind_gets. unfold lift. by rewrite (zlookup_nat _ _ p).
Qed.

(** What the search of both operations gives: the cell of the key, or nothing. *)
Lemma e_search_ok s B key k fuel :
  erep s B → cstr key = Ok k → (base.size (list_to_map (kv B) : gmap bytes bytes) ≤ fuel)%nat →
  ∃ b head u, B !! ebin s k = Some b ∧ e_table s !! ebin s k = Some head ∧ pchain (p_heap (plain_of s)) head b ∧
    e_get (Z.of_nat (ebin s k)) s = Ok (head, s) ∧ view u = view (e_mem s) ∧
    match (list_to_map (kv B) : gmap bytes bytes) !! k with
    | Some v => ∃ b1 c b2, b = b1 ++ c :: b2 ∧ pc_key c = k ∧ pc_val c = v ∧
        e_find fuel key head s = Ok (Some (pc_loc c), set_mem u s)
    | None => e_find fuel key head s = Ok (None, set_mem u s)
    end.
Proof.
  intros Hrep Hk Hfuel. pose proof (er_prep _ _ Hrep) as Hprep.
  destruct (pbin_range _ B Hprep k) as [_ (b & Hb)].
  destruct (e_get_ok s B _ _ Hrep Hb) as (head & Hget & Htab & Hc).
  pose proof (chain_bound s B _ _ Hrep Hb) as Hlen. pose proof (echain_of _ _ _ _ _ Hrep Hb Hc) as Hec.
  destruct (list_to_map (kv B) !! k) as [v|] eqn:Hm.
  - destruct (kv_bucket _ B Hprep k v Hm) as (b1 & c & b2 & Hb' & Hck & Hcv & Hnin). rewrite Hb in Hb'. injection Hb' as ->.
    destruct (e_find_hit key k Hk b1 c b2 s head fuel Hnin Hck Hec ltac:(lia)) as (u & Hu & Hf).
    exists (b1 ++ c :: b2), head, u. split_and!; try done. by exists b1, c, b2.
  - destruct (e_find_none key k Hk b s head fuel (kv_missing _ B k b Hm Hb) Hec ltac:(lia)) as (u & Hu & Hf).
    by exists b, head, u.
Qed.

(** A found entry, and what comparing its key with the one looked for gives. *)
Lemma hit_ok s B i b c key :
  erep s B → B !! i = Some b → c ∈ b → cstr key = Ok (pc_key c) →
  ∃ e kb u, view (e_mem s) !! pc_loc c = Some e ∧ pc_ent c = to_pentry e ∧ ee_key e = Some kb ∧ blen kb = KEY_SIZE ∧
    cstr kb = Ok (pc_key c) ∧ ee_val e = Some (pc_val c) ∧ blen (pc_val c) = VAL_SIZE ∧ view u = view (e_mem s) ∧
    e_load (pc_loc c) s = Ok (e, set_mem u s) ∧ read_at kb 0 KEY_SIZE = Ok kb ∧ strcmp_eq key kb = Ok true.
Proof.
  intros Hrep Hb Hc Hkey. destruct (cell_entry s B i b c Hrep Hb Hc) as (e & kb & Hv & Hent & Hkb & Hlen & Hk & Hval & Hvl).
  destruct (e_load_ok s _ _ Hv) as (u & Hu & Hl). exists e, kb, u. split_and!; try done; [by apply read_at_all|].
  rewrite (strcmp_cell key _ Hkey kb _ Hk). by rewrite bool_decide_true.
Qed.

Lemma e_ht_get_ok s m key k fuel :
  eholds s m → cstr key = Ok k → (base.size m ≤ fuel)%nat →
  ∃ u, view u = view (e_mem s) ∧
    match m !! k with
    | Some v => ∃ l e, ht_get fuel key s = Ok (Some l, set_mem u s) ∧ view (e_mem s) !! l = Some e ∧ ee_val e = Some v
    | None => ht_get fuel key s = (e_print_key key;; mret None) (set_mem u s)
    end.
Proof.
  intros (B & Hrep & ->) Hk Hfuel.
  destruct (e_search_ok s B key k fuel Hrep Hk Hfuel) as (b & head & u & Hb & Htab & Hc & Hget & Hu & Hfind).
  unfold ht_get. rewrite (bind_ok _ _ _ _ _ (e_hash_ok s B key k Hrep Hk)), (bind_ok _ _ _ _ _ Hget).
  destruct (list_to_map (kv B) !! k) as [v|] eqn:Hm.
  - destruct Hfind as (b1 & c & b2 & -> & Hck & Hcv & Hfind). rewrite (bind_ok _ _ _ _ _ Hfind). cbv beta iota.
    rewrite <-Hck in Hk.
    destruct (hit_ok (set_mem u s) B _ _ c key (erep_paging _ _ _ Hu Hrep) Hb ltac:(set_solver) Hk)
      as (e & kb & u' & Hv & _ & Hkb & _ & _ & Hval & _ & Hu' & Hl & Hread & Hcmp).
    rewrite (bind_ok _ _ _ _ _ Hl), Hkb. rewrite bind_ret, (bind_lift _ _ _ _ Hread), (bind_lift _ _ _ _ Hcmp).
    cbn [set_mem e_mem] in *. exists u'. split; [by rewrite Hu'|].
    exists (pc_loc c), e. split; [done|]. split; [by rewrite <-Hu|]. by rewrite Hval, Hcv.
  - rewrite (bind_ok _ _ _ _ _ Hfind). by exists u.
Qed.

(** The value of a key that is there is overwritten in place. *)
Lemma e_ht_set_update s B key k v v0 fuel :
  erep s B → cstr key = Ok k → blen v = VAL_SIZE → (base.size (list_to_map (kv B) : gmap bytes bytes) ≤ fuel)%nat →
  (list_to_map (kv B) : gmap bytes bytes) !! k = Some v0 →
  ∃ s', ht_set fuel key v KEY_SIZE VAL_SIZE s = Ok (tt, s') ∧
    eholds s' (<[k := v]> (list_to_map (kv B))) ∧ same_rest s s'.
Proof.
  intros Hrep Hk Hvl Hfuel Hm. pose proof (er_prep _ _ Hrep) as Hprep.
  destruct (e_search_ok s B key k fuel Hrep Hk Hfuel) as (b & head & u & Hb & Htab & Hc & Hget & Hu & Hfind).
  rewrite Hm in Hfind. destruct Hfind as (b1 & c & b2 & -> & Hck & Hcv & Hfind).
  unfold ht_set. rewrite (bind_ok _ _ _ _ _ (e_hash_ok s B key k Hrep Hk)), (bind_ok _ _ _ _ _ Hget).
  rewrite (bind_ok _ _ _ _ _ Hfind). cbv beta iota.
  assert (cstr key = Ok (pc_key c)) as Hk' by by rewrite Hck.
  destruct (hit_ok (set_mem u s) B _ _ c key (erep_paging _ _ _ Hu Hrep) Hb ltac:(set_solver) Hk')
    as (e & kb & u' & Hv & Hent & Hkb & Hkl & Hkc & Hval & Hovl & Hu' & Hl & Hread & Hcmp).
  rewrite (bind_ok _ _ _ _ _ Hl), Hkb, (bind_lift _ _ _ _ Hread), (bind_lift _ _ _ _ Hcmp). cbv beta iota.
  rewrite Hval, bind_ret.
  rewrite (bind_lift _ _ _ v).
  2:{ unfold memcpy, mbind, res_bind. rewrite read_at_all by done. apply write_at_all. congruence. }
  cbn [set_mem e_mem] in Hv, Hu'. set (s1 := set_mem _ _).
  destruct (e_store_ok s1 (pc_loc c) e (mkEentry (Some kb) (Some v) (ee_next e))) as (u2 & Hu2 & ->); [cbn; by rewrite Hu'|].
  eexists. split; [done|]. split; [|done].
  assert (nonul k) as Hnk by by apply cstr_inv in Hk as [? _].
  destruct (prep_update (plain_of s) B k v b1 c b2 head Hprep Hnk Hb Hck Htab Hc) as [Hrep' Hmap].
  rewrite <-Hmap. eexists. split; [|done]. cbn [e_mem set_mem s1] in Hu2. rewrite Hu', Hu in Hu2.
  split.
  - match type of Hrep' with prep (p_set_heap (<[_ := ?x]> _) _) _ =>
      assert (to_pentry (mkEentry (Some kb) (Some v) (ee_next e)) = x) as He' by (rewrite Hent; simpl; by rewrite Hkb) end.
    unfold plain_of. cbn [e_mem e_size e_table set_mem s1]. rewrite Hu2, fmap_insert, He'. exact Hrep'.
  - intros l e' Hin. cbn [e_mem set_mem s1]. rewrite Hu2, lookup_insert_Some.
    intros [[<- <-]|[Hne He']]; [by exists kb, (pc_key c), v|].
    apply (er_fixed _ _ Hrep l); [|done]. 
    rewrite (concat_insert _ _ _ _ Hb) in Hin. rewrite (concat_middle _ _ _ Hb). rewrite !fmap_app, !fmap_cons in *. done.
Qed.

(** A new entry holds copies of the key and of the value. *)
Lemma e_newpair_ok s key v :
  suvm_room → blen key = KEY_SIZE → blen v = VAL_SIZE →
  ∃ n u, view (e_mem s) !! n = None ∧ view u = <[n := mkEentry (Some key) (Some v) None]> (view (e_mem s)) ∧
    ht_newpair key v KEY_SIZE VAL_SIZE s = Ok (n, set_mem u s).
Proof.
  intros [Hroom Hbuf] Hk Hv. destruct (Hroom (e_mem s)) as [[n u1] Hm].
  destruct (suvm_malloc_ok _ _ _ Hm) as (Hn & e0 & Hu1). unfold ht_newpair, ASSERT. simpl.
  rewrite bind_ret, bind_gets, Hm, bind_modify, !Hbuf, !bind_ret.
  rewrite (bind_lift _ _ _ key) by by apply read_at_all. rewrite (bind_lift _ _ _ v) by by apply read_at_all.
  destruct (e_store_ok (set_mem u1 s) n e0 (mkEentry (Some key) (Some v) None)) as (u2 & Hu2 & Hst).
  { cbn [set_mem e_mem]. rewrite Hu1. by rewrite lookup_insert_eq. }
  exists n, u2. split; [done|]. split; [|by rewrite (bind_ok _ _ _ _ _ Hst)].
  rewrite Hu2. cbn [set_mem e_mem]. by rewrite Hu1, insert_insert_eq.
Qed.

(** A fixed entry for a new key at the head of its chain. *)
Lemma pushed_ok s B b head n k v e u :
  erep s B → nonul k → (list_to_map (kv B) : gmap bytes bytes) !! k = None →
  B !! ebin s k = Some b → e_table s !! ebin s k = Some head → pchain (p_heap (plain_of s)) head b →
  view (e_mem s) !! n = None → view u = <[n := e]> (view (e_mem s)) →
  fixed_entry e → pe_key (to_pentry e) = Some (dup_str k) → ee_val e = Some v → ee_next e = head →
  eholds (set_etable (<[ebin s k := Some n]> (e_table s)) (set_mem u s)) (<[k := v]> (list_to_map (kv B))).
Proof.
  intros Hrep Hk Hm Hb Htab Hc Hn Hu Hfix Hek Hev Hen. pose proof (er_prep _ _ Hrep) as Hprep.
  assert (∀ c, c ∈ concat B → <[n := to_pentry e]> (to_pentry <$> view (e_mem s)) !! pc_loc c =
    (to_pentry <$> view (e_mem s)) !! pc_loc c) as Hout.
  { intros c (bc & (j & Hj) & Hcj)%elem_of_concat. apply lookup_insert_ne. intros ->.
    destruct (p_get_ok _ B Hprep _ _ Hj) as (q & _ & _ & Hq). eapply pchain_lookup in Hq; [|done].
    simpl in Hq. rewrite lookup_fmap, Hn in Hq. done. }
  pose (c := PCell n (to_pentry e) k v).
  destruct (prep_append (plain_of s) B k v b (c :: b) n (Some n) (to_pentry <$> view u)) as [Hrep' Hmap]; try done.
  - simpl. by rewrite lookup_fmap, Hn.
  - by eexists.
  - rewrite Hu, fmap_insert. split; [done|]. split; [by rewrite lookup_insert_eq|].
    simpl. rewrite Hen. eapply pchain_frame; [done|]. intros d Hd. simpl. apply Hout.
    by eapply elem_of_bucket.
  - intros d Hd. rewrite Hu, fmap_insert. apply Hout. rewrite (concat_middle _ _ _ Hb). set_solver.
  - constructor; [|by apply (pr_cells _ _ Hprep)]. split; simpl; try done; [by rewrite Hev|].
    symmetry. by apply (pbin_range _ B Hprep k).
  - rewrite <-Hmap. eexists. split; [|done]. split; [exact Hrep'|].
    intros l e' Hin. cbn [e_mem set_mem set_etable]. rewrite Hu, lookup_insert_Some.
    intros [[<- <-]|[Hne He']]; [done|]. apply (er_fixed _ _ Hrep l); [|done].
    rewrite (concat_insert _ _ _ _ Hb) in Hin. rewrite (concat_middle _ _ _ Hb). rewrite !fmap_app, !fmap_cons in *.
    simpl in Hin. set_solver.
Qed.

(** A new key goes to the head of its chain. *)
Lemma e_ht_set_insert s B key k v fuel :
  suvm_room → erep s B → cstr key = Ok k → blen key = KEY_SIZE → blen v = VAL_SIZE →
  (base.size (list_to_map (kv B) : gmap bytes bytes) ≤ fuel)%nat →
  (list_to_map (kv B) : gmap bytes bytes) !! k = None →
  ∃ s', ht_set fuel key v KEY_SIZE VAL_SIZE s = Ok (tt, s') ∧
    eholds s' (<[k := v]> (list_to_map (kv B))) ∧ same_rest s s'.
Proof.
  intros Hroom Hrep Hk Hkl Hvl Hfuel Hm. pose proof (er_prep _ _ Hrep) as Hprep.
  destruct (e_search_ok s B key k fuel Hrep Hk Hfuel) as (b & head & u & Hb & Htab & Hc & Hget & Hu & Hfind).
  rewrite Hm in Hfind.
  unfold ht_set. rewrite (bind_ok _ _ _ _ _ (e_hash_ok s B key k Hrep Hk)), (bind_ok _ _ _ _ _ Hget).
  rewrite (bind_ok _ _ _ _ _ Hfind). cbv beta iota.
  destruct (e_newpair_ok (set_mem u s) key v Hroom Hkl Hvl) as (n & u1 & Hn & Hu1 & Hnew).
  cbn [set_mem e_mem] in Hn, Hu1. rewrite Hu in Hn, Hu1. rewrite (bind_ok _ _ _ _ _ Hnew).
  destruct (e_load_ok (set_mem u1 s) n (mkEentry (Some key) (Some v) None)) as (u2 & Hu2 & Hl2).
  { cbn [set_mem e_mem]. rewrite Hu1. by rewrite lookup_insert_eq. }
  cbn [set_mem e_mem] in Hu2. rewrite Hu1 in Hu2.
  rewrite (bind_ok _ _ _ _ _ Hl2). cbn [ee_key ee_val].
  destruct (e_store_ok (set_mem u2 s) n (mkEentry (Some key) (Some v) None) (mkEentry (Some key) (Some v) None)) as (u3 & Hu3 & Hs3).
  { cbn [set_mem e_mem]. rewrite Hu2. by rewrite lookup_insert_eq. }
  cbn [set_mem e_mem] in Hu3. rewrite Hu2, insert_insert_eq in Hu3. rewrite (bind_ok _ _ _ _ _ Hs3).
  assert (e_get (Z.of_nat (ebin s k)) (set_mem u3 s) = Ok (head, set_mem u3 s)) as Hget3.
  { unfold e_get. rewrite bind_gets. unfold lift. by rewrite (zlookup_nat _ _ head). }
  rewrite (bind_ok _ _ _ _ _ Hget3).
  assert (∃ u4, view u4 = <[n := mkEentry (Some key) (Some v) head]> (view (e_mem s)) ∧
    match head with
    | None => e_set (Z.of_nat (ebin s k)) (Some n)
    | Some _ => e_store n (mkEentry (Some key) (Some v) head);; e_set (Z.of_nat (ebin s k)) (Some n)
    end (set_mem u3 s) = Ok (tt, set_etable (<[ebin s k := Some n]> (e_table s)) (set_mem u4 s))) as (u4 & Hu4 & ->).
  { assert (∀ u, e_set (Z.of_nat (ebin s k)) (Some n) (set_mem u s) =
      Ok (tt, set_etable (<[ebin s k := Some n]> (e_table s)) (set_mem u s))) as Hset.
    { intros u'. unfold e_set. rewrite bind_gets. cbn [set_mem e_table].
      by rewrite (bind_lift _ _ _ _ (zupdate_nat _ _ _ (lookup_lt_Some _ _ _ Htab))). }
    destruct head as [h|]; [|by exists u3].
    destruct (e_store_ok (set_mem u3 s) n (mkEentry (Some key) (Some v) None)
      (mkEentry (Some key) (Some v) (Some h))) as (u4 & Hu4 & Hs4).
    { cbn [set_mem e_mem]. rewrite Hu3. by rewrite lookup_insert_eq. }
    cbn [set_mem e_mem] in Hu4. rewrite Hu3, insert_insert_eq in Hu4. exists u4. split; [done|].
    rewrite (bind_ok _ _ _ _ _ Hs4). exact (Hset u4). }
  eexists. split; [done|]. split; [|done].
  apply (pushed_ok s B b head n k v _ _ Hrep (proj1 (cstr_inv _ _ Hk)) Hm Hb Htab Hc Hn Hu4);
    [by exists key, k, v| |done..].
  unfold cstr in Hk. simpl. by destruct (cstr_opt key); simplify_eq.
Qed.

(** [ht_set] writes the map. *)
Lemma e_ht_set_ok s m key k v fuel :
  suvm_room → eholds s m → cstr key = Ok k → blen key = KEY_SIZE → blen v = VAL_SIZE → (base.size m ≤ fuel)%nat →
  ∃ s', ht_set fuel key v KEY_SIZE VAL_SIZE s = Ok (tt, s') ∧ eholds s' (<[k := v]> m) ∧ same_rest s s'.
Proof.
  intros Hroom (B & Hrep & ->) Hk Hkl Hvl Hfuel. destruct ((list_to_map (kv B) : gmap bytes bytes) !! k) as [v0|] eqn:Hm.
  - by eapply e_ht_set_update.
  - by apply e_ht_set_insert.
Qed.

(** A created table is empty. *)
Lemma eholds_create size u :
  0 < size ≤ INT_MAX →
  ∃ s, ht_create u true true size = Ok s ∧ eholds s ∅ ∧ e_num s = 0 ∧ e_bars s = (0, 0, 0) ∧ e_out s = [].
Proof.
  intros Hs. unfold ht_create. rewrite (proj2 (Z.ltb_ge size 1)) by lia. simpl. eexists. split; [done|].
  split; [|done]. destruct (prep_create size (to_pentry <$> view u) [] Hs) as [Hp Hnil].
  exists (replicate (Z.to_nat size) []). split; [|unfold kv; by rewrite Hnil]. split; [exact Hp|rewrite Hnil; set_solver].
Qed.
End proofs.
