(* ===== verification/EleosTrace.v ===== *)
(** * The store on Eleos on a trace

    The lines of the traces, what the specification makes of them, what the loops of
    [enclave_process] do with them and how [file_to_memory] reads them from a file. *)

From S2P Require Import Prelude CString CLib Common Hash Rep CoreProofs StoreProofs.
From S2P Require Import EnclaveProofs Service Client ClientProofs PlainTable PlainProofs.
From S2P Require Import PlainTrace Eleos EleosProofs.

(** ** Lines and what they mean *)
Inductive eop := EGet (k : bytes) | ESet (k v : bytes).

(** The line of a request: a command of four bytes, a key and for SET a space and the value,
    in a buffer of [BUF_SIZE] bytes.  The copy of the value stays inside the buffer. *)
Definition eline (b : bytes) (op : eop) : Prop :=
  blen b = BUF_SIZE ∧
  match op with
  | EGet k => has_cmd b "GET" "get" ∧ ∃ cmd d rest, b = cmd ++ k ++ d :: rest ∧ (d = NUL ∨ d = SPACE) ∧ blen cmd = 4 ∧
      k ≠ [] ∧ nonul k ∧ nospace k
  | ESet k v => has_cmd b "SET" "set" ∧ ∃ cmd rest, b = cmd ++ k ++ SPACE :: v ++ NUL :: rest ∧ blen cmd = 4 ∧
      k ≠ [] ∧ nonul k ∧ nospace k ∧ nonul v ∧ blen k ≤ 24
  end.

(** What the store keeps of a key and of a value. *)
Definition key_of (k : bytes) : bytes := take (Z.to_nat (KEY_SIZE - 1)) k.
Definition val_of (v : bytes) : bytes := take (Z.to_nat (VAL_SIZE - 1)) v.

(** The specification: a map and what has been printed. *)
Definition e_spec (x : gmap bytes bytes * list string) (op : eop) : gmap bytes bytes * list string :=
  match op with
  | ESet k v => (<[key_of k := val_of v]> x.1, x.2)
  | EGet k =>
      (x.1, x.2 ++ match x.1 !! key_of k with
                   | Some _ => []
                   | None => [String.string_of_list_byte (key_of k); "No value correspond to the key"]
                   end)
  end.
Definition e_run := fold_left e_spec.

Lemma e_run_snoc x ops op : e_run (ops ++ [op]) x = e_spec (e_run ops x) op.
Proof. unfold e_run. by rewrite fold_left_app. Qed.

Lemma e_spec_size x op : (base.size (e_spec x op).1 ≤ S (base.size x.1))%nat.
Proof. destruct op as [k|k v]; simpl; [lia|]. rewrite map_size_insert. destruct (x.1 !! _); simpl; lia. Qed.

Lemma e_run_size ops x : (base.size (e_run ops x).1 ≤ base.size x.1 + length ops)%nat.
Proof.
  induction ops as [|op ops IH] using rev_ind; [simpl; lia|].
  rewrite e_run_snoc, length_app. pose proof (e_spec_size (e_run ops x) op). simpl. lia.
Qed.

(** A copy of fixed size holds the string, cut if it is too long. *)
Lemma fixed_copy_ok `{Suvm} b pre k rest n (s : eleos) :
  b = pre ++ k ++ NUL :: rest → nonul k → 1 ≤ n → blen pre + (n - 1) ≤ blen b →
  ∃ kb, fixed_copy b (blen pre) n s = Ok (kb, s) ∧ blen kb = n ∧ cstr kb = Ok (take (Z.to_nat (n - 1)) k).
Proof.
  intros -> Hk Hn Hlen. pose proof (blen_nonneg pre). unfold fixed_copy.
  rewrite (bind_lift _ _ _ _ (read_at_ok _ (blen pre) (n - 1) ltac:(lia) ltac:(lia) Hlen)).
  rewrite blen_app in Hlen. replace (Z.to_nat (blen pre)) with (length pre) by (unfold blen; lia).
  rewrite drop_app_length. eexists. split; [done|].
  split; [rewrite blen_app, blen_take by lia; unfold blen; simpl; lia|].
  destruct (decide (Z.to_nat (n - 1) ≤ length k)%nat) as [Hle|Hgt].
  - rewrite take_app_le by done. apply cstr_app. unfold nonul in *.
    intros (i & Hi & _)%elem_of_take. apply Hk. by eapply list_elem_of_lookup_2.
  - rewrite take_app_ge, (take_ge k) by lia.
    destruct (Z.to_nat (n - 1) - length k)%nat as [|j] eqn:E; [lia|]. simpl.
    rewrite <-app_assoc. simpl. by apply cstr_app.
Qed.

Section loops.
Context `{Suvm} `{!SuvmOk}.
Implicit Types (s : eleos) (m M : gmap bytes bytes).

(** The buffers of [m] hold the C strings of [M]; the state holds the map [M]. *)
Definition strings_of m M : Prop := ∀ k, option_Forall2 (λ vb v, cstr vb = Ok v) (m !! k) (M !! k).
Definition evalues s M : Prop := ∃ m, eholds s m ∧ strings_of m M.

(** The state holds the map and has printed the lines of [x]; the barriers are as in [s]. *)
Definition shows s (x : gmap bytes bytes * list string) s' : Prop :=
  evalues s' x.1 ∧ e_out s' = x.2 ∧ e_num s' = e_num s ∧ e_bars s' = e_bars s.

Lemma shows_refl s M : evalues s M → shows s (M, e_out s) s.
Proof. done. Qed.

Lemma shows_trans s s1 s2 x y : shows s x s1 → shows s1 y s2 → shows s y s2.
Proof. intros (_ & _ & H1 & H2) (H3 & H4 & H5 & H6). repeat split; try done; congruence. Qed.

(** Only the table counts for the map. *)
Lemma evalues_table s s' M :
  e_size s' = e_size s → e_table s' = e_table s → view (e_mem s') = view (e_mem s) → evalues s M → evalues s' M.
Proof.
  intros H1 H2 H3 (m & (B & [Hp Hf] & ->) & Hv). exists (list_to_map (kv B)). split; [|done]. exists B. split; [|done].
  split; [unfold plain_of in *; by rewrite H1, H2, H3|by rewrite H3].
Qed.

Lemma evalues_size m M : strings_of m M → base.size m = base.size M.
Proof.
  intros Hv. rewrite <-!(size_dom (D := gset bytes)). f_equal. apply set_eq. intros k. rewrite !elem_of_dom.
  destruct (Hv k); split; intros []; eauto; done.
Qed.

Lemma evalues_insert m M k vb v :
  cstr vb = Ok v → strings_of m M → strings_of (<[k := vb]> m) (<[k := v]> M).
Proof.
  intros Hc Hv k'. destruct (decide (k = k')) as [<-|Hne].
  - rewrite !lookup_insert_eq. by constructor.
  - by rewrite !lookup_insert_ne.
Qed.

(** ** Requests *)
Lemma enclave_set_ok b k v fuel s M :
  suvm_room → eline b (ESet k v) → evalues s M → (base.size M ≤ fuel)%nat →
  ∃ s', enclave_set fuel b s = Ok (tt, s') ∧ shows s (e_spec (M, e_out s) (ESet k v)) s'.
Proof.
  intros Hroom (Hb & _ & cmd & rest & -> & Hcmd & Hne & Hn & Hs & Hv & Hlen) (m & Hm & Hvals) Hfuel.
  unfold enclave_set. pose proof (strtok_r_space cmd [] k (v ++ NUL :: rest) 4 (eq_sym Hcmd) (Forall_nil_2 _) Hne Hn Hs) as Ht.
  rewrite (bind_lift _ _ _ _ Ht). cbn [tok_buf tok_off tok_rest]. rewrite app_nil_l, blen_nil. clear Ht.
  set (b' := cmd ++ k ++ NUL :: v ++ NUL :: rest).
  assert (blen b' = BUF_SIZE) as Hb' by (rewrite <-Hb; unfold b'; by blen).
  destruct (fixed_copy_ok b' cmd k (v ++ NUL :: rest) KEY_SIZE s eq_refl Hn ltac:(done)) as (kb & Hkb & Hkl & Hk).
  { rewrite Hb', Hcmd. done. }
  replace (4 + 0) with (blen cmd) by lia. rewrite (bind_ok _ _ _ _ _ Hkb).
  destruct (fixed_copy_ok b' (cmd ++ k ++ [NUL]) v rest VAL_SIZE s) as (vb & Hvb & Hvl & Hval); [|done|done| |].
  { unfold b'. by rewrite <-!app_assoc. }
  { rewrite Hb', !blen_app, Hcmd, blen_cons, blen_nil. unfold VAL_SIZE, BUF_SIZE. lia. }
  replace (blen cmd + blen k + 1) with (blen (cmd ++ k ++ [NUL])) by (rewrite !blen_app; reflexivity || (unfold blen; simpl; lia)).
  rewrite (bind_ok _ _ _ _ _ Hvb).
  rewrite <-(evalues_size _ _ Hvals) in Hfuel.
  destruct (e_ht_set_ok s m kb _ vb fuel Hroom Hm Hk Hkl Hvl Hfuel) as (s' & Hrun & Hm' & _ & Hnum & Hbar & Hout).
  exists s'. split; [done|]. split; [|done]. eexists. split; [exact Hm'|]. by apply evalues_insert.
Qed.

Lemma enclave_get_ok b k fuel s M :
  eline b (EGet k) → evalues s M → (base.size M ≤ fuel)%nat →
  ∃ s', enclave_get fuel b s = Ok (tt, s') ∧ shows s (e_spec (M, e_out s) (EGet k)) s'.
Proof.
  intros (Hb & _ & cmd & d & rest & -> & Hd & Hcmd & Hne & Hn & Hs) (m & Hm & Hvals) Hfuel.
  unfold enclave_get. set (b' := cmd ++ k ++ NUL :: rest).
  assert (blen b' = BUF_SIZE) as Hb' by (rewrite <-Hb; unfold b'; by blen).
  assert (∃ r, strtok_r (cmd ++ k ++ d :: rest) 4 = Ok (Some (Token (blen cmd) k r b'))) as [r Ht].
  { rewrite Hcmd. destruct Hd as [->| ->].
    - eexists. exact (strtok_r_end cmd [] k rest 4 (eq_sym Hcmd) (Forall_nil_2 _) Hne Hn Hs).
    - eexists. exact (strtok_r_space cmd [] k rest 4 (eq_sym Hcmd) (Forall_nil_2 _) Hne Hn Hs). }
  rewrite (bind_lift _ _ _ _ Ht). cbn [tok_buf tok_off].
  destruct (fixed_copy_ok b' cmd k rest KEY_SIZE s eq_refl Hn ltac:(done)) as (kb & Hkb & Hkl & Hk).
  { rewrite Hb', Hcmd. done. }
  rewrite (bind_ok _ _ _ _ _ Hkb). rewrite <-(evalues_size _ _ Hvals) in Hfuel.
  destruct (e_ht_get_ok s m kb _ fuel Hm Hk Hfuel) as (u & Hu & Hget). unfold e_spec, key_of. cbn [fst snd].
  specialize (Hvals (take (Z.to_nat (KEY_SIZE - 1)) k)) as Hval. destruct (m !! _) as [vb|]; inversion Hval; subst.
  - destruct Hget as (l & e & Hget & _). rewrite (bind_ok _ _ _ _ _ Hget). rewrite app_nil_r.
    eexists. split; [done|]. split; [|done]. exists m. split; [by apply eholds_paging|done].
  - assert (∀ o, evalues (mkEleos _ (e_size s) (e_table s) u (e_num s) (e_bars s) o) M) as Hev.
    { intros o. eapply (evalues_table s); [done|done|exact Hu|]. by exists m. }
    eexists. split; [|split; [apply Hev|]].
    + unfold mbind at 1, M_bind at 1. rewrite Hget. unfold e_print_key, e_print. unfold mbind, M_bind, lift, mbind, res_bind.
      rewrite Hk. cbn. reflexivity.
    + cbn. by rewrite <-app_assoc.
Qed.

(** ** The loops *)
Lemma e_starts_yes b up lo s :
  has_cmd b up lo → (up, lo) = ("GET", "get") ∨ (up, lo) = ("SET", "set") → e_starts_with b up lo s = Ok (true, s).
Proof. by intros (r & [->| ->]) [[= -> ->]|[= -> ->]]. Qed.

Lemma e_starts_no b s : has_cmd b "SET" "set" → e_starts_with b "GET" "get" s = Ok (false, s).
Proof. by intros (r & [->| ->]). Qed.

Lemma e_line_ok inst pre b post s :
  inst = pre ++ Some b :: post → blen b = BUF_SIZE → e_line inst (blen pre) s = Ok (b, s).
Proof.
  intros -> Hb. unfold e_line. rewrite (bind_lift _ _ _ (Some b)).
  - unfold lift. by rewrite read_at_all.
  - unfold blen. apply zlookup_nat. by rewrite lookup_app_r, Nat.sub_diag.
Qed.

(** One line of either loop does what the specification says; [is_set] are the lines of the
    load trace. *)
Definition is_set (op : eop) : Prop := match op with ESet _ _ => True | EGet _ => False end.
Definition one_ok (fuel : nat) (ok : eop → Prop) (one : list (option bytes) → Z → M eleos unit) : Prop :=
  ∀ pre b post op s M, eline b op → ok op → evalues s M → (base.size M ≤ fuel)%nat →
  ∃ s', one (pre ++ Some b :: post) (blen pre) s = Ok (tt, s') ∧ shows s (e_spec (M, e_out s) op) s'.

Lemma load_one_ok fuel : suvm_room → one_ok fuel is_set (load_one fuel).
Proof.
  intros Hroom pre b post [k|k v] s M Hl Hset Hm Hf; [done|]. unfold load_one. pose proof Hl as (Hb & Hcmd & _).
  rewrite (bind_ok _ _ _ _ _ (e_line_ok _ pre b post s eq_refl Hb)).
  rewrite (bind_ok _ _ _ _ _ (e_starts_yes b _ _ s Hcmd ltac:(by right))). by apply enclave_set_ok.
Qed.

Lemma run_one_ok fuel : suvm_room → one_ok fuel (λ _, True) (run_one fuel).
Proof.
  intros Hroom pre b post op s M Hl _ Hm Hf. unfold run_one.
  rewrite (bind_ok _ _ _ _ _ (e_line_ok _ pre b post s eq_refl (proj1 Hl))). destruct op as [k|k v].
  - rewrite (bind_ok _ _ _ _ _ (e_starts_yes b _ _ s (proj1 (proj2 Hl)) ltac:(by left))). by apply enclave_get_ok.
  - rewrite (bind_ok _ _ _ _ _ (e_starts_no b s (proj1 (proj2 Hl)))).
    rewrite (bind_ok _ _ _ _ _ (e_starts_yes b _ _ s (proj1 (proj2 Hl)) ltac:(by right))). by apply enclave_set_ok.
Qed.

Lemma e_loop fuel ok one bs ops s M :
  one_ok fuel ok one → Forall2 eline bs ops → Forall ok ops → evalues s M → (base.size M + length ops ≤ fuel)%nat →
  ∃ s', for_each (seqZ 0 (blen bs)) (λ i _, one (Some <$> bs) i) tt s = Ok (tt, s') ∧ shows s (e_run ops (M, e_out s)) s'.
Proof.
  intros Hone Hl Hok Hm Hf.
  assert (blen bs = blen (Some <$> bs)) as -> by (unfold blen; by rewrite length_fmap).
  destruct (for_each_lines (Some <$> bs) (λ i _, one (Some <$> bs) i) (λ pre s', ∃ ops1 ops2, ops = ops1 ++ ops2 ∧
    length ops1 = length pre ∧ shows s (e_run ops1 (M, e_out s)) s') s) as (s' & Hrun & ops1 & ops2 & -> & Hlen & Hs').
  - by exists [], ops.
  - intros pre x post s1 Hinst (ops1 & ops2 & -> & Hlen & Hs1).
    apply Forall2_app_inv_r in Hl as (bs1 & bs2 & Hl1 & Hl2 & ->). rewrite fmap_app in Hinst.
    apply Forall2_length in Hl1. apply app_inj_1 in Hinst as [<- Hinst]; [|rewrite length_fmap; congruence].
    destruct Hl2 as [|b op bs2 ops2 Hb Hl2]; [done|]. injection Hinst as <- <-.
    apply Forall_app in Hok as [Hok1 [Hokop Hok2]%Forall_cons]. rewrite length_app in Hf. simpl in Hf.
    pose proof (e_run_size ops1 (M, e_out s)) as Hsz. cbn [fst] in Hsz. pose proof Hs1 as (Hm1 & Ho1 & _).
    destruct (Hone (Some <$> bs1) b (Some <$> bs2) op s1 _ Hb Hokop Hm1 ltac:(lia)) as (s2 & Hrun & Hs2).
    exists s2. split; [by rewrite fmap_app|]. exists (ops1 ++ [op]), ops2.
    rewrite <-app_assoc, !length_app, Hlen. split; [done|]. split; [done|]. rewrite e_run_snoc.
    rewrite Ho1, <-surjective_pairing in Hs2. by eapply shows_trans.
  - exists s'. split; [done|]. apply Forall2_length in Hl. rewrite length_fmap in Hlen. rewrite length_app in Hl.
    destruct ops2; [by rewrite app_nil_r|simpl in Hl; lia].
Qed.
End loops.

(** ** Reading a trace file *)

(** A line of a file for a request. *)
Definition op_line (l : bytes) (op : eop) : Prop :=
  nonul l ∧ NL ∉ l ∧ blen l + 2 ≤ BUF_SIZE ∧
  match op with
  | EGet k => has_cmd l "GET" "get" ∧ ∃ cmd, l = cmd ++ k ∧ blen cmd = 4 ∧ k ≠ [] ∧ nospace k ∧ blen k < KEY_SIZE
  | ESet k v => has_cmd l "SET" "set" ∧ ∃ cmd, l = cmd ++ k ++ SPACE :: v ∧ blen cmd = 4 ∧ k ≠ [] ∧ nospace k ∧ blen k < KEY_SIZE
  end.

Definition op_key (op : eop) : bytes := match op with EGet k => k | ESet k _ => k end.

(** What a line leaves in the buffer: [strtok_r] has put a NUL behind the key. *)
Definition cut_line (b : bytes) (op : eop) : Prop :=
  ∃ cmd r, b = cmd ++ op_key op ++ NUL :: r ∧ blen cmd = 4 ∧ nonul cmd ∧ op_key op ≠ [] ∧ nonul (op_key op) ∧
    nospace (op_key op) ∧ blen (op_key op) < KEY_SIZE ∧ blen b = BUF_SIZE.

(** One line: the buffer is not cleared, so old bytes stay behind the NUL. *)
Lemma read_line buf l rest :
  blen buf = BUF_SIZE → nonul l → NL ∉ l → blen l + 2 ≤ BUF_SIZE →
  ∃ r b, fgets buf BUF_SIZE (l ++ NL :: rest) = Ok (Some (b, rest)) ∧ strlen b = Ok (blen l + 1) ∧
    zupdate b (blen l) NUL = Ok (l ++ NUL :: r) ∧ blen (l ++ NUL :: r) = BUF_SIZE.
Proof.
  intros Hb Hn Hnl Hlen. destruct (fgets_over BUF_SIZE buf l rest Hb Hnl Hlen) as (r & Hr & Hlr).
  exists (NUL :: r), (l ++ NL :: NUL :: r). split; [done|]. pose proof (blen_nonneg l). rewrite blen_app in Hlr.
  split; [|split].
  - unfold strlen, mbind, res_bind. rewrite cons_middle, app_assoc. rewrite cstr_app.
    + f_equal. by blen.
    + unfold nonul in *. set_solver.
  - rewrite zupdate_ok by (rewrite blen_app; pose proof (blen_nonneg (NUL :: r)); rewrite blen_cons; lia).
    replace (Z.to_nat (blen l)) with (length l) by (unfold blen; lia). f_equal.
    by rewrite insert_app_r_alt, Nat.sub_diag by lia.
  - rewrite blen_app, !blen_cons in *. lia.
Qed.

(** The bucket of a key belongs to the only thread. *)
Lemma thread_of_key k :
  nonul k → blen k < KEY_SIZE →
  ∃ key h, memcpy (zeros KEY_SIZE) 0 k 0 (blen k) = Ok key ∧ hash key = Ok h ∧ zdiv g_size THREAD_NUM = Ok g_size ∧
    zdiv h g_size = Ok 0.
Proof.
  intros Hk Hlen. pose proof (blen_nonneg k). unfold KEY_SIZE in Hlen.
  exists (k ++ zeros (KEY_SIZE - blen k)), (bucket_of g_size k).
  assert (zeros KEY_SIZE = [] ++ zeros (blen k) ++ zeros (KEY_SIZE - blen k)) as Hz.
  { unfold zeros, KEY_SIZE. rewrite app_nil_l, <-replicate_add. f_equal. lia. }
  split; [|split; [|split; [done|]]].
  - unfold memcpy, mbind, res_bind. rewrite read_at_all by done. rewrite Hz.
    rewrite write_at_app with (y := k); [done|done|]. by rewrite blen_zeros.
  - unfold hash, mbind, res_bind.
    assert (zeros (KEY_SIZE - blen k) = NUL :: zeros (KEY_SIZE - blen k - 1)) as ->.
    { unfold zeros, KEY_SIZE. replace (Z.to_nat (17 - blen k)) with (S (Z.to_nat (17 - blen k - 1))) by lia. done. }
    rewrite cstr_app by done. done.
  - pose proof (bucket_of_range g_size k ltac:(done)) as Hr. unfold zdiv.
    change (g_size =? 0) with false. cbv iota. by rewrite Z.quot_small.
Qed.

(** The token of a line, and the line as the enclave gets it. *)
Lemma op_line_token l op r :
  op_line l op → blen (l ++ NUL :: r) = BUF_SIZE →
  eline (l ++ NUL :: r) op ∧
  ∃ t, Unsecure.host_strtok_r (l ++ NUL :: r) 4 = Ok (Some t) ∧ tok t = op_key op ∧ cut_line (tok_buf t) op.
Proof.
  intros (Hn & _ & _ & Hop) Hb. unfold Unsecure.host_strtok_r. unfold nonul in Hn. destruct op as [k|k v].
  - destruct Hop as ((x & Hx) & cmd & -> & Hcmd & Hne & Hs & Hk).
    assert (nonul k ∧ nonul cmd) as [Hkn Hcn] by (unfold nonul; set_solver). split.
    + split; [done|]. split; [exists (x ++ NUL :: r); destruct Hx as [->| ->]; [left|right]; by rewrite <-app_assoc|].
      exists cmd, NUL, r. rewrite <-app_assoc. split_and!; try done. by left.
    + rewrite <-app_assoc in *. pose proof (strtok_r_end cmd [] k r 4 (eq_sym Hcmd) (Forall_nil_2 _) Hne Hkn Hs) as Ht.
      rewrite !app_nil_l in Ht. rewrite Ht. eexists. split; [done|]. split; [done|]. exists cmd, r. done.
  - destruct Hop as ((x & Hx) & cmd & -> & Hcmd & Hne & Hs & Hk).
    assert (nonul k ∧ nonul v ∧ nonul cmd) as (Hkn & Hvn & Hcn) by (unfold nonul; set_solver). split.
    + split; [done|]. split; [exists (x ++ NUL :: r); destruct Hx as [->| ->]; [left|right]; by rewrite <-app_assoc|].
      exists cmd, r. rewrite <-!app_assoc. unfold KEY_SIZE in Hk. split_and!; try done. lia.
    + rewrite <-!app_assoc in *. rewrite <-app_comm_cons in *.
      pose proof (strtok_r_space cmd [] k (v ++ NUL :: r) 4 (eq_sym Hcmd) (Forall_nil_2 _) Hne Hkn Hs) as Ht.
      rewrite !app_nil_l in Ht. rewrite Ht. eexists. split; [done|]. split; [done|].
      exists cmd, (v ++ NUL :: r). split_and!; try done. simpl. rewrite <-Hb. by blen.
Qed.

(** A file of lines becomes the trace of the thread. *)
Lemma trace_lines_ok ls ops buf rest inst :
  Forall2 op_line ls ops → blen buf = BUF_SIZE →
  ∃ bs buf', (∀ n, trace_lines (length ls + n) buf (file_of ls ++ rest) [inst] = trace_lines n buf' rest [inst ++ bs]) ∧
    blen buf' = BUF_SIZE ∧ Forall2 eline bs ops ∧ (∀ op, list.last ops = Some op → cut_line buf' op).
Proof.
  intros Hl. revert buf inst. induction Hl as [|l op ls ops Hl Hls IH]; intros buf inst Hb.
  - exists [], buf. rewrite app_nil_r. done.
  - pose proof Hl as (Hn & Hnl & Hlen & _).
    assert (file_of (l :: ls) ++ rest = l ++ NL :: (file_of ls ++ rest)) as ->.
    { unfold file_of. simpl. by rewrite <-!app_assoc. }
    destruct (read_line buf l (file_of ls ++ rest) Hb Hn Hnl Hlen) as (r & b & Hf & Hsl & Hz & Hbl).
    destruct (op_line_token l op r Hl Hbl) as (Hel & t & Ht & Htok & Hcut).
    pose proof Hcut as (_ & _ & _ & _ & _ & _ & Htn & _ & Htk & Htb). rewrite <-Htok in Htn, Htk.
    destruct (thread_of_key _ Htn Htk) as (key & h & Hm & Hh & Hg & Hth).
    destruct (IH (tok_buf t) (inst ++ [l ++ NUL :: r]) Htb) as (bs & buf' & Hrun & Hb' & Hbs & Hlast).
    exists ((l ++ NUL :: r) :: bs), buf'. split; [|split; [done|split; [by constructor|]]].
    + intros n. simpl length. cbn [trace_lines plus]. unfold mbind, res_bind. rewrite Hf. rewrite Hsl.
      replace (blen l + 1 - 1) with (blen l) by lia. rewrite Hz.
      rewrite read_at_all by done. rewrite Ht, Hm, Hh, Hg, Hth. cbn [zlookup zupdate].
      change (zlookup [inst] 0) with (Ok inst). cbv iota.
      change (zupdate [inst] 0 (inst ++ [l ++ NUL :: r])) with (Ok [inst ++ [l ++ NUL :: r]]). cbv iota.
      rewrite Hrun, <-app_assoc. done.
    + intros op' Hop'. destruct ops as [|op2 ops]; [|by apply Hlast].
      inversion Hls; subst. specialize (Hrun 0%nat). injection Hrun as _ <-. by injection Hop' as <-.
Qed.

(** A file that is too short: the last line is cut further in every iteration, until no key is left. *)
Lemma trace_lines_short cmd k r n inst :
  blen (cmd ++ k ++ NUL :: r) = BUF_SIZE → blen cmd = 4 → nonul cmd → k ≠ [] → nonul k → nospace k → blen k ≤ KEY_SIZE →
  (length k ≤ n)%nat →
  trace_lines n (cmd ++ k ++ NUL :: r) [] [inst] = Fault Null_deref.
Proof.
  intros Hb Hcmd Hcn. revert n r inst Hb. induction k as [|x k IH] using rev_ind; intros n r inst Hb Hne Hn Hs Hk Hlen; [done|].
  destruct n as [|n]; [rewrite length_app in Hlen; simpl in Hlen; lia|]. rewrite length_app in Hlen. simpl in Hlen.
  unfold nonul, nospace in *. cbn [trace_lines]. unfold mbind, res_bind. change (fgets _ BUF_SIZE []) with (Ok (A := option (bytes * bytes)) None).
  cbv iota beta. unfold strlen, mbind, res_bind. rewrite app_assoc, cstr_app by (unfold nonul; set_solver). cbv iota.
  assert (zupdate ((cmd ++ k ++ [x]) ++ NUL :: r) (blen (cmd ++ k ++ [x]) - 1) NUL = Ok (cmd ++ k ++ NUL :: NUL :: r)) as ->.
  { replace (blen (cmd ++ k ++ [x]) - 1) with (Z.of_nat (length (cmd ++ k))) by (unfold blen; rewrite !length_app; simpl; lia).
    rewrite zupdate_nat by (rewrite !length_app; simpl; lia). f_equal.
    rewrite <-!app_assoc. rewrite (app_assoc cmd k). rewrite insert_app_r_alt, Nat.sub_diag by lia. simpl. by rewrite <-app_assoc. }
  assert (blen (cmd ++ k ++ NUL :: NUL :: r) = BUF_SIZE) as Hb' by (rewrite <-Hb; blen).
  rewrite read_at_all by done. unfold Unsecure.host_strtok_r.
  destruct (decide (k = [])) as [->|Hke].
  - by rewrite (strtok_r_none cmd [] (NUL :: r) 4 (eq_sym Hcmd) (Forall_nil_2 _)).
  - assert (nonul k ∧ nospace k) as [Hkn Hks] by (unfold nonul, nospace; set_solver).
    pose proof (strtok_r_end cmd [] k (NUL :: r) 4 (eq_sym Hcmd) (Forall_nil_2 _) Hke Hkn Hks) as Ht.
    rewrite !app_nil_l in Ht. rewrite Ht. cbn [tok tok_buf].
    destruct (thread_of_key k Hkn) as (key & h & Hm & Hh & Hg & Hth); [rewrite blen_app in Hk; unfold blen in *; simpl in *; lia|].
    rewrite Hm, Hh, Hg, Hth. change (zlookup [inst] 0) with (Ok inst). cbv iota.
    change (zupdate [inst] 0 (inst ++ [cmd ++ k ++ NUL :: NUL :: r])) with (Ok [inst ++ [cmd ++ k ++ NUL :: NUL :: r]]).
    cbv iota.     apply IH; try done; [|lia]. rewrite blen_app in Hk. unfold blen in *. simpl in *. lia.
Qed.
