(* ===== verification/EleosClaims.v ===== *)
(** * Theorems on the store on Eleos

    The table is a map, what the whole program prints for two trace files, and what it does
    with a file that has fewer lines than it reads. *)

From S2P Require Import Prelude CString CLib Common Hash Rep CoreProofs StoreProofs.
From S2P Require Import EnclaveProofs Service Client ClientProofs PlainTable PlainProofs.
From S2P Require Import PlainTrace Server Results Eleos EleosProofs EleosTrace.

Section claims.
Context `{Suvm} `{!SuvmOk}.
Implicit Types (s : eleos) (m M : gmap bytes bytes).

(** The table in Eleos memory is a finite map from the string in a key buffer to a value
    buffer: whether the key is there or goes to the head of its chain, [ht_set] adds the
    binding whatever the paging does, and [ht_get] then finds an entry with the bound value,
    or prints the key and returns NULL. *)
Theorem eleos_table_is_a_map s m key k v key' k' fuel :
  suvm_room → eholds s m → cstr key = Ok k → blen key = KEY_SIZE → blen v = VAL_SIZE → cstr key' = Ok k' →
  (base.size m < fuel)%nat →
  ∃ s', ht_set fuel key v KEY_SIZE VAL_SIZE s = Ok (tt, s') ∧ eholds s' (<[k := v]> m) ∧ e_out s' = e_out s ∧
    ∃ p s'', ht_get fuel key' s' = Ok (p, s'') ∧ view (e_mem s'') = view (e_mem s') ∧
      match <[k := v]> m !! k' with
      | Some x => e_out s'' = e_out s ∧ ∃ l e, p = Some l ∧ view (e_mem s'') !! l = Some e ∧ ee_val e = Some x
      | None => e_out s'' = e_out s ++ [String.string_of_list_byte k'] ∧ p = None
      end.
Proof.
  intros Hroom Hm Hk Hkl Hvl Hk' Hfuel.
  destruct (e_ht_set_ok s m key k v fuel Hroom Hm Hk Hkl Hvl ltac:(lia)) as (s' & Hset & Hm' & _ & _ & _ & Hout).
  exists s'. split; [done|]. split; [done|]. split; [done|].
  destruct (e_ht_get_ok s' _ key' k' fuel Hm' Hk') as (u & Hu & Hget).
  { rewrite map_size_insert. destruct (m !! k); simpl; lia. }
  destruct (<[k := v]> m !! k') as [x|].
  - destruct Hget as (l & e & Hget & He & Hx). exists (Some l), (set_mem u s'). split; [done|]. split; [done|].
    split; [done|]. exists l, e. cbn [set_mem e_mem]. by rewrite Hu.
  - eexists None, _. rewrite Hget. unfold e_print_key, e_print. rewrite (bind_ok _ _ _ tt _) by (rewrite (bind_lift _ _ _ _ Hk'); done).
    split; [done|]. cbn. rewrite Hout. done.
Qed.

(** The thread on its two traces. *)
Lemma process_ok bs kvs bs2 ops s M fuel :
  suvm_room → Forall2 eline bs kvs → Forall is_set kvs → Forall2 eline bs2 ops → evalues s M →
  e_num s = 0 → e_bars s = (0, 0, 0) → (base.size M + length kvs + length ops ≤ fuel)%nat →
  let x := e_run kvs (M, e_out s) in
  let y := e_run ops (x.1, x.2 ++ ["Load Process has done"]) in
  ∃ s', enclave_process fuel [blen bs] [Some <$> bs] [blen bs2] [Some <$> bs2] s = Ok (tt, s') ∧
    evalues s' y.1 ∧ e_out s' = y.2 ++ ["Run Process has done"] ∧ e_bars s' = (1, 1, 1).
Proof.
  intros Hroom Hl Hset Hl2 Hm Hnum Hbars Hfuel x y. unfold enclave_process.
  rewrite bind_gets, bind_modify, Hnum. change (zlookup [?a] 0) with (Ok a).
  rewrite (bind_lift _ _ _ (blen bs)), (bind_lift _ _ _ (Some <$> bs)) by done.
  rewrite bind_gets. cbn [set_num e_bars]. rewrite Hbars. cbv beta iota. rewrite bind_modify.
  unfold barrier. change (0 + 1) with 1. change (1 =? THREAD_NUM) with true. cbv iota. rewrite bind_ret.
  set (s1 := set_bars _ _). assert (evalues s1 M) as Hm1 by by eapply (evalues_table s).
  destruct (e_loop fuel is_set (load_one fuel) bs kvs s1 M (load_one_ok fuel Hroom) Hl Hset Hm1 ltac:(lia))
    as (s2 & Hrun & Hm2 & Ho2 & Hn2 & Hb2). change (e_out s1) with (e_out s) in *. fold x in Hm2, Ho2.
  rewrite (bind_ok _ _ _ _ _ Hrun), (bind_lift _ _ _ (blen bs2)), (bind_lift _ _ _ (Some <$> bs2)) by done.
  rewrite bind_modify, bind_ret. change (0 =? 0) with true. cbv iota. unfold e_print. rewrite bind_modify.
  set (s3 := mkEleos _ _ _ _ _ _ _). assert (evalues s3 x.1) as Hm3 by by eapply (evalues_table s2).
  pose proof (e_run_size kvs (M, e_out s)) as Hsz. fold x in Hsz. cbn [fst] in Hsz.
  destruct (e_loop fuel (λ _, True) (run_one fuel) bs2 ops s3 x.1 (run_one_ok fuel Hroom) Hl2 ltac:(by apply Forall_true) Hm3 ltac:(lia))
    as (s4 & Hrun4 & Hm4 & Ho4 & Hn4 & Hb4).
  rewrite (bind_ok _ _ _ _ _ Hrun4), bind_modify, bind_ret.
  assert (e_out s3 = x.2 ++ ["Load Process has done"]) as Ho3 by (unfold s3; cbn; by rewrite Ho2).
  rewrite Ho3 in Hm4, Ho4. fold y in Hm4, Ho4.
  eexists. split; [done|]. split; [by eapply (evalues_table s4)|]. cbn. by rewrite Ho4.
Qed.

(** The two traces in memory. *)
Lemma eleos_files_ok ls kvs ls2 ops garbage :
  Forall2 op_line ls kvs → Forall2 op_line ls2 ops → blen garbage = BUF_SIZE →
  length ls = Z.to_nat set_size → length ls2 = Z.to_nat set_size2 →
  ∃ bs bs2, file_to_memory garbage (Some (file_of ls)) (Some (file_of ls2)) = Ok ([bs], [bs2]) ∧
    Forall2 eline bs kvs ∧ Forall2 eline bs2 ops.
Proof.
  intros Hl Hl2 Hg Hn Hn2.
  destruct (trace_lines_ok ls kvs garbage [] [] Hl Hg) as (bs & buf1 & Hr1 & Hb1 & He1 & _).
  destruct (trace_lines_ok ls2 ops buf1 [] [] Hl2 Hb1) as (bs2 & buf2 & Hr2 & _ & He2 & _).
  specialize (Hr1 0%nat). specialize (Hr2 0%nat). rewrite Nat.add_0_r, app_nil_r in Hr1, Hr2.
  exists bs, bs2. split; [|done].
  unfold file_to_memory, mbind, res_bind. change (replicate (Z.to_nat THREAD_NUM) []) with [@nil bytes].
  cbn [trace_lines app fopen] in *. by rewrite <-Hn, Hr1, <-Hn2, Hr2.
Qed.

(** C39. The whole program: when the platform answers, the two trace files of the workload are
    there and have as many lines as [file_to_memory] reads, SET lines in the load file, GET
    and SET lines in the run file, with keys of at most 16 characters, then [main] returns 0
    and prints its five lines of progress and what a map says: nothing for a key that is
    there, the key and an error for one that is not, and a line after each phase; the file of
    results gets the two lines with the times of the phases. *)
Theorem eleos_program eid updated ofs_good files ls kvs ls2 ops garbage u fuel old start1 mid1 end1 name workload arg :
  let load_name := trace_name workload "_load.txt" in
  let run_name := trace_name workload "_run.txt" in
  suvm_room → Forall2 op_line ls kvs → Forall is_set kvs → Forall2 op_line ls2 ops → blen garbage = BUF_SIZE →
  length ls = Z.to_nat set_size → length ls2 = Z.to_nat set_size2 → (length ls + length ls2 ≤ fuel)%nat →
  files load_name = Some (file_of ls) → files run_name = Some (file_of ls2) →
  let x := e_run kvs (∅, []) in
  let y := e_run ops (x.1, x.2 ++ ["Load Process has done"]) in
  main (SGX_SUCCESS, eid, updated) ofs_good 0 0 SGX_SUCCESS SGX_SUCCESS SGX_SUCCESS files u true true garbage fuel
    (Some old) start1 mid1 end1 [name; workload :: arg] =
  Ok (0, ["HT is created!"; "value size : 4097 set_size = 50000"; String.string_of_list_byte load_name;
          String.string_of_list_byte run_name; "Files are loaded into memory!"] ++ y.2 ++ ["Run Process has done"],
      Some (old +:+ String.concat "" (eleos_results 1 workload 17 4097 end1 mid1 start1))).
Proof.
  intros load_name run_name Hroom Hl Hset Hl2 Hg Hn Hn2 Hfuel Hf1 Hf2 x y.
  destruct (eleos_files_ok ls kvs ls2 ops garbage Hl Hl2 Hg Hn Hn2) as (bs & bs2 & Hmem & He1 & He2).
  destruct (eholds_create g_size u ltac:(done)) as (s & Hc & Hm & Hnum & Hbars & Hout).
  apply Forall2_length in Hl as Hlen. apply Forall2_length in Hl2 as Hlen2.
  destruct (process_ok bs kvs bs2 ops s ∅ fuel Hroom He1 Hset He2) as (s' & Hrun & Hm' & Ho & _); try done.
  { exists ∅. split; [done|]. intros k. rewrite !lookup_empty. constructor. }
  { rewrite map_size_empty. lia. }
  rewrite Hout in Ho. fold x y in Ho. unfold main, load_and_initialize_enclave, Server.load_and_initialize_enclave.
  rewrite bool_decide_true by done. change (0 =? 0) with true. cbn [negb].
  assert ("value size : " +:+ pretty.pretty VAL_SIZE +:+ " set_size = " +:+ pretty.pretty set_size =
    "value size : 4097 set_size = 50000") as Hline by by vm_compute.
  unfold mbind, res_bind.
  destruct updated; cbv beta iota; rewrite bool_decide_true by done; cbn [negb];
    rewrite Hc; change (blen [name; workload :: arg] =? 2) with true; cbn [lookup list_lookup hd];
    fold load_name run_name; rewrite Hf1, Hf2, Hmem; unfold run_threads; rewrite bool_decide_true by done;
    cbn [negb fmap list_fmap]; rewrite Hrun, Hout, Ho, Hline;
    unfold ht_destroy, modify; cbn [app length drop]; by rewrite app_nil_r.
Qed.
End claims.

(** A load file that is too short ends the program: [fgets] at the end of the file leaves the
    buffer alone and its result is not looked at, so every further iteration cuts one
    character off the last key, files the rest as a request without a value, and when
    nothing is left copies from the NULL that [strtok_r] returns. *)
Theorem short_load_file_crashes ls ops op garbage run_file :
  Forall2 op_line ls ops → blen garbage = BUF_SIZE → list.last ops = Some op →
  (length ls + length (op_key op) ≤ Z.to_nat set_size)%nat →
  file_to_memory garbage (Some (file_of ls)) run_file = Fault Null_deref.
Proof.
  intros Hl Hg Hlast Hn. destruct (trace_lines_ok ls ops garbage [] [] Hl Hg) as (bs & buf & Hrun & _ & _ & Hcut).
  destruct (Hcut _ Hlast) as (cmd & r & -> & Hc & Hcn & Hne & Hkn & Hks & Hk & Hb).
  unfold file_to_memory, mbind, res_bind. change (replicate (Z.to_nat THREAD_NUM) []) with [@nil bytes].
  replace (Z.to_nat set_size) with (length ls + (Z.to_nat set_size - length ls))%nat by lia.
  cbn [fopen]. rewrite <-(app_nil_r (file_of ls)), Hrun, trace_lines_short; done || lia.
Qed.

(** ** Memory that never pages *)
#[local] Instance flat_suvm : Suvm := {|
  suvm := gmap positive eentry;
  suvm_read u l := (λ e, (e, u)) <$> u !! l;
  suvm_write u l e := match u !! l with Some _ => Some (<[l := e]> u) | None => None end;
  memsys5Malloc_entry u := Some (fresh (dom u), <[fresh (dom u) := mkEentry None None None]> u);
  memsys5Malloc_buf _ _ := true;
|}.
#[local] Instance flat_suvm_ok : SuvmOk.
Proof.
  refine {| view := λ u : suvm, (u : gmap positive eentry) |}.
  - intros u l e Hl. exists u. simpl. by rewrite Hl.
  - intros u l e0 e Hl. eexists. simpl. by rewrite Hl.
  - intros u l u' [= <- <-]. split; [apply not_elem_of_dom, is_fresh|by eexists].
Defined.

Lemma flat_room : suvm_room.
Proof. split; [intros u; by eexists|done]. Qed.

Definition flat_empty : @suvm flat_suvm := (∅ : gmap positive eentry).
Definition flat_table : eleos := mkEleos _ 4 (replicate 4 None) flat_empty 0 (0, 0, 0) [].

Lemma flat_table_empty : eholds flat_table ∅.
Proof.
  destruct (eholds_create 4 flat_empty ltac:(done)) as (s & Hs & Hm & _).
  by injection Hs as <-.
Qed.

Lemma eleos_table_is_a_map_witness :
  ∃ s', ht_set 1 (padded KEY_SIZE (str "one")) (padded VAL_SIZE (str "1")) KEY_SIZE VAL_SIZE flat_table = Ok (tt, s') ∧
    ∃ p s'', ht_get 1 (padded KEY_SIZE (str "two")) s' = Ok (p, s'') ∧ p = None ∧ e_out s'' = ["two"].
Proof.
  destruct (eleos_table_is_a_map flat_table ∅ (padded KEY_SIZE (str "one")) (str "one") (padded VAL_SIZE (str "1"))
    (padded KEY_SIZE (str "two")) (str "two") 1 flat_room flat_table_empty)
    as (s' & Hset & _ & Ho & p & s'' & Hget & _ & Hmatch).
  1-4: vm_compute; reflexivity.
  { vm_compute. lia. }
  exists s'. split; [exact Hset|]. exists p, s''. split; [exact Hget|]. rewrite lookup_insert_ne in Hmatch by by_compute.
  destruct Hmatch as [Ho' ->]. split; [done|]. exact Ho'.
Defined.

Lemma flat_line op l : op_line l op → ∀ n, Forall2 op_line (replicate n l) (replicate n op).
Proof. intros Hl n. induction n; simpl; by constructor. Qed.

Lemma one_line : op_line (str "SET one 1") (ESet (str "one") (str "1")).
Proof.
  split; [by_compute|]. split; [by_compute|]. split; [by vm_compute|]. split; [eexists; left; reflexivity|].
  exists (str "SET "). split; [done|]. split; [done|]. split; [done|]. split; [by_compute|by vm_compute].
Qed.

Lemma two_line : op_line (str "GET two") (EGet (str "two")).
Proof.
  split; [by_compute|]. split; [by_compute|]. split; [by vm_compute|]. split; [eexists; left; reflexivity|].
  exists (str "GET "). split; [done|]. split; [done|]. split; [done|]. split; [by_compute|by vm_compute].
Qed.

(** Two files of equal lines, by their names. *)
Definition demo_files (name : bytes) : option bytes :=
  if bool_decide (name = trace_name x61 "_load.txt") then Some (file_of (replicate (Z.to_nat set_size) (str "SET one 1")))
  else if bool_decide (name = trace_name x61 "_run.txt")
  then Some (file_of (replicate (Z.to_nat set_size2) (str "GET two"))) else None.

Lemma eleos_program_witness :
  ∃ out f, main (SGX_SUCCESS, 2, true) true 0 0 SGX_SUCCESS SGX_SUCCESS SGX_SUCCESS demo_files flat_empty true true
    (zeros BUF_SIZE) (Z.to_nat set_size + Z.to_nat set_size2) (Some "") 1 3 7 [str "app"; str "a"] = Ok (0, out, Some f).
Proof.
  eexists _, _. eapply (eleos_program 2 true true demo_files (replicate (Z.to_nat set_size) (str "SET one 1")) _
    (replicate (Z.to_nat set_size2) (str "GET two")) _ (zeros BUF_SIZE) flat_empty
    (Z.to_nat set_size + Z.to_nat set_size2) "" 1 3 7 (str "app") x61 [] flat_room
    (flat_line _ _ one_line _) (Forall_replicate is_set _ (ESet (str "one") (str "1")) I)
    (flat_line _ _ two_line _) (blen_zeros BUF_SIZE ltac:(done)) (length_replicate _ _) (length_replicate _ _)).
  - rewrite !length_replicate. done.
  - unfold demo_files. by rewrite bool_decide_true.
  - unfold demo_files. rewrite bool_decide_false by by_compute. by rewrite bool_decide_true.
Defined.

Lemma short_load_file_crashes_witness :
  file_to_memory (zeros BUF_SIZE) (Some (file_of [str "SET one 1"])) None = Fault Null_deref.
Proof.
  apply (short_load_file_crashes [str "SET one 1"] [ESet (str "one") (str "1")] (ESet (str "one") (str "1"))).
  - constructor; [exact one_line|constructor].
  - reflexivity.
  - reflexivity.
  - simpl. unfold set_size. simpl. lia.
Defined.
