(* ===== verification/Region.v ===== *)
(** * The micro benchmarks on a memory region,
      [Experiment/Motivation/Unsecure], [SGX_Unprotected] and [SGX_Enclave]

    Three programs copy small pieces from or to a region of [FOOTPRINT] integers, on the
    host, from an enclave to host memory and inside an enclave.  What they do with the
    region is written as the list of the accesses, pairs of an index and a number of bytes,
    each of them checked against the region and against the other buffer. *)

From S2P Require Import Prelude Common Server Results.

(** [FOOTPRINT] is three factors without parentheses, at every use the first operand of an
    operation that binds at most as strongly. *)
Definition FOOTPRINT : Z := 1024 * 1024 * 1024.
Definition r : Z := Z.quot FOOTPRINT (4 * 1024 * 1024).

Record region := mkRegion {
  page : bool;                  (* not NULL *)
  accesses : list (Z * Z);
  printed : list string;
}.

Abbreviation R := (M region).

(** ** What all three do *)
Definition print (m : string) : R unit := modify (λ s, mkRegion (page s) (accesses s) (printed s ++ [m])).
Definition ret_error_support (ret : sgx_status) : R unit :=
  modify (λ s, mkRegion (page s) (accesses s) (printed s ++ Server.ret_error_support ret)).
Definition set_page (b : bool) : R unit := modify (λ s, mkRegion b (accesses s) (printed s)).

(** [size] bytes between [page->addr + i] and a buffer of [other] bytes. *)
Definition copy (other size i : Z) : R unit :=
  p ← gets page;
  if negb p then raise Null_deref
  else if (0 <=? size) && (size <=? other) && (0 <=? i) && (4 * i + size <=? 4 * FOOTPRINT)
  then modify (λ s, mkRegion (page s) (accesses s ++ [(i, size)]) (printed s))
  else raise Out_of_bounds.

(** [malloc] of the region, at the start of the programs and in [region_create]. *)
Definition region_create (malloc : bool) : R unit :=
  set_page malloc;; if malloc then mret tt else print "Region is not created!
".

Definition region_touch : R unit := for_each (seqZ 0 FOOTPRINT) (λ i _, copy 4 4 i) tt.
Definition region_destroy : R unit := set_page false.
Definition region_do_nothing (size : Z) : R unit := mret tt.

(** The end of the programs: one line of results for the times before and after the loop, the
    seconds and microseconds of [gettimeofday]. *)
Definition write_result (times : Z * Z * Z * Z) (file : option string) : R (Z * option string) :=
  let '(start_sec, start_usec, end_sec, end_usec) := times in
  f ← lift (append_result file [region_result start_sec start_usec end_sec end_usec]);
  mret (0, Some f).

(** The indices of one iteration, counted from [j]. *)
Definition read_offsets : list Z :=
  [ 0; 1024 * r + 2; 2048 * r + 4; 3072 * r + 8; 4096 * r + 2; 5120 * r + 4; 6144 * r + 8; 7168 * r + 8;
    8192 * r + 4; 9216 * r + 2; 10240 * r + 2; 11264 * r + 4; 12288 * r + 8; 13312 * r + 4; 14336 * r + 2;
    15360 * r + 4; 16384 * r + 2; 17408 * r + 4; 18432 * r + 4; 19456 * r + 2 ].
Definition write_offsets : list Z :=
  [ 0; 1024 * r + 4; 2048 * r + 8; 3072 * r + 2; 4096 * r + 4; 5120 * r + 8; 6144 * r + 2; 7168 * r + 4;
    8192 * r + 2; 9216 * r + 4; 10240 * r + 8; 11264 * r + 2; 12288 * r + 2; 13312 * r + 4; 14336 * r + 8;
    15360 * r + 2; 16384 * r + 4; 17408 * r + 2; 18432 * r + 8; 19456 * r + 4 ].

(** [for(j = 0; j < FOOTPRINT - 20480*r; j = j + 20480*r)] *)
Fixpoint region_loop (fuel : nat) (j : Z) (body : Z → R unit) : R unit :=
  if j <? FOOTPRINT - 20480 * r then
    match fuel with
    | O => raise Out_of_fuel
    | S fuel' => body j;; region_loop fuel' (s32 (j + 20480 * r)) body
    end
  else mret tt.

(** Every iteration takes a step of [20480 * r], so this many are enough. *)
Definition loop_fuel : nat := 205.

(** The body of a loop with a buffer of [other] bytes. *)
Definition body (offsets : list Z) (other size j : Z) : R unit := for_each offsets (λ o _, copy other size (j + o)) tt.

(** [int temp[size]] needs a positive size and, in an enclave, a place on a stack of
    [StackMaxSize] bytes; what else is on this stack is not counted, and the stack of the host
    is not limited by the program. *)
Definition with_array (stack : option Z) (size : Z) (k : R unit) : R unit :=
  if size <=? 0 then raise Out_of_bounds
  else match stack with
       | Some n => if n <=? 4 * size then raise Out_of_bounds else k
       | None => k
       end.

(** [<StackMaxSize>0x40000</StackMaxSize>] of the two programs with an enclave. *)
Definition enclave_stack : option Z := Some 262144.

Definition region_read (stack : option Z) (size : Z) : R unit :=
  with_array stack size (region_loop loop_fuel 0 (body read_offsets (4 * size) size)).
Definition region_write (stack : option Z) (size : Z) : R unit :=
  with_array stack size (region_loop loop_fuel 0 (body write_offsets (4 * size) size)).

Module Unsecure.
Definition region_read := region_read None.
Definition region_write := region_write None.

Definition main (malloc : bool) (times : Z * Z * Z * Z) (file : option string) : R (Z * option string) :=
  region_create malloc;;
  region_touch;;
  region_write 16;;
  region_destroy;;
  write_result times file.
End Unsecure.

Module Unprotected.
Definition region_read := region_read enclave_stack.
Definition region_write := region_write enclave_stack.
(** The ocall [write_o]: the source is the global integer [value]. *)
Definition write_o (i size : Z) : R unit := copy 4 size i.
Definition load_and_initialize_enclave := Server.load_and_initialize_enclave.
Definition ret_error_support := ret_error_support.

(** The status of the ecall [region_read] is not looked at. *)
Definition main (created : sgx_status * Z * bool) (ofs_good malloc : bool) (read_status : sgx_status)
  (times : Z * Z * Z * Z) (file : option string) : R (Z * option string) :=
  let '(ret, _, _) := load_and_initialize_enclave created ofs_good 0 in
  if negb (bool_decide (ret = SGX_SUCCESS)) then ret_error_support ret;; mret (-1, file)
  else
    region_create malloc;;
    region_touch;;
    (if bool_decide (read_status = SGX_SUCCESS) then region_read 16 else mret tt);;
    region_destroy;;
    write_result times file.
End Unprotected.

Module InEnclave.
Definition region_touch := region_touch.
Definition region_do_nothing := region_do_nothing.
Definition region_read := region_read enclave_stack.
(** The source is the global integer [value], whatever the size. *)
Definition region_write (size : Z) : R unit := region_loop loop_fuel 0 (body write_offsets 4 size).
Definition load_and_initialize_enclave := Server.load_and_initialize_enclave.
Definition ret_error_support := ret_error_support.

(** An ecall that fails ends the program. *)
Definition ecall (file : option string) (status : sgx_status) (m : R unit) (k : R (Z * option string)) : R (Z * option string) :=
  if bool_decide (status = SGX_SUCCESS) then m;; k else ret_error_support status;; mret (-1, file).

Definition main (created : sgx_status * Z * bool) (ofs_good malloc : bool)
  (create_status touch_status nothing_status destroy_status : sgx_status)
  (times : Z * Z * Z * Z) (file : option string) : R (Z * option string) :=
  let '(ret, _, _) := load_and_initialize_enclave created ofs_good 0 in
  if negb (bool_decide (ret = SGX_SUCCESS)) then ret_error_support ret;; mret (-1, file)
  else
    ecall file create_status (region_create malloc)
      (ecall file touch_status region_touch
         ((if bool_decide (nothing_status = SGX_SUCCESS) then region_do_nothing 16 else mret tt);;
          ecall file destroy_status region_destroy (write_result times file))).
End InEnclave.

(** ** The accesses stay inside the region *)

(** All accesses of a loop of [n] iterations from [j]. *)
Fixpoint plan (n : nat) (j : Z) (offsets : list Z) : list Z :=
  match n with
  | O => []
  | S n' => ((λ o, j + o) <$> offsets) ++ plan n' (j + 20480 * r) offsets
  end.

Lemma copies_ok {f : Z → Z} other size l s :
  page s = true → 0 ≤ size ≤ other → Forall (λ i, 0 ≤ f i ∧ 4 * f i + size ≤ 4 * FOOTPRINT) l →
  for_each l (λ i _, copy other size (f i)) tt s =
  Ok (tt, mkRegion true (accesses s ++ ((λ i, (f i, size)) <$> l)) (printed s)).
Proof.
  intros Hp Hs Hl. revert s Hp. induction Hl as [|i l [Hi Hi'] _ IH]; intros s Hp.
  - simpl. rewrite app_nil_r. destruct s. simpl in *. by subst.
  - cbn [for_each]. rewrite (bind_ok _ _ _ tt (mkRegion true (accesses s ++ [(f i, size)]) (printed s))).
    + rewrite IH by done. simpl. by rewrite <-app_assoc.
    + unfold copy. rewrite bind_gets, Hp. cbn [negb].
      rewrite (proj2 (Z.leb_le 0 size)), (proj2 (Z.leb_le size other)), (proj2 (Z.leb_le 0 (f i))),
        (proj2 (Z.leb_le _ _)) by lia. unfold modify. cbn [andb]. by rewrite Hp.
Qed.

(** The offsets of one iteration leave room for [4 * 2^20] bytes. *)
Definition inside (offsets : list Z) : Prop := Forall (λ o, 0 ≤ o ∧ o + 2 ^ 17 < 20480 * r) offsets.

Lemma read_inside : inside read_offsets.
Proof. unfold inside. by_compute. Qed.
Lemma write_inside : inside write_offsets.
Proof. unfold inside. by_compute. Qed.

Lemma loop_ok offsets other size n j s fuel :
  inside offsets → page s = true → 0 ≤ size ≤ other → size ≤ 4 * 2 ^ 17 → 0 ≤ j → (n ≤ fuel)%nat →
  FOOTPRINT - 20480 * r ≤ j + Z.of_nat n * (20480 * r) < FOOTPRINT →
  region_loop fuel j (body offsets other size) s =
  Ok (tt, mkRegion true (accesses s ++ ((λ i, (i, size)) <$> plan n j offsets)) (printed s)).
Proof.
  intros Hin Hp Hs Hsz. revert j s fuel Hp. induction n as [|n IH]; intros j s fuel Hp Hj Hf Hn.
  - replace (region_loop fuel j (body offsets other size) s) with (Ok (tt, s)).
    + simpl. rewrite app_nil_r. destruct s. simpl in *. by subst.
    + destruct fuel; cbn [region_loop]; rewrite (proj2 (Z.ltb_ge _ _)) by lia; done.
  - assert (FOOTPRINT = 1073741824 ∧ 20480 * r = 5242880) as [EF Er] by done.
    destruct fuel as [|fuel]; [lia|]. cbn [region_loop]. rewrite (proj2 (Z.ltb_lt _ _)) by lia.
    assert (s32 (j + 20480 * r) = j + 20480 * r) as -> by (apply s32_small; lia).
    rewrite (bind_ok _ _ _ _ _ (copies_ok (f := λ o, j + o) other size offsets s Hp Hs ltac:(
      eapply Forall_impl; [exact Hin|]; intros o [? ?]; cbv beta; lia))).
    rewrite IH by (done || lia). simpl. rewrite fmap_app, <-app_assoc. by rewrite <-list_fmap_compose.
Qed.

Lemma touch_ok s :
  page s = true → ∃ s', region_touch s = Ok (tt, s') ∧ page s' = true ∧ printed s' = printed s.
Proof.
  intros Hp. eexists. split; [apply (copies_ok (f := λ i, i) 4 4 (seqZ 0 FOOTPRINT) s Hp ltac:(lia))|done].
  apply Forall_forall. intros i Hi%elem_of_seqZ. lia.
Qed.

(** A loop whose copies do not fit the other buffer stops at the first one. *)
Lemma loop_fault other size s :
  page s = true → other < size → region_loop loop_fuel 0 (body write_offsets other size) s = Fault Out_of_bounds.
Proof.
  intros Hp Hs. change loop_fuel with (S 204). cbn [region_loop].
  change (0 <? FOOTPRINT - 20480 * r) with true. cbv iota. apply bind_fault.
  unfold body, write_offsets. cbn [for_each]. apply bind_fault. unfold copy. rewrite bind_gets, Hp. cbn [negb].
  rewrite (proj2 (Z.leb_gt size other)) by lia. by rewrite andb_false_r.
Qed.

(** In an enclave the array of the other buffer fits the stack below 65536 integers only. *)
Lemma enclave_array size k s :
  0 < size → with_array enclave_stack size k s = if size <? 65536 then with_array None size k s else Fault Out_of_bounds.
Proof.
  intros Hs. unfold with_array, enclave_stack. rewrite (proj2 (Z.leb_gt size 0)) by lia.
  destruct (Z.leb_spec 262144 (4 * size)), (Z.ltb_spec size 65536); done || lia.
Qed.

(** C40. The micro benchmarks stay inside their region: for sizes up to 512 kB the loops of
    [region_read] and [region_write] of the program on the host end after 204 iterations
    without overflow of their counter and make 20 copies in each, all of them inside the
    region.  The loops on an array in an enclave do the same below 65536, the size at which
    the array is as large as the whole stack (nothing else on it is counted); and [region_write] of the program in the
    enclave reads outside its other buffer, the integer [value], for every size above 4. *)
Theorem region_copies_in_bounds size s :
  page s = true → 0 < size ≤ 4 * 2 ^ 17 →
  let done_ offsets := mkRegion true (accesses s ++ ((λ i, (i, size)) <$> plan 204 0 offsets)) (printed s) in
  Unsecure.region_read size s = Ok (tt, done_ read_offsets) ∧ Unsecure.region_write size s = Ok (tt, done_ write_offsets) ∧
  InEnclave.region_write size s = (if size <=? 4 then Ok (tt, done_ write_offsets) else Fault Out_of_bounds) ∧
  InEnclave.region_read size s = (if size <? 65536 then Ok (tt, done_ read_offsets) else Fault Out_of_bounds) ∧
  Unprotected.region_read size s = (if size <? 65536 then Ok (tt, done_ read_offsets) else Fault Out_of_bounds) ∧
  Unprotected.region_write size s = (if size <? 65536 then Ok (tt, done_ write_offsets) else Fault Out_of_bounds) ∧
  Forall (λ i, 0 ≤ i ∧ 4 * i + size ≤ 4 * FOOTPRINT) (plan 204 0 read_offsets ++ plan 204 0 write_offsets).
Proof.
  intros Hp Hs done_.
  assert (∀ offsets other, inside offsets → size ≤ other →
    region_loop loop_fuel 0 (body offsets other size) s = Ok (tt, done_ offsets)) as Hloop.
  { intros offsets other Hin Ho. apply loop_ok; try done; try lia. unfold loop_fuel. lia. }
  assert (Unsecure.region_read size s = Ok (tt, done_ read_offsets)) as Hr.
  { unfold Unsecure.region_read, region_read, with_array. rewrite (proj2 (Z.leb_gt size 0)) by lia.
    apply Hloop; [apply read_inside|lia]. }
  assert (Unsecure.region_write size s = Ok (tt, done_ write_offsets)) as Hw.
  { unfold Unsecure.region_write, region_write, with_array. rewrite (proj2 (Z.leb_gt size 0)) by lia.
    apply Hloop; [apply write_inside|lia]. }
  assert (region_read enclave_stack size s = (if size <? 65536 then Ok (tt, done_ read_offsets) else Fault Out_of_bounds)) as Hre.
  { unfold region_read. rewrite enclave_array by lia. by destruct (size <? 65536). }
  assert (region_write enclave_stack size s = (if size <? 65536 then Ok (tt, done_ write_offsets) else Fault Out_of_bounds)) as Hwe.
  { unfold region_write. rewrite enclave_array by lia. by destruct (size <? 65536). }
  split; [done|]. split; [done|]. split; [|split; [done|split; [done|split; [done|]]]].
  - unfold InEnclave.region_write. destruct (Z.leb_spec size 4) as [Hle|Hgt].
    + apply Hloop; [apply write_inside|done].
    + by apply loop_fault.
  - assert (Forall (λ i, 0 ≤ i ∧ i + 2 ^ 17 < FOOTPRINT) (plan 204 0 read_offsets ++ plan 204 0 write_offsets)) as Hall
      by by_compute.
    eapply Forall_impl; [exact Hall|]. intros i [? ?]. cbv beta. lia.
Qed.

(** The three programs with their size of 16 end well and write the time they took. *)
Lemma mains_end eid updated ofs_good ss su es eu old :
  let file := Some (old +:+ region_result ss su es eu) in
  ∃ s1 s2 s3, Unsecure.main true (ss, su, es, eu) (Some old) (mkRegion false [] []) = Ok (0, file, s1) ∧
    Unprotected.main (SGX_SUCCESS, eid, updated) ofs_good true SGX_SUCCESS (ss, su, es, eu) (Some old)
      (mkRegion false [] []) = Ok (0, file, s2) ∧
    InEnclave.main (SGX_SUCCESS, eid, updated) ofs_good true SGX_SUCCESS SGX_SUCCESS SGX_SUCCESS SGX_SUCCESS
      (ss, su, es, eu) (Some old) (mkRegion false [] []) = Ok (0, file, s3) ∧
    printed s1 = [] ∧ printed s2 = [] ∧ printed s3 = [].
Proof.
  intros file. destruct (touch_ok (mkRegion true [] []) eq_refl) as (s & Ht & Hp & Ho). cbn [printed] in Ho.
  assert (∀ offsets, inside offsets → region_loop loop_fuel 0 (body offsets (4 * 16) 16) s =
    Ok (tt, mkRegion true (accesses s ++ ((λ i, (i, 16)) <$> plan 204 0 offsets)) (printed s))) as Hloop.
  { intros offsets Hin. apply (loop_ok offsets (4 * 16) 16 204 0 s loop_fuel Hin Hp); unfold loop_fuel; try lia.
    split; by vm_compute. }
  assert (region_create true (mkRegion false [] []) = Ok (tt, mkRegion true [] [])) as Hc by done.
  assert (∃ calls, Server.load_and_initialize_enclave (SGX_SUCCESS, eid, updated) ofs_good 0 = (SGX_SUCCESS, eid, calls))
    as (calls & Hload) by (destruct updated; by eexists).
  eexists _, _, _. split; [|split; [|split]].
  - unfold Unsecure.main. rewrite (bind_ok _ _ _ _ _ Hc), (bind_ok _ _ _ _ _ Ht).
    unfold Unsecure.region_write, region_write, with_array. rewrite (bind_ok _ _ _ _ _ (Hloop write_offsets write_inside)). reflexivity.
  - unfold Unprotected.main, Unprotected.load_and_initialize_enclave. rewrite Hload, !bool_decide_true by done.
    cbn [negb]. rewrite (bind_ok _ _ _ _ _ Hc), (bind_ok _ _ _ _ _ Ht). unfold Unprotected.region_read, region_read, with_array.
    rewrite (bind_ok _ _ _ _ _ (Hloop read_offsets read_inside)). reflexivity.
  - unfold InEnclave.main, InEnclave.load_and_initialize_enclave, InEnclave.ecall. rewrite Hload, !bool_decide_true by done.
    cbn [negb]. rewrite (bind_ok _ _ _ _ _ Hc), (bind_ok _ _ _ _ _ Ht). reflexivity.
  - split; [exact Ho|]. split; exact Ho.
Qed.

Lemma region_copies_in_bounds_witness :
  ∃ s', Unsecure.region_write 16 (mkRegion true [] []) = Ok (tt, s') ∧ length (accesses s') = 4080%nat ∧
    InEnclave.region_write 16 (mkRegion true [] []) = Fault Out_of_bounds.
Proof.
  destruct (region_copies_in_bounds 16 (mkRegion true [] []) eq_refl ltac:(lia)) as (_ & Hw & He & _).
  eexists. split; [exact Hw|]. split; [by vm_compute|exact He].
Defined.
